(* ===== verification/_CoqProject ===== *)
-Q . S2P
Prelude.v
Weights.v
Runtime.v
ChainSpec.v
Index.v
Critbit.v
CritbitShape.v
CritbitOps.v
CritbitInsert.v
CritbitRemove.v
OrderId.v
BTreeMap.v
Tick.v
OrderBook.v
Backing.v
Errors.v
Amm.v
Locator.v
Assets.v
Config.v
Pool.v
Pallet.v
PalletFacts.v
Matching.v
SearchFacts.v
MatchFacts.v
Liquidity.v
LiquidityFacts.v
OrderFacts.v
Devnet.v
Mock.v
Benchmarks.v
Findings.v
Frames.v
Dispatch.v
BackingFacts.v
OrderDefects.v
Backed.v
Supply.v
SupplyFacts.v
PoolValue.v
PoolTrades.v
PoolHistory.v
RuntimeCalls.v
GenesisFacts.v
ChainSample.v
GenesisSample.v
Ops.v
OpsFacts.v
OpsErrors.v
OpsSample.v
Preconf.v
PreconfLoop.v
PreconfFacts.v
PreconfRuns.v
PreconfFair.v
PreconfRate.v
PreconfSample.v
Service.v
Commands.v
BookProps.v
SwapProps.v
SupplyProps.v
BackingProps.v
ValueProps.v
MatchProps.v
FindingProps.v
OpsProps.v
PreconfProps.v
RuntimeProps.v
