(* ===== verification/Prelude.v ===== *)
(** * Verification of the WarpX hybrid order book

    WarpX is a parachain whose runtime contains a decentralised exchange, the
    pallet under [src/pallets/hybrid-orderbook].  Every trading pair has a
    liquidity pool with a constant-product price and an order book on each
    side; orders are matched against whichever of the two is better.  Blocks
    are proposed by the client under [src/client/authorship], which announces
    transactions to subscribers while the block is still being built.  This
    library is a shallow embedding of both, of the weights and constants of
    the runtime, of the built-in chain specifications and of the start of a
    node, with the theorems that make them correct.

    ** The program and the files that model it

    - [critbit.rs], a crit-bit tree whose nodes are entries of two maps and
      refer to each other by index: [Index] (the index type and [new_mask]),
      [Critbit] (nodes, tree and every operation), [CritbitShape] (the shape
      of a well-formed tree and the map it stands for), [CritbitOps] (search,
      extremes, neighbours), [CritbitInsert], [CritbitRemove].
    - [types.rs]: [OrderId] (ids with the side in the top bit), [BTreeMap] (an
      ordered map as a sorted list), [Tick] (orders of one price, with the
      class [OrderInterface] and its laws), [OrderBook] (the trait, its
      implementation by the crit-bit tree, its laws, and whole histories),
      [Locator] (pool ids and accounts), [Pool] (the pool record).
    - [lib.rs] and [swap.rs]: [Errors], [Amm] (pricing), [Assets] (what the
      pallet relies on from the asset registries), [Config] (the trait),
      [Pallet] (storage, events, swaps, quotes), [Matching] (market, limit and
      cancel calls, the matching loop, the binary search, settlement),
      [Liquidity] (pool creation, deposits, withdrawals, touch), [Dispatch]
      (the transition system of all calls).
    - [PalletFacts], [SearchFacts], [MatchFacts], [LiquidityFacts],
      [OrderFacts], [Findings] prove the facts on these; [Devnet] is a
      concrete runtime with a small ledger on which the theorems are run, and
      [ChainSample] a history on it.
    - The supply of assets over histories: [Supply] (sums of finite support,
      the class [LedgerConserves] of what the asset pallets promise, and a
      calculus of what a run gives out at most), [SupplyFacts] (its
      application to every function of the pallet).
    - The freezes of open orders over histories: [Backing] (sums over maps,
      the class [LevelOwed] of what a price level owes, and the orders of a
      book), [Frames] (a calculus of what a run preserves, with the tactic
      [keeps]), [BackingFacts] (the class [KeepsFreezes]; the orders of a book
      under matching, placing and cancelling), [Backed] (the invariant).
    - The worth of a share over histories: [PoolValue] (the class
      [LedgerSteady]; runs after which the reserves have risen), [PoolTrades]
      (swaps and matching), [PoolHistory] (deposits, withdrawals and calls on
      other pools; the invariant).
    - [OrderDefects]: bids whose value overflows, orders that make a book
      cross, and market orders that abort in the search.
    - [mock.rs]: [Mock], the test runtime.  The helpers of [benchmarking.rs]:
      [Benchmarks].
    - [weights.rs] of both pallets and [runtime/src/weights]: [Weights], with
      the classes [WeightLib] and [WeightLaws].  [runtime/src/lib.rs] and
      [runtime/src/configs]: [Runtime] (constants, block limits, fees, a
      filter of locations).  [RuntimeCalls] has the weights of the calls, the
      runtime api ([apis.rs]) and the facts on weights and fees.
    - [chain_spec.rs] of [client/service], [load_spec] of [client/cli]:
      [ChainSpec], with [GenesisFacts] (what the genesis patch guarantees) and
      [GenesisSample] (a chain that starts with it).
    - [lib.rs] of [client/service]: [Service], the start-up sequence of a node.
      [command.rs] and [lib.rs] of [client/cli]: [Commands], what the command
      line runs, ending in [Service.start_parachain_node].
    - [ops/src/lib.rs], the migration of pools to new accounts: [Ops] (the
      call and the laws of the registries it uses), [OpsFacts], [OpsErrors]
      (which check refuses a migration), [OpsSample] (a chain that satisfies
      the laws).
    - [preconf.rs] of [client/authorship] and [client/primitives]: [Preconf]
      (data, pushing of extrinsics and inherents, sub-blocks, messages,
      subscribers, the factory), [PreconfLoop] (the tasks of [propose_with] as
      a transition system, [propose] and the factory's entry point),
      [PreconfFacts] (laws of block builder, pool iterator and clock; the
      sequential code), [PreconfRuns] (the invariant of runs, their end),
      [PreconfFair] (infinite runs under fair scheduling), [PreconfRate] (how
      often a run can announce), [PreconfSample] (a node that satisfies the
      laws, a complete and an infinite run).
    - [BookProps], [SwapProps], [SupplyProps], [BackingProps], [ValueProps],
      [MatchProps], [FindingProps], [OpsProps], [PreconfProps], [RuntimeProps]
      hold the main theorems, with their instances on concrete data.

    ** How code is modelled

    Integers are [Z] with their width written out.  [outcome] is the result of
    Rust code: [Ok], [Err], [Panic] (overflow in a build with checks, division
    by zero, [expect]) or [OutOfFuel].  [BuildProfile] says whether arithmetic
    operators check for overflow or wrap, and theorems hold for both unless
    they say otherwise.  [M] passes a [&mut] receiver along and keeps its
    partial updates on an error; [with_storage_layer] discards them where the
    runtime does.  Loops are fixpoints on fuel: [loop_fuel] is one more than
    the bits of a key, which bounds the depth of a crit-bit tree; the binary
    search gets one more than the bits of a quantity; the matching loop two
    more than the levels of the opposite book; the loop over ready
    transactions one more than the iterator can return.  The theorems on these
    loops prove that the fuel is not used up.

    The proposer's concurrent tasks are step functions interleaved by an
    inductive relation whose transitions are labelled with the payloads sent.
    Time is a counter of clock readings and a clock that maps them to
    nanoseconds, so that all deadlines are decided by explicit readings.

    The asset pallets, the freezer, hashing of pool ids, the integer square
    root and [Permill] are library code: they are fields of type classes.
    [FungiblesLaws], [PoolFungiblesLaws] and [FungiblesReturn] state the
    documented behaviour that a theorem needs, and [Assets.Bank] satisfies
    them, as it does [LedgerConserves], [KeepsFreezes] and [LedgerSteady].  The order book of a pool is any implementation that satisfies
    [OrderBookLaws]; the crit-bit tree of ticks is shown to do so.  The block
    builder, the pool's iterator, percentages, hashing, JSON, web sockets and
    clocks of the node are fields of [Preconf.Node], [BlockBuilder] and [Json],
    with [BuilderLaws], [ReadyLaws] and [ClockLaws]; the storage and registries
    of the migration are fields of [Ops.Config] with [Ops.Laws] and
    [OpsErrors.RegistryErrors]; the weights of the library's checks of a
    transaction are [RuntimeCalls.ExtensionLib].  [Weight],
    [Perbill] and the evaluation of a fee polynomial are [WeightLib] and
    [FeeLib] with their laws, satisfied by [Weights.U64]; key derivation, the
    compiled runtime and spec files are [SpecLib] and [SpecFiles].  A library
    call of the start-up that can fail is a [Service.Call], and a function
    says which of them fail; parsing, configurations and the subcommands are
    [CommandLib].

    ** What the theorems show

    - The crit-bit tree refines a map from prices to levels, for single
      operations and for every history within its capacity, with all answers
      and errors; search, extremes and neighbours are right and terminate.
    - A level serves orders first come, first served and conserves quantity;
      ids of the two sides never meet.
    - Swaps, deposits and withdrawals move exactly the computed amounts;
      prices are those of the constant-product formula rounded in favour of
      the pool, whose product of reserves does not shrink; shares are neither
      diluted nor profitable to redeem at once.
    - Matching terminates where the step of the search cannot wrap, trades the
      whole order, and fills the book from its best price on; placing freezes
      exactly what settlement of a bid releases.
    - Every pool of every reachable state is well-formed.
    - No history makes a balance negative or increases the supply of an asset;
      a swap of a credit gives out at most what it takes in, and what a failed
      one hands back.
    - In every history of a runtime that checks arithmetic and trades each
      pool in one direction, the freezes of an account cover all its open
      orders; without the checks a bid can freeze nothing.
    - Whatever calls others make, the reserves behind a share of a pool never
      shrink: their product divided by the square of the shares does not fall.
    - Placing an order and cancelling it restores the book; the queries on the
      book are those of the map of levels.
    - The migration of a pool moves every balance in full and returns every
      deposit, or changes nothing and names the check that failed first.
    - A finished proposal's block consists of inherents and exactly what was
      announced, in order, each transaction once; announcements are numbered
      upwards and no more frequent than the interval; a sub-block ends for the
      reason it gives; under fair scheduling a proposal whose canceller is in
      time ends.
    - As many of the pallet's calls fit in a block as the weights of extrinsics
      and their extensions allow; the fee of a weight and the answers of the
      runtime api are exact.
    - The built-in chain specifications are consistent, and what their genesis
      issues bounds every balance for ever after; a node starts its consensus
      tasks last, exactly as a collator on which nothing failed, and the command
      line starts it for the parachain of its specification or not at all.
    - [PreconfProps] also states two defects of the proposer: one that starts
      late never ends, and a transaction taken after a sub-block's deadline is
      lost.
    - [FindingProps] states where the code departs from its intent: the search
      that can run forever, the buyer who pays no price, the freeze that
      outlives its order, the path that stops after one hop, the credit swap
      on the wrong pool, the bid whose value wraps, the book that crosses, the
      small market order that aborts; the order filled exactly that stays is in
      [BookProps].

    ** What is not modelled

    The benchmarks, which are written for an earlier version of the pallet
    and do not build against this one (their helpers that do are modelled),
    the unit tests (they run on the asset pallets and the assertions of the
    library), logging and metrics, codecs, the parsing of command lines, the
    RPC modules (two of the library), what the services of a node do once
    started apart from the proposer, and the runtime's assembly and cross-chain configuration apart
    from the order book's api and one filter.  What the library makes of the
    settings of a block's weights is not code of this repository.  The
    delivery of messages over a web socket is the library's: the model knows
    only whether an immediate send succeeded.  Fairness of the scheduler is a
    hypothesis of the theorem on the end of a proposal; without it the loop
    need not end.

    ** This file

    Outcomes and the state monad, machine integers, inversion tactics
    ([inv_run], [run_step]), lemmas on sorted lists and options, and the hint
    database [nofuel] for runs that do not exhaust fuel, and traces of actions
    with the database [appending]. *)
From stdpp Require Export base tactics list gmap sorting.
From Stdlib Require Export ZArith Lia.
From Stdlib Require Import Bool.

#[export] Set Default Goal Selector "!".
Global Open Scope Z_scope.

(** ** Outcomes of Rust code

    [Ok] and [Err] are the constructors of [Result]; [Panic] is an aborted
    execution (an overflow in a build with overflow checks, a division by
    zero, an [expect] on [None]); [OutOfFuel] marks a [while] loop that was
    still running when the fuel of its model ran out. *)
Inductive outcome (E A : Type) : Type :=
| Ok (a : A)
| Err (e : E)
| Panic
| OutOfFuel.
Arguments Ok {E A} a.
Arguments Err {E A} e.
Arguments Panic {E A}.
Arguments OutOfFuel {E A}.

#[export] Instance outcome_ret E : MRet (outcome E) := λ A a, Ok a.
#[export] Instance outcome_bind E : MBind (outcome E) := λ A B f m,
  match m with Ok a => f a | Err e => Err e | Panic => Panic | OutOfFuel => OutOfFuel end.
#[export] Instance outcome_fmap E : FMap (outcome E) := λ A B f m,
  match m with Ok a => Ok (f a) | Err e => Err e | Panic => Panic | OutOfFuel => OutOfFuel end.

#[export] Instance outcome_eq_dec `{EqDecision E, EqDecision A} : EqDecision (outcome E A).
Proof. solve_decision. Defined.

(** [Option::ok_or] and [Result::map_err]. *)
Definition ok_or {E A} (o : option A) (e : E) : outcome E A :=
  match o with Some a => Ok a | None => Err e end.

Definition map_err {E E' A} (f : E → E') (m : outcome E A) : outcome E' A :=
  match m with Ok a => Ok a | Err e => Err (f e) | Panic => Panic | OutOfFuel => OutOfFuel end.

(** [ensure!(b, e)]. *)
Definition ensure {E} (b : bool) (e : E) : outcome E () :=
  if b then Ok () else Err e.

(** ** State passing

    A method with a [&mut self] receiver over the state [S].  The state is
    returned on the error path as well, because Rust leaves the partially
    updated receiver behind when a method returns [Err]. *)
Definition M (S E A : Type) : Type := S → outcome E A * S.

#[export] Instance M_ret S E : MRet (M S E) := λ A a s, (Ok a, s).
#[export] Instance M_bind S E : MBind (M S E) := λ A B f m s,
  match m s with
  | (Ok a, s') => f a s'
  | (Err e, s') => (Err e, s')
  | (Panic, s') => (Panic, s')
  | (OutOfFuel, s') => (OutOfFuel, s')
  end.

Definition get {S E} : M S E S := λ s, (Ok s, s).
Definition put {S E} (s' : S) : M S E () := λ _, (Ok (), s').
Definition modify {S E} (f : S → S) : M S E () := λ s, (Ok (), f s).
Definition lift {S E A} (m : outcome E A) : M S E A := λ s, (m, s).
Definition throw {S E A} (e : E) : M S E A := λ s, (Err e, s).

(** A read-only method ([&self]) called from a mutating one. *)
Definition gets {S E A} (f : S → outcome E A) : M S E A := λ s, (f s, s).

(** A method call on the field of a struct. *)
Definition zoom {S S' E A} (view : S → S') (update : S' → S → S) (m : M S' E A) : M S E A :=
  λ s, let '(r, s') := m (view s) in (r, update s' s).

Definition map_err_M {S E E' A} (f : E → E') (m : M S E A) : M S E' A :=
  λ s, let '(r, s') := m s in (map_err f r, s').

Section Outcome.
Context {E A B : Type}.
Implicit Types (m : outcome E A) (f : A → outcome E B).

Lemma bind_Ok_inv m f b :
  m ≫= f = Ok b → ∃ a, m = Ok a ∧ f a = Ok b.
Proof. destruct m; naive_solver. Qed.

Lemma ensure_Ok_inv b (e : E) u : ensure b e = Ok u → b = true.
Proof. by destruct b. Qed.

Lemma ok_or_Ok_inv (o : option A) (e : E) a : ok_or o e = Ok a → o = Some a.
Proof. destruct o; naive_solver. Qed.

Lemma map_err_Ok_inv {E'} (g : E → E') m a : map_err g m = Ok a → m = Ok a.
Proof. destruct m; naive_solver. Qed.
End Outcome.

Section StateMonad.
Context {S E A B : Type}.
Implicit Types (m : M S E A) (f : A → M S E B) (s : S).

Lemma M_bind_run m f s :
  (m ≫= f) s =
  match m s with
  | (Ok a, s') => f a s'
  | (Err e, s') => (Err e, s')
  | (Panic, s') => (Panic, s')
  | (OutOfFuel, s') => (OutOfFuel, s')
  end.
Proof. done. Qed.

Lemma M_bind_Ok m f s a s' : m s = (Ok a, s') → (m ≫= f) s = f a s'.
Proof. unfold mbind, M_bind. by intros ->. Qed.

Lemma M_bind_Err m f s e s' : m s = (Err e, s') → (m ≫= f) s = (Err e, s').
Proof. unfold mbind, M_bind. by intros ->. Qed.

Lemma M_bind_inv m f s b s'' :
  (m ≫= f) s = (Ok b, s'') → ∃ a s', m s = (Ok a, s') ∧ f a s' = (Ok b, s'').
Proof. unfold mbind, M_bind. destruct (m s) as [[] ]; naive_solver. Qed.

(** The final state of a run that is known to succeed. *)
Lemma run_result m s a : (m s).1 = Ok a → m s = (Ok a, (m s).2).
Proof. destruct (m s). by intros [= ->]. Qed.
End StateMonad.

(** Case analysis on a successful run: strips the binds of a hypothesis
    [m = Ok _] or [m s = (Ok _, _)], naming nothing. *)
Ltac inv_run :=
  repeat match goal with
  | H : (_ ≫= _) = Ok _ |- _ => apply bind_Ok_inv in H as (? & ? & H)
  | H : (_ ≫= _) _ = (Ok _, _) |- _ => apply M_bind_inv in H as (? & ? & ? & H)
  | H : ensure _ _ = Ok _ |- _ => apply ensure_Ok_inv in H
  | H : ok_or _ _ = Ok _ |- _ => apply ok_or_Ok_inv in H
  | H : map_err _ _ = Ok _ |- _ => apply map_err_Ok_inv in H
  | H : lift _ _ = (_, _) |- _ => unfold lift in H
  | H : gets _ _ = (_, _) |- _ => unfold gets in H
  | H : get _ = (_, _) |- _ => unfold get in H
  | H : put _ _ = (_, _) |- _ => unfold put in H
  | H : modify _ _ = (_, _) |- _ => unfold modify in H
  | H : throw _ _ = (Ok _, _) |- _ => discriminate H
  | H : mret _ = Ok _ |- _ => unfold mret, outcome_ret in H
  | H : mret _ _ = (Ok _, _) |- _ => unfold mret, M_ret in H
  | H : (_, _) = (_, _) |- _ => injection H as; subst
  | H : Ok _ = Ok _ |- _ => injection H as; subst
  end.

(** Symbolic execution: reduces the monads and nothing else. *)
Ltac run_step :=
  rewrite ?M_bind_run;
  cbn [mbind mret outcome_bind outcome_ret M_bind M_ret ok_or ensure map_err
       lift gets get put modify throw map_err_M zoom].

(** ** Machine integers

    A [w]-bit unsigned integer is a [Z] in [[0, 2^w)].  The operators [+],
    [-] and [*] abort on overflow in a build with overflow checks and wrap
    around in a build without them; the workspace sets no profile of its
    own, so both behaviours occur (debug and release). *)
Class BuildProfile := { overflow_checks : bool }.

Definition in_range (w x : Z) : Prop := 0 ≤ x < 2 ^ w.
Definition in_rangeb (w x : Z) : bool := (0 <=? x) && (x <? 2 ^ w).

Definition overflowing `{BuildProfile} {E} (w r : Z) : outcome E Z :=
  if in_rangeb w r then Ok r
  else if overflow_checks then Panic else Ok (r mod 2 ^ w).

Definition u_add `{BuildProfile} {E} (w a b : Z) : outcome E Z := overflowing w (a + b).
Definition u_sub `{BuildProfile} {E} (w a b : Z) : outcome E Z := overflowing w (a - b).
Definition u_mul `{BuildProfile} {E} (w a b : Z) : outcome E Z := overflowing w (a * b).

(** [1 << s]: a shift by at least the width is an overflow; without checks
    the shift amount is reduced modulo the width. *)
Definition u_shl1 `{BuildProfile} {E} (w s : Z) : outcome E Z :=
  if s <? w then Ok (Z.shiftl 1 s)
  else if overflow_checks then Panic else Ok (Z.shiftl 1 (s mod w)).

(** [/] and [%] abort on a zero divisor in every build. *)
Definition u_div {E} (a b : Z) : outcome E Z := if b =? 0 then Panic else Ok (a / b).
Definition u_rem {E} (a b : Z) : outcome E Z := if b =? 0 then Panic else Ok (a mod b).

Definition checked (w r : Z) : option Z := if in_rangeb w r then Some r else None.
Definition checked_add (w a b : Z) : option Z := checked w (a + b).
Definition checked_sub (w a b : Z) : option Z := checked w (a - b).
Definition checked_mul (w a b : Z) : option Z := checked w (a * b).
Definition checked_div (a b : Z) : option Z := if b =? 0 then None else Some (a / b).

Definition saturating_add (w a b : Z) : Z := Z.min (a + b) (2 ^ w - 1).
Definition saturating_sub (a b : Z) : Z := Z.max (a - b) 0.

(** [TryInto]: conversion to a [w]-bit integer. *)
Definition try_into (w a : Z) : option Z := checked w a.

Section MachineIntegers.
Context `{BuildProfile} {E : Type}.

Lemma in_rangeb_spec w x : in_rangeb w x = true ↔ in_range w x.
Proof. unfold in_rangeb, in_range. rewrite andb_true_iff, Z.leb_le, Z.ltb_lt. done. Qed.

Lemma overflowing_ok w r : in_range w r → overflowing (E:=E) w r = Ok r.
Proof. intros Hr%in_rangeb_spec. unfold overflowing. by rewrite Hr. Qed.

Lemma u_add_ok w a b : in_range w (a + b) → u_add (E:=E) w a b = Ok (a + b).
Proof. apply overflowing_ok. Qed.
Lemma u_sub_ok w a b : in_range w (a - b) → u_sub (E:=E) w a b = Ok (a - b).
Proof. apply overflowing_ok. Qed.
Lemma u_mul_ok w a b : in_range w (a * b) → u_mul (E:=E) w a b = Ok (a * b).
Proof. apply overflowing_ok. Qed.

Lemma overflowing_range w r x : 0 < w → overflowing (E:=E) w r = Ok x → in_range w x.
Proof.
  unfold overflowing. intros Hw Hx.
  destruct (in_rangeb w r) eqn:Hr.
  - injection Hx as <-. by apply in_rangeb_spec.
  - destruct overflow_checks; [done|]. injection Hx as <-.
    apply Z.mod_pos_bound. by apply Z.pow_pos_nonneg; lia.
Qed.

Lemma overflowing_cases w r :
  (∃ x, overflowing (E:=E) w r = Ok x) ∨ overflowing (E:=E) w r = Panic ∧ ¬ in_range w r.
Proof.
  unfold overflowing. rewrite <-in_rangeb_spec.
  destruct (in_rangeb w r), overflow_checks; eauto.
Qed.

Lemma checked_Some w r x : checked w r = Some x ↔ x = r ∧ in_range w r.
Proof.
  unfold checked. destruct (in_rangeb w r) eqn:Hr.
  - apply in_rangeb_spec in Hr. naive_solver.
  - split; [done|]. intros [_ Hr']. apply in_rangeb_spec in Hr'. congruence.
Qed.

Lemma checked_ok w r : in_range w r → checked w r = Some r.
Proof. intros. by apply checked_Some. Qed.

Lemma checked_None w r : checked w r = None ↔ ¬ in_range w r.
Proof.
  unfold checked. rewrite <-in_rangeb_spec.
  destruct (in_rangeb w r); naive_solver.
Qed.

Lemma checked_div_Some a b x : checked_div a b = Some x ↔ b ≠ 0 ∧ x = a / b.
Proof. unfold checked_div. destruct (Z.eqb_spec b 0); naive_solver. Qed.
End MachineIntegers.

(** ** Sorted lists *)
Section SortedLists.
Implicit Types (l : list Z) (x k : Z).

Lemma sorted_middle l1 l2 k :
  StronglySorted Z.lt (l1 ++ k :: l2) →
  (∀ x, x ∈ l1 → x < k) ∧ (∀ x, x ∈ l2 → k < x) ∧ StronglySorted Z.lt l1 ∧ StronglySorted Z.lt l2.
Proof.
  rewrite StronglySorted_app. intros (Hlt & Hs1 & Hs2).
  apply StronglySorted_inv in Hs2 as [Hs2 Hk]. rewrite Forall_forall in Hk.
  split_and!; auto. intros x Hx. apply Hlt; [done|]. by left.
Qed.

Lemma sorted_head_least l k :
  StronglySorted Z.lt l → head l = Some k → ∀ x, x ∈ l → k ≤ x.
Proof.
  destruct l as [|y l]; [done|]. intros [_ Hy]%StronglySorted_inv [= ->] x Hx.
  rewrite Forall_forall in Hy. apply elem_of_cons in Hx as [->|Hx]; [lia|].
  specialize (Hy x Hx). lia.
Qed.

Lemma sorted_last_greatest l k :
  StronglySorted Z.lt l → last l = Some k → ∀ x, x ∈ l → x ≤ k.
Proof.
  intros Hs Hl. apply last_Some in Hl as [l' ->].
  apply StronglySorted_app in Hs as (Hlt & _). intros x [Hx| ->%list_elem_of_singleton]%elem_of_app; [|lia].
  assert (x < k); [|lia]. apply Hlt; [done|set_solver].
Qed.
End SortedLists.

(** ** Finite maps *)
Lemma alter_lookup_Some {A} (f : A → A) (m : gmap Z A) i x :
  m !! i = Some x → alter f i m = <[i := f x]> m.
Proof.
  intros Hi. apply map_eq. intros j. rewrite lookup_alter, lookup_insert.
  case_decide; [|done]. subst. by rewrite Hi.
Qed.

(** ** Computations without loops

    [no_fuel m]: the outcome is not the artefact of an exhausted fuel.  The
    hint database [nofuel] proves it for code that has no loop. *)
Definition no_fuel {E A} (m : outcome E A) : Prop := m ≠ OutOfFuel.

Create HintDb nofuel.

Section NoFuel.
Context {E A B : Type}.

Lemma no_fuel_bind (m : outcome E A) (f : A → outcome E B) :
  no_fuel m → (∀ a, no_fuel (f a)) → no_fuel (m ≫= f).
Proof. unfold no_fuel. destruct m; simpl; auto. Qed.

Lemma no_fuel_ok (a : A) : no_fuel (E:=E) (Ok a).
Proof. done. Qed.
Lemma no_fuel_err (e : E) : no_fuel (A:=A) (Err e).
Proof. done. Qed.
Lemma no_fuel_panic : no_fuel (E:=E) (A:=A) Panic.
Proof. done. Qed.
Lemma no_fuel_ret (a : A) : no_fuel (E:=E) (mret a).
Proof. done. Qed.
Lemma no_fuel_ok_or (o : option A) (e : E) : no_fuel (ok_or o e).
Proof. by destruct o. Qed.
Lemma no_fuel_ensure b (e : E) : no_fuel (ensure b e).
Proof. by destruct b. Qed.
Lemma no_fuel_map_err {E'} (f : E → E') (m : outcome E A) : no_fuel m → no_fuel (map_err f m).
Proof. by destruct m. Qed.
Lemma no_fuel_if (b : bool) (m1 m2 : outcome E A) :
  no_fuel m1 → no_fuel m2 → no_fuel (if b then m1 else m2).
Proof. by destruct b. Qed.
Lemma no_fuel_overflowing `{BuildProfile} w r : no_fuel (E:=E) (overflowing w r).
Proof. unfold overflowing. by destruct (in_rangeb w r), overflow_checks. Qed.
Lemma no_fuel_add `{BuildProfile} w a b : no_fuel (E:=E) (u_add w a b).
Proof. apply no_fuel_overflowing. Qed.
Lemma no_fuel_sub `{BuildProfile} w a b : no_fuel (E:=E) (u_sub w a b).
Proof. apply no_fuel_overflowing. Qed.
Lemma no_fuel_mul `{BuildProfile} w a b : no_fuel (E:=E) (u_mul w a b).
Proof. apply no_fuel_overflowing. Qed.
Lemma no_fuel_div a b : no_fuel (E:=E) (u_div a b).
Proof. unfold u_div. by destruct (b =? 0). Qed.
Lemma no_fuel_rem a b : no_fuel (E:=E) (u_rem a b).
Proof. unfold u_rem. by destruct (b =? 0). Qed.
End NoFuel.

#[export] Hint Resolve no_fuel_bind no_fuel_ok no_fuel_err no_fuel_panic no_fuel_ret no_fuel_ok_or
  no_fuel_ensure no_fuel_map_err no_fuel_if no_fuel_overflowing no_fuel_add
  no_fuel_sub no_fuel_mul no_fuel_div no_fuel_rem : nofuel.

(** The same for state transformers. *)
Definition returns {S E A} (m : M S E A) : Prop := ∀ s, no_fuel (m s).1.

Section Returns.
Context {S E A B : Type}.

Lemma returns_bind (m : M S E A) (f : A → M S E B) :
  returns m → (∀ a, returns (f a)) → returns (m ≫= f).
Proof.
  intros Hm Hf s. rewrite M_bind_run. specialize (Hm s).
  destruct (m s) as [[a|e| |] s']; [apply Hf|discriminate|discriminate|done].
Qed.

Lemma returns_ret (a : A) : returns (S:=S) (E:=E) (mret a).
Proof. intros s0. discriminate. Qed.
Lemma returns_lift (m : outcome E A) : no_fuel m → returns (S:=S) (lift m).
Proof. intros Hm s. apply Hm. Qed.
Lemma returns_gets (f : S → outcome E A) : (∀ s, no_fuel (f s)) → returns (gets f).
Proof. intros Hf s. apply Hf. Qed.
Lemma returns_throw (e : E) : returns (S:=S) (A:=A) (throw e).
Proof. intros s0. discriminate. Qed.
Lemma returns_get : returns (E:=E) (get (S:=S)).
Proof. intros s0. discriminate. Qed.
Lemma returns_put (s : S) : returns (E:=E) (put s).
Proof. intros s0. discriminate. Qed.
Lemma returns_modify (f : S → S) : returns (E:=E) (modify f).
Proof. intros s0. discriminate. Qed.
Lemma returns_if (b : bool) (m1 m2 : M S E A) : returns m1 → returns m2 → returns (if b then m1 else m2).
Proof. by destruct b. Qed.
Lemma returns_map_err {E'} (f : E → E') (m : M S E A) : returns m → returns (map_err_M f m).
Proof.
  intros Hm s. specialize (Hm s). unfold map_err_M. destruct (m s) as [r s']. by destruct r.
Qed.
Lemma returns_zoom {S'} (view : S' → S) upd (m : M S E A) : returns m → returns (zoom view upd m).
Proof. intros Hm s. specialize (Hm (view s)). unfold zoom. by destruct (m (view s)). Qed.
End Returns.

#[export] Hint Resolve returns_bind returns_ret returns_lift returns_gets returns_throw returns_get
  returns_put returns_modify returns_if returns_map_err returns_zoom : nofuel.

(** ** Traces

    Code whose state is the list of what it did: [appends P m] says that a run
    of [m], whatever its result, appends elements that satisfy [P]. *)
Create HintDb appending.

Section Appends.
Context {X E : Type} (P : X → Prop).
Implicit Types (A B : Type) (l k : list X).

Definition appends {A} (m : M (list X) E A) : Prop :=
  ∀ l r l', m l = (r, l') → ∃ k, l' = l ++ k ∧ Forall P k.

Lemma appends_pure {A} (m : M (list X) E A) : (∀ l, (m l).2 = l) → appends m.
Proof.
  intros Hm l r l' Hrun. exists []. specialize (Hm l). rewrite Hrun in Hm. simpl in Hm. subst.
  split; [by rewrite app_nil_r|constructor].
Qed.
Lemma appends_ret {A} (a : A) : appends (mret a).
Proof. by apply appends_pure. Qed.
Lemma appends_throw {A} (e : E) : appends (A:=A) (throw e).
Proof. by apply appends_pure. Qed.
Lemma appends_lift {A} (o : outcome E A) : appends (lift o).
Proof. by apply appends_pure. Qed.
Lemma appends_one x : P x → appends (modify (λ l, l ++ [x])).
Proof. intros Hx l r l' [= _ <-]. exists [x]. split; [done|by repeat constructor]. Qed.
Lemma appends_if {A} (b : bool) (m1 m2 : M (list X) E A) : appends m1 → appends m2 → appends (if b then m1 else m2).
Proof. by destruct b. Qed.
Lemma appends_bind {A B} (m : M (list X) E A) (f : A → M (list X) E B) :
  appends m → (∀ a, appends (f a)) → appends (m ≫= f).
Proof.
  intros Hm Hf l r l' Hrun. rewrite M_bind_run in Hrun.
  destruct (m l) as [[a|e| |] l1] eqn:H1; destruct (Hm _ _ _ H1) as (k1 & -> & Hk1);
    [|by injection Hrun as _ <-; exists k1..].
  destruct (Hf a _ _ _ Hrun) as (k2 & -> & Hk2). exists (k1 ++ k2).
  split; [by rewrite app_assoc|by apply Forall_app].
Qed.
End Appends.

#[export] Hint Resolve appends_ret appends_throw appends_lift appends_one appends_if appends_bind : appending.
