(* ===== verification/Weights.v ===== *)
(** * Weights

    The weight functions of the two pallets ([weights.rs] of each) and of the
    runtime ([runtime/src/weights]).  [Weight] with its saturating arithmetic,
    and [Perbill], are library code: a class of the operations in use, with
    their documented behaviour as [WeightLaws]; [U64] is an instance. *)
From S2P Require Import Prelude.

Definition max_u64 : Z := 2 ^ 64 - 1.
Definition saturating_mul (a b : Z) : Z := Z.min (a * b) max_u64.

(** [RuntimeDbWeight]: the cost of a read and of a write. *)
Record RuntimeDbWeight := mkDbWeight { read : Z; write : Z }.

Class WeightLib := {
  Weight : Type;
  from_parts : Z → Z → Weight;
  ref_time : Weight → Z;
  proof_size : Weight → Z;
  weight_add : Weight → Weight → Weight;     (* saturating_add *)
  weight_mul : Weight → Z → Weight;          (* saturating_mul *)
  weight_sub : Weight → Weight → Weight;     (* [-] *)
  reads : RuntimeDbWeight → Z → Weight;
  writes : RuntimeDbWeight → Z → Weight;
  WEIGHT_REF_TIME_PER_NANOS : Z;
  WEIGHT_REF_TIME_PER_SECOND : Z;
  MAX_POV_SIZE : Z;
  Perbill : Type;
  from_percent : Z → Perbill;
  from_rational : Z → Z → Perbill;
  perbill_mul : Perbill → Z → Z;
  perbill_weight : Perbill → Weight → Weight
}.

Declare Scope weight_scope.
Delimit Scope weight_scope with weight.
Notation "a + b" := (weight_add a b) : weight_scope.
Notation "a * n" := (weight_mul a n%Z) : weight_scope.
Notation "a - b" := (weight_sub a b) : weight_scope.
Bind Scope weight_scope with Weight.

(** The parts of a [Perbill] are billionths; products are rounded to the
    nearest integer.  A proof-of-validity may have five mebibytes at least. *)
Class WeightLaws `{WeightLib} := {
  parts : Perbill → Z;
  ref_time_parts a b : in_range 64 a → in_range 64 b → ref_time (from_parts a b) = a;
  proof_size_parts a b : in_range 64 a → in_range 64 b → proof_size (from_parts a b) = b;
  ref_time_range w : in_range 64 (ref_time w);
  proof_size_range w : in_range 64 (proof_size w);
  ref_time_add v w : ref_time (v + w)%weight = Z.min (ref_time v + ref_time w) max_u64;
  proof_size_add v w : proof_size (v + w)%weight = Z.min (proof_size v + proof_size w) max_u64;
  ref_time_mul w n : 0 ≤ n → ref_time (w * n)%weight = Z.min (ref_time w * n) max_u64;
  proof_size_mul w n : 0 ≤ n → proof_size (w * n)%weight = Z.min (proof_size w * n) max_u64;
  ref_time_sub v w : ref_time w ≤ ref_time v → ref_time (v - w)%weight = ref_time v - ref_time w;
  proof_size_sub v w : proof_size w ≤ proof_size v → proof_size (v - w)%weight = proof_size v - proof_size w;
  reads_law db n : reads db n = from_parts (saturating_mul (read db) n) 0;
  writes_law db n : writes db n = from_parts (saturating_mul (write db) n) 0;
  nanos_law : WEIGHT_REF_TIME_PER_NANOS = 1000;
  second_law : WEIGHT_REF_TIME_PER_SECOND = 10 ^ 12;
  pov_law : 5 * 2 ^ 20 ≤ MAX_POV_SIZE < 2 ^ 32;
  parts_percent n : 0 ≤ n ≤ 100 → parts (from_percent n) = n * 10 ^ 7;
  parts_rational p q : 0 ≤ p ≤ q → 0 < q → (q | p * 10 ^ 9) → parts (from_rational p q) = p * 10 ^ 9 / q;
  perbill_mul_law x v : 0 ≤ v → 0 ≤ parts x → -(10 ^ 9) ≤ 2 * (10 ^ 9 * perbill_mul x v - parts x * v) ≤ 10 ^ 9;
  ref_time_perbill x w : 0 ≤ parts x ≤ 10 ^ 9 → ref_time (perbill_weight x w) = perbill_mul x (ref_time w);
  proof_size_perbill x w : 0 ≤ parts x ≤ 10 ^ 9 → proof_size (perbill_weight x w) = perbill_mul x (proof_size w)
}.

(** ** The runtime's constants *)
Section Constants.
Context `{WeightLib}.

Definition BlockExecutionWeight : Weight := from_parts (saturating_mul WEIGHT_REF_TIME_PER_NANOS 5000000) 0.
Definition ExtrinsicBaseWeight : Weight := from_parts (saturating_mul WEIGHT_REF_TIME_PER_NANOS 125000) 0.
Definition RocksDbWeight : RuntimeDbWeight :=
  mkDbWeight (25000 * WEIGHT_REF_TIME_PER_NANOS) (100000 * WEIGHT_REF_TIME_PER_NANOS).
Definition ParityDbWeight : RuntimeDbWeight :=
  mkDbWeight (8000 * WEIGHT_REF_TIME_PER_NANOS) (50000 * WEIGHT_REF_TIME_PER_NANOS).
End Constants.

(** ** [WeightInfo] of the order book pallet *)
Module OrderBookWeights.
Section WithLib.
Context `{WeightLib}.
Local Open Scope weight_scope.

Record WeightInfo := mkWeightInfo {
  create_pool : Weight;
  add_liquidity : Weight;
  remove_liquidity : Weight;
  swap_exact_tokens_for_tokens : Z → Weight;
  swap_tokens_for_exact_tokens : Z → Weight;
  touch : Z → Weight
}.

(** [SubstrateWeight<T>], for the database weights of [T]. *)
Definition SubstrateWeight (db : RuntimeDbWeight) : WeightInfo := {|
  create_pool := from_parts 97241000 6360 + reads db 8 + writes db 5;
  add_liquidity := from_parts 153331000 11426 + reads db 11 + writes db 10;
  remove_liquidity := from_parts 134350000 11426 + reads db 9 + writes db 8;
  swap_exact_tokens_for_tokens n :=
    from_parts 81461000 990 + from_parts 11223703 0 * n
      + reads db (saturating_mul 3 n) + writes db (saturating_mul 3 n) + from_parts 0 5218 * n;
  swap_tokens_for_exact_tokens n :=
    from_parts 81025000 990 + from_parts 11040712 0 * n
      + reads db (saturating_mul 3 n) + writes db (saturating_mul 3 n) + from_parts 0 5218 * n;
  touch n :=
    from_parts 48502032 6360 + from_parts 19450978 0 * n + reads db 8 + writes db (saturating_mul 2 n)
|}.

(** The implementation for [()], with the database weights of the library. *)
Definition unit_weights (RocksDbWeight : RuntimeDbWeight) : WeightInfo := {|
  create_pool := from_parts 97241000 6360 + reads RocksDbWeight 8 + writes RocksDbWeight 5;
  add_liquidity := from_parts 153331000 11426 + reads RocksDbWeight 11 + writes RocksDbWeight 10;
  remove_liquidity := from_parts 134350000 11426 + reads RocksDbWeight 9 + writes RocksDbWeight 8;
  swap_exact_tokens_for_tokens n :=
    from_parts 81461000 990 + from_parts 11223703 0 * n + reads RocksDbWeight (saturating_mul 3 n)
      + writes RocksDbWeight (saturating_mul 3 n) + from_parts 0 5218 * n;
  swap_tokens_for_exact_tokens n :=
    from_parts 81025000 990 + from_parts 11040712 0 * n + reads RocksDbWeight (saturating_mul 3 n)
      + writes RocksDbWeight (saturating_mul 3 n) + from_parts 0 5218 * n;
  touch n :=
    from_parts 48502032 6360 + from_parts 19450978 0 * n + reads RocksDbWeight 8
      + writes RocksDbWeight (saturating_mul 2 n)
|}.
End WithLib.
End OrderBookWeights.

(** ** The other weight functions *)
Section Others.
Context `{WeightLib}.
Local Open Scope weight_scope.

(** [ops/src/weights.rs], for the runtime's weights and for [()]. *)
Definition migrate_to_new_account_weight (db : RuntimeDbWeight) : Weight :=
  from_parts 231676000 11426 + reads db 12 + writes db 11.

Definition storage_weight_reclaim : Weight := from_parts 4122000 0 + from_parts 0 0.
Definition charge_transaction_payment (db : RuntimeDbWeight) : Weight :=
  from_parts 44769000 0 + from_parts 0 6196 + reads db 2 + writes db 2.

(** [pallet_utility]. *)
Definition batch (c : Z) : Weight := from_parts 5743000 0 + from_parts 0 0 + from_parts 3621902 0 * c.
Definition as_derivative : Weight := from_parts 4707000 0 + from_parts 0 0.
Definition batch_all (c : Z) : Weight := from_parts 5555000 0 + from_parts 0 0 + from_parts 3847534 0 * c.
Definition dispatch_as : Weight := from_parts 7617000 0 + from_parts 0 0.
Definition force_batch (c : Z) : Weight := from_parts 5576000 0 + from_parts 0 0 + from_parts 3625441 0 * c.
Definition dispatch_as_fallible : Weight := from_parts 7583000 0 + from_parts 0 0.
Definition if_else : Weight := from_parts 9337000 0 + from_parts 0 0.
End Others.

(** ** A library that satisfies the laws *)
Module U64.
Definition clip (x : Z) : Z := Z.max 0 (Z.min x max_u64).

Record t := mk { time : Z; proof : Z; time_ok : clip time = time; proof_ok : clip proof = proof }.

Lemma clip_idem x : clip (clip x) = clip x.
Proof. unfold clip. lia. Qed.

Definition make (a b : Z) : t := mk (clip a) (clip b) (clip_idem a) (clip_idem b).

Definition nearest (parts x : Z) : Z := (2 * (parts * x) + 10 ^ 9) / (2 * 10 ^ 9).

#[export] Instance lib : WeightLib := {|
  Weight := t; from_parts := make; ref_time := time; proof_size := proof;
  weight_add v w := make (time v + time w) (proof v + proof w);
  weight_mul w n := make (time w * n) (proof w * n);
  weight_sub v w := make (time v - time w) (proof v - proof w);
  reads db n := make (saturating_mul (read db) n) 0;
  writes db n := make (saturating_mul (write db) n) 0;
  WEIGHT_REF_TIME_PER_NANOS := 1000; WEIGHT_REF_TIME_PER_SECOND := 10 ^ 12;
  MAX_POV_SIZE := 10 * 2 ^ 20;
  Perbill := Z; from_percent n := n * 10 ^ 7; from_rational p q := p * 10 ^ 9 / q;
  perbill_mul := nearest;
  perbill_weight x w := make (nearest x (time w)) (nearest x (proof w))
|}.

Lemma clip_range x : clip x = x → in_range 64 x.
Proof. unfold clip, max_u64, in_range. lia. Qed.
Lemma range_clip x : in_range 64 x → clip x = x.
Proof. unfold clip, max_u64, in_range. lia. Qed.

Lemma nearest_clip parts x : 0 ≤ parts ≤ 10 ^ 9 → in_range 64 x → clip (nearest parts x) = nearest parts x.
Proof.
  intros Hp Hx. apply range_clip. unfold in_range in *.
  assert (0 ≤ nearest parts x ≤ x); [|lia]. unfold nearest. split.
  - apply Z.div_pos; nia.
  - apply Z.lt_succ_r, Z.div_lt_upper_bound; nia.
Qed.

#[export] Program Instance laws : WeightLaws := {| parts x := x |}.
Next Obligation. intros a b Ha Hb. by apply range_clip. Qed.
Next Obligation. intros a b Ha Hb. by apply range_clip. Qed.
Next Obligation. intros w. apply clip_range, time_ok. Qed.
Next Obligation. intros w. apply clip_range, proof_ok. Qed.
Next Obligation.
  intros v w. simpl. pose proof (clip_range _ (time_ok v)). pose proof (clip_range _ (time_ok w)).
  unfold clip, in_range, max_u64 in *. lia.
Qed.
Next Obligation.
  intros v w. simpl. pose proof (clip_range _ (proof_ok v)). pose proof (clip_range _ (proof_ok w)).
  unfold clip, in_range, max_u64 in *. lia.
Qed.
Next Obligation.
  intros w n Hn. simpl. pose proof (clip_range _ (time_ok w)). unfold clip, in_range, max_u64 in *. nia.
Qed.
Next Obligation.
  intros w n Hn. simpl. pose proof (clip_range _ (proof_ok w)). unfold clip, in_range, max_u64 in *. nia.
Qed.
Next Obligation.
  intros v w Hle. simpl in *. pose proof (clip_range _ (time_ok v)). pose proof (clip_range _ (time_ok w)).
  unfold clip, in_range, max_u64 in *. lia.
Qed.
Next Obligation.
  intros v w Hle. simpl in *. pose proof (clip_range _ (proof_ok v)). pose proof (clip_range _ (proof_ok w)).
  unfold clip, in_range, max_u64 in *. lia.
Qed.
Next Obligation. done. Qed.
Next Obligation. done. Qed.
Next Obligation. done. Qed.
Next Obligation. done. Qed.
Next Obligation. split; [discriminate|reflexivity]. Qed.
Next Obligation. done. Qed.
Next Obligation. done. Qed.
Next Obligation.
  intros x v Hv Hx. simpl. unfold nearest.
  pose proof (Z.div_mod (2 * (x * v) + 10 ^ 9) (2 * 10 ^ 9)). pose proof (Z.mod_pos_bound (2 * (x * v) + 10 ^ 9) (2 * 10 ^ 9)).
  lia.
Qed.
Next Obligation. intros x w Hx. simpl. by apply nearest_clip, clip_range, time_ok. Qed.
Next Obligation. intros x w Hx. simpl. by apply nearest_clip, clip_range, proof_ok. Qed.
End U64.
