(* ===== verification/Runtime.v ===== *)
(** * Constants of the runtime

    [runtime/src/lib.rs] and [runtime/src/configs]: time, money, block limits,
    the parameters of the order book pallet, the pallets of the runtime and
    its version, the fee polynomial and the filter of locations that execute
    for free.  What the library makes of the
    settings of a block's weights and of a fee polynomial is not code of this
    repository. *)
From stdpp Require Import strings.
From S2P Require Import Prelude Weights.

(** ** Time and money *)
Definition MILLISECS_PER_BLOCK : Z := 6000.
Definition SLOT_DURATION : Z := MILLISECS_PER_BLOCK.
Definition MINUTES : Z := 60000 / MILLISECS_PER_BLOCK.
Definition HOURS : Z := MINUTES * 60.
Definition DAYS : Z := HOURS * 24.

Definition UNIT : Z := 1000000000000.
Definition MILLIUNIT : Z := 1000000000.
Definition MICROUNIT : Z := 1000000.
Definition EXISTENTIAL_DEPOSIT : Z := MILLIUNIT.

(** The parameters of the pallets, in a name space of their own. *)
Module Params.
Definition TransactionByteFee : Z := 10 * MICROUNIT.
Definition SS58Prefix : Z := 42.
Definition ExistentialDeposit : Z := EXISTENTIAL_DEPOSIT.
Definition Period : Z := 6 * HOURS.
Definition Offset : Z := 0.
Definition SessionLength : Z := 6 * HOURS.
Definition KickThreshold : Z := Period.
Definition AssetDeposit : Z := MILLIUNIT.
Definition ApprovalDeposit : Z := 1 * MILLIUNIT.
Definition StringLimit : Z := 50.
Definition MetadataDepositBase : Z := 10 * MILLIUNIT.
Definition MetadataDepositPerByte : Z := 1 * MILLIUNIT.
Definition PoolSetupFee : Z := 1 * MILLIUNIT.
Definition MintMinLiquidity : Z := 100.
Definition LiquidityWithdrawalFee : Z := 0.
Definition OrderExpiration : Z := DAYS.
Definition LPFee : Z := 3.
Definition StandardDecimals : Z := 18.
Definition MaxSwapPathLength : Z := 4.
Definition UNINCLUDED_SEGMENT_CAPACITY : Z := 3.
Definition BLOCK_PROCESSING_VELOCITY : Z := 1.
Definition RELAY_CHAIN_SLOT_DURATION_MILLIS : Z := 6000.
End Params.

(** ** Blocks *)
Section Blocks.
Context `{WeightLib}.
Local Open Scope weight_scope.

Definition AVERAGE_ON_INITIALIZE_RATIO : Perbill := from_percent 5.
Definition NORMAL_DISPATCH_RATIO : Perbill := from_percent 75.
Definition MAXIMUM_BLOCK_WEIGHT : Weight :=
  from_parts (saturating_mul WEIGHT_REF_TIME_PER_SECOND 2) MAX_POV_SIZE.

Inductive DispatchClass := Normal | Operational | Mandatory.

(** The settings given to the builder of [BlockWeights]; [None] where the
    builder's default stays. *)
Record WeightsPerClass := mkPerClass {
  base_extrinsic : Weight;
  max_total : option Weight;
  reserved : option Weight
}.
Record BlockWeights := mkBlockWeights {
  base_block : Weight;
  per_class : DispatchClass → WeightsPerClass;
  avg_block_initialization : Perbill
}.

Definition normal_total : Weight := perbill_weight NORMAL_DISPATCH_RATIO MAXIMUM_BLOCK_WEIGHT.

Definition RuntimeBlockWeights : BlockWeights := {|
  base_block := BlockExecutionWeight;
  per_class c := {|
    base_extrinsic := ExtrinsicBaseWeight;
    max_total := match c with
                 | Normal => Some normal_total
                 | Operational => Some MAXIMUM_BLOCK_WEIGHT
                 | Mandatory => None
                 end;
    reserved := match c with
                | Operational => Some (MAXIMUM_BLOCK_WEIGHT - normal_total)
                | _ => None
                end
  |};
  avg_block_initialization := AVERAGE_ON_INITIALIZE_RATIO
|}.
End Blocks.

(** ** The runtime

    [construct_runtime!]: the pallets and the indices that their calls and
    events are encoded with. *)
Module Assembly.
Inductive PalletName :=
| System | ParachainSystem | Timestamp | ParachainInfo
| Balances | TransactionPayment
| Authorship | CollatorSelection | Session | Aura | AuraExt
| XcmpQueue | PolkadotXcm | CumulusXcm | MessageQueue
| Assets | PoolAssets | AssetsFreezer | HybridOrderbook
| Utility | Sudo.

Definition Runtime : list (PalletName * Z) := [
  (System, 0); (ParachainSystem, 1); (Timestamp, 2); (ParachainInfo, 3);
  (Balances, 10); (TransactionPayment, 11);
  (Authorship, 20); (CollatorSelection, 21); (Session, 22); (Aura, 23); (AuraExt, 24);
  (XcmpQueue, 30); (PolkadotXcm, 31); (CumulusXcm, 32); (MessageQueue, 33);
  (Assets, 50); (PoolAssets, 51); (AssetsFreezer, 52); (HybridOrderbook, 53);
  (Utility, 98); (Sudo, 99)].

#[export] Instance PalletName_eq_dec : EqDecision PalletName.
Proof. solve_decision. Defined.

(** Every pallet is in the runtime, under a byte of its own, so that an
    encoded call or event names one pallet. *)
Lemma runtime_indices :
  (∀ n, n ∈ Runtime.*1) ∧ NoDup Runtime.*2 ∧ Forall (λ i, 0 ≤ i < 256) Runtime.*2.
Proof.
  split; [|split].
  - intros n. apply (bool_decide_unpack _). by destruct n.
  - by apply (bool_decide_unpack _).
  - by apply (bool_decide_unpack _).
Qed.

End Assembly.

(** The version without the list of apis, which the library generates. *)
Record RuntimeVersion := mkVersion {
  spec_name : string;
  impl_name : string;
  authoring_version : Z;
  spec_version : Z;
  impl_version : Z;
  transaction_version : Z;
  system_version : Z
}.

Definition VERSION : RuntimeVersion := {|
  spec_name := "warpx-runtime"%string;
  impl_name := "warpx-runtime"%string;
  authoring_version := 1;
  spec_version := 1;
  impl_version := 0;
  transaction_version := 1;
  system_version := 1
|}.

(** ** Fees *)
Record WeightToFeeCoefficient `{WeightLib} := mkCoefficient {
  degree : Z;
  negative : bool;
  coeff_frac : Perbill;
  coeff_integer : Z
}.

Definition polynomial `{WeightLib} : list WeightToFeeCoefficient :=
  let p := MILLIUNIT / 10 in
  let q := 100 * ref_time ExtrinsicBaseWeight in
  [{| degree := 1; negative := false; coeff_frac := from_rational (p mod q) q; coeff_integer := p / q |}].

(** The library evaluates the polynomial at the [ref_time] of a weight, in
    saturating [u128]. *)
Class FeeLib `{WeightLib} := { weight_to_fee : list WeightToFeeCoefficient → Weight → Z }.
Class FeeLaws `{FeeLib} := {
  linear_fee frac int w :
    weight_to_fee [{| degree := 1; negative := false; coeff_frac := frac; coeff_integer := int |}] w =
    Z.min (perbill_mul frac (ref_time w) + int * ref_time w) (2 ^ 128 - 1)
}.

#[export] Instance u64_fees : FeeLib (H:=U64.lib) := {|
  weight_to_fee cs w := foldr (λ c fee,
    if degree c =? 1 then Z.min (perbill_mul (coeff_frac c) (ref_time w) + coeff_integer c * ref_time w) (2 ^ 128 - 1)
    else fee) 0 cs
|}.
#[export] Instance u64_fee_laws : FeeLaws (H:=U64.lib).
Proof. by split. Qed.

(** ** XCM *)
Class XcmLib := {
  Junction : Type;
  BodyId : Type;
  #[global] BodyId_eq :: EqDecision BodyId;
  Executive : BodyId;
  Plurality_id : Junction → option BodyId   (* [Plurality { id, .. }] *)
}.

(** One operation of a message, and the limits of a message. *)
Definition UnitWeightCost `{WeightLib} : Weight := from_parts 1000000000 (64 * 1024).
Definition MaxInstructions : Z := 100.
Definition MaxAssetsIntoHolding : Z := 64.

(** [Location::unpack]. *)
Record Location `{XcmLib} := mkLocation { parents : Z; interior : list Junction }.

(** [ParentOrParentsExecutivePlurality::contains]. *)
Definition contains `{XcmLib} (location : Location) : bool :=
  match interior location with
  | [] => parents location =? 1
  | [j] => (parents location =? 1) && bool_decide (Plurality_id j = Some Executive)
  | _ => false
  end.

(** ** Facts *)
Section Facts.
Context `{HL : WeightLaws}.

Lemma base_ref_time : ref_time ExtrinsicBaseWeight = 125000000.
Proof. unfold ExtrinsicBaseWeight. rewrite nanos_law. by rewrite ref_time_parts by (vm_compute; split; congruence). Qed.

Lemma base_proof_size : proof_size ExtrinsicBaseWeight = 0.
Proof. unfold ExtrinsicBaseWeight. rewrite nanos_law. by rewrite proof_size_parts by (vm_compute; split; congruence). Qed.
End Facts.
