(* ===== verification/ChainSpec.v ===== *)
(** * Chain specifications

    [client/service/src/chain_spec.rs] and [load_spec] of
    [client/cli/src/command.rs]: the development and the local test network
    with their genesis patch.  Key derivation, the compiled runtime and spec
    files are the library's or the build's; an [expect] on them aborts. *)
From S2P Require Import Prelude Runtime.
From stdpp Require Import strings.
Local Open Scope string_scope.
Local Open Scope Z_scope.

Class SpecLib (Account : Type) := {
  Wasm : Type;
  Public : Type;
  AuraId : Type;
  WASM_BINARY : option Wasm;
  sr25519_from_string : string → option Public;   (* [Pair::from_string].public() *)
  aura_from_string : string → option AuraId;
  into_account : Public → Account;
  XCM_VERSION : Z
}.

Inductive ChainType := Development | Local.
Inductive Property := PText (s : string) | PNumber (n : Z).

Record Extensions := mkExtensions { relay_chain : string; para_id : Z }.
Record SessionKeys {Account : Type} `{SpecLib Account} := mkSessionKeys { aura : AuraId }.

(** The genesis patch, field by field: [balances], [parachainInfo],
    [collatorSelection], [session], [polkadotXcm] and [sudo]. *)
Record GenesisPatch {Account : Type} `{SpecLib Account} := mkGenesis {
  balances : list (Account * Z);
  parachainId : Z;
  invulnerables : list Account;
  candidacyBond : Z;
  keys : list (Account * Account * SessionKeys);
  safeXcmVersion : option Z;
  sudo_key : option Account
}.

Record ChainSpec {Account : Type} `{SpecLib Account} := mkSpec {
  code : Wasm;
  extensions : Extensions;
  name : string;
  id : string;
  chain_type : ChainType;
  genesis : GenesisPatch;
  protocol_id : option string;
  properties : option (list (string * Property))
}.

(** [ChainSpec::from_json_file] *)
Class SpecFiles {Account : Type} `{SpecLib Account} := { from_json_file : string → outcome string ChainSpec }.

Section ChainSpecs.
Context {Account : Type} `{SpecLib Account} {E : Type}.

Definition SAFE_XCM_VERSION : Z := XCM_VERSION.

Definition expect {A} (o : option A) : outcome E A :=
  match o with Some a => Ok a | None => Panic end.

Definition get_from_seed {A} (from_string : string → option A) (seed : string) : outcome E A :=
  expect (from_string ("//" +:+ seed)).
Definition get_collator_keys_from_seed (seed : string) : outcome E AuraId :=
  get_from_seed aura_from_string seed.
Definition get_account_id_from_seed (seed : string) : outcome E Account :=
  public ← get_from_seed sr25519_from_string seed; Ok (into_account public).
Definition template_session_keys (k : AuraId) : SessionKeys := mkSessionKeys _ _ k.

Definition testnet_genesis (collators : list (Account * AuraId)) (endowed_accounts : list Account)
    (root : Account) (para : Z) : GenesisPatch := {|
  balances := (λ k, (k, Z.shiftl 1 60)) <$> endowed_accounts;
  parachainId := para;
  invulnerables := fst <$> collators;
  candidacyBond := EXISTENTIAL_DEPOSIT * 16;
  keys := (λ '(acc, a), (acc, acc, template_session_keys a)) <$> collators;
  safeXcmVersion := Some SAFE_XCM_VERSION;
  sudo_key := Some root
|}.

Fixpoint accounts_from_seeds (seeds : list string) : outcome E (list Account) :=
  match seeds with
  | [] => Ok []
  | seed :: seeds =>
      a ← get_account_id_from_seed seed; l ← accounts_from_seeds seeds; Ok (a :: l)
  end.

Definition endowed_seeds : list string :=
  ["Alice"; "Bob"; "Charlie"; "Dave"; "Eve"; "Ferdie"; "Alice//stash"; "Bob//stash"; "Charlie//stash";
   "Dave//stash"; "Eve//stash"; "Ferdie//stash"].

(** The genesis patch that both specs use. *)
Definition sample_genesis : outcome E GenesisPatch :=
  alice ← get_account_id_from_seed "Alice"; alice_keys ← get_collator_keys_from_seed "Alice";
  bob ← get_account_id_from_seed "Bob"; bob_keys ← get_collator_keys_from_seed "Bob";
  endowed ← accounts_from_seeds endowed_seeds;
  root ← get_account_id_from_seed "Alice";
  Ok (testnet_genesis [(alice, alice_keys); (bob, bob_keys)] endowed root 1000).

(** The properties are built and then not given to the builder. *)
Definition development_config : outcome E ChainSpec :=
  let properties := [("tokenSymbol", PText "UNIT"); ("tokenDecimals", PNumber 12); ("ss58Format", PNumber 42)] in
  wasm ← expect WASM_BINARY;
  g ← sample_genesis;
  Ok {| code := wasm; extensions := mkExtensions "rococo-local" 1000; name := "Development"; id := "dev";
        chain_type := Development; genesis := g; protocol_id := None; properties := None |}.

Definition local_testnet_config : outcome E ChainSpec :=
  let props := [("tokenSymbol", PText "WARP"); ("tokenDecimals", PNumber 12); ("ss58Format", PNumber 42)] in
  wasm ← expect WASM_BINARY;
  g ← sample_genesis;
  Ok {| code := wasm; extensions := mkExtensions "rococo-local" 1000; name := "Local Warp(x) Testnet";
        id := "local_warpx_testnet"; chain_type := Local; genesis := g;
        protocol_id := Some "template-local"; properties := Some props |}.
End ChainSpecs.

(** [load_spec] of the command line, and the default of [chain_id]. *)
Definition load_spec {Account : Type} `{SpecFiles Account} (spec : string) : outcome string ChainSpec :=
  if decide (spec = "dev") then development_config
  else if decide (spec = "template-rococo") then local_testnet_config
  else if decide (spec = "" ∨ spec = "local") then local_testnet_config
  else from_json_file spec.

(** ** Facts on the genesis patch *)
Section GenesisFacts.
Context {Account : Type} `{EqDecision Account, SpecLib Account} {E : Type}.

(** What the patch gives to an account. *)
Definition endowment (g : GenesisPatch) (who : Account) : Z :=
  foldr (λ av n, (if decide (av.1 = who) then av.2 else 0) + n) 0 (balances g).

Lemma accounts_from_seeds_elem seeds l seed a :
  accounts_from_seeds (E:=E) seeds = Ok l → seed ∈ seeds →
  get_account_id_from_seed (E:=E) seed = Ok a → a ∈ l.
Proof.
  revert l. induction seeds as [|s seeds IH]; intros l; [by intros _ ?%not_elem_of_nil|].
  simpl. intros Hl Hs Ha. inv_run. apply elem_of_cons in Hs as [->|Hs].
  - rewrite Ha in H0. simplify_eq. by left.
  - right. by apply IH.
Qed.

Lemma accounts_from_seeds_length seeds l : accounts_from_seeds (E:=E) seeds = Ok l → length l = length seeds.
Proof.
  revert l. induction seeds as [|s seeds IH]; intros l; simpl; intros Hl; inv_run; [done|].
  simpl. by rewrite (IH _ ltac:(eassumption)).
Qed.

Lemma endowed_sum (v : Z) (l : list Account) who :
  0 ≤ v →
  let total := foldr (λ av n, (if decide (av.1 = who) then av.2 else 0) + n) 0 ((λ k, (k, v)) <$> l) in
  0 ≤ total ∧ (who ∈ l → v ≤ total).
Proof.
  intros Hv. induction l as [|k l [IH1 IH2]]; csimpl; [split; [lia|by intros ?%not_elem_of_nil]|].
  split; [case_decide; lia|]. intros [->|Hin]%elem_of_cons.
  - rewrite decide_True by done. lia.
  - specialize (IH2 Hin). case_decide; lia.
Qed.

Lemma endowment_endowed (collators : list (Account * AuraId)) l root para who :
  who ∈ l → Z.shiftl 1 60 ≤ endowment (testnet_genesis collators l root para) who.
Proof. intros Hin. by apply endowed_sum. Qed.
End GenesisFacts.
