(* ===== verification/Index.v ===== *)
(** * Keys and indices of the critbit tree

    The trait [OrderBookIndex] of [types.rs] (implemented by a macro for
    [u32], [u64] and [u128]), its [new_mask], and the facts on bits that the
    tree relies on: the critical bit separates two keys, every bit above it
    is shared, and it decides their order. *)
From S2P Require Import Prelude.
From Stdlib Require Import Bool.

(** [trait OrderBookIndex]: an unsigned integer type given by its width. *)
Class OrderBookIndex := {
  BITS : Z;
  BITS_lower : 32 ≤ BITS;
  BITS_upper : BITS ≤ 128
}.

Program Definition u32 : OrderBookIndex := {| BITS := 32 |}.
Solve All Obligations with lia.
Program Definition u64 : OrderBookIndex := {| BITS := 64 |}.
Solve All Obligations with lia.
Program Definition u128 : OrderBookIndex := {| BITS := 128 |}.
Solve All Obligations with lia.

(** Named as the associated constants of the trait. *)
Definition MAX_INDEX `{OrderBookIndex} : Z := 2 ^ BITS - 1.
Definition PARTITION_INDEX `{OrderBookIndex} : Z := Z.shiftl 1 (BITS - 1).
Definition CAPACITY `{OrderBookIndex} : Z := MAX_INDEX - PARTITION_INDEX.

Definition is_partition_index `{OrderBookIndex} (x : Z) : bool := x =? PARTITION_INDEX.

(** [leading_zeros] of a [w]-bit integer. *)
Definition leading_zeros (w x : Z) : Z := if x =? 0 then w else w - 1 - Z.log2 x.

(** [new_mask]: the exclusive or is widened to twice the width, and the
    subtractions are on [u32]. *)
Definition new_mask `{OrderBookIndex, BuildProfile} {E} (self closest_key : Z) : outcome E Z :=
  let critbit := Z.lxor self closest_key in
  lz ← u_sub 32 (leading_zeros (2 * BITS) critbit) BITS;
  pos ← u_sub 32 BITS lz;
  s ← u_sub 32 pos 1;
  u_shl1 BITS s.

(** The position of the most significant bit in which two keys differ. *)
Definition critical_bit (a b : Z) : Z := Z.log2 (Z.lxor a b).

(** Two keys agree on every bit above position [b]. *)
Definition agree_above (b x y : Z) : Prop := ∀ j, b < j → Z.testbit x j = Z.testbit y j.

Section Constants.
Context `{OrderBookIndex}.

Lemma BITS_pos : 0 < BITS.
Proof. pose proof BITS_lower. lia. Qed.

Lemma pow_BITS_split : 2 ^ BITS = 2 * 2 ^ (BITS - 1).
Proof. rewrite <-Z.pow_succ_r by (pose proof BITS_pos; lia). f_equal. lia. Qed.

Lemma PARTITION_INDEX_pow : PARTITION_INDEX = 2 ^ (BITS - 1).
Proof. unfold PARTITION_INDEX. by rewrite Z.shiftl_1_l. Qed.

Lemma MAX_INDEX_PARTITION : MAX_INDEX = 2 * PARTITION_INDEX - 1.
Proof. unfold MAX_INDEX. rewrite PARTITION_INDEX_pow, pow_BITS_split. done. Qed.

Lemma CAPACITY_PARTITION : CAPACITY = PARTITION_INDEX - 1.
Proof. unfold CAPACITY. rewrite MAX_INDEX_PARTITION. lia. Qed.

Lemma pow_BITS_PARTITION : 2 ^ BITS = 2 * PARTITION_INDEX.
Proof. by rewrite PARTITION_INDEX_pow, pow_BITS_split. Qed.

Lemma PARTITION_INDEX_large : 2 ^ 31 ≤ PARTITION_INDEX.
Proof.
  rewrite PARTITION_INDEX_pow. apply Z.pow_le_mono_r; [lia|].
  pose proof BITS_lower. lia.
Qed.
End Constants.

Section Bits.

Lemma critical_bit_nonneg a b : 0 ≤ critical_bit a b.
Proof. apply Z.log2_nonneg. Qed.

Lemma lxor_pos a b : 0 ≤ a → 0 ≤ b → a ≠ b → 0 < Z.lxor a b.
Proof.
  intros Ha Hb Hne.
  assert (0 ≤ Z.lxor a b) by (by apply Z.lxor_nonneg).
  assert (Z.lxor a b ≠ 0) by (intros ?%Z.lxor_eq; done). lia.
Qed.

Lemma critical_bit_lt w a b :
  0 < w → in_range w a → in_range w b → a ≠ b → critical_bit a b < w.
Proof.
  unfold in_range. intros Hw Ha Hb Hne. unfold critical_bit.
  pose proof (lxor_pos a b). apply Z.log2_lt_pow2; [lia|].
  destruct (Z.eq_dec (Z.lxor a b) 0); [lia|].
  apply Z.log2_lt_cancel. rewrite Z.log2_pow2 by lia.
  eapply Z.le_lt_trans; [apply Z.log2_lxor; lia|].
  assert (∀ x, 0 ≤ x < 2 ^ w → Z.log2 x < w) as Hlog.
  { intros x Hx. destruct (Z.eq_dec x 0) as [->|]; [done|].
    apply Z.log2_lt_pow2; lia. }
  pose proof (Hlog a Ha). pose proof (Hlog b Hb). lia.
Qed.

(** The critical bit differs... *)
Lemma critical_bit_differs a b :
  0 ≤ a → 0 ≤ b → a ≠ b →
  Z.testbit a (critical_bit a b) = negb (Z.testbit b (critical_bit a b)).
Proof.
  intros Ha Hb Hne. pose proof (Z.bit_log2 _ (lxor_pos a b Ha Hb Hne)) as Hbit.
  rewrite Z.lxor_spec in Hbit. fold (critical_bit a b) in Hbit.
  destruct (Z.testbit a _), (Z.testbit b _); done.
Qed.

(** ... and it is the highest such bit. *)
Lemma critical_bit_agree a b :
  0 ≤ a → 0 ≤ b → agree_above (critical_bit a b) a b.
Proof.
  intros Ha Hb j Hj. unfold critical_bit in Hj.
  assert (0 ≤ Z.lxor a b) as Hx by (by apply Z.lxor_nonneg).
  pose proof (Z.bits_above_log2 _ j Hx Hj) as Hbit.
  rewrite Z.lxor_spec in Hbit. destruct (Z.testbit a j), (Z.testbit b j); done.
Qed.

(** The position is characterised by these two facts. *)
Lemma critical_bit_unique a b d :
  0 ≤ a → 0 ≤ b → 0 ≤ d → agree_above d a b →
  Z.testbit a d ≠ Z.testbit b d → critical_bit a b = d.
Proof.
  intros Ha Hb Hd Hagree Hne.
  assert (a ≠ b) as Hab by (by intros ->).
  pose proof (critical_bit_differs a b Ha Hb Hab) as Hdiff.
  pose proof (critical_bit_agree a b Ha Hb) as Hagree'.
  destruct (Z.lt_trichotomy (critical_bit a b) d) as [Hlt|[?|Hgt]]; [|done|].
  - by specialize (Hagree' d Hlt).
  - specialize (Hagree _ Hgt). rewrite Hagree in Hdiff.
    by destruct (Z.testbit b _).
Qed.

Lemma agree_above_sym b x y : agree_above b x y → agree_above b y x.
Proof. intros Ha j Hj. symmetry. by apply Ha. Qed.

Lemma agree_above_trans b x y z :
  agree_above b x y → agree_above b y z → agree_above b x z.
Proof. intros H1 H2 j Hj. by rewrite H1, H2. Qed.

Lemma agree_above_refl b x : agree_above b x x.
Proof. by intros j Hj. Qed.

Lemma agree_above_le b b' x y : b ≤ b' → agree_above b x y → agree_above b' x y.
Proof. intros Hle Ha j Hj. apply Ha. lia. Qed.

(** Keys that share the bits above [d] are ordered by bit [d]. *)
Lemma agree_above_order d x y :
  0 ≤ d → agree_above d x y →
  Z.testbit x d = false → Z.testbit y d = true → x < y.
Proof.
  intros Hd Hagree Hx Hy.
  assert (Z.shiftr x (d + 1) = Z.shiftr y (d + 1)) as Hhigh.
  { apply Z.bits_inj'. intros n Hn.
    rewrite !Z.shiftr_spec by done. apply Hagree. lia. }
  rewrite !Z.shiftr_div_pow2 in Hhigh by lia.
  rewrite Z.testbit_false in Hx by done. rewrite Z.testbit_true in Hy by done.
  assert (2 ^ (d + 1) = 2 ^ d * 2) as Hp by (rewrite Z.pow_add_r; lia).
  assert (0 < 2 ^ d) by (apply Z.pow_pos_nonneg; lia).
  rewrite Hp, <-!Z.div_div in Hhigh by lia.
  pose proof (Z.div_mod (x / 2 ^ d) 2). pose proof (Z.div_mod (y / 2 ^ d) 2).
  assert (x / 2 ^ d < y / 2 ^ d) as Hlt by lia.
  pose proof (Z.div_mod x (2 ^ d)). pose proof (Z.div_mod y (2 ^ d)).
  pose proof (Z.mod_pos_bound x (2 ^ d)). pose proof (Z.mod_pos_bound y (2 ^ d)).
  nia.
Qed.

(** The test of the code, [mask & key == 0], reads the bit of the mask. *)
Lemma land_pow2_eqb b k :
  0 ≤ b → (Z.land (2 ^ b) k =? 0) = negb (Z.testbit k b).
Proof.
  intros Hb. destruct (Z.eqb_spec (Z.land (2 ^ b) k) 0) as [Hz|Hnz].
  - assert (Z.testbit (Z.land (2 ^ b) k) b = false) as Hbit by (rewrite Hz; apply Z.bits_0).
    rewrite Z.land_spec, Z.pow2_bits_true in Hbit by done. simpl in Hbit. by rewrite Hbit.
  - destruct (Z.testbit k b) eqn:Hk; [done|]. exfalso. apply Hnz.
    apply Z.bits_inj'. intros n Hn. rewrite Z.land_spec, Z.bits_0.
    destruct (Z.eq_dec b n) as [->|]; [by rewrite Hk, andb_false_r|].
    by rewrite Z.pow2_bits_false.
Qed.

End Bits.

Section Mask.
Context `{OrderBookIndex, BuildProfile} {E : Type}.

(** [new_mask] of two distinct keys is the power of two at their critical
    bit, in every build: no subtraction underflows and the shift is in
    range. *)
Lemma new_mask_distinct a b :
  in_range BITS a → in_range BITS b → a ≠ b →
  new_mask (E:=E) a b = Ok (2 ^ critical_bit a b).
Proof.
  intros Ha Hb Hne. pose proof BITS_pos. pose proof BITS_upper.
  pose proof (critical_bit_lt BITS a b BITS_pos Ha Hb Hne) as Hlt.
  pose proof (critical_bit_nonneg a b).
  pose proof (lxor_pos a b ltac:(apply Ha) ltac:(apply Hb) Hne).
  unfold new_mask, leading_zeros. fold (critical_bit a b).
  assert (2 ^ 8 ≤ 2 ^ 32) by (apply Z.pow_le_mono_r; lia).
  destruct (Z.eqb_spec (Z.lxor a b) 0); [lia|]. unfold mbind, outcome_bind.
  rewrite !u_sub_ok by (unfold in_range; lia).
  unfold u_shl1. destruct (Z.ltb_spec (BITS - (2 * BITS - 1 - critical_bit a b - BITS) - 1) BITS); [|lia].
  rewrite Z.shiftl_1_l. do 2 f_equal. lia.
Qed.

(** On equal keys it aborts in a build with overflow checks. *)
Lemma new_mask_equal a : overflow_checks = true → new_mask (E:=E) a a = Panic.
Proof.
  intros Hc. pose proof BITS_pos. pose proof BITS_upper.
  assert (2 ^ 8 ≤ 2 ^ 32) by (apply Z.pow_le_mono_r; lia).
  unfold new_mask. rewrite Z.lxor_nilpotent. unfold leading_zeros, mbind, outcome_bind.
  simpl Z.eqb. rewrite u_sub_ok by (unfold in_range; lia).
  rewrite u_sub_ok by (unfold in_range; lia).
  replace (BITS - (2 * BITS - BITS)) with 0 by lia.
  unfold u_sub, overflowing, in_rangeb. by rewrite Hc.
Qed.
End Mask.
