(* ===== verification/Critbit.v ===== *)
(** * The critbit tree of [critbit.rs]: data and operations

    A tree is two [BTreeMap]s, one of internal nodes and one of leaves, whose
    entries refer to each other by index.  An index below [PARTITION_INDEX]
    names an internal node; a leaf [i] is referred to as [MAX_INDEX - i].
    Read-only methods are functions of the tree; methods on [&mut self] live
    in the state monad [M].  Every [while] loop carries fuel: a descent or a
    climb visits at most one internal node per bit of the key, so
    [loop_fuel], one more than the width of the key, is always enough on a
    well-formed tree (proved in CritbitShape and CritbitOps). *)
From S2P Require Import Prelude Index.
From Stdlib Require Import Bool.

Inductive NodeKind := Internal | Leaf.

Inductive CritbitTreeError :=
| ExceedCapacity
| Overflow
| UniqueIndex
| AlreadyExist
| InternalNodeShouldExist
| LeafNodeShouldExist
| NotFound
| RemoveNotAllowed
| ValueOps
| NotInitialized.

Record InternalNode := mkInternalNode {
  in_mask : Z;
  in_parent : Z;
  in_left : Z;
  in_right : Z
}.

Record LeafNode (V : Type) := mkLeafNode {
  lf_parent : Z;
  lf_key : Z;
  lf_value : V
}.
Arguments mkLeafNode {V} _ _ _.
Arguments lf_parent {V} _.
Arguments lf_key {V} _.
Arguments lf_value {V} _.

Record CritbitTree (V : Type) := mkCritbitTree {
  root : Z;
  internal_nodes : gmap Z InternalNode;
  leaves : gmap Z (LeafNode V);
  max_leaf_index : Z;
  min_leaf_index : Z;
  next_internal_node_index : Z;
  next_leaf_node_index : Z
}.
Arguments mkCritbitTree {V} _ _ _ _ _ _ _.
Arguments root {V} _.
Arguments internal_nodes {V} _.
Arguments leaves {V} _.
Arguments max_leaf_index {V} _.
Arguments min_leaf_index {V} _.
Arguments next_internal_node_index {V} _.
Arguments next_leaf_node_index {V} _.

#[export] Instance CritbitTreeError_eq_dec : EqDecision CritbitTreeError.
Proof. solve_decision. Defined.
#[export] Instance InternalNode_eq_dec : EqDecision InternalNode.
Proof. solve_decision. Defined.
#[export] Instance LeafNode_eq_dec `{EqDecision V} : EqDecision (LeafNode V).
Proof. solve_decision. Defined.
#[export] Instance CritbitTree_eq_dec `{EqDecision V} : EqDecision (CritbitTree V).
Proof. solve_decision. Defined.

(** Field updates. *)
Section Setters.
Context {V : Type}.
Implicit Types t : CritbitTree V.

Definition set_root r t : CritbitTree V :=
  mkCritbitTree r (internal_nodes t) (leaves t) (max_leaf_index t) (min_leaf_index t)
    (next_internal_node_index t) (next_leaf_node_index t).
Definition set_internal_nodes ns t : CritbitTree V :=
  mkCritbitTree (root t) ns (leaves t) (max_leaf_index t) (min_leaf_index t)
    (next_internal_node_index t) (next_leaf_node_index t).
Definition set_leaves ls t : CritbitTree V :=
  mkCritbitTree (root t) (internal_nodes t) ls (max_leaf_index t) (min_leaf_index t)
    (next_internal_node_index t) (next_leaf_node_index t).
Definition set_max i t : CritbitTree V :=
  mkCritbitTree (root t) (internal_nodes t) (leaves t) i (min_leaf_index t)
    (next_internal_node_index t) (next_leaf_node_index t).
Definition set_min i t : CritbitTree V :=
  mkCritbitTree (root t) (internal_nodes t) (leaves t) (max_leaf_index t) i
    (next_internal_node_index t) (next_leaf_node_index t).
Definition set_next_internal i t : CritbitTree V :=
  mkCritbitTree (root t) (internal_nodes t) (leaves t) (max_leaf_index t) (min_leaf_index t)
    i (next_leaf_node_index t).
Definition set_next_leaf i t : CritbitTree V :=
  mkCritbitTree (root t) (internal_nodes t) (leaves t) (max_leaf_index t) (min_leaf_index t)
    (next_internal_node_index t) i.

Definition with_parent (p : Z) (n : InternalNode) : InternalNode :=
  mkInternalNode (in_mask n) p (in_left n) (in_right n).
Definition with_child (is_left : bool) (c : Z) (n : InternalNode) : InternalNode :=
  if is_left then mkInternalNode (in_mask n) (in_parent n) c (in_right n)
  else mkInternalNode (in_mask n) (in_parent n) (in_left n) c.
Definition leaf_with_parent (p : Z) (l : LeafNode V) : LeafNode V :=
  mkLeafNode p (lf_key l) (lf_value l).
Definition leaf_with_value (v : V) (l : LeafNode V) : LeafNode V :=
  mkLeafNode (lf_parent l) (lf_key l) v.
End Setters.

Section Critbit.
Context `{OrderBookIndex, BuildProfile} {V : Type}.
Implicit Types (t : CritbitTree V) (key curr : Z).

Abbreviation res A := (outcome CritbitTreeError A).
Abbreviation op A := (M (CritbitTree V) CritbitTreeError A).

Definition InternalNode_new (mask : Z) : InternalNode :=
  mkInternalNode mask PARTITION_INDEX PARTITION_INDEX PARTITION_INDEX.

Definition LeafNode_new (key : Z) (value : V) : LeafNode V :=
  mkLeafNode PARTITION_INDEX key value.

Definition new : CritbitTree V :=
  mkCritbitTree PARTITION_INDEX ∅ ∅ PARTITION_INDEX PARTITION_INDEX 0 0.

Definition is_empty t : bool := bool_decide (leaves t = ∅).

Definition size t : nat := stdpp.base.size (leaves t).

Definition max_leaf t : res (option (Z * Z)) :=
  if decide (leaves t = ∅) then Ok None else
  match leaves t !! max_leaf_index t with
  | Some leaf => Ok (Some (lf_key leaf, max_leaf_index t))
  | None => Err LeafNodeShouldExist
  end.

Definition min_leaf t : res (option (Z * Z)) :=
  if decide (leaves t = ∅) then Ok None else
  match leaves t !! min_leaf_index t with
  | Some leaf => Ok (Some (lf_key leaf, min_leaf_index t))
  | None => Err LeafNodeShouldExist
  end.

Definition loop_fuel : nat := S (Z.to_nat BITS).

(** [while curr < PARTITION_INDEX { curr = step(internal_nodes.get(curr)?) }] *)
Fixpoint descend (fuel : nat) t (step : InternalNode → Z) (curr : Z) : res Z :=
  if curr <? PARTITION_INDEX then
    match fuel with
    | O => OutOfFuel
    | S fuel =>
        internal_node ← ok_or (internal_nodes t !! curr) InternalNodeShouldExist;
        descend fuel t step (step internal_node)
    end
  else Ok curr.

Definition left_most_leaf t (start : Z) : res Z :=
  descend loop_fuel t in_left start.

Definition right_most_leaf t (start : Z) : res Z :=
  if start =? PARTITION_INDEX then Err NotInitialized
  else descend loop_fuel t in_right start.

(** The branch taken at an internal node for [key]. *)
Definition branch (key : Z) (n : InternalNode) : Z :=
  if Z.land (in_mask n) key =? 0 then in_left n else in_right n.

Definition get_closest_leaf_index t (key : Z) : res (option Z) :=
  if root t =? PARTITION_INDEX then Ok None
  else curr ← descend loop_fuel t (branch key) (root t);
       mret (Some (MAX_INDEX - curr)).

Definition find_leaf t (key : Z) : res (option Z) :=
  closest ← get_closest_leaf_index t key;
  match closest with
  | Some leaf_index =>
      leaf_node ← ok_or (leaves t !! leaf_index) LeafNodeShouldExist;
      if negb (lf_key leaf_node =? key) then mret None else mret (Some leaf_index)
  | None => mret None
  end.

Definition is_left_child t (parent child : Z) : bool :=
  match internal_nodes t !! parent with
  | Some internal_node => in_left internal_node =? child
  | None => false
  end.

(** The upward loops of [previous_leaf] ([side = true]) and [next_leaf]
    ([side = false]): climb while [ptr] is a child on the given side. *)
Fixpoint climb (fuel : nat) t (side : bool) (ptr parent : Z) : res Z :=
  if negb (parent =? PARTITION_INDEX) && Bool.eqb (is_left_child t parent ptr) side then
    match fuel with
    | O => OutOfFuel
    | S fuel =>
        node ← ok_or (internal_nodes t !! parent) InternalNodeShouldExist;
        climb fuel t side parent (in_parent node)
    end
  else Ok parent.

Definition previous_leaf t (key : Z) : res (option (Z * Z)) :=
  found ← find_leaf t key;
  leaf_index ← ok_or found NotFound;
  leaf ← ok_or (leaves t !! leaf_index) LeafNodeShouldExist;
  parent ← climb loop_fuel t true (MAX_INDEX - leaf_index) (lf_parent leaf);
  if parent =? PARTITION_INDEX then mret None else
  node ← ok_or (internal_nodes t !! parent) InternalNodeShouldExist;
  most ← right_most_leaf t (in_left node);
  let leaf_index := MAX_INDEX - most in
  leaf_node ← ok_or (leaves t !! leaf_index) LeafNodeShouldExist;
  mret (Some (lf_key leaf_node, leaf_index)).

Definition next_leaf t (key : Z) : res (option (Z * Z)) :=
  found ← find_leaf t key;
  leaf_index ← ok_or found NotFound;
  leaf ← ok_or (leaves t !! leaf_index) LeafNodeShouldExist;
  parent ← climb loop_fuel t false (MAX_INDEX - leaf_index) (lf_parent leaf);
  if parent =? PARTITION_INDEX then mret None else
  node ← ok_or (internal_nodes t !! parent) InternalNodeShouldExist;
  most ← left_most_leaf t (in_right node);
  let leaf_index := MAX_INDEX - most in
  leaf_node ← ok_or (leaves t !! leaf_index) LeafNodeShouldExist;
  mret (Some (lf_key leaf_node, leaf_index)).

Definition next_index (kind : NodeKind) : op Z :=
  t ← get;
  match kind with
  | Leaf =>
      let index := next_leaf_node_index t in
      next ← lift (u_add BITS index 1);
      _ ← put (set_next_leaf next t);
      _ ← lift (ensure (next <=? CAPACITY) ExceedCapacity);
      mret index
  | Internal =>
      let index := next_internal_node_index t in
      next ← lift (ok_or (checked_add BITS index 1) Overflow);
      _ ← put (set_next_internal next t);
      mret index
  end.

(** [BTreeMap::insert], returning the previous entry. *)
Definition insert_leaf (i : Z) (l : LeafNode V) : op (option (LeafNode V)) :=
  λ t, (Ok (leaves t !! i), set_leaves (<[i := l]> (leaves t)) t).
Definition insert_internal (i : Z) (n : InternalNode) : op (option InternalNode) :=
  λ t, (Ok (internal_nodes t !! i), set_internal_nodes (<[i := n]> (internal_nodes t)) t).

Definition update_ref (parent child : Z) (is_left : bool) : op () :=
  internal_node ← gets (λ t, ok_or (internal_nodes t !! parent) InternalNodeShouldExist);
  _ ← insert_internal parent (with_child is_left child internal_node);
  if PARTITION_INDEX <? child then
    let leaf_node_index := MAX_INDEX - child in
    leaf_node ← gets (λ t, ok_or (leaves t !! leaf_node_index) LeafNodeShouldExist);
    _ ← insert_leaf leaf_node_index (leaf_with_parent parent leaf_node);
    mret ()
  else
    internal_node ← gets (λ t, ok_or (internal_nodes t !! child) InternalNodeShouldExist);
    _ ← insert_internal child (with_parent parent internal_node);
    mret ().

Definition update_min_max_leaf (new_leaf_index new_key : Z) t : CritbitTree V :=
  let t := match leaves t !! min_leaf_index t with
           | Some leaf => if new_key <? lf_key leaf then set_min new_leaf_index t else t
           | None => set_min new_leaf_index t
           end in
  match leaves t !! max_leaf_index t with
  | Some leaf => if lf_key leaf <? new_key then set_max new_leaf_index t else t
  | None => set_max new_leaf_index t
  end.

(** The loop of [insert]: returns [(curr, internal_node_parent_index)]. *)
Fixpoint find_slot (fuel : nat) t (key mask curr parent : Z) : res (Z * Z) :=
  if curr <? PARTITION_INDEX then
    match fuel with
    | O => OutOfFuel
    | S fuel =>
        internal_node ← ok_or (internal_nodes t !! curr) InternalNodeShouldExist;
        if in_mask internal_node <? mask then mret (curr, parent)
        else find_slot fuel t key mask (branch key internal_node) curr
    end
  else Ok (curr, parent).

(** The part of [insert] that links the new internal node into the slot
    between [internal_node_parent_index] and [curr], with the new leaf and
    [curr] as its children. *)
Definition attach (new_internal_index new_leaf_index key mask curr
                   internal_node_parent_index : Z) : op () :=
  _ ← (if is_partition_index internal_node_parent_index
       then modify (set_root new_internal_index)
       else is_left ← gets (λ t, Ok (is_left_child t internal_node_parent_index curr));
            update_ref internal_node_parent_index new_internal_index is_left);
  let is_left := Z.land key mask =? 0 in
  _ ← update_ref new_internal_index (MAX_INDEX - new_leaf_index) is_left;
  update_ref new_internal_index curr (negb is_left).

Definition insert (key : Z) (value : V) : op () :=
  let new_leaf := LeafNode_new key value in
  new_leaf_index ← next_index Leaf;
  old ← insert_leaf new_leaf_index new_leaf;
  match old with
  | Some _ => throw UniqueIndex
  | None =>
  closest ← gets (λ t, get_closest_leaf_index t key);
  match closest with
  | None =>
      modify (λ t, set_min new_leaf_index (set_max new_leaf_index (set_root MAX_INDEX t)))
  | Some closest_leaf_index =>
  closest_leaf ← gets (λ t, ok_or (leaves t !! closest_leaf_index) LeafNodeShouldExist);
  let closest_leaf_key := lf_key closest_leaf in
  if closest_leaf_key =? key then throw AlreadyExist else
  mask ← lift (new_mask key closest_leaf_key);
  let new_internal_node := InternalNode_new mask in
  new_internal_index ← next_index Internal;
  old ← insert_internal new_internal_index new_internal_node;
  match old with
  | Some _ => throw UniqueIndex
  | None =>
  '(curr, internal_node_parent_index) ←
    gets (λ t, find_slot loop_fuel t key mask (root t) PARTITION_INDEX);
  _ ← attach new_internal_index new_leaf_index key mask curr internal_node_parent_index;
  modify (update_min_max_leaf new_leaf_index key)
  end end end.

Definition reset t : CritbitTree V :=
  set_next_leaf 0 (set_next_internal 0
    (set_max PARTITION_INDEX (set_min PARTITION_INDEX (set_root PARTITION_INDEX t)))).

(** The parts of [remove_leaf_by_index]: the two blocks that move
    [min_leaf_index] and [max_leaf_index] off the leaf, and the final block
    that puts the sibling in the place of the parent. *)
Definition drop_min (leaf_index key : Z) : op bool :=
  t ← get;
  if min_leaf_index t =? leaf_index then
    nxt ← gets (λ t, next_leaf t key);
    match nxt with
    | Some (_, next_leaf_index) => _ ← modify (set_min next_leaf_index); mret false
    | None => mret true
    end
  else mret false.

Definition drop_max (leaf_index key : Z) : op bool :=
  t ← get;
  if max_leaf_index t =? leaf_index then
    prv ← gets (λ t, previous_leaf t key);
    match prv with
    | Some (_, prev_leaf_index) => _ ← modify (set_max prev_leaf_index); mret false
    | None => mret true
    end
  else mret false.

Definition unlink (parent_index leaf_index : Z) : op () :=
  parent_node ← gets (λ t, ok_or (internal_nodes t !! parent_index) InternalNodeShouldExist);
  is_left ← gets (λ t, Ok (is_left_child t parent_index (MAX_INDEX - leaf_index)));
  let sibling_node_index := if (is_left : bool) then in_right parent_node else in_left parent_node in
  let grand_parent_index := in_parent parent_node in
  _ ← (if grand_parent_index =? PARTITION_INDEX then
         _ ← (if sibling_node_index <? PARTITION_INDEX then
                sibling_node ← gets (λ t,
                  ok_or (internal_nodes t !! sibling_node_index) InternalNodeShouldExist);
                _ ← insert_internal sibling_node_index (with_parent PARTITION_INDEX sibling_node);
                mret ()
              else
                sibling_node ← gets (λ t,
                  ok_or (leaves t !! (MAX_INDEX - sibling_node_index)) LeafNodeShouldExist);
                _ ← insert_leaf (MAX_INDEX - sibling_node_index)
                      (leaf_with_parent PARTITION_INDEX sibling_node);
                mret ());
         modify (set_root sibling_node_index)
       else
         is_left ← gets (λ t, Ok (is_left_child t grand_parent_index parent_index));
         update_ref grand_parent_index sibling_node_index is_left);
  modify (λ t, set_internal_nodes (delete parent_index (internal_nodes t)) t).

Definition remove_leaf_by_index (leaf_index : Z) : op V :=
  leaf_node ← gets (λ t, ok_or (leaves t !! leaf_index) NotFound);
  was_min ← drop_min leaf_index (lf_key leaf_node);
  was_max ← drop_max leaf_index (lf_key leaf_node);
  _ ← modify (λ t, set_leaves (delete leaf_index (leaves t)) t);
  if (was_min || was_max : bool) then
    _ ← modify reset; mret (lf_value leaf_node)
  else
    _ ← unlink (lf_parent leaf_node) leaf_index;
    mret (lf_value leaf_node).
End Critbit.
