(* ===== verification/CritbitShape.v ===== *)
(** * Shapes: the binary tree behind the two maps of a critbit tree

    A [shape] is the inductive tree that the index-linked nodes of
    [CritbitTree] encode; [repr] says that the two maps encode a shape below
    a given parent index.  A context (a list of frames, innermost first) is a
    shape with a hole, so that a pointer into the tree splits it into the
    subtree it points at and the context above it.  [crit] is the critbit
    order: masks decrease towards the leaves, the two sides of a node differ
    in its bit and agree on every higher bit. *)
From S2P Require Import Prelude Index Critbit.
From Stdlib Require Import Bool.

Inductive shape :=
| SLeaf (i k : Z)
| SNode (i b : Z) (l r : shape).

(** In-order (key, leaf index) pairs, and the indices in use. *)
Fixpoint entries (s : shape) : list (Z * Z) :=
  match s with
  | SLeaf i k => [(k, i)]
  | SNode _ _ l r => entries l ++ entries r
  end.
Definition keys (s : shape) : list Z := (entries s).*1.
Definition leaf_ids (s : shape) : list Z := (entries s).*2.

Fixpoint node_ids (s : shape) : list Z :=
  match s with
  | SLeaf _ _ => []
  | SNode i _ l r => i :: node_ids l ++ node_ids r
  end.

Fixpoint height (s : shape) : nat :=
  match s with
  | SLeaf _ _ => O
  | SNode _ _ l r => S (Nat.max (height l) (height r))
  end.

(** The leaf reached when [dir b] tells whether to go left at bit [b]. *)
Fixpoint follow (dir : Z → bool) (s : shape) : Z * Z :=
  match s with
  | SLeaf i k => (k, i)
  | SNode _ b l r => follow dir (if dir b then l else r)
  end.
Definition toward (key b : Z) : bool := negb (Z.testbit key b).

(** Contexts. *)
Record frame := Frame { fr_left : bool; fr_id : Z; fr_bit : Z; fr_sib : shape }.

Definition fill1 (f : frame) (s : shape) : shape :=
  if fr_left f then SNode (fr_id f) (fr_bit f) s (fr_sib f)
  else SNode (fr_id f) (fr_bit f) (fr_sib f) s.

Fixpoint plug (C : list frame) (s : shape) : shape :=
  match C with
  | [] => s
  | f :: C => plug C (fill1 f s)
  end.

Definition hole_parent (p : Z) (C : list frame) : Z :=
  match C with [] => p | f :: _ => fr_id f end.
Definition hole_bound (ub : Z) (C : list frame) : Z :=
  match C with [] => ub | f :: _ => fr_bit f end.

Fixpoint before (C : list frame) : list (Z * Z) :=
  match C with
  | [] => []
  | f :: C => before C ++ (if fr_left f then [] else entries (fr_sib f))
  end.
Fixpoint after (C : list frame) : list (Z * Z) :=
  match C with
  | [] => []
  | f :: C => (if fr_left f then entries (fr_sib f) else []) ++ after C
  end.
Fixpoint ctx_nodes (C : list frame) : list Z :=
  match C with
  | [] => []
  | f :: C => fr_id f :: node_ids (fr_sib f) ++ ctx_nodes C
  end.
Definition ctx_leaves (C : list frame) : list Z := (before C).*2 ++ (after C).*2.

Section Shapes.

Lemma entries_fill1 f s :
  entries (fill1 f s) =
  (if fr_left f then [] else entries (fr_sib f)) ++ entries s ++
  (if fr_left f then entries (fr_sib f) else []).
Proof. unfold fill1. destruct (fr_left f); simpl; by rewrite ?app_nil_r. Qed.

Lemma entries_plug C s : entries (plug C s) = before C ++ entries s ++ after C.
Proof.
  revert s. induction C as [|f C IH]; intros s; simpl; [by rewrite app_nil_r|].
  rewrite IH, entries_fill1, <-!app_assoc. done.
Qed.

Lemma node_ids_plug C s : node_ids (plug C s) ≡ₚ node_ids s ++ ctx_nodes C.
Proof.
  revert s. induction C as [|f C IH]; intros s; simpl; [by rewrite app_nil_r|].
  rewrite IH. unfold fill1. destruct (fr_left f); simpl; solve_Permutation.
Qed.

Lemma leaf_ids_plug C s : leaf_ids (plug C s) ≡ₚ leaf_ids s ++ ctx_leaves C.
Proof.
  unfold leaf_ids, ctx_leaves. rewrite entries_plug, !fmap_app. solve_Permutation.
Qed.

Lemma keys_plug C s : keys (plug C s) ≡ₚ keys s ++ (before C).*1 ++ (after C).*1.
Proof. unfold keys. rewrite entries_plug, !fmap_app. solve_Permutation. Qed.

Lemma entries_nonempty s : entries s ≠ [].
Proof. induction s; simpl; [done|]. intros [? ?]%app_nil. done. Qed.

Lemma follow_entries dir s : follow dir s ∈ entries s.
Proof.
  induction s as [|i b l IHl r IHr]; simpl; [set_solver|].
  rewrite elem_of_app. destruct (dir b); auto.
Qed.

Lemma follow_leftmost s : head (entries s) = Some (follow (λ _, true) s).
Proof.
  induction s as [|i b l IHl r IHr]; simpl; [done|].
  destruct (entries l) eqn:Hl; [by apply entries_nonempty in Hl|]. done.
Qed.

Lemma follow_rightmost s : last (entries s) = Some (follow (λ _, false) s).
Proof.
  induction s as [|i b l IHl r IHr]; simpl; [done|].
  rewrite last_app. destruct (entries r) eqn:Hr; [by apply entries_nonempty in Hr|].
  by rewrite IHr.
Qed.

Lemma elem_of_keys k s : k ∈ keys s ↔ ∃ i, (k, i) ∈ entries s.
Proof.
  unfold keys. rewrite list_elem_of_fmap. split.
  - intros [[k' i] [-> ?]]. by exists i.
  - intros [i ?]. by exists (k, i).
Qed.

Lemma elem_of_leaf_ids i s : i ∈ leaf_ids s ↔ ∃ k, (k, i) ∈ entries s.
Proof.
  unfold leaf_ids. rewrite list_elem_of_fmap. split.
  - intros [[k i'] [-> ?]]. by exists k.
  - intros [k ?]. by exists (k, i).
Qed.

(** Every leaf sits in some context. *)
Lemma entries_context s k i :
  (k, i) ∈ entries s → ∃ C, s = plug C (SLeaf i k).
Proof.
  intros Hin.
  enough (∀ C0, ∃ C, plug C0 s = plug C (SLeaf i k)) as Hgen by apply (Hgen []).
  induction s as [i' k'|i' b l IHl r IHr]; simpl in Hin; intros C0.
  - apply list_elem_of_singleton in Hin. injection Hin as -> ->. by exists C0.
  - apply elem_of_app in Hin as [Hin|Hin].
    + apply (IHl Hin (Frame true i' b r :: C0)).
    + apply (IHr Hin (Frame false i' b l :: C0)).
Qed.
End Shapes.

(** ** Representation by the two maps *)
Section Repr.
Context `{OrderBookIndex} {V : Type}.
Implicit Types (ns : gmap Z InternalNode) (ls : gmap Z (LeafNode V)).

Definition tree_index (s : shape) : Z :=
  match s with SLeaf i _ => MAX_INDEX - i | SNode i _ _ _ => i end.

Fixpoint repr ns ls (p : Z) (s : shape) : Prop :=
  match s with
  | SLeaf i k => ∃ v, ls !! i = Some (mkLeafNode p k v)
  | SNode i b l r =>
      ns !! i = Some (mkInternalNode (2 ^ b) p (tree_index l) (tree_index r)) ∧
      repr ns ls i l ∧ repr ns ls i r
  end.

Definition frame_node (f : frame) (p h : Z) : InternalNode :=
  mkInternalNode (2 ^ fr_bit f) p
    (if fr_left f then h else tree_index (fr_sib f))
    (if fr_left f then tree_index (fr_sib f) else h).

Fixpoint repr_ctx ns ls (p : Z) (C : list frame) (h : Z) : Prop :=
  match C with
  | [] => True
  | f :: C =>
      ns !! fr_id f = Some (frame_node f (hole_parent p C) h) ∧
      repr ns ls (fr_id f) (fr_sib f) ∧ repr_ctx ns ls p C (fr_id f)
  end.

Lemma tree_index_fill1 f s : tree_index (fill1 f s) = fr_id f.
Proof. unfold fill1. by destruct (fr_left f). Qed.

Lemma repr_fill1 ns ls p f s :
  repr ns ls p (fill1 f s) ↔
  ns !! fr_id f = Some (frame_node f p (tree_index s)) ∧
  repr ns ls (fr_id f) (fr_sib f) ∧ repr ns ls (fr_id f) s.
Proof. unfold fill1, frame_node. destruct (fr_left f); simpl; tauto. Qed.

Lemma repr_plug ns ls p C s :
  repr ns ls p (plug C s) ↔
  repr_ctx ns ls p C (tree_index s) ∧ repr ns ls (hole_parent p C) s.
Proof.
  revert s. induction C as [|f C IH]; intros s; simpl; [tauto|].
  rewrite IH, repr_fill1, tree_index_fill1. tauto.
Qed.

(** Two stores that agree on the indices of a shape represent it alike. *)
Lemma repr_frame ns ls ns' ls' p s :
  (∀ i, i ∈ node_ids s → ns' !! i = ns !! i) →
  (∀ i, i ∈ leaf_ids s → ls' !! i = ls !! i) →
  repr ns ls p s → repr ns' ls' p s.
Proof.
  revert p. induction s as [i k|i b l IHl r IHr]; intros p Hn Hl; simpl.
  - intros [v Hv]. exists v. rewrite Hl; [done|]. unfold leaf_ids. simpl. set_solver.
  - unfold leaf_ids in *. simpl in *. rewrite fmap_app in Hl.
    intros (Hi & Hrl & Hrr). rewrite Hn by set_solver.
    split_and!; [done|apply IHl|apply IHr]; set_solver.
Qed.

Lemma repr_ctx_frame ns ls ns' ls' p C h :
  (∀ i, i ∈ ctx_nodes C → ns' !! i = ns !! i) →
  (∀ i, i ∈ ctx_leaves C → ls' !! i = ls !! i) →
  repr_ctx ns ls p C h → repr_ctx ns' ls' p C h.
Proof.
  revert h. induction C as [|f C IH]; intros h Hn Hl; simpl; [done|].
  unfold ctx_leaves in *. simpl in *. setoid_rewrite elem_of_cons in Hn.
  rewrite !fmap_app in Hl. repeat setoid_rewrite elem_of_app in Hl.
  setoid_rewrite elem_of_app in Hn. setoid_rewrite elem_of_app in IH.
  intros (Hi & Hs & HC). rewrite Hn by auto. split_and!; [done| |].
  - eapply repr_frame; [auto| |done].
    unfold leaf_ids. intros i Hi'. apply Hl. destruct (fr_left f); auto.
  - apply IH; [auto| |done]. intros i [?|?]; auto.
Qed.

(** The frame just above the hole may be redirected to another subtree. *)
Lemma repr_ctx_redirect ns ls p f C h h' :
  fr_id f ∉ node_ids (fr_sib f) ++ ctx_nodes C →
  repr_ctx ns ls p (f :: C) h →
  repr_ctx (<[fr_id f := frame_node f (hole_parent p C) h']> ns) ls p (f :: C) h'.
Proof.
  intros Hf (Hi & Hs & HC). simpl. rewrite lookup_insert_eq.
  split_and!; [done| |].
  - eapply repr_frame; [|done..]. intros i Hin. apply lookup_insert_ne. set_solver.
  - eapply repr_ctx_frame; [|done..]. intros i Hin. apply lookup_insert_ne. set_solver.
Qed.

(** The root of a subtree may be given another parent. *)
Definition reparent_nodes (p : Z) (s : shape) ns : gmap Z InternalNode :=
  match s with SLeaf _ _ => ns | SNode i _ _ _ => alter (with_parent p) i ns end.
Definition reparent_leaves (p : Z) (s : shape) ls : gmap Z (LeafNode V) :=
  match s with SLeaf i _ => alter (leaf_with_parent p) i ls | SNode _ _ _ _ => ls end.

Lemma reparent_nodes_ne p s ns i :
  i ∉ node_ids s → reparent_nodes p s ns !! i = ns !! i.
Proof. destruct s; simpl; [done|]. intros ?. apply lookup_alter_ne. set_solver. Qed.

Lemma reparent_leaves_ne p s ls i :
  i ∉ leaf_ids s → reparent_leaves p s ls !! i = ls !! i.
Proof. unfold leaf_ids. destruct s; simpl; [|done]. intros ?. apply lookup_alter_ne. set_solver. Qed.

Lemma repr_reparent ns ls p p' s :
  NoDup (node_ids s) →
  repr ns ls p s → repr (reparent_nodes p' s ns) (reparent_leaves p' s ls) p' s.
Proof.
  destruct s as [i k|i b l r]; simpl.
  - intros _ [v Hv]. exists v. by rewrite lookup_alter_eq, Hv.
  - intros [Hi _]%NoDup_cons (Hn & Hl & Hr). rewrite lookup_alter_eq, Hn.
    split_and!; [done| |].
    + eapply repr_frame; [|done..]. intros j Hj. apply lookup_alter_ne. set_solver.
    + eapply repr_frame; [|done..]. intros j Hj. apply lookup_alter_ne. set_solver.
Qed.

(** Leaf keys and leaf values do not depend on the parents. *)
Lemma repr_entry ns ls p s k i :
  repr ns ls p s → (k, i) ∈ entries s → ∃ q v, ls !! i = Some (mkLeafNode q k v).
Proof.
  revert p. induction s as [i' k'|i' b l IHl r IHr]; intros p; simpl.
  - intros [v Hv] Hin%list_elem_of_singleton. injection Hin as -> ->. eauto.
  - intros (_ & Hl & Hr) [Hin|Hin]%elem_of_app; eauto.
Qed.
End Repr.

(** ** Indices in range *)
Section Ids.
Context `{OrderBookIndex}.

Definition leaf_id_ok (i : Z) : Prop := 0 ≤ i < CAPACITY.
Definition node_id_ok (i : Z) : Prop := 0 ≤ i < PARTITION_INDEX.
Definition ids_ok (s : shape) : Prop :=
  Forall leaf_id_ok (leaf_ids s) ∧ Forall node_id_ok (node_ids s).

Lemma ids_ok_plug C s :
  ids_ok (plug C s) ↔
  ids_ok s ∧ Forall leaf_id_ok (ctx_leaves C) ∧ Forall node_id_ok (ctx_nodes C).
Proof.
  unfold ids_ok. rewrite leaf_ids_plug, node_ids_plug, !Forall_app. tauto.
Qed.

Lemma ids_ok_SNode i b l r :
  ids_ok (SNode i b l r) ↔ node_id_ok i ∧ ids_ok l ∧ ids_ok r.
Proof.
  unfold ids_ok, leaf_ids. simpl. rewrite fmap_app, Forall_cons, !Forall_app. tauto.
Qed.

Lemma ids_ok_SLeaf i k : ids_ok (SLeaf i k) ↔ leaf_id_ok i.
Proof.
  unfold ids_ok, leaf_ids. simpl. rewrite Forall_singleton. split; [tauto|auto].
Qed.

(** The index of an internal node is below the partition index, that of a
    leaf above it. *)
Lemma tree_index_range s :
  ids_ok s →
  match s with
  | SLeaf _ _ => PARTITION_INDEX < tree_index s ≤ MAX_INDEX
  | SNode _ _ _ _ => 0 ≤ tree_index s < PARTITION_INDEX
  end.
Proof.
  pose proof MAX_INDEX_PARTITION. pose proof CAPACITY_PARTITION.
  destruct s; simpl; [rewrite ids_ok_SLeaf|rewrite ids_ok_SNode];
    unfold leaf_id_ok, node_id_ok; lia.
Qed.

Lemma tree_index_not_partition s : ids_ok s → tree_index s ≠ PARTITION_INDEX.
Proof. intros Hs%tree_index_range. destruct s; lia. Qed.

(** Subtrees with disjoint indices are told apart by their index. *)
Lemma tree_index_disjoint s1 s2 :
  ids_ok s1 → ids_ok s2 →
  (∀ i, i ∈ leaf_ids s1 → i ∉ leaf_ids s2) →
  (∀ i, i ∈ node_ids s1 → i ∉ node_ids s2) →
  tree_index s1 ≠ tree_index s2.
Proof.
  intros H1%tree_index_range H2%tree_index_range Hl Hn Heq.
  unfold leaf_ids in Hl.
  destruct s1, s2; simpl in *; try lia.
  - eapply Hl; [by apply list_elem_of_singleton|]. apply list_elem_of_singleton. lia.
  - subst. by apply (Hn i0); apply elem_of_cons; left.
Qed.
End Ids.

(** ** The critbit order *)
Section Crit.
Context `{OrderBookIndex}.

(** [crit ub s]: every mask of [s] is a bit below [ub]. *)
Fixpoint crit (ub : Z) (s : shape) : Prop :=
  match s with
  | SLeaf _ k => in_range BITS k
  | SNode _ b l r =>
      0 ≤ b < ub ∧ crit b l ∧ crit b r ∧
      (∀ x, x ∈ keys l → Z.testbit x b = false) ∧
      (∀ x, x ∈ keys r → Z.testbit x b = true) ∧
      (∀ x y, x ∈ keys l ++ keys r → y ∈ keys l ++ keys r → agree_above b x y)
  end.

Lemma keys_SNode i b l r : keys (SNode i b l r) = keys l ++ keys r.
Proof. unfold keys. simpl. by rewrite fmap_app. Qed.

Lemma crit_weaken ub ub' s : ub ≤ ub' → crit ub s → crit ub' s.
Proof. destruct s; simpl; [done|]. intros ? (? & ?). split; [lia|done]. Qed.

Lemma crit_key_range ub s k : crit ub s → k ∈ keys s → in_range BITS k.
Proof.
  revert ub. induction s as [i k'|i b l IHl r IHr]; intros ub.
  - intros Hk Hin%list_elem_of_singleton. by subst.
  - rewrite keys_SNode. intros (_ & Hl & Hr & _) [?|?]%elem_of_app; eauto.
Qed.

(** One internal node per bit. *)
Lemma crit_height ub s : 0 ≤ ub → crit ub s → Z.of_nat (height s) ≤ ub.
Proof.
  revert ub. induction s as [i k|i b l IHl r IHr]; intros ub Hub; simpl; [lia|].
  intros (Hb & Hl & Hr & _).
  pose proof (IHl b ltac:(lia) Hl). pose proof (IHr b ltac:(lia) Hr). lia.
Qed.

(** In-order keys are strictly increasing. *)
Lemma crit_sorted ub s : crit ub s → StronglySorted Z.lt (keys s).
Proof.
  revert ub. induction s as [i k|i b l IHl r IHr]; intros ub.
  - intros _. repeat constructor.
  - rewrite keys_SNode. intros (Hb & Hl & Hr & Hl0 & Hr1 & Hagree).
    apply StronglySorted_app. split_and!; [|by eapply IHl|by eapply IHr].
    intros x y Hx Hy. eapply agree_above_order; [apply Hb| |by apply Hl0|by apply Hr1].
    apply Hagree; apply elem_of_app; auto.
Qed.

(** Searching for a key that is present finds its leaf. *)
Lemma crit_follow ub s k i :
  crit ub s → (k, i) ∈ entries s → follow (toward k) s = (k, i).
Proof.
  revert ub. induction s as [i' k'|i' b l IHl r IHr]; intros ub; simpl.
  - intros _ Hin%list_elem_of_singleton. by rewrite Hin.
  - intros (_ & Hl & Hr & Hl0 & Hr1 & _) [Hin|Hin]%elem_of_app;
      unfold toward.
    + rewrite Hl0 by (apply elem_of_keys; eauto). simpl. eauto.
    + rewrite Hr1 by (apply elem_of_keys; eauto). simpl. eauto.
Qed.

Lemma crit_keys_NoDup ub s : crit ub s → NoDup (keys s).
Proof.
  intros Hc%crit_sorted. induction Hc as [|x l Hs IH Hx]; constructor; [|done].
  intros Hin. rewrite Forall_forall in Hx. specialize (Hx x Hin). lia.
Qed.

(** Bits at or above [b] coincide. *)
Definition agree_from (b x y : Z) : Prop := ∀ j, b ≤ j → Z.testbit x j = Z.testbit y j.

Lemma crit_fill1 ub f s :
  crit ub (fill1 f s) ↔
  0 ≤ fr_bit f < ub ∧ crit (fr_bit f) s ∧ crit (fr_bit f) (fr_sib f) ∧
  (∀ x, x ∈ keys s → Z.testbit x (fr_bit f) = negb (fr_left f)) ∧
  (∀ x, x ∈ keys (fr_sib f) → Z.testbit x (fr_bit f) = fr_left f) ∧
  (∀ x y, x ∈ keys s ++ keys (fr_sib f) → y ∈ keys s ++ keys (fr_sib f) →
     agree_above (fr_bit f) x y).
Proof.
  unfold fill1. destruct (fr_left f); simpl; [tauto|].
  setoid_rewrite elem_of_app. split; intros (? & ? & ? & ? & ? & Ha); split_and!; try (done || lia);
    intros x y ??; apply Ha; tauto.
Qed.

Lemma keys_fill1 f s x : x ∈ keys (fill1 f s) ↔ x ∈ keys s ∨ x ∈ keys (fr_sib f).
Proof.
  unfold keys. rewrite entries_fill1, !fmap_app, !elem_of_app.
  destruct (fr_left f); simpl; set_solver.
Qed.

Lemma crit_plug_hole ub C s : crit ub (plug C s) → crit (hole_bound ub C) s.
Proof.
  revert s. induction C as [|f C IH]; intros s; simpl; [done|].
  intros Hc%IH. apply crit_fill1 in Hc as (_ & Hs & _). done.
Qed.

Lemma hole_bound_le ub C s : crit ub (plug C s) → hole_bound ub C ≤ ub.
Proof.
  revert s. induction C as [|f C IH]; intros s; simpl; [lia|].
  intros Hc. pose proof (IH _ Hc). apply crit_plug_hole, crit_fill1 in Hc. lia.
Qed.

(** A subtree may be replaced by one whose keys look, from the hole up,
    like keys that were there before. *)
Lemma crit_replace ub C s s' :
  crit ub (plug C s) → crit (hole_bound ub C) s' →
  (∀ x, x ∈ keys s' → ∃ y, y ∈ keys s ∧ agree_from (hole_bound ub C) x y) →
  crit ub (plug C s').
Proof.
  revert s s'. induction C as [|f C IH]; intros s s'; simpl; [done|].
  intros Hc Hs' Hlike. pose proof (crit_plug_hole _ _ _ Hc) as Hf.
  apply crit_fill1 in Hf as (Hb & Hs & Hsib & Hhole & Hother & Hagree).
  setoid_rewrite elem_of_app in Hagree.
  assert (∀ x, x ∈ keys s' ∨ x ∈ keys (fr_sib f) →
            ∃ y, (y ∈ keys s ∨ y ∈ keys (fr_sib f)) ∧ agree_above (fr_bit f) x y) as Hup.
  { intros x [Hx|Hx]; [|exists x; split; [auto|apply agree_above_refl]].
    destruct (Hlike x Hx) as (y & Hy & Hxy). exists y. split; [auto|].
    intros j Hj. apply Hxy. lia. }
  apply (IH (fill1 f s)); [done| |].
  - apply crit_fill1. split_and!; [lia..|done|done| |done|].
    + intros x Hx. destruct (Hlike x Hx) as (y & Hy & Hxy).
      rewrite Hxy by lia. by apply Hhole.
    + setoid_rewrite elem_of_app. intros x y Hx Hy.
      destruct (Hup x Hx) as (x' & Hx' & Hxx). destruct (Hup y Hy) as (y' & Hy' & Hyy).
      eapply agree_above_trans; [done|]. eapply agree_above_trans; [by apply Hagree|].
      by apply agree_above_sym.
  - intros x Hx%keys_fill1. destruct (Hup x Hx) as (y & Hy & Hxy).
    exists y. split; [by apply keys_fill1|]. intros j Hj. apply Hxy. lia.
Qed.
End Crit.
