(* ===== verification/CritbitOps.v ===== *)
(** * The critbit tree invariant and the read-only operations

    [tree_wf] is the invariant of [CritbitTree]; [contents] is the finite map
    from keys to values that a tree stands for.  On a well-formed tree the
    searches terminate within [loop_fuel] steps without an error and compute
    what their names say: [find_leaf] decides membership, [min_leaf] and
    [max_leaf] are the extreme keys, [next_leaf] and [previous_leaf] the
    neighbours in key order. *)
From S2P Require Import Prelude Index Critbit CritbitShape.
From Stdlib Require Import Bool.

Section Invariant.
Context `{OrderBookIndex} {V : Type}.
Implicit Types (t : CritbitTree V) (s : shape).

Definition is_least s (i : Z) : Prop :=
  ∃ k, (k, i) ∈ entries s ∧ ∀ k', k' ∈ keys s → k ≤ k'.
Definition is_greatest s (i : Z) : Prop :=
  ∃ k, (k, i) ∈ entries s ∧ ∀ k', k' ∈ keys s → k' ≤ k.

Record tree_shape t s : Prop := {
  ts_root : root t = tree_index s;
  ts_repr : repr (internal_nodes t) (leaves t) PARTITION_INDEX s;
  ts_crit : crit BITS s;
  ts_next : 0 ≤ next_internal_node_index t < next_leaf_node_index t
            ∧ next_leaf_node_index t ≤ CAPACITY;
  ts_leaf_ids : Forall (λ i, 0 ≤ i < next_leaf_node_index t) (leaf_ids s);
  ts_node_ids : Forall (λ i, 0 ≤ i < next_internal_node_index t) (node_ids s);
  ts_leaf_nodup : NoDup (leaf_ids s);
  ts_node_nodup : NoDup (node_ids s);
  ts_leaf_dom : ∀ i, is_Some (leaves t !! i) ↔ i ∈ leaf_ids s;
  ts_node_dom : ∀ i, is_Some (internal_nodes t !! i) ↔ i ∈ node_ids s;
  ts_min : is_least s (min_leaf_index t);
  ts_max : is_greatest s (max_leaf_index t)
}.

Definition tree_wf t : Prop := t = new ∨ ∃ s, tree_shape t s.

(** The map from keys to values held by the leaves. *)
Definition payload (l : LeafNode V) : Z * V := (lf_key l, lf_value l).
Definition contents t : gmap Z V :=
  list_to_map (map_to_list (payload <$> leaves t)).*2.

Lemma new_wf : tree_wf new.
Proof. by left. Qed.

Lemma leaves_new : leaves (V:=V) new = ∅.
Proof. done. Qed.

Section WithShape.
Context (t : CritbitTree V) (s : shape) (Hts : tree_shape t s).

Lemma ts_ids : ids_ok s.
Proof.
  destruct (ts_next _ _ Hts) as [Hn Hc]. pose proof CAPACITY_PARTITION. split.
  - eapply Forall_impl; [apply (ts_leaf_ids _ _ Hts)|]. unfold leaf_id_ok. simpl. lia.
  - eapply Forall_impl; [apply (ts_node_ids _ _ Hts)|]. unfold node_id_ok. simpl. lia.
Qed.

Lemma ts_leaf_entry i lf : leaves t !! i = Some lf → (lf_key lf, i) ∈ entries s.
Proof.
  intros Hi. assert (i ∈ leaf_ids s) as Hin by (apply (ts_leaf_dom _ _ Hts); eauto).
  apply elem_of_leaf_ids in Hin as [k Hk].
  destruct (repr_entry _ _ _ _ _ _ (ts_repr _ _ Hts) Hk) as (q & v & Hv).
  rewrite Hv in Hi. by injection Hi as <-.
Qed.

Lemma ts_entry_leaf k i : (k, i) ∈ entries s → ∃ q v, leaves t !! i = Some (mkLeafNode q k v).
Proof. apply (repr_entry _ _ _ _ _ _ (ts_repr _ _ Hts)). Qed.

Lemma ts_entry_key_unique k i j : (k, i) ∈ entries s → (k, j) ∈ entries s → i = j.
Proof.
  intros Hi Hj. pose proof (crit_follow _ _ _ _ (ts_crit _ _ Hts) Hi) as H1.
  rewrite (crit_follow _ _ _ _ (ts_crit _ _ Hts) Hj) in H1. by injection H1 as <-.
Qed.

Lemma ts_leaf_unique k k' i : (k, i) ∈ entries s → (k', i) ∈ entries s → k = k'.
Proof.
  intros Hk Hk'. destruct (ts_entry_leaf _ _ Hk) as (q & v & Hv).
  destruct (ts_entry_leaf _ _ Hk') as (q' & v' & Hv'). congruence.
Qed.

Lemma ts_nonempty : leaves t ≠ ∅.
Proof.
  pose proof (follow_entries (λ _, true) s) as Hin.
  destruct (follow _ s) as [k i]. destruct (ts_entry_leaf _ _ Hin) as (q & v & Hv).
  intros Hempty. by rewrite Hempty, lookup_empty in Hv.
Qed.

Lemma ts_height : (height s ≤ Z.to_nat BITS)%nat.
Proof.
  assert (0 ≤ BITS) as Hb by (pose proof BITS_pos; lia).
  pose proof (crit_height BITS s Hb (ts_crit _ _ Hts)). lia.
Qed.
End WithShape.

Lemma contents_member t k v :
  (k, v) ∈ (map_to_list (payload <$> leaves t)).*2 ↔
  ∃ i q, leaves t !! i = Some (mkLeafNode q k v).
Proof.
  rewrite list_elem_of_fmap. setoid_rewrite elem_of_map_to_list'. split.
  - intros [[i kv] [Heq Hi]]. simpl in Heq, Hi. subst kv. rewrite lookup_fmap in Hi.
    destruct (leaves t !! i) as [[q k' v']|] eqn:Hl; [|done].
    unfold payload in Hi. simpl in Hi. simplify_eq. eauto.
  - intros (i & q & Hi). exists (i, (k, v)). simpl. by rewrite lookup_fmap, Hi.
Qed.

Lemma contents_lookup t k v :
  tree_wf t →
  contents t !! k = Some v ↔ ∃ i q, leaves t !! i = Some (mkLeafNode q k v).
Proof.
  intros Hwf. rewrite <-contents_member. split; [by apply elem_of_list_to_map_2|].
  intros Hin. apply elem_of_list_to_map_1'; [|done].
  intros v' Hin'. apply contents_member in Hin as (i & q & Hi).
  apply contents_member in Hin' as (j & q' & Hj).
  destruct Hwf as [->|[s Hts]]; [by rewrite leaves_new, lookup_empty in Hi|].
  pose proof (ts_leaf_entry t s Hts _ _ Hi) as H1.
  pose proof (ts_leaf_entry t s Hts _ _ Hj) as H2. simpl in *.
  pose proof (ts_entry_key_unique t s Hts _ _ _ H1 H2) as ->. by simplify_map_eq.
Qed.

Lemma contents_leaf t i lf :
  tree_wf t → leaves t !! i = Some lf → contents t !! lf_key lf = Some (lf_value lf).
Proof.
  intros Hwf Hi. apply contents_lookup; [done|]. exists i, (lf_parent lf). by destruct lf.
Qed.

Lemma contents_keys t s k : tree_shape t s → is_Some (contents t !! k) ↔ k ∈ keys s.
Proof.
  intros Hts. assert (tree_wf t) as Hwf by (right; eauto). split.
  - intros [v Hv]. apply contents_lookup in Hv as (i & q & Hi); [|done].
    apply elem_of_keys. exists i. apply (ts_leaf_entry t s Hts _ _ Hi).
  - intros [i Hi]%elem_of_keys. destruct (ts_entry_leaf t s Hts _ _ Hi) as (q & v & Hv).
    exists v. apply contents_lookup; eauto.
Qed.

Lemma contents_new : contents new = (∅ : gmap Z V).
Proof. done. Qed.
End Invariant.

Section Search.
Context `{OrderBookIndex} {V : Type}.
Implicit Types (t : CritbitTree V) (s : shape).

(** A descent follows the shape. *)
Lemma descend_follow t (dir : Z → bool) step s p fuel :
  (∀ b q (l r : Z), 0 ≤ b → step (mkInternalNode (2 ^ b) q l r) = if dir b then l else r) →
  repr (internal_nodes t) (leaves t) p s → (∃ ub, crit ub s) → ids_ok s →
  (height s ≤ fuel)%nat →
  descend fuel t step (tree_index s) = Ok (MAX_INDEX - (follow dir s).2).
Proof.
  intros Hstep. revert p fuel.
  induction s as [i k|i b l IHl r IHr]; intros p fuel Hr [ub Hc] Hids Hf.
  - pose proof (tree_index_range _ Hids) as Hi. simpl in Hi.
    destruct fuel; simpl; destruct (Z.ltb_spec (MAX_INDEX - i) PARTITION_INDEX); try lia; done.
  - pose proof (tree_index_range _ Hids) as Hi. simpl in Hi, Hf.
    destruct fuel as [|fuel]; [lia|]. simpl.
    destruct (Z.ltb_spec i PARTITION_INDEX); [|lia].
    destruct Hr as (Hn & Hrl & Hrr). destruct Hc as (Hb & Hcl & Hcr & _).
    apply ids_ok_SNode in Hids as (_ & Hil & Hir).
    rewrite Hn. simpl. rewrite Hstep by lia.
    destruct (dir b); [eapply IHl|eapply IHr]; eauto; lia.
Qed.

Lemma branch_toward key b q l r :
  0 ≤ b → branch key (mkInternalNode (2 ^ b) q l r) = if toward key b then l else r.
Proof. intros Hb. unfold branch, toward. simpl. by rewrite land_pow2_eqb. Qed.

(** The search of [get_closest_leaf_index] needs only the links, not the
    whole invariant: [insert] runs it with an unlinked leaf in the map. *)
Lemma get_closest_repr t s key :
  root t = tree_index s → repr (internal_nodes t) (leaves t) PARTITION_INDEX s →
  crit BITS s → ids_ok s →
  get_closest_leaf_index t key = Ok (Some (follow (toward key) s).2).
Proof.
  intros Hroot Hr Hc Hids. unfold get_closest_leaf_index. rewrite Hroot.
  destruct (Z.eqb_spec (tree_index s) PARTITION_INDEX) as [He|_];
    [by apply tree_index_not_partition in He|].
  rewrite (descend_follow t (toward key) _ s PARTITION_INDEX);
    [run_step; do 2 f_equal; lia|apply branch_toward|done|eauto|done|].
  assert (0 ≤ BITS) as Hb by (pose proof BITS_pos; lia).
  pose proof (crit_height BITS s Hb Hc). unfold loop_fuel. lia.
Qed.

Section WithShape.
Context (t : CritbitTree V) (s : shape) (Hts : tree_shape t s).

Lemma get_closest_shape key :
  get_closest_leaf_index t key = Ok (Some (follow (toward key) s).2).
Proof. apply get_closest_repr; try apply Hts. by apply (ts_ids t). Qed.

(** [find_leaf] finds exactly the keys of the tree. *)
Lemma find_leaf_shape key :
  find_leaf t key =
  Ok (if decide (key ∈ keys s) then Some (follow (toward key) s).2 else None).
Proof.
  unfold find_leaf. rewrite get_closest_shape. simpl.
  pose proof (follow_entries (toward key) s) as Hin.
  destruct (follow (toward key) s) as [k i] eqn:Hf. simpl.
  destruct (ts_entry_leaf t s Hts _ _ Hin) as (q & v & ->). simpl.
  destruct (Z.eqb_spec k key) as [->|Hne]; simpl; case_decide as Hk; try done.
  - exfalso. apply Hk, elem_of_keys. eauto.
  - exfalso. apply elem_of_keys in Hk as [j Hj].
    rewrite (crit_follow _ _ _ _ (ts_crit _ _ Hts) Hj) in Hf. by injection Hf as <- <-.
Qed.

Lemma find_leaf_entry k i : (k, i) ∈ entries s → find_leaf t k = Ok (Some i).
Proof.
  intros Hin. rewrite find_leaf_shape.
  rewrite decide_True by (apply elem_of_keys; eauto).
  by rewrite (crit_follow _ _ _ _ (ts_crit _ _ Hts) Hin).
Qed.
End WithShape.

(** The functional specification of [find_leaf]: no error, termination,
    and membership in [contents]. *)
Lemma find_leaf_spec t key :
  tree_wf t →
  match contents t !! key with
  | Some v => ∃ i q, find_leaf t key = Ok (Some i) ∧ leaves t !! i = Some (mkLeafNode q key v)
  | None => find_leaf t key = Ok None
  end.
Proof.
  intros [->|[s Hts]].
  - rewrite contents_new, lookup_empty. unfold find_leaf, get_closest_leaf_index. simpl.
    by rewrite Z.eqb_refl.
  - assert (tree_wf t) as Hwf by (right; eauto).
    destruct (contents t !! key) as [v|] eqn:Hk.
    + apply contents_lookup in Hk as (i & q & Hi); [|done]. exists i, q.
      split; [|done]. eapply find_leaf_entry; [done|].
      apply (ts_leaf_entry t s Hts _ _ Hi).
    + rewrite (find_leaf_shape t s Hts), decide_False; [done|].
      intros Hin. apply (contents_keys t s key Hts) in Hin as [? ?]. congruence.
Qed.
End Search.

(** ** Extreme keys *)
Section Extremes.
Context `{OrderBookIndex} {V : Type}.
Implicit Types (t : CritbitTree V) (s : shape).

Definition least_key (m : gmap Z V) (k : Z) : Prop :=
  is_Some (m !! k) ∧ ∀ k', is_Some (m !! k') → k ≤ k'.
Definition greatest_key (m : gmap Z V) (k : Z) : Prop :=
  is_Some (m !! k) ∧ ∀ k', is_Some (m !! k') → k' ≤ k.

Lemma contents_empty t : tree_wf t → contents t = ∅ ↔ t = new.
Proof.
  intros [->|[s Hts]]; [by rewrite contents_new|]. split; [|by intros ->; rewrite contents_new].
  intros Hc. exfalso. pose proof (follow_entries (λ _, true) s) as Hin.
  destruct (follow _ s) as [k i].
  assert (is_Some (contents t !! k)) as [v Hv]
    by (apply (contents_keys t s k Hts), elem_of_keys; eauto).
  by rewrite Hc, lookup_empty in Hv.
Qed.

Lemma min_leaf_spec t :
  tree_wf t →
  (contents t = ∅ ∧ min_leaf t = Ok None) ∨
  (∃ k i, min_leaf t = Ok (Some (k, i)) ∧ least_key (contents t) k ∧
          find_leaf t k = Ok (Some i)).
Proof.
  intros [->|[s Hts]]; [by left|]. right.
  destruct (ts_min _ _ Hts) as (k & Hin & Hle).
  destruct (ts_entry_leaf t s Hts _ _ Hin) as (q & v & Hv).
  exists k, (min_leaf_index t). split_and!.
  - unfold min_leaf. rewrite decide_False by apply (ts_nonempty t s Hts). by rewrite Hv.
  - split; [apply (contents_keys t s k Hts), elem_of_keys; eauto|].
    intros k' Hk'. apply Hle. by apply (contents_keys t s k' Hts).
  - by apply (find_leaf_entry t s Hts).
Qed.

Lemma max_leaf_spec t :
  tree_wf t →
  (contents t = ∅ ∧ max_leaf t = Ok None) ∨
  (∃ k i, max_leaf t = Ok (Some (k, i)) ∧ greatest_key (contents t) k ∧
          find_leaf t k = Ok (Some i)).
Proof.
  intros [->|[s Hts]]; [by left|]. right.
  destruct (ts_max _ _ Hts) as (k & Hin & Hle).
  destruct (ts_entry_leaf t s Hts _ _ Hin) as (q & v & Hv).
  exists k, (max_leaf_index t). split_and!.
  - unfold max_leaf. rewrite decide_False by apply (ts_nonempty t s Hts). by rewrite Hv.
  - split; [apply (contents_keys t s k Hts), elem_of_keys; eauto|].
    intros k' Hk'. apply Hle. by apply (contents_keys t s k' Hts).
  - by apply (find_leaf_entry t s Hts).
Qed.
End Extremes.

(** ** Neighbours in key order *)
Section Neighbours.
Context `{OrderBookIndex} {V : Type}.
Implicit Types (t : CritbitTree V) (s : shape) (C : list frame).

Lemma plug_app C1 C2 s : plug (C1 ++ C2) s = plug C2 (plug C1 s).
Proof. revert s. induction C1; simpl; auto. Qed.

(** The context left after climbing past the frames on the given side. *)
Fixpoint skip (side : bool) C : list frame :=
  match C with
  | [] => []
  | f :: C' => if Bool.eqb (fr_left f) side then skip side C' else C
  end.

Lemma skip_suffix side C : ∃ C1, C = C1 ++ skip side C.
Proof.
  induction C as [|f C [C1 IH]]; simpl; [by exists []|].
  destruct (Bool.eqb _ _); [exists (f :: C1); simpl; congruence|by exists []].
Qed.

Lemma skip_cons side C f C' : skip side C = f :: C' → fr_left f = negb side.
Proof.
  induction C as [|g C IH]; simpl; [done|].
  destruct (fr_left g) eqn:?, side; simpl; auto; by intros [= -> ->].
Qed.

Lemma after_skip C :
  head (after C) =
  match skip false C with [] => None | f :: _ => Some (follow (λ _, true) (fr_sib f)) end.
Proof.
  induction C as [|f C IH]; simpl; [done|].
  destruct (fr_left f); simpl; [|done].
  rewrite <-follow_leftmost. destruct (entries (fr_sib f)) eqn:He; [|done].
  by apply entries_nonempty in He.
Qed.

Lemma before_skip C :
  last (before C) =
  match skip true C with [] => None | f :: _ => Some (follow (λ _, false) (fr_sib f)) end.
Proof.
  induction C as [|f C IH]; simpl; [done|].
  destruct (fr_left f); simpl; [by rewrite app_nil_r|].
  rewrite last_app, <-follow_rightmost. destruct (entries (fr_sib f)) eqn:He; [|].
  - by apply entries_nonempty in He.
  - destruct (last (p :: l)) eqn:Hl; [done|]. by apply last_None in Hl.
Qed.

Lemma height_fill1 f s : (height s < height (fill1 f s))%nat.
Proof. unfold fill1. destruct (fr_left f); simpl; lia. Qed.

Lemma length_ctx_height C s : (length C + height s ≤ height (plug C s))%nat.
Proof.
  revert s. induction C as [|f C IH]; intros s; simpl; [lia|].
  pose proof (IH (fill1 f s)). pose proof (height_fill1 f s). lia.
Qed.

(** The hole of a frame is a left child exactly when the frame says so. *)
Lemma is_left_child_frame t f p s :
  ids_ok (fill1 f s) → NoDup (leaf_ids (fill1 f s)) → NoDup (node_ids (fill1 f s)) →
  internal_nodes t !! fr_id f = Some (frame_node f p (tree_index s)) →
  is_left_child t (fr_id f) (tree_index s) = fr_left f.
Proof.
  intros Hids Hnl Hnn Hf. unfold is_left_child. rewrite Hf. simpl.
  unfold fill1, leaf_ids in *. destruct (fr_left f); [apply Z.eqb_refl|].
  apply Z.eqb_neq. simpl in *. rewrite fmap_app in Hnl.
  apply ids_ok_SNode in Hids as (_ & ? & ?).
  apply NoDup_cons in Hnn as [_ Hnn]. apply NoDup_app in Hnn as (_ & Hn & _).
  apply NoDup_app in Hnl as (_ & Hl & _). by apply tree_index_disjoint.
Qed.

Section WithShape.
Context (t : CritbitTree V) (s : shape) (Hts : tree_shape t s).

(** What the invariant says at any split of the tree. *)
Lemma ts_split C sub :
  s = plug C sub →
  repr_ctx (internal_nodes t) (leaves t) PARTITION_INDEX C (tree_index sub) ∧
  repr (internal_nodes t) (leaves t) (hole_parent PARTITION_INDEX C) sub ∧
  crit (hole_bound BITS C) sub ∧ ids_ok sub ∧
  NoDup (leaf_ids sub) ∧ NoDup (node_ids sub).
Proof.
  intros ->. pose proof (ts_ids t _ Hts) as Hids.
  destruct (proj1 (repr_plug _ _ _ _ _) (ts_repr _ _ Hts)) as [HC Hsub].
  apply ids_ok_plug in Hids as [Hids _].
  pose proof (ts_leaf_nodup _ _ Hts) as Hl. pose proof (ts_node_nodup _ _ Hts) as Hn.
  rewrite leaf_ids_plug in Hl. rewrite node_ids_plug in Hn.
  apply NoDup_app in Hl as [Hl _]. apply NoDup_app in Hn as [Hn _].
  split_and!; try done. by apply crit_plug_hole, Hts.
Qed.

Lemma climb_skip side C sub fuel :
  s = plug C sub → (length C ≤ fuel)%nat →
  climb fuel t side (tree_index sub) (hole_parent PARTITION_INDEX C) =
  Ok (hole_parent PARTITION_INDEX (skip side C)).
Proof.
  revert sub fuel. induction C as [|f C IH]; intros sub fuel Hs Hf; simpl in Hf.
  - simpl. destruct fuel; simpl; by rewrite Z.eqb_refl.
  - destruct (ts_split (f :: C) sub Hs) as ((Hn & Hsib & HC) & _).
    destruct (ts_split C (fill1 f sub) Hs) as (_ & _ & _ & Hids & Hl & Hno).
    destruct fuel as [|fuel]; [lia|]. simpl.
    rewrite (is_left_child_frame t f _ sub Hids Hl Hno Hn).
    pose proof (tree_index_not_partition _ Hids) as Hne. rewrite tree_index_fill1 in Hne.
    destruct (Z.eqb_spec (fr_id f) PARTITION_INDEX); [done|]. simpl.
    destruct (Bool.eqb (fr_left f) side) eqn:?; [|done].
    rewrite Hn. simpl. rewrite <-(tree_index_fill1 f sub). apply IH; [done|lia].
Qed.

Lemma ts_ctx_length C sub : s = plug C sub → (length C ≤ loop_fuel)%nat.
Proof.
  intros ->. pose proof (length_ctx_height C sub).
  pose proof (ts_height t _ Hts). unfold loop_fuel. lia.
Qed.

(** The frame where a climb stops, and the subtree beside it. *)
Lemma ts_skip_frame side C sub f C' dir step :
  s = plug C sub → skip side C = f :: C' →
  (∀ b q (l r : Z), 0 ≤ b → step (mkInternalNode (2 ^ b) q l r) = if (dir b : bool) then l else r) →
  (∃ h p, internal_nodes t !! fr_id f = Some (frame_node f p h)) ∧
  fr_id f ≠ PARTITION_INDEX ∧ tree_index (fr_sib f) ≠ PARTITION_INDEX ∧
  descend loop_fuel t step (tree_index (fr_sib f)) = Ok (MAX_INDEX - (follow dir (fr_sib f)).2) ∧
  ∃ q v, leaves t !! (follow dir (fr_sib f)).2 =
         Some (mkLeafNode q (follow dir (fr_sib f)).1 v).
Proof.
  intros Hs Hskip Hstep. destruct (skip_suffix side C) as [C1 HC1].
  rewrite HC1, plug_app, Hskip in Hs.
  destruct (ts_split (f :: C') _ Hs) as ((Hn & Hsib & HC) & _).
  destruct (ts_split C' (fill1 f (plug C1 sub)) Hs) as (_ & _ & Hc & Hids & _ & _).
  pose proof (tree_index_not_partition _ Hids) as Hne. rewrite tree_index_fill1 in Hne.
  apply crit_fill1 in Hc as (Hb & _ & Hcs & _).
  assert (ids_ok (fr_sib f)) as Hidf.
  { unfold fill1 in Hids. destruct (fr_left f); apply ids_ok_SNode in Hids; tauto. }
  split_and!; [eauto|done|by apply tree_index_not_partition| |].
  - eapply descend_follow; [done..|eauto|done|].
    pose proof (crit_height _ _ (proj1 Hb) Hcs).
    pose proof (ts_crit _ _ Hts) as Hcrit. rewrite Hs in Hcrit.
    pose proof (hole_bound_le BITS C' _ Hcrit).
    unfold loop_fuel. lia.
  - eapply (repr_entry _ _ _ (fr_sib f)); [done|].
    rewrite <-surjective_pairing. apply follow_entries.
Qed.

Lemma next_leaf_shape C k i :
  s = plug C (SLeaf i k) → next_leaf t k = Ok (head (after C)).
Proof.
  intros Hs. assert ((k, i) ∈ entries s) as Hin by (rewrite Hs, entries_plug; set_solver).
  unfold next_leaf. rewrite (find_leaf_entry t s Hts _ _ Hin). run_step.
  destruct (ts_split C _ Hs) as (HC & [v Hv] & _). rewrite Hv. run_step.
  pose proof (climb_skip false C (SLeaf i k) loop_fuel Hs (ts_ctx_length _ _ Hs)) as Hcl.
  cbn [tree_index] in Hcl. cbn [lf_parent]. rewrite Hcl. run_step.
  rewrite after_skip. destruct (skip false C) as [|f C'] eqn:Hskip; cbn [hole_parent];
    [by rewrite Z.eqb_refl|].
  destruct (ts_skip_frame _ _ _ _ _ (λ _, true) in_left Hs Hskip)
    as ([h [p Hn]] & Hne & _ & Hd & q & v' & Hv'); [done|].
  apply Z.eqb_neq in Hne. rewrite Hne, Hn. run_step.
  pose proof (skip_cons _ _ _ _ Hskip) as Hleft. unfold frame_node. cbn [in_left in_right]. rewrite Hleft. cbn [negb].
  unfold left_most_leaf. rewrite Hd. run_step.
  replace (MAX_INDEX - (MAX_INDEX - (follow (λ _, true) (fr_sib f)).2))
    with (follow (λ _, true) (fr_sib f)).2 by lia.
  rewrite Hv'. run_step. by destruct (follow _ _).
Qed.

Lemma previous_leaf_shape C k i :
  s = plug C (SLeaf i k) → previous_leaf t k = Ok (last (before C)).
Proof.
  intros Hs. assert ((k, i) ∈ entries s) as Hin by (rewrite Hs, entries_plug; set_solver).
  unfold previous_leaf. rewrite (find_leaf_entry t s Hts _ _ Hin). run_step.
  destruct (ts_split C _ Hs) as (HC & [v Hv] & _). rewrite Hv. run_step.
  pose proof (climb_skip true C (SLeaf i k) loop_fuel Hs (ts_ctx_length _ _ Hs)) as Hcl.
  cbn [tree_index] in Hcl. cbn [lf_parent]. rewrite Hcl. run_step.
  rewrite before_skip. destruct (skip true C) as [|f C'] eqn:Hskip; cbn [hole_parent];
    [by rewrite Z.eqb_refl|].
  destruct (ts_skip_frame _ _ _ _ _ (λ _, false) in_right Hs Hskip)
    as ([h [p Hn]] & Hne & Hne' & Hd & q & v' & Hv'); [done|].
  apply Z.eqb_neq in Hne, Hne'. rewrite Hne, Hn. run_step.
  pose proof (skip_cons _ _ _ _ Hskip) as Hleft. unfold frame_node. cbn [in_left in_right]. rewrite Hleft. cbn [negb].
  unfold right_most_leaf. rewrite Hne', Hd. run_step.
  replace (MAX_INDEX - (MAX_INDEX - (follow (λ _, false) (fr_sib f)).2))
    with (follow (λ _, false) (fr_sib f)).2 by lia.
  rewrite Hv'. run_step. by destruct (follow _ _).
Qed.

Lemma ts_keys_middle C k i :
  s = plug C (SLeaf i k) → StronglySorted Z.lt ((before C).*1 ++ k :: (after C).*1).
Proof.
  intros ->. pose proof (crit_sorted _ _ (ts_crit _ _ Hts)) as Hs.
  unfold keys in Hs. by rewrite entries_plug, !fmap_app in Hs.
Qed.
End WithShape.

(** [k'] is the least key of [m] above [k]; the greatest one below. *)
Definition succ_key (m : gmap Z V) (k k' : Z) : Prop :=
  is_Some (m !! k') ∧ k < k' ∧ ∀ x, is_Some (m !! x) → k < x → k' ≤ x.
Definition pred_key (m : gmap Z V) (k k' : Z) : Prop :=
  is_Some (m !! k') ∧ k' < k ∧ ∀ x, is_Some (m !! x) → x < k → x ≤ k'.

Lemma head_fmap_fst (l : list (Z * Z)) k i : head l = Some (k, i) → head l.*1 = Some k.
Proof. destruct l; [done|]. simpl. by intros [= ->]. Qed.

Lemma last_fmap_fst (l : list (Z * Z)) k i : last l = Some (k, i) → last l.*1 = Some k.
Proof. intros [l' ->]%last_Some. by rewrite fmap_app, last_app. Qed.

Lemma shape_member_split C k i x :
  x ∈ keys (plug C (SLeaf i k)) ↔ x ∈ (before C).*1 ∨ x = k ∨ x ∈ (after C).*1.
Proof.
  rewrite keys_plug, !elem_of_app. unfold keys. simpl. rewrite list_elem_of_singleton. tauto.
Qed.

Lemma next_leaf_contents t k :
  tree_wf t → is_Some (contents t !! k) →
  (∃ k' i, next_leaf t k = Ok (Some (k', i)) ∧ succ_key (contents t) k k' ∧
           find_leaf t k' = Ok (Some i)) ∨
  (next_leaf t k = Ok None ∧ greatest_key (contents t) k).
Proof.
  intros [->|[s Hts]] Hk; [by rewrite contents_new, lookup_empty in Hk; destruct Hk|].
  pose proof Hk as Hin. apply (contents_keys t s k Hts), elem_of_keys in Hin as [i Hi].
  destruct (entries_context s k i Hi) as [C Hs].
  pose proof (ts_keys_middle t s Hts C k i Hs) as (Hbef & Haft & _ & Hsort)%sorted_middle.
  assert (∀ x, is_Some (contents t !! x) ↔ x ∈ (before C).*1 ∨ x = k ∨ x ∈ (after C).*1) as Hmem
    by (intros x; rewrite (contents_keys t s x Hts), Hs; apply shape_member_split).
  rewrite (next_leaf_shape t s Hts C k i Hs).
  destruct (head (after C)) as [[k' j]|] eqn:Hhead; [left|right].
  - pose proof (head_fmap_fst _ _ _ Hhead) as Hh1.
    assert ((k', j) ∈ after C) as Hj by (destruct (after C); simplify_eq/=; set_solver).
    assert (k' ∈ (after C).*1) as Hk' by (apply list_elem_of_fmap; by exists (k', j)).
    exists k', j. split_and!; [done| |].
    + split_and!; [apply Hmem; auto|by apply Haft|].
      intros x [Hx|[->|Hx]]%Hmem Hlt; [specialize (Hbef x Hx); lia|lia|].
      by eapply sorted_head_least.
    + apply (find_leaf_entry t s Hts). rewrite Hs, entries_plug. set_solver.
  - split; [done|]. split; [done|]. intros x [Hx|[->|Hx]]%Hmem; [|lia|].
    + specialize (Hbef x Hx). lia.
    + by destruct (after C); [apply not_elem_of_nil in Hx|].
Qed.

Lemma previous_leaf_contents t k :
  tree_wf t → is_Some (contents t !! k) →
  (∃ k' i, previous_leaf t k = Ok (Some (k', i)) ∧ pred_key (contents t) k k' ∧
           find_leaf t k' = Ok (Some i)) ∨
  (previous_leaf t k = Ok None ∧ least_key (contents t) k).
Proof.
  intros [->|[s Hts]] Hk; [by rewrite contents_new, lookup_empty in Hk; destruct Hk|].
  pose proof Hk as Hin. apply (contents_keys t s k Hts), elem_of_keys in Hin as [i Hi].
  destruct (entries_context s k i Hi) as [C Hs].
  pose proof (ts_keys_middle t s Hts C k i Hs) as (Hbef & Haft & Hsort & _)%sorted_middle.
  assert (∀ x, is_Some (contents t !! x) ↔ x ∈ (before C).*1 ∨ x = k ∨ x ∈ (after C).*1) as Hmem
    by (intros x; rewrite (contents_keys t s x Hts), Hs; apply shape_member_split).
  rewrite (previous_leaf_shape t s Hts C k i Hs).
  destruct (last (before C)) as [[k' j]|] eqn:Hlast; [left|right].
  - pose proof (last_fmap_fst _ _ _ Hlast) as Hl1.
    assert ((k', j) ∈ before C) as Hj by (apply last_Some in Hlast as [? ->]; set_solver).
    assert (k' ∈ (before C).*1) as Hk' by (apply list_elem_of_fmap; by exists (k', j)).
    exists k', j. split_and!; [done| |].
    + split_and!; [apply Hmem; auto|by apply Hbef|].
      intros x [Hx|[->|Hx]]%Hmem Hlt; [|lia|specialize (Haft x Hx); lia].
      by eapply sorted_last_greatest.
    + apply (find_leaf_entry t s Hts). rewrite Hs, entries_plug. set_solver.
  - split; [done|]. apply last_None in Hlast. split; [done|].
    intros x [Hx|[->|Hx]]%Hmem; [|lia|].
    + rewrite Hlast in Hx. by apply not_elem_of_nil in Hx.
    + specialize (Haft x Hx). lia.
Qed.
End Neighbours.
