(* ===== verification/CritbitInsert.v ===== *)
(** * Insertion into the critbit tree

    [insert] finds the slot where the new critical bit belongs, links a new
    internal node there and keeps the invariant; on [contents] it is the
    insertion of the key.  A key that is present, and a tree whose leaf
    indices are used up, are reported as errors. *)
From S2P Require Import Prelude Index Critbit CritbitShape CritbitOps.
From Stdlib Require Import Bool.

(** ** Linking a child below a parent *)
Section UpdateRef.
Context `{OrderBookIndex} {V : Type}.
Implicit Types (t : CritbitTree V) (s : shape).

Lemma update_ref_node t parent child is_left nd cnd :
  internal_nodes t !! parent = Some nd → child < PARTITION_INDEX →
  <[parent := with_child is_left child nd]> (internal_nodes t) !! child = Some cnd →
  update_ref parent child is_left t =
  (Ok (), set_internal_nodes
            (<[child := with_parent parent cnd]>
               (<[parent := with_child is_left child nd]> (internal_nodes t))) t).
Proof.
  intros Hp Hc Hcnd. unfold update_ref. run_step. rewrite Hp. run_step.
  unfold insert_internal. run_step.
  destruct (Z.ltb_spec PARTITION_INDEX child); [lia|]. run_step.
  cbn [internal_nodes set_internal_nodes]. by rewrite Hcnd.
Qed.

Lemma update_ref_leaf t parent i is_left nd lf :
  internal_nodes t !! parent = Some nd → leaf_id_ok i → leaves t !! i = Some lf →
  update_ref parent (MAX_INDEX - i) is_left t =
  (Ok (), set_leaves (<[i := leaf_with_parent parent lf]> (leaves t))
            (set_internal_nodes
               (<[parent := with_child is_left (MAX_INDEX - i) nd]> (internal_nodes t)) t)).
Proof.
  unfold leaf_id_ok. intros Hp Hi Hlf. pose proof MAX_INDEX_PARTITION.
  pose proof CAPACITY_PARTITION. unfold update_ref. run_step. rewrite Hp. run_step.
  unfold insert_internal, insert_leaf. run_step.
  destruct (Z.ltb_spec PARTITION_INDEX (MAX_INDEX - i)); [|lia]. run_step.
  cbn [leaves set_internal_nodes]. replace (MAX_INDEX - (MAX_INDEX - i)) with i by lia.
  by rewrite Hlf.
Qed.

(** Linking a represented subtree: the parent's child field is redirected
    and the root of the subtree gets the new parent. *)
Lemma update_ref_shape t parent s p is_left nd :
  internal_nodes t !! parent = Some nd → repr (internal_nodes t) (leaves t) p s →
  ids_ok s → parent ∉ node_ids s →
  update_ref parent (tree_index s) is_left t =
  (Ok (), set_leaves (reparent_leaves parent s (leaves t))
            (set_internal_nodes
               (reparent_nodes parent s
                  (<[parent := with_child is_left (tree_index s) nd]> (internal_nodes t))) t)).
Proof.
  intros Hp Hr Hids Hnin. destruct s as [i k|i b l r]; simpl in *.
  - destruct Hr as [v Hv]. erewrite update_ref_leaf;
      [|done|by apply ids_ok_SLeaf in Hids|done].
    by rewrite (alter_lookup_Some _ _ _ _ Hv).
  - destruct Hr as (Hn & _). apply ids_ok_SNode in Hids as (Hi & _ & _).
    unfold node_id_ok in Hi.
    assert (parent ≠ i) as Hne by set_solver.
    erewrite update_ref_node; [|done|lia|by rewrite lookup_insert_ne].
    rewrite (alter_lookup_Some (with_parent parent) (<[parent:=_]> _) i
               (mkInternalNode (2 ^ b) p (tree_index l) (tree_index r)))
      by (by rewrite lookup_insert_ne).
    done.
Qed.

Lemma payload_leaf_with_parent (l : LeafNode V) p : payload (leaf_with_parent p l) = payload l.
Proof. by destruct l. Qed.

Lemma payload_reparent (ls : gmap Z (LeafNode V)) p s :
  payload <$> reparent_leaves p s ls = payload <$> ls.
Proof.
  destruct s as [i k|]; simpl; [|done]. apply map_eq. intros j.
  rewrite !lookup_fmap, lookup_alter. case_decide; subst; [|done].
  by destruct (ls !! j) as [[]|].
Qed.

Lemma reparent_leaves_is_Some (ls : gmap Z (LeafNode V)) p s i :
  is_Some (reparent_leaves p s ls !! i) ↔ is_Some (ls !! i).
Proof.
  destruct s as [j k|]; simpl; [|done]. rewrite lookup_alter. case_decide; subst; [|done].
  by rewrite fmap_is_Some.
Qed.

Lemma reparent_nodes_is_Some (ns : gmap Z InternalNode) p s i :
  is_Some (reparent_nodes p s ns !! i) ↔ is_Some (ns !! i).
Proof.
  destruct s as [|j b l r]; simpl; [done|]. rewrite lookup_alter. case_decide; subst; [|done].
  by rewrite fmap_is_Some.
Qed.
End UpdateRef.

(** ** The slot of a new critical bit *)
Section Slot.
Context `{OrderBookIndex} {V : Type}.
Implicit Types (t : CritbitTree V) (s : shape) (C : list frame).

Fixpoint slot (key d : Z) C s : list frame * shape :=
  match s with
  | SLeaf _ _ => (C, s)
  | SNode i b l r =>
      if b <? d then (C, s)
      else if Z.testbit key b then slot key d (Frame false i b l :: C) r
      else slot key d (Frame true i b r :: C) l
  end.

Lemma slot_plug key d C s : plug (slot key d C s).1 (slot key d C s).2 = plug C s.
Proof.
  revert C. induction s as [|i b l IHl r IHr]; intros C; simpl; [done|].
  destruct (b <? d); [done|]. destruct (Z.testbit key b); [by rewrite IHr|by rewrite IHl].
Qed.

Lemma find_slot_slot t key d C s p fuel :
  0 ≤ d → p = hole_parent PARTITION_INDEX C →
  (∃ q, repr (internal_nodes t) (leaves t) q s) → (∃ ub, crit ub s) → ids_ok s →
  (height s ≤ fuel)%nat →
  find_slot fuel t key (2 ^ d) (tree_index s) p =
  Ok (tree_index (slot key d C s).2, hole_parent PARTITION_INDEX (slot key d C s).1).
Proof.
  intros Hd. revert C p fuel.
  induction s as [i k|i b l IHl r IHr]; intros C p fuel -> [q Hr] [ub Hc] Hids Hf.
  - pose proof (tree_index_range _ Hids) as Hi. simpl in Hi.
    destruct fuel; simpl; destruct (Z.ltb_spec (MAX_INDEX - i) PARTITION_INDEX); try lia; done.
  - pose proof (tree_index_range _ Hids) as Hi. simpl in Hi, Hf.
    destruct fuel as [|fuel]; [lia|]. simpl.
    destruct (Z.ltb_spec i PARTITION_INDEX); [|lia].
    destruct Hr as (Hn & Hrl & Hrr). destruct Hc as (Hb & Hcl & Hcr & _).
    apply ids_ok_SNode in Hids as (_ & Hil & Hir). rewrite Hn. run_step. cbn [in_mask].
    rewrite branch_toward by lia. unfold toward.
    replace (2 ^ b <? 2 ^ d) with (b <? d)
      by (apply eq_true_iff_eq; rewrite !Z.ltb_lt; apply Z.pow_lt_mono_r_iff; lia).
    destruct (b <? d) eqn:?; [done|].
    destruct (Z.testbit key b); simpl; [apply IHr|apply IHl]; eauto; lia.
Qed.

(** Below the slot every bit is smaller than [d], above it every bit is
    larger, and the leaf closest to the key is below the slot. *)
Lemma slot_spec key d C s C' sub :
  slot key d C s = (C', sub) →
  crit (hole_bound BITS C) s → 0 ≤ d < hole_bound BITS C →
  Z.testbit key d ≠ Z.testbit (follow (toward key) s).1 d →
  d < hole_bound BITS C' ∧ crit d sub ∧
  follow (toward key) sub = follow (toward key) s ∧
  (∀ x, x ∈ keys sub → agree_from d x (follow (toward key) s).1).
Proof.
  revert C. induction s as [i k|i b l IHl r IHr]; intros C Hslot Hc Hd Hne; simpl in Hslot.
  - injection Hslot as <- <-. split_and!; [lia|done|done|].
    intros x Hx%list_elem_of_singleton. by subst.
  - destruct (Z.ltb_spec b d) as [Hlt|Hge].
    + injection Hslot as <- <-. pose proof Hc as (Hb & Hl & Hr & Hl0 & Hr1 & Hag).
      split_and!; [lia|split; [lia|done]|done|]. intros x Hx j Hj.
      rewrite keys_SNode in Hx. apply Hag; [done| |lia]. rewrite <-(keys_SNode i b).
      apply elem_of_keys. exists (follow (toward key) (SNode i b l r)).2.
      rewrite <-surjective_pairing. apply follow_entries.
    + destruct Hc as (Hb & Hl & Hr & Hl0 & Hr1 & Hag).
      (* at bit [b] the key and the closest leaf agree, so [b] is not [d] *)
      assert (toward key b = negb (Z.testbit key b)) as Htw by done.
      simpl in Hne |- *. rewrite !Htw in Hne |- *. clear Htw.
      assert (∀ c, follow (toward key) c ∈ entries c) as Hfol by (intros; apply follow_entries).
      destruct (Z.testbit key b) eqn:Hkb; simpl in *.
      * assert (b ≠ d). { intros ->. apply Hne. rewrite Hkb. symmetry. apply Hr1, elem_of_keys.
          eexists. rewrite <-surjective_pairing. apply Hfol. }
        apply (IHr _ Hslot); [done|simpl; lia|done].
      * assert (b ≠ d). { intros ->. apply Hne. rewrite Hkb. symmetry. apply Hl0, elem_of_keys.
          eexists. rewrite <-surjective_pairing. apply Hfol. }
        apply (IHl _ Hslot); [done|simpl; lia|done].
Qed.
End Slot.

(** ** Linking the new node into its slot *)
Section Attach.
Context `{OrderBookIndex} {V : Type}.
Context (t : CritbitTree V) (C : list frame) (sub : shape).
Context (ni nl key d : Z) (v : V).

(** The frame that the new internal node puts on top of the slot. *)
Definition new_frame : frame := Frame (Z.testbit key d) ni d (SLeaf nl key).

Hypothesis Hd : 0 ≤ d.
Hypothesis Hroot : root t = tree_index (plug C sub).
Hypothesis Hrepr : repr (internal_nodes t) (leaves t) PARTITION_INDEX (plug C sub).
Hypothesis Hids : ids_ok (plug C sub).
Hypothesis Hnl : NoDup (leaf_ids (plug C sub)).
Hypothesis Hnn : NoDup (node_ids (plug C sub)).
Hypothesis Hnode : internal_nodes t !! ni = Some (InternalNode_new (2 ^ d)).
Hypothesis Hleaf : leaves t !! nl = Some (LeafNode_new key v).
Hypothesis Hni : node_id_ok ni ∧ ni ∉ node_ids (plug C sub).
Hypothesis Hnlf : leaf_id_ok nl ∧ nl ∉ leaf_ids (plug C sub).

Lemma tree_index_plug C0 a b :
  tree_index a = tree_index b → tree_index (plug C0 a) = tree_index (plug C0 b).
Proof.
  revert a b. induction C0 as [|g C0 IH]; simpl; intros a b Hab; [done|].
  apply IH. by rewrite !tree_index_fill1.
Qed.

Lemma tree_index_plug_cons f C0 s1 s2 :
  tree_index (plug (f :: C0) s1) = tree_index (plug (f :: C0) s2).
Proof. simpl. apply tree_index_plug. by rewrite !tree_index_fill1. Qed.

Lemma attach_disjoint :
  (∀ i, i ∈ ctx_nodes C → (i ∉ node_ids sub) ∧ i ≠ ni) ∧
  (∀ i, i ∈ ctx_leaves C → (i ∉ leaf_ids sub) ∧ i ≠ nl) ∧
  (ni ∉ node_ids sub) ∧ nl ∉ leaf_ids sub.
Proof.
  destruct Hni as [_ Hni'], Hnlf as [_ Hnlf'].
  pose proof Hnl as Hl. rewrite leaf_ids_plug in Hl. apply NoDup_app in Hl as (_ & Hl & _).
  pose proof Hnn as Hn. rewrite node_ids_plug in Hn. apply NoDup_app in Hn as (_ & Hn & _).
  rewrite node_ids_plug, elem_of_app in Hni'. rewrite leaf_ids_plug, elem_of_app in Hnlf'.
  split_and!; [| |tauto|tauto].
  - intros i Hi. split; [|by intros ->; tauto]. intros ?. by eapply Hn.
  - intros i Hi. split; [|by intros ->; tauto]. intros ?. by eapply Hl.
Qed.

(** The first step: the new node takes the place of the subtree. *)
Definition redirect (parent : Z) : M (CritbitTree V) CritbitTreeError () :=
  if is_partition_index parent then modify (set_root ni)
  else is_left ← gets (λ t, Ok (is_left_child t parent (tree_index sub)));
       update_ref parent ni is_left.

Lemma redirect_spec :
  ∃ ns r,
    redirect (hole_parent PARTITION_INDEX C) t = (Ok (), set_internal_nodes ns (set_root r t)) ∧
    r = tree_index (plug (new_frame :: C) sub) ∧
    ns !! ni = Some (mkInternalNode (2 ^ d) (hole_parent PARTITION_INDEX C)
                       PARTITION_INDEX PARTITION_INDEX) ∧
    repr_ctx ns (leaves t) PARTITION_INDEX C ni ∧
    (∀ i, i ∈ node_ids sub → ns !! i = internal_nodes t !! i) ∧
    (∀ i, is_Some (ns !! i) ↔ is_Some (internal_nodes t !! i)).
Proof.
  destruct attach_disjoint as (HdN & HdL & Hnis & Hnls).
  unfold redirect, is_partition_index. destruct C as [|f C0] eqn:HC.
  - simpl. rewrite Z.eqb_refl. exists (internal_nodes t), ni.
    split_and!; [by destruct t|symmetry; apply tree_index_fill1|done..].
  - cbn [hole_parent]. pose proof Hids as Hids'. simpl in Hids'.
    apply ids_ok_plug in Hids' as [Hidf _].
    pose proof (tree_index_not_partition _ Hidf) as Hne. rewrite tree_index_fill1 in Hne.
    apply Z.eqb_neq in Hne. rewrite Hne. run_step.
    pose proof Hrepr as Hr. apply repr_plug in Hr as [Hctx _].
    pose proof Hctx as (Hf & Hsib & Hctx0).
    pose proof Hnl as Hl. simpl in Hl. rewrite leaf_ids_plug in Hl. apply NoDup_app in Hl as [Hl _].
    pose proof Hnn as Hn. simpl in Hn. rewrite node_ids_plug in Hn.
    pose proof Hn as Hn0. apply NoDup_app in Hn0 as [Hn0 _].
    rewrite (is_left_child_frame t f _ sub Hidf Hl Hn0 Hf).
    assert (fr_id f ≠ ni) as Hfni by (apply (HdN (fr_id f)); simpl; by left).
    erewrite update_ref_node; [|done|apply Hni|by rewrite lookup_insert_ne].
    eexists _, (root t). split_and!; [by destruct t|rewrite Hroot; exact (tree_index_plug_cons f C0 sub (fill1 new_frame sub))| | | |].
    + by rewrite lookup_insert_eq.
    + eapply repr_ctx_frame; [| |eapply repr_ctx_redirect; [|exact Hctx]]; [|done|].
      * intros i Hi. rewrite lookup_insert_ne by (intros <-; by apply (HdN ni)).
        unfold frame_node, with_child. simpl. by destruct (fr_left f).
      * pose proof Hnn as Hn1. rewrite node_ids_plug in Hn1.
        apply NoDup_app in Hn1 as (_ & _ & Hn1). simpl in Hn1. by apply NoDup_cons in Hn1 as [? _].
    + intros i Hi. assert (ni ≠ i) by (intros ->; done).
      assert (fr_id f ≠ i) by (intros <-; destruct (HdN (fr_id f)) as [? _]; [simpl; by left|done]).
      by rewrite !lookup_insert_ne by done.
    + intros i. rewrite !lookup_insert_is_Some'.
      split; [intros [<-|[<-|?]]; eauto|auto].
Qed.

Lemma attach_spec :
  ∃ ns ls,
    attach ni nl key (2 ^ d) (tree_index sub) (hole_parent PARTITION_INDEX C) t =
      (Ok (), set_leaves ls (set_internal_nodes ns
                (set_root (tree_index (plug (new_frame :: C) sub)) t))) ∧
    repr ns ls PARTITION_INDEX (plug (new_frame :: C) sub) ∧
    payload <$> ls = payload <$> leaves t ∧
    (∀ i, is_Some (ns !! i) ↔ is_Some (internal_nodes t !! i)).
Proof.
  destruct attach_disjoint as (HdN & HdL & Hnis & Hnls).
  destruct redirect_spec as (ns & r & Hred & Hr & Hns & Hctx & Hsame & Hdom).
  pose proof Hrepr as Hrs. apply repr_plug in Hrs as [_ Hrs].
  pose proof Hids as Hids'. apply ids_ok_plug in Hids' as [Hidsub _].
  unfold attach. rewrite M_bind_run. fold (redirect (hole_parent PARTITION_INDEX C)).
  rewrite Hred. cbv zeta. rewrite Z.land_comm, land_pow2_eqb by done.
  set (bit := Z.testbit key d). rewrite M_bind_run.
  erewrite update_ref_leaf; [|exact Hns|apply Hnlf|exact Hleaf].
  set (t6 := set_leaves _ _).
  assert (repr (internal_nodes t6) (leaves t6) (hole_parent PARTITION_INDEX C) sub) as Hr6.
  { eapply repr_frame; [| |exact Hrs]; subst t6; simpl; intros i Hi.
    - rewrite lookup_insert_ne by (by intros <-). by apply Hsame.
    - by rewrite lookup_insert_ne by (by intros <-). }
  erewrite (update_ref_shape t6 ni sub);
    [|subst t6; simpl; by rewrite lookup_insert_eq|exact Hr6|done|done].
  set (nd := with_child (negb bit) (MAX_INDEX - nl)
               (mkInternalNode (2 ^ d) (hole_parent PARTITION_INDEX C)
                  PARTITION_INDEX PARTITION_INDEX)).
  exists (reparent_nodes ni sub
            (<[ni := with_child (negb (negb bit)) (tree_index sub) nd]> (<[ni := nd]> ns))),
         (reparent_leaves ni sub (<[nl := leaf_with_parent ni (LeafNode_new key v)]> (leaves t))).
  split; [by subst r|]. split_and!.
  - apply repr_plug. cbn [repr_ctx hole_parent new_frame fr_id fr_sib repr]. split_and!.
    + rewrite reparent_nodes_ne, lookup_insert_eq by done.
      subst nd. unfold frame_node. simpl. fold bit. by destruct bit.
    + exists v. rewrite reparent_leaves_ne, lookup_insert_eq by done. done.
    + eapply repr_ctx_frame; [| |exact Hctx]; intros i Hi; subst t6; cbn [leaves internal_nodes set_leaves set_internal_nodes].
      * destruct (HdN i Hi) as [??]. by rewrite reparent_nodes_ne, !lookup_insert_ne by done.
      * destruct (HdL i Hi) as [??]. by rewrite reparent_leaves_ne, lookup_insert_ne by done.
    + apply repr_reparent with (hole_parent PARTITION_INDEX C).
      * pose proof Hnn as Hn. rewrite node_ids_plug in Hn. by apply NoDup_app in Hn as [? _].
      * eapply repr_frame; [|done|exact Hr6]. intros i Hi. by rewrite lookup_insert_ne by (by intros <-).
  - rewrite payload_reparent. subst t6. simpl. rewrite fmap_insert.
    apply insert_id. by rewrite lookup_fmap, Hleaf.
  - intros i. rewrite reparent_nodes_is_Some. subst t6. simpl.
    rewrite <-Hdom, !lookup_insert_is_Some'. split; [|tauto].
    intros [<-|[<-|?]]; eauto.
Qed.
End Attach.

(** ** The order after an insertion *)
Section InsertShape.
Context `{OrderBookIndex}.

Lemma entries_new_frame C sub ni nl key d :
  entries (plug (new_frame ni nl key d :: C) sub) ≡ₚ (key, nl) :: entries (plug C sub).
Proof.
  rewrite !entries_plug. simpl. destruct (Z.testbit key d); simpl; solve_Permutation.
Qed.

Lemma node_ids_new_frame C sub ni nl key d :
  node_ids (plug (new_frame ni nl key d :: C) sub) ≡ₚ ni :: node_ids (plug C sub).
Proof. rewrite !node_ids_plug. simpl. solve_Permutation. Qed.

Lemma crit_new_frame C sub ni nl key kc d :
  kc = (follow (toward key) sub).1 → d = critical_bit key kc →
  crit BITS (plug C sub) → in_range BITS key → key ≠ kc →
  d < hole_bound BITS C → crit d sub →
  (∀ x, x ∈ keys sub → agree_from d x kc) →
  crit BITS (plug (new_frame ni nl key d :: C) sub).
Proof.
  intros Hkceq Hdeq Hc Hkey Hne Hd Hsub Hclose.
  assert (kc ∈ keys sub) as Hkc.
  { apply elem_of_keys. eexists. rewrite Hkceq. rewrite <-surjective_pairing. apply follow_entries. }
  assert (in_range BITS kc) as Hkcr by (eapply crit_key_range; [exact Hsub|done]).
  pose proof (critical_bit_differs key kc (proj1 Hkey) (proj1 Hkcr) Hne) as Hdiff.
  pose proof (critical_bit_agree key kc (proj1 Hkey) (proj1 Hkcr)) as Hagree.
  rewrite <-Hdeq in Hdiff, Hagree.
  assert (∀ x, x ∈ keys sub ∨ x = key → agree_above d x kc) as Hup.
  { intros x [Hx| ->]; [|done]. intros j Hj. apply (Hclose x Hx). lia. }
  simpl. eapply crit_replace; [exact Hc| |].
  - apply crit_fill1. unfold new_frame. cbn [fr_left fr_bit fr_sib].
    pose proof (critical_bit_nonneg key kc) as Hdn. rewrite <-Hdeq in Hdn.
    split_and!; [lia..|done|done| | |].
    + intros x Hx. rewrite (Hclose x Hx) by lia. by rewrite Hdiff, negb_involutive.
    + intros x Hx%list_elem_of_singleton. by subst.
    + setoid_rewrite elem_of_app. intros x y Hx Hy.
      eapply agree_above_trans; [apply Hup|apply agree_above_sym, Hup].
      * destruct Hx as [?|Hx%list_elem_of_singleton]; auto.
      * destruct Hy as [?|Hy%list_elem_of_singleton]; auto.
  - intros x [Hx|Hx]%keys_fill1; [by exists x|].
    apply list_elem_of_singleton in Hx as ->.
    exists kc. split; [done|]. intros j Hj. apply Hagree. subst d. lia.
Qed.

Lemma is_least_cons s s' key nl i :
  entries s' ≡ₚ (key, nl) :: entries s → is_least s i →
  ∃ k, (k, i) ∈ entries s ∧ is_least s' (if key <? k then nl else i).
Proof.
  intros Hperm (k & Hin & Hle). exists k. split; [done|].
  assert (∀ x, x ∈ keys s' → x = key ∨ x ∈ keys s) as Hkeys.
  { intros x [j Hj]%elem_of_keys. rewrite Hperm in Hj. apply elem_of_cons in Hj as [[= -> ->]|Hj]; [auto|].
    right. apply elem_of_keys. eauto. }
  destruct (Z.ltb_spec key k); [exists key|exists k]; (split; [rewrite Hperm; set_solver|]).
  - intros x [->|Hx]%Hkeys; [lia|]. specialize (Hle x Hx). lia.
  - intros x [->|Hx]%Hkeys; [lia|]. by apply Hle.
Qed.

Lemma is_greatest_cons s s' key nl i :
  entries s' ≡ₚ (key, nl) :: entries s → is_greatest s i →
  ∃ k, (k, i) ∈ entries s ∧ is_greatest s' (if k <? key then nl else i).
Proof.
  intros Hperm (k & Hin & Hle). exists k. split; [done|].
  assert (∀ x, x ∈ keys s' → x = key ∨ x ∈ keys s) as Hkeys.
  { intros x [j Hj]%elem_of_keys. rewrite Hperm in Hj. apply elem_of_cons in Hj as [[= -> ->]|Hj]; [auto|].
    right. apply elem_of_keys. eauto. }
  destruct (Z.ltb_spec k key); [exists key|exists k]; (split; [rewrite Hperm; set_solver|]).
  - intros x [->|Hx]%Hkeys; [lia|]. specialize (Hle x Hx). lia.
  - intros x [->|Hx]%Hkeys; [lia|]. by apply Hle.
Qed.
End InsertShape.

(** ** The operation *)
Section Insert.
Context `{OrderBookIndex, BuildProfile} {V : Type}.
Implicit Types (t : CritbitTree V) (s : shape).

Lemma capacity_lt_pow : CAPACITY < 2 ^ BITS.
Proof. pose proof CAPACITY_PARTITION. pose proof pow_BITS_PARTITION.
       pose proof PARTITION_INDEX_large. lia. Qed.

Lemma next_index_leaf t :
  0 ≤ next_leaf_node_index t < CAPACITY →
  next_index Leaf t =
  (Ok (next_leaf_node_index t), set_next_leaf (next_leaf_node_index t + 1) t).
Proof.
  intros Hn. pose proof capacity_lt_pow. unfold next_index. run_step.
  rewrite u_add_ok by (unfold in_range; lia). run_step.
  destruct (Z.leb_spec (next_leaf_node_index t + 1) CAPACITY); [done|lia].
Qed.

Lemma next_index_leaf_full t :
  next_leaf_node_index t = CAPACITY →
  next_index Leaf t = (Err ExceedCapacity, set_next_leaf (CAPACITY + 1) t).
Proof.
  intros Hn. pose proof CAPACITY_PARTITION. pose proof pow_BITS_PARTITION.
  pose proof PARTITION_INDEX_large. unfold next_index. run_step. rewrite Hn.
  rewrite u_add_ok by (unfold in_range; lia). run_step.
  destruct (Z.leb_spec (CAPACITY + 1) CAPACITY); [lia|done].
Qed.

Lemma next_index_internal t :
  0 ≤ next_internal_node_index t < CAPACITY →
  next_index Internal t =
  (Ok (next_internal_node_index t), set_next_internal (next_internal_node_index t + 1) t).
Proof.
  intros Hn. pose proof capacity_lt_pow. unfold next_index. run_step.
  unfold checked_add. rewrite checked_ok by (unfold in_range; lia). done.
Qed.

(** The first insertion into an empty tree. *)
Lemma insert_new key v :
  in_range BITS key →
  ∃ t', insert key v new = (Ok (), t') ∧ tree_shape t' (SLeaf 0 key) ∧
        payload <$> leaves t' = {[0 := (key, v)]} ∧ next_leaf_node_index t' = 1.
Proof.
  intros Hkey. pose proof CAPACITY_PARTITION. pose proof PARTITION_INDEX_large.
  unfold insert. rewrite M_bind_run, next_index_leaf by (simpl; lia).
  unfold insert_leaf. run_step. cbn [leaves set_next_leaf new next_leaf_node_index].
  rewrite lookup_empty. run_step. unfold get_closest_leaf_index.
  cbn [root set_leaves set_next_leaf new]. rewrite Z.eqb_refl. run_step.
  eexists. split; [done|]. split.
  - split; simpl; try done.
    + lia.
    + exists v. by rewrite lookup_insert_eq.
    + lia.
    + apply Forall_singleton. simpl. lia.
    + apply NoDup_singleton.
    + constructor.
    + intros i. rewrite lookup_insert_is_Some'. unfold leaf_ids. simpl.
      rewrite lookup_empty. rewrite list_elem_of_singleton. split; [|by left].
      intros [?|[? ?]]; [done|done].
    + intros i. rewrite lookup_empty. split; [by intros [? ?]|]. by intros ?%not_elem_of_nil.
    + exists key. split; [set_solver|]. intros k' ->%list_elem_of_singleton. simpl. lia.
    + exists key. split; [set_solver|]. intros k' ->%list_elem_of_singleton. simpl. lia.
  - split; [|done]. simpl. rewrite fmap_insert, fmap_empty. done.
Qed.

(** The tree just before the links are made: both new nodes are in their
    maps and the counters have moved. *)
Definition prepared (key d : Z) (v : V) t : CritbitTree V :=
  let ni := next_internal_node_index t in
  let nl := next_leaf_node_index t in
  mkCritbitTree (root t) (<[ni := InternalNode_new (2 ^ d)]> (internal_nodes t))
    (<[nl := LeafNode_new key v]> (leaves t)) (max_leaf_index t) (min_leaf_index t)
    (ni + 1) (nl + 1).

Section Fresh.
Context (t : CritbitTree V) (s : shape) (Hts : tree_shape t s) (key : Z) (v : V).
Hypothesis Hkey : in_range BITS key.
Hypothesis Hfresh : key ∉ keys s.
Hypothesis Hroom : next_leaf_node_index t < CAPACITY.

Let ni := next_internal_node_index t.
Let nl := next_leaf_node_index t.
Let kc := (follow (toward key) s).1.
Let d := critical_bit key kc.
Let C := (slot key d [] s).1.
Let sub := (slot key d [] s).2.

Lemma fresh_ids :
  node_id_ok ni ∧ (ni ∉ node_ids s) ∧ leaf_id_ok nl ∧ (nl ∉ leaf_ids s) ∧
  internal_nodes t !! ni = None ∧ leaves t !! nl = None.
Proof.
  destruct (ts_next _ _ Hts) as [Hn Hc]. pose proof CAPACITY_PARTITION.
  pose proof (ts_leaf_ids _ _ Hts) as Hl. pose proof (ts_node_ids _ _ Hts) as Hnn.
  rewrite Forall_forall in Hl, Hnn.
  assert (ni ∉ node_ids s) as Hni by (intros ?%Hnn; subst ni; lia).
  assert (nl ∉ leaf_ids s) as Hnl by (intros ?%Hl; subst nl; lia).
  unfold node_id_ok, leaf_id_ok. subst ni nl. split_and!; try (done || lia).
  - rewrite eq_None_not_Some. by rewrite (ts_node_dom _ _ Hts).
  - rewrite eq_None_not_Some. by rewrite (ts_leaf_dom _ _ Hts).
Qed.

Lemma fresh_closest :
  in_range BITS kc ∧ key ≠ kc ∧ 0 ≤ d < BITS ∧
  Z.testbit key d ≠ Z.testbit kc d.
Proof.
  assert (kc ∈ keys s) as Hkc.
  { apply elem_of_keys. eexists. subst kc. rewrite <-surjective_pairing. apply follow_entries. }
  assert (in_range BITS kc) as Hr by (eapply crit_key_range; [apply Hts|done]).
  assert (key ≠ kc) as Hne by (intros Heq; apply Hfresh; by rewrite Heq).
  pose proof BITS_pos.
  split_and!; [done|done|apply critical_bit_nonneg|by apply critical_bit_lt|].
  subst d. rewrite critical_bit_differs by (apply Hkey || apply Hr || done).
  by destruct (Z.testbit kc _).
Qed.

Lemma fresh_slot :
  plug C sub = s ∧ d < hole_bound BITS C ∧ crit d sub ∧
  follow (toward key) sub = follow (toward key) s ∧
  (∀ x, x ∈ keys sub → agree_from d x kc).
Proof.
  destruct fresh_closest as (Hr & Hne & Hd & Hbit).
  split; [apply slot_plug|]. eapply (slot_spec key d [] s); [|apply Hts|done|done].
  subst C sub. apply surjective_pairing.
Qed.

Lemma prepared_repr :
  repr (internal_nodes (prepared key d v t)) (leaves (prepared key d v t)) PARTITION_INDEX s.
Proof.
  destruct fresh_ids as (_ & Hni & _ & Hnl & _).
  eapply repr_frame; [| |apply Hts]; intros i Hi; simpl; apply lookup_insert_ne; by intros <-.
Qed.

Lemma insert_run_prepared :
  insert key v t =
  (_ ← attach ni nl key (2 ^ d) (tree_index sub) (hole_parent PARTITION_INDEX C);
   modify (update_min_max_leaf nl key)) (prepared key d v t).
Proof.
  destruct fresh_ids as (Hni & Hni' & Hnl & Hnl' & Hin & Hil).
  destruct fresh_closest as (Hr & Hne & Hd & Hbit).
  destruct (ts_next _ _ Hts) as [Hn Hc].
  unfold insert. rewrite M_bind_run, next_index_leaf by lia. fold nl.
  unfold insert_leaf at 1. rewrite M_bind_run. cbn [leaves set_next_leaf]. rewrite Hil.
  set (t2 := set_leaves _ _).
  assert (repr (internal_nodes t2) (leaves t2) PARTITION_INDEX s) as Hr2.
  { eapply repr_frame; [done| |apply Hts]. intros i Hi. apply lookup_insert_ne. by intros <-. }
  assert (get_closest_leaf_index t2 key = Ok (Some (follow (toward key) s).2)) as Hcl.
  { apply get_closest_repr; [apply Hts|done|apply Hts|by apply (ts_ids t)]. }
  rewrite M_bind_run. unfold gets at 1. rewrite Hcl.
  destruct (repr_entry _ _ _ _ _ _ Hr2 (eq_ind _ (λ x, x ∈ entries s)
              (follow_entries (toward key) s) _ (surjective_pairing _))) as (q & w & Hw).
  fold kc in Hw. rewrite M_bind_run. unfold gets at 1. rewrite Hw. cbn [ok_or lf_key].
  destruct (Z.eqb_spec kc key); [congruence|].
  rewrite M_bind_run, new_mask_distinct by done. unfold lift. fold d.
  rewrite M_bind_run, next_index_internal by (subst t2; simpl; lia).
  unfold insert_internal at 1. rewrite M_bind_run. cbn [internal_nodes set_next_internal].
  change (next_internal_node_index t2) with ni. change (internal_nodes t2) with (internal_nodes t).
  rewrite Hin. rewrite M_bind_run. unfold gets at 1.
  change (set_internal_nodes _ _) with (prepared key d v t).
  change (root (prepared key d v t)) with (root t). rewrite (ts_root _ _ Hts).
  rewrite (find_slot_slot _ key d [] s); [done|lia|done|exists PARTITION_INDEX; apply prepared_repr
          |exists BITS; apply Hts|by apply (ts_ids t)|].
  pose proof (ts_height t s Hts). unfold loop_fuel. lia.
Qed.

Lemma insert_fresh :
  ∃ t' s', insert key v t = (Ok (), t') ∧ tree_shape t' s' ∧
           payload <$> leaves t' = <[nl := (key, v)]> (payload <$> leaves t) ∧
           next_leaf_node_index t' = nl + 1.
Proof.
  destruct fresh_ids as (Hni & Hni' & Hnl & Hnl' & _ & _).
  destruct fresh_closest as (Hr & Hne & Hd & _).
  destruct fresh_slot as (Hplug & Hdb & Hcsub & Hfol & Hagree).
  pose proof prepared_repr as Hrep. pose proof (ts_ids t s Hts) as Hids.
  pose proof (ts_leaf_nodup _ _ Hts) as Hlnd. pose proof (ts_node_nodup _ _ Hts) as Hnnd.
  rewrite <-Hplug in Hrep, Hids, Hlnd, Hnnd.
  destruct (attach_spec (prepared key d v t) C sub ni nl key d v (proj1 Hd)) as
    (ns & ls & Hrun & Hr' & Hpay & Hdom); try done.
  { rewrite Hplug. apply (ts_root _ _ Hts). }
  { simpl. apply lookup_insert_eq. }
  { simpl. apply lookup_insert_eq. }
  { by rewrite Hplug. }
  { by rewrite Hplug. }
  rewrite insert_run_prepared, M_bind_run, Hrun. unfold modify.
  set (s' := plug (new_frame ni nl key d :: C) sub) in *.
  set (t7 := set_leaves ls _).
  assert (entries s' ≡ₚ (key, nl) :: entries s) as Hent
    by (rewrite <-Hplug; apply entries_new_frame).
  destruct (is_least_cons s s' key nl _ Hent (ts_min _ _ Hts)) as (kmin & Hmin & Hleast).
  destruct (is_greatest_cons s s' key nl _ Hent (ts_max _ _ Hts)) as (kmax & Hmax & Hgreat).
  assert (∀ k i, (k, i) ∈ entries s → ∃ q w, leaves t7 !! i = Some (mkLeafNode q k w)) as Hlook.
  { intros k i Hin. eapply (repr_entry _ _ _ s'); [exact Hr'|]. rewrite Hent. by right. }
  destruct (Hlook _ _ Hmin) as (q1 & w1 & Hw1). destruct (Hlook _ _ Hmax) as (q2 & w2 & Hw2).
  exists (set_max (if kmax <? key then nl else max_leaf_index t)
            (set_min (if key <? kmin then nl else min_leaf_index t) t7)), s'.
  split_and!.
  - f_equal. unfold update_min_max_leaf.
    change (min_leaf_index t7) with (min_leaf_index t). rewrite Hw1. cbn [lf_key].
    destruct (key <? kmin);
      [change (leaves (set_min nl t7)) with (leaves t7);
       change (max_leaf_index (set_min nl t7)) with (max_leaf_index t)
      |change (max_leaf_index t7) with (max_leaf_index t)];
      rewrite Hw2; cbn [lf_key]; by destruct (kmax <? key).
  - destruct (ts_next _ _ Hts) as [Hn Hc].
    assert (leaf_ids s' ≡ₚ nl :: leaf_ids s) as Hlids by (unfold leaf_ids; by rewrite Hent).
    assert (node_ids s' ≡ₚ ni :: node_ids s) as Hnids
      by (rewrite <-Hplug; apply node_ids_new_frame).
    split; simpl; try done.
    + apply (crit_new_frame C sub ni nl key kc d); try done; [by rewrite Hfol|].
      rewrite Hplug. apply Hts.
    + subst ni nl. lia.
    + rewrite Hlids. apply Forall_cons. split; [unfold leaf_id_ok in Hnl; subst nl; lia|].
      eapply Forall_impl; [apply (ts_leaf_ids _ _ Hts)|]. simpl. intros. subst nl. lia.
    + rewrite Hnids. apply Forall_cons. split; [unfold node_id_ok in Hni; subst ni; lia|].
      eapply Forall_impl; [apply (ts_node_ids _ _ Hts)|]. simpl. intros. subst ni. lia.
    + rewrite Hlids. apply NoDup_cons. split; [done|apply Hts].
    + rewrite Hnids. apply NoDup_cons. split; [done|apply Hts].
    + intros i. rewrite Hlids, elem_of_cons, <-(ts_leaf_dom _ _ Hts).
      rewrite <-(fmap_is_Some payload), <-lookup_fmap, Hpay. simpl.
      rewrite lookup_fmap, fmap_is_Some, lookup_insert_is_Some'. naive_solver.
    + intros i. rewrite Hnids, elem_of_cons, <-(ts_node_dom _ _ Hts), Hdom. simpl.
      rewrite lookup_insert_is_Some'. naive_solver.
  - subst t7. simpl. rewrite Hpay. simpl. by rewrite fmap_insert.
  - done.
Qed.
End Fresh.

(** ** What [insert] does to the contents *)

Lemma contents_payload t k v :
  tree_wf t → contents t !! k = Some v ↔ ∃ i, (payload <$> leaves t) !! i = Some (k, v).
Proof.
  intros Hwf. rewrite contents_lookup by done. setoid_rewrite lookup_fmap_Some. split.
  - intros (i & q & Hi). by exists i, (mkLeafNode q k v).
  - intros (i & [q k' v'] & [= -> ->] & Hi). by exists i, q.
Qed.

Lemma contents_insert_payload t t' i k v :
  tree_wf t → tree_wf t' → leaves t !! i = None → contents t !! k = None →
  payload <$> leaves t' = <[i := (k, v)]> (payload <$> leaves t) →
  contents t' = <[k := v]> (contents t).
Proof.
  intros Hwf Hwf' Hi Hk Hpay. apply map_eq. intros k'. apply option_eq. intros v'.
  rewrite contents_payload, Hpay, lookup_insert_Some, contents_payload by done. split.
  - intros [j [(<- & [= -> ->])|[Hne Hj]]%lookup_insert_Some]; [by left|].
    right. split; [|by eauto]. intros <-.
    rewrite eq_None_not_Some in Hk. apply Hk. exists v'. apply contents_payload; eauto.
  - intros [(-> & ->)|(Hne & j & Hj)]; [exists i; apply lookup_insert_eq|].
    exists j. rewrite lookup_insert_ne; [done|].
    intros ->. by rewrite lookup_fmap, Hi in Hj.
Qed.

Lemma tree_wf_next t : tree_wf t → 0 ≤ next_leaf_node_index t ≤ CAPACITY.
Proof.
  intros [->|[s Hts]].
  - simpl. pose proof CAPACITY_PARTITION. pose proof PARTITION_INDEX_large. lia.
  - pose proof (ts_next _ _ Hts). lia.
Qed.

Lemma insert_absent t key v :
  tree_wf t → in_range BITS key → next_leaf_node_index t < CAPACITY →
  contents t !! key = None →
  ∃ t', insert key v t = (Ok (), t') ∧ tree_wf t' ∧ contents t' = <[key := v]> (contents t) ∧
        next_leaf_node_index t' = next_leaf_node_index t + 1.
Proof.
  intros Hwf Hkey Hroom Hk.
  assert (leaves t !! next_leaf_node_index t = None) as Hnone.
  { destruct Hwf as [->|[s Hts]]; [done|]. rewrite eq_None_not_Some, (ts_leaf_dom _ _ Hts).
    pose proof (ts_leaf_ids _ _ Hts) as Hl. rewrite Forall_forall in Hl. intros ?%Hl. lia. }
  assert (∃ t', insert key v t = (Ok (), t') ∧ tree_wf t' ∧
    payload <$> leaves t' = <[next_leaf_node_index t := (key, v)]> (payload <$> leaves t) ∧
    next_leaf_node_index t' = next_leaf_node_index t + 1)
    as (t' & Hrun & Hwf' & Hpay & Hnext).
  { destruct Hwf as [->|[s Hts]].
    - destruct (insert_new key v Hkey) as (t' & Hrun & Hts & Hpay & Hnext).
      exists t'. split_and!; [done|right; eauto|by rewrite Hpay|done].
    - destruct (insert_fresh t s Hts key v) as (t' & s' & Hrun & Hts' & Hpay & Hnext); try done.
      + intros Hin. apply (contents_keys t s key Hts) in Hin as [? ?]. congruence.
      + exists t'. split_and!; [done|right; eauto|done|done]. }
  exists t'. split_and!; [done|done| |done]. by eapply contents_insert_payload.
Qed.

(** A key that is present is refused -- after the new leaf has been put in
    the map, so the receiver is no longer well-formed and callers must not
    keep it. *)
Lemma insert_present t key v v0 :
  tree_wf t → next_leaf_node_index t < CAPACITY →
  contents t !! key = Some v0 →
  insert key v t =
    (Err AlreadyExist,
     set_leaves (<[next_leaf_node_index t := LeafNode_new key v]> (leaves t))
       (set_next_leaf (next_leaf_node_index t + 1) t)).
Proof.
  intros Hwf Hroom Hk. destruct Hwf as [->|[s Hts]]; [by rewrite contents_new in Hk|].
  destruct (ts_next _ _ Hts) as [Hn Hc]. unfold insert.
  rewrite M_bind_run, next_index_leaf by lia.
  set (nl := next_leaf_node_index t).
  assert (nl ∉ leaf_ids s) as Hnl.
  { pose proof (ts_leaf_ids _ _ Hts) as Hl. rewrite Forall_forall in Hl. intros ?%Hl. lia. }
  unfold insert_leaf at 1. rewrite M_bind_run. cbn [leaves set_next_leaf].
  assert (leaves t !! nl = None) as -> by (by rewrite eq_None_not_Some, (ts_leaf_dom _ _ Hts)).
  set (t2 := set_leaves _ _).
  assert (repr (internal_nodes t2) (leaves t2) PARTITION_INDEX s) as Hr2.
  { eapply repr_frame; [done| |apply Hts]. intros i Hi. apply lookup_insert_ne. by intros <-. }
  assert (get_closest_leaf_index t2 key = Ok (Some (follow (toward key) s).2)) as Hcl.
  { apply get_closest_repr; [apply Hts|done|apply Hts|by apply (ts_ids t)]. }
  assert (key ∈ keys s) as [i Hi]%elem_of_keys by (apply (contents_keys t s key Hts); eauto).
  rewrite (crit_follow _ _ _ _ (ts_crit _ _ Hts) Hi) in Hcl.
  destruct (repr_entry _ _ _ _ _ _ Hr2 Hi) as (q & w & Hw).
  rewrite M_bind_run. unfold gets at 1. rewrite Hcl. rewrite M_bind_run. unfold gets at 1.
  cbn [snd]. rewrite Hw. cbn [ok_or lf_key]. by rewrite Z.eqb_refl.
Qed.

Lemma insert_full t key v :
  next_leaf_node_index t = CAPACITY →
  insert key v t = (Err ExceedCapacity, set_next_leaf (CAPACITY + 1) t).
Proof. intros Hn. unfold insert. by rewrite M_bind_run, next_index_leaf_full. Qed.
End Insert.
