(* ===== verification/CritbitRemove.v ===== *)
(** * Removal from the critbit tree

    [remove_leaf_by_index] moves the extreme indices off the leaf, drops the
    leaf and puts its sibling in the place of their parent.  It keeps the
    invariant, returns the value of the leaf and deletes its key from
    [contents]; an index that names no leaf is the error [NotFound]. *)
From S2P Require Import Prelude Index Critbit CritbitShape CritbitOps CritbitInsert.
From Stdlib Require Import Bool.

(** ** The sibling takes the place of the parent *)
Section Unlink.
Context `{OrderBookIndex} {V : Type}.
Context (t : CritbitTree V) (f : frame) (C : list frame) (i k : Z).

Let s := plug C (fill1 f (SLeaf i k)).
Let gp := hole_parent PARTITION_INDEX C.
Let sib := fr_sib f.

Hypothesis Hroot : root t = tree_index s.
Hypothesis Hnode : internal_nodes t !! fr_id f = Some (frame_node f gp (MAX_INDEX - i)).
Hypothesis Hsib : repr (internal_nodes t) (leaves t) (fr_id f) sib.
Hypothesis Hctx : repr_ctx (internal_nodes t) (leaves t) PARTITION_INDEX C (fr_id f).
Hypothesis Hids : ids_ok s.
Hypothesis Hnl : NoDup (leaf_ids s).
Hypothesis Hnn : NoDup (node_ids s).

Lemma fill1_node_ids : node_ids (fill1 f (SLeaf i k)) ≡ₚ fr_id f :: node_ids sib.
Proof. unfold fill1. destruct (fr_left f); simpl; by rewrite ?app_nil_r. Qed.

Lemma fill1_leaf_ids : leaf_ids (fill1 f (SLeaf i k)) ≡ₚ i :: leaf_ids sib.
Proof.
  unfold leaf_ids. unfold fill1. destruct (fr_left f); simpl;
    rewrite ?fmap_app; simpl; subst sib; solve_Permutation.
Qed.

Lemma unlink_disjoint :
  (fr_id f ∉ node_ids sib) ∧ (fr_id f ∉ ctx_nodes C) ∧
  (∀ j, j ∈ ctx_nodes C → j ∉ node_ids sib) ∧
  (∀ j, j ∈ ctx_leaves C → j ∉ leaf_ids sib) ∧
  NoDup (node_ids sib) ∧ NoDup (ctx_nodes C) ∧ ids_ok sib ∧
  ids_ok (fill1 f (SLeaf i k)).
Proof.
  pose proof Hnn as Hn. unfold s in Hn. rewrite node_ids_plug, fill1_node_ids in Hn. simpl in Hn.
  apply NoDup_cons in Hn as [Hf Hn]. rewrite elem_of_app in Hf.
  apply NoDup_app in Hn as (Hn1 & Hdisj & Hn2).
  pose proof Hnl as Hl. unfold s in Hl. rewrite leaf_ids_plug, fill1_leaf_ids in Hl. simpl in Hl.
  apply NoDup_cons in Hl as [_ Hl]. apply NoDup_app in Hl as (_ & Hdisjl & _).
  pose proof Hids as Hi. unfold s in Hi. apply ids_ok_plug in Hi as [Hi _].
  split_and!; try tauto.
  - intros j Hj Hj'. by apply (Hdisj j).
  - intros j Hj Hj'. by apply (Hdisjl j).
  - unfold fill1 in Hi. destruct (fr_left f); apply ids_ok_SNode in Hi; tauto.
Qed.

(** The step that replaces the parent by the sibling below the grandparent. *)
Definition relink : M (CritbitTree V) CritbitTreeError () :=
  if gp =? PARTITION_INDEX then
    _ ← (if tree_index sib <? PARTITION_INDEX then
           sibling_node ← gets (λ t,
             ok_or (internal_nodes t !! tree_index sib) InternalNodeShouldExist);
           _ ← insert_internal (tree_index sib) (with_parent PARTITION_INDEX sibling_node);
           mret ()
         else
           sibling_node ← gets (λ t,
             ok_or (leaves t !! (MAX_INDEX - tree_index sib)) LeafNodeShouldExist);
           _ ← insert_leaf (MAX_INDEX - tree_index sib)
                 (leaf_with_parent PARTITION_INDEX sibling_node);
           mret ());
    modify (set_root (tree_index sib))
  else
    is_left ← gets (λ t, Ok (is_left_child t gp (fr_id f)));
    update_ref gp (tree_index sib) is_left.

Lemma relink_spec :
  ∃ ns0,
    relink t = (Ok (), set_leaves (reparent_leaves gp sib (leaves t))
                  (set_internal_nodes (reparent_nodes gp sib ns0)
                     (set_root (tree_index (plug C sib)) t))) ∧
    repr_ctx ns0 (leaves t) PARTITION_INDEX C (tree_index sib) ∧
    (∀ j, j ∉ ctx_nodes C → ns0 !! j = internal_nodes t !! j) ∧
    (∀ j, is_Some (ns0 !! j) ↔ is_Some (internal_nodes t !! j)).
Proof.
  destruct unlink_disjoint as (Hf1 & Hf2 & Hd & _ & Hn1 & Hn2 & His & Hif).
  unfold relink. destruct C as [|g C0] eqn:HC.
  - subst gp. cbn [hole_parent plug]. rewrite Z.eqb_refl. exists (internal_nodes t).
    split; [|done]. pose proof (tree_index_range sib His) as Hrange.
    destruct sib as [j kj|j b l r]; cbn [tree_index] in *.
    + destruct Hsib as [v Hv]. destruct (Z.ltb_spec (MAX_INDEX - j) PARTITION_INDEX); [lia|].
      replace (MAX_INDEX - (MAX_INDEX - j)) with j by lia. run_step. rewrite Hv. run_step.
      unfold insert_leaf. cbn [reparent_leaves reparent_nodes].
      rewrite (alter_lookup_Some _ _ _ _ Hv). by destruct t.
    + destruct Hsib as (Hj & _). destruct (Z.ltb_spec j PARTITION_INDEX); [|lia].
      run_step. rewrite Hj. run_step. unfold insert_internal.
      cbn [reparent_leaves reparent_nodes]. rewrite (alter_lookup_Some _ _ _ _ Hj). by destruct t.
  - subst gp. cbn [hole_parent]. pose proof Hids as Hids'. unfold s in Hids'. simpl in Hids'.
    apply ids_ok_plug in Hids' as [Hidg _].
    pose proof (tree_index_not_partition _ Hidg) as Hne. rewrite tree_index_fill1 in Hne.
    apply Z.eqb_neq in Hne. rewrite Hne. run_step. destruct Hctx as (Hg & Hgs & Hctx0).
    pose proof Hnl as Hl. unfold s in Hl. simpl in Hl. rewrite leaf_ids_plug in Hl.
    apply NoDup_app in Hl as [Hl _].
    pose proof Hnn as Hn. unfold s in Hn. simpl in Hn. rewrite node_ids_plug in Hn.
    apply NoDup_app in Hn as [Hn _].
    pose proof (is_left_child_frame t g (hole_parent PARTITION_INDEX C0)
                  (fill1 f (SLeaf i k)) Hidg Hl Hn) as Hleft.
    rewrite tree_index_fill1 in Hleft. rewrite Hleft by done.
    erewrite update_ref_shape; [|exact Hg|exact Hsib|exact His|apply Hd; simpl; by left].
    exists (<[fr_id g := frame_node g (hole_parent PARTITION_INDEX C0) (tree_index sib)]>
              (internal_nodes t)).
    split_and!.
    + assert (tree_index (plug (g :: C0) sib) = root t) as ->.
      { rewrite Hroot. unfold s. apply tree_index_plug_cons. }
      f_equal. unfold frame_node, with_child. simpl. destruct (fr_left g); by destruct t.
    + eapply repr_ctx_redirect; [|done]. simpl in Hn2. by apply NoDup_cons in Hn2 as [? _].
    + intros j Hj. apply lookup_insert_ne. intros <-. apply Hj. simpl. by left.
    + intros j. rewrite lookup_insert_is_Some'. split; [|auto]. intros [<-|?]; eauto.
Qed.

Lemma unlink_spec :
  ∃ ns ls,
    unlink (fr_id f) i t =
      (Ok (), set_leaves ls (set_internal_nodes ns (set_root (tree_index (plug C sib)) t))) ∧
    repr ns ls PARTITION_INDEX (plug C sib) ∧
    payload <$> ls = payload <$> leaves t ∧
    (∀ j, is_Some (ns !! j) ↔ j ≠ fr_id f ∧ is_Some (internal_nodes t !! j)).
Proof.
  destruct unlink_disjoint as (Hf1 & Hf2 & Hd & Hdl & Hn1 & Hn2 & His & Hif).
  destruct relink_spec as (ns0 & Hrun & Hctx' & Hsame & Hdom).
  assert (is_left_child t (fr_id f) (MAX_INDEX - i) = fr_left f) as Hleft.
  { apply (is_left_child_frame t f gp (SLeaf i k)); [done| | |done].
    - pose proof Hnl as Hl. unfold s in Hl. rewrite leaf_ids_plug in Hl.
      by apply NoDup_app in Hl as [? _].
    - pose proof Hnn as Hn. unfold s in Hn. rewrite node_ids_plug in Hn.
      by apply NoDup_app in Hn as [? _]. }
  unfold unlink. rewrite M_bind_run. unfold gets at 1. rewrite Hnode. cbn [ok_or].
  rewrite M_bind_run. unfold gets at 1. rewrite Hleft. cbv zeta.
  assert ((if fr_left f then in_right (frame_node f gp (MAX_INDEX - i))
           else in_left (frame_node f gp (MAX_INDEX - i))) = tree_index sib) as ->
    by (unfold frame_node; simpl; by destruct (fr_left f)).
  change (in_parent (frame_node f gp (MAX_INDEX - i))) with gp.
  rewrite M_bind_run. fold relink. rewrite Hrun. unfold modify.
  exists (delete (fr_id f) (reparent_nodes gp sib ns0)), (reparent_leaves gp sib (leaves t)).
  split; [reflexivity|]. split_and!.
  - apply repr_plug. split.
    + eapply repr_ctx_frame; [| |exact Hctx']; intros j Hj.
      * rewrite lookup_delete_ne by (by intros <-). apply reparent_nodes_ne. by apply Hd.
      * apply reparent_leaves_ne. by apply Hdl.
    + eapply repr_frame; [|done|apply (repr_reparent ns0 (leaves t) (fr_id f)); [done|]].
      * intros j Hj. apply lookup_delete_ne. by intros <-.
      * eapply repr_frame; [|done|exact Hsib]. intros j Hj. apply Hsame.
        intros Hj'. by apply (Hd j).
  - apply payload_reparent.
  - intros j. rewrite lookup_delete_is_Some, reparent_nodes_is_Some, Hdom. naive_solver.
Qed.
End Unlink.

(** ** Moving the extreme indices *)
Section Extremes.
Context `{OrderBookIndex} {V : Type}.

(** The searches do not read the extreme indices. *)
Lemma descend_set_min fuel (t : CritbitTree V) step m curr :
  descend fuel (set_min m t) step curr = descend fuel t step curr.
Proof.
  revert curr. induction fuel as [|fuel IH]; intros curr; simpl; [done|].
  destruct (internal_nodes t !! curr); simpl; [by rewrite IH|done].
Qed.

Lemma climb_set_min fuel (t : CritbitTree V) side m ptr parent :
  climb fuel (set_min m t) side ptr parent = climb fuel t side ptr parent.
Proof.
  revert ptr parent. induction fuel as [|fuel IH]; intros ptr parent; simpl; [done|].
  change (is_left_child (set_min m t)) with (is_left_child t).
  destruct (internal_nodes t !! parent); simpl; [by rewrite IH|done].
Qed.

Lemma find_leaf_set_min (t : CritbitTree V) m k : find_leaf (set_min m t) k = find_leaf t k.
Proof. unfold find_leaf, get_closest_leaf_index. by rewrite descend_set_min. Qed.

Lemma previous_leaf_set_min (t : CritbitTree V) m k :
  previous_leaf (set_min m t) k = previous_leaf t k.
Proof.
  unfold previous_leaf. rewrite find_leaf_set_min.
  destruct (find_leaf t k) as [[j|]|?| |]; run_step; try done.
  change (leaves (set_min m t)) with (leaves t). destruct (leaves t !! j); run_step; [|done].
  rewrite climb_set_min. destruct (climb _ _ _ _ _) as [p| | |]; run_step; try done.
  destruct (p =? PARTITION_INDEX); [done|].
  change (internal_nodes (set_min m t)) with (internal_nodes t).
  destruct (internal_nodes t !! p); run_step; [|done].
  unfold right_most_leaf. by rewrite descend_set_min.
Qed.

Context (t : CritbitTree V) (s : shape) (Hts : tree_shape t s).
Context (C : list frame) (i k : Z) (Hs : s = plug C (SLeaf i k)).

Lemma drop_min_run :
  drop_min i k t =
  if min_leaf_index t =? i
  then match head (after C) with
       | Some (_, j) => (Ok false, set_min j t)
       | None => (Ok true, t)
       end
  else (Ok false, t).
Proof.
  unfold drop_min. run_step. destruct (_ =? i); [|done].
  rewrite M_bind_run. unfold gets. rewrite (next_leaf_shape t s Hts C k i Hs).
  by destruct (head (after C)) as [[]|].
Qed.

Lemma drop_max_run m :
  drop_max i k (set_min m t) =
  if max_leaf_index t =? i
  then match last (before C) with
       | Some (_, j) => (Ok false, set_max j (set_min m t))
       | None => (Ok true, set_min m t)
       end
  else (Ok false, set_min m t).
Proof.
  unfold drop_max. run_step. cbn [max_leaf_index set_min]. destruct (_ =? i); [|done].
  rewrite M_bind_run. unfold gets.
  rewrite previous_leaf_set_min.
  rewrite (previous_leaf_shape t s Hts C k i Hs).
  by destruct (last (before C)) as [[]|].
Qed.

Context (s' : shape) (Hs' : entries s' = before C ++ after C).

Lemma remaining_key x : x ∈ keys s' ↔ x ∈ (before C).*1 ∨ x ∈ (after C).*1.
Proof. unfold keys. by rewrite Hs', fmap_app, elem_of_app. Qed.

Lemma drop_min_least :
  ∃ m, drop_min i k t = (Ok false, set_min m t) ∧ is_least s' m.
Proof.
  rewrite drop_min_run. destruct (ts_min _ _ Hts) as (kmin & Hin & Hle).
  pose proof (ts_keys_middle t s Hts C k i Hs) as (Hbef & Haft & _ & Hsort)%sorted_middle.
  rewrite Hs in Hin. rewrite entries_plug, !elem_of_app in Hin.
  destruct (Z.eqb_spec (min_leaf_index t) i) as [Hmin|Hmin].
  - assert (kmin = k) as ->.
    { apply (ts_leaf_unique t s Hts) with i; [by rewrite <-Hmin, Hs, entries_plug, !elem_of_app|].
      rewrite Hs, entries_plug. set_solver. }
    assert (before C = []) as Hnil.
    { destruct (before C) as [|[k0 i0] l] eqn:Hb; [done|exfalso].
      assert (k0 ∈ (before C).*1) as Hk0 by (rewrite Hb; simpl; by left).
      rewrite <-Hb in Hbef. pose proof (Hbef k0 Hk0).
      assert (k0 ∈ keys s) as Hk0' by (rewrite Hs; apply shape_member_split; auto).
      specialize (Hle k0 Hk0'). lia. }
    assert (after C = [] ∨ ∃ k0 j l, after C = (k0, j) :: l) as [Haf|(k0 & j & l & Haf)]
      by (clear; destruct (after C) as [|[??]?]; eauto).
    + pose proof Hs' as He. rewrite Hnil, Haf in He. by apply entries_nonempty in He.
    + exists j. split; [by rewrite Haf|]. exists k0.
      split; [rewrite Hs', Hnil, Haf; simpl; by left|].
      intros x [Hx|Hx]%remaining_key; [by rewrite Hnil in Hx; apply not_elem_of_nil in Hx|].
      eapply sorted_head_least; [exact Hsort|by rewrite Haf|done].
  - exists (min_leaf_index t). split; [by destruct t|]. exists kmin. split.
    + rewrite Hs', elem_of_app. simpl in Hin. rewrite list_elem_of_singleton in Hin.
      destruct Hin as [?|[[= -> ?]|?]]; [auto|done|auto].
    + intros x Hx%remaining_key. apply Hle. rewrite Hs. apply shape_member_split. tauto.
Qed.

Lemma drop_max_greatest m :
  ∃ m', drop_max i k (set_min m t) = (Ok false, set_max m' (set_min m t)) ∧ is_greatest s' m'.
Proof.
  rewrite drop_max_run. destruct (ts_max _ _ Hts) as (kmax & Hin & Hle).
  pose proof (ts_keys_middle t s Hts C k i Hs) as (Hbef & Haft & Hsort & _)%sorted_middle.
  rewrite Hs in Hin. rewrite entries_plug, !elem_of_app in Hin.
  destruct (Z.eqb_spec (max_leaf_index t) i) as [Hmax|Hmax].
  - assert (kmax = k) as ->.
    { apply (ts_leaf_unique t s Hts) with i; [by rewrite <-Hmax, Hs, entries_plug, !elem_of_app|].
      rewrite Hs, entries_plug. set_solver. }
    assert (after C = []) as Hnil.
    { destruct (after C) as [|[k0 i0] l] eqn:Hb; [done|exfalso].
      assert (k0 ∈ (after C).*1) as Hk0 by (rewrite Hb; simpl; by left).
      rewrite <-Hb in Haft. pose proof (Haft k0 Hk0).
      assert (k0 ∈ keys s) as Hk0' by (rewrite Hs; apply shape_member_split; auto).
      specialize (Hle k0 Hk0'). lia. }
    pose proof Hs' as He. rewrite Hnil, app_nil_r in He. destruct (last (before C)) as [[k0 j]|] eqn:Hl.
    + exists j. split; [done|]. exists k0.
      split; [rewrite He; apply last_Some in Hl as [l ->]; set_solver|].
      intros x [Hx|Hx]%remaining_key; [|by rewrite Hnil in Hx; apply not_elem_of_nil in Hx].
      eapply sorted_last_greatest; [exact Hsort|by eapply last_fmap_fst|done].
    + apply last_None in Hl. rewrite Hl in He. by apply entries_nonempty in He.
  - exists (max_leaf_index t). split; [by destruct t|]. exists kmax. split.
    + rewrite Hs', elem_of_app. simpl in Hin. rewrite list_elem_of_singleton in Hin.
      destruct Hin as [?|[[= -> ?]|?]]; [auto|done|auto].
    + intros x Hx%remaining_key. apply Hle. rewrite Hs. apply shape_member_split. tauto.
Qed.
End Extremes.

(** ** The whole operation *)
Section Remove.
Context `{OrderBookIndex, BuildProfile} {V : Type}.
Implicit Types (t : CritbitTree V) (s : shape).

Lemma map_empty_dom {A} (m : gmap Z A) : (∀ i, ¬ is_Some (m !! i)) → m = ∅.
Proof. intros Hm. apply map_eq. intros i. rewrite lookup_empty. by apply eq_None_not_Some. Qed.

Lemma remove_last t i k q v :
  tree_shape t (SLeaf i k) → leaves t !! i = Some (mkLeafNode q k v) →
  remove_leaf_by_index i t = (Ok v, new).
Proof.
  intros Hts Hv. unfold remove_leaf_by_index. rewrite M_bind_run. unfold gets. rewrite Hv.
  assert (min_leaf_index t = i) as Hmin.
  { destruct (ts_min _ _ Hts) as (? & Hin & _). simpl in Hin.
    apply list_elem_of_singleton in Hin. congruence. }
  assert (max_leaf_index t = i) as Hmax.
  { destruct (ts_max _ _ Hts) as (? & Hin & _). simpl in Hin.
    apply list_elem_of_singleton in Hin. congruence. }
  cbn [ok_or lf_key]. rewrite M_bind_run, (drop_min_run t _ Hts [] i k eq_refl).
  rewrite Hmin, Z.eqb_refl. cbn [after head].
  rewrite M_bind_run. replace t with (set_min i t) by (subst i; by destruct t).
  rewrite (drop_max_run t _ Hts [] i k eq_refl). rewrite Hmax, Z.eqb_refl. cbn [before last].
  run_step. cbn [orb]. run_step. cbn [lf_value].
  f_equal. unfold reset, new, set_next_leaf, set_next_internal, set_max, set_min, set_root, set_leaves.
  simpl. f_equal.
  - apply map_empty_dom. intros j. rewrite (ts_node_dom _ _ Hts). apply not_elem_of_nil.
  - apply map_empty_dom. intros j [Hne Hj%(ts_leaf_dom _ _ Hts)]%lookup_delete_is_Some.
    apply list_elem_of_singleton in Hj. by subst.
Qed.

Lemma entries_unplug f C :
  entries (plug C (fr_sib f)) = before (f :: C) ++ after (f :: C).
Proof.
  rewrite entries_plug. simpl. destruct (fr_left f); simpl; by rewrite ?app_nil_r, <-?app_assoc.
Qed.

Lemma crit_unplug f C i k :
  crit BITS (plug (f :: C) (SLeaf i k)) → crit BITS (plug C (fr_sib f)).
Proof.
  simpl. intros Hc. pose proof (crit_plug_hole _ _ _ Hc) as Hf.
  apply crit_fill1 in Hf as (Hb & _ & Hsib & _).
  eapply crit_replace; [exact Hc|eapply crit_weaken; [|exact Hsib]; lia|].
  intros x Hx. exists x. split; [apply keys_fill1; auto|]. by intros j.
Qed.

Lemma remove_inner t f C i k q v :
  tree_shape t (plug (f :: C) (SLeaf i k)) → leaves t !! i = Some (mkLeafNode q k v) →
  ∃ t', remove_leaf_by_index i t = (Ok v, t') ∧ tree_shape t' (plug C (fr_sib f)) ∧
        payload <$> leaves t' = delete i (payload <$> leaves t) ∧
        next_leaf_node_index t' = next_leaf_node_index t.
Proof.
  intros Hts Hv. set (s' := plug C (fr_sib f)).
  pose proof (entries_unplug f C : entries s' = _) as Hent.
  destruct (drop_min_least t _ Hts (f :: C) i k eq_refl s' Hent) as (m & Hdmin & Hleast).
  destruct (drop_max_greatest t _ Hts (f :: C) i k eq_refl s' Hent m) as (m' & Hdmax & Hgreat).
  destruct (ts_split t _ Hts (f :: C) (SLeaf i k) eq_refl) as ((Hn & Hsib & Hctx) & [v0 Hv0] & _).
  rewrite Hv in Hv0. injection Hv0 as -> ->.
  set (t2 := set_leaves (delete i (leaves t)) (set_max m' (set_min m t))).
  pose proof (ts_leaf_nodup _ _ Hts) as Hnl. pose proof (ts_node_nodup _ _ Hts) as Hnn.
  pose proof Hnl as Hl2. simpl in Hl2. rewrite leaf_ids_plug, fill1_leaf_ids in Hl2.
  cbn [app] in Hl2. apply NoDup_cons in Hl2 as [Hi Hl2]. rewrite elem_of_app in Hi.
  pose proof Hnn as Hn2. simpl in Hn2. rewrite node_ids_plug, fill1_node_ids in Hn2.
  cbn [app] in Hn2. apply NoDup_cons in Hn2 as [Hfi Hn2].
  assert (∀ j, j ≠ i → leaves t2 !! j = leaves t !! j) as Hsame
    by (intros j Hj; apply lookup_delete_ne; congruence).
  destruct (unlink_spec t2 f C i k) as (ns & ls & Hrun & Hr & Hpay & Hdom); try done.
  { apply (ts_root _ _ Hts). }
  { eapply repr_frame; [done| |exact Hsib]. intros j Hj. apply Hsame. intros ->; tauto. }
  { eapply repr_ctx_frame; [done| |exact Hctx]. intros j Hj. apply Hsame. intros ->; tauto. }
  { apply (ts_ids t _ Hts). }
  exists (set_leaves ls (set_internal_nodes ns (set_root (tree_index s') t2))).
  assert (leaf_ids (plug (f :: C) (SLeaf i k)) ≡ₚ i :: leaf_ids s') as Hlids
    by (unfold s'; simpl; by rewrite !leaf_ids_plug, fill1_leaf_ids).
  assert (node_ids (plug (f :: C) (SLeaf i k)) ≡ₚ fr_id f :: node_ids s') as Hnids
    by (unfold s'; simpl; by rewrite !node_ids_plug, fill1_node_ids).
  assert (payload <$> ls = delete i (payload <$> leaves t)) as Hpay'
    by (rewrite Hpay; subst t2; simpl; by rewrite fmap_delete).
  split_and!; [|split; simpl; try done|done|done].
  - unfold remove_leaf_by_index. rewrite M_bind_run. unfold gets. rewrite Hv.
    cbn [ok_or lf_key lf_parent lf_value hole_parent]. rewrite M_bind_run, Hdmin, M_bind_run, Hdmax.
    rewrite M_bind_run. unfold modify at 1. cbn [orb].
    change (set_leaves _ (set_max m' (set_min m t))) with t2. by rewrite M_bind_run, Hrun.
  - apply (crit_unplug f C i k), Hts.
  - apply (ts_next _ _ Hts).
  - pose proof (ts_leaf_ids _ _ Hts) as Hall. rewrite Hlids in Hall. by apply Forall_cons in Hall as [_ ?].
  - pose proof (ts_node_ids _ _ Hts) as Hall. rewrite Hnids in Hall. by apply Forall_cons in Hall as [_ ?].
  - unfold s'. by rewrite leaf_ids_plug.
  - unfold s'. by rewrite node_ids_plug.
  - intros j. rewrite <-(fmap_is_Some payload), <-lookup_fmap, Hpay', lookup_delete_is_Some.
    rewrite lookup_fmap, fmap_is_Some, (ts_leaf_dom _ _ Hts), Hlids, elem_of_cons.
    assert (i ∉ leaf_ids s') by (unfold s'; by rewrite leaf_ids_plug, elem_of_app).
    split; [intros [? [?|?]]; [congruence|done]|]. intros Hj. split; [by intros ->|by right].
  - intros j. rewrite Hdom. change (internal_nodes t2) with (internal_nodes t).
    rewrite (ts_node_dom _ _ Hts), Hnids, elem_of_cons.
    assert (fr_id f ∉ node_ids s') by (unfold s'; by rewrite node_ids_plug).
    split; [intros [? [?|?]]; [congruence|done]|]. intros Hj. split; [by intros ->|by right].
Qed.

Lemma contents_delete_payload t t' i k v :
  tree_wf t → tree_wf t' → (payload <$> leaves t) !! i = Some (k, v) →
  payload <$> leaves t' = delete i (payload <$> leaves t) →
  contents t' = delete k (contents t).
Proof.
  intros Hwf Hwf' Hi Hpay. apply map_eq. intros k'. apply option_eq. intros v'.
  rewrite contents_payload, Hpay, lookup_delete_Some, contents_payload by done.
  destruct Hwf as [->|[s Hts]]; [done|].
  apply lookup_fmap_Some in Hi as (lf & Hlf & Hi). pose proof (ts_leaf_entry t s Hts _ _ Hi) as He.
  split.
  - intros [j [Hne (lf' & Hlf' & Hj)%lookup_fmap_Some]%lookup_delete_Some].
    split; [|exists j; by rewrite lookup_fmap, Hj, <-Hlf'].
    intros <-. apply Hne. pose proof (ts_leaf_entry t s Hts _ _ Hj) as He'.
    unfold payload in *. simplify_eq/=.
    eapply (ts_entry_key_unique t s Hts); [exact He|]. congruence.
  - intros [Hne [j Hj]]. exists j. rewrite lookup_delete_ne; [done|].
    intros <-. rewrite lookup_fmap, Hi in Hj. simpl in Hj. congruence.
Qed.

Lemma remove_present t i lf :
  tree_wf t → leaves t !! i = Some lf →
  ∃ t', remove_leaf_by_index i t = (Ok (lf_value lf), t') ∧ tree_wf t' ∧
        contents t' = delete (lf_key lf) (contents t) ∧
        next_leaf_node_index t' ≤ next_leaf_node_index t.
Proof.
  intros Hwf Hi. destruct lf as [q k v]. pose proof Hwf as [->|[s Hts]]; [done|].
  pose proof (ts_leaf_entry t s Hts _ _ Hi) as Hin. simpl in Hin.
  assert (∃ t', remove_leaf_by_index i t = (Ok v, t') ∧ tree_wf t' ∧
                payload <$> leaves t' = delete i (payload <$> leaves t) ∧
                next_leaf_node_index t' ≤ next_leaf_node_index t)
    as (t' & Hrun & Hwf' & Hpay & Hnext).
  { destruct (entries_context s k i Hin) as [[|f C] ->].
    - exists new. split_and!; [by eapply remove_last|by left| |simpl; apply tree_wf_next in Hwf; lia].
      rewrite leaves_new, fmap_empty. symmetry. apply map_empty_dom.
      intros j [Hne Hj]%lookup_delete_is_Some. rewrite lookup_fmap, fmap_is_Some in Hj.
      apply (ts_leaf_dom _ _ Hts), list_elem_of_singleton in Hj. by subst.
    - destruct (remove_inner t f C i k q v Hts Hi) as (t' & Hrun & Hts' & Hpay & Hnext).
      exists t'. split_and!; [done|right; eauto|done|lia]. }
  exists t'. split_and!; [done|done| |done].
  apply (contents_delete_payload t t' i k v); [done..| |done]. by rewrite lookup_fmap, Hi.
Qed.

Lemma remove_missing t i :
  leaves t !! i = None → remove_leaf_by_index i t = (Err NotFound, t).
Proof. intros Hi. unfold remove_leaf_by_index. rewrite M_bind_run. unfold gets. by rewrite Hi. Qed.
End Remove.
