(* ===== verification/OrderId.v ===== *)
(** * Order identifiers

    [OrderId] of [types.rs]: a [u64] whose top bit tells the side.  Bid ids
    count up from [0], ask ids from [2^63]; the increment stops before a side
    would run into the next one, so the two streams never meet. *)
From S2P Require Import Prelude.
From Stdlib Require Import Bool.

Definition u64_BITS : Z := 64.
Definition u64_MAX : Z := 2 ^ u64_BITS - 1.

(** [struct OrderId(pub u64)]. *)
Record OrderId := mkOrderId { order_id_value : Z }.

#[export] Instance OrderId_eq_dec : EqDecision OrderId.
Proof. solve_decision. Defined.

Section OrderId.
Context `{BuildProfile} {E : Type}.
Implicit Types self rhs : OrderId.

Definition start_bid_id : OrderId := mkOrderId 0.
Definition start_ask_id : OrderId := mkOrderId (Z.shiftl 1 (u64_BITS - 1)).
Definition max_bid_id self : OrderId := start_ask_id.
Definition max_ask_id self : OrderId := mkOrderId u64_MAX.

Definition is_bid self : bool :=
  Z.land (order_id_value self) (order_id_value start_ask_id) =? 0.

(** The operators on [OrderId] are those of [u64]. *)
Definition order_id_add self rhs : outcome E OrderId :=
  mkOrderId <$> u_add 64 (order_id_value self) (order_id_value rhs).
Definition order_id_sub self rhs : outcome E OrderId :=
  mkOrderId <$> u_sub 64 (order_id_value self) (order_id_value rhs).
Definition order_id_add_u64 self (rhs : Z) : outcome E OrderId := mkOrderId <$> u_add 64 (order_id_value self) rhs.

(** [+=] and [-=]; an overflow that aborts leaves the receiver. *)
Definition order_id_add_assign rhs : M OrderId E () :=
  self ← get; v ← lift (u_add 64 (order_id_value self) (order_id_value rhs)); put (mkOrderId v).
Definition order_id_sub_assign rhs : M OrderId E () :=
  self ← get; v ← lift (u_sub 64 (order_id_value self) (order_id_value rhs)); put (mkOrderId v).
Definition order_id_add_assign_u64 (rhs : Z) : M OrderId E () :=
  self ← get; v ← lift (u_add 64 (order_id_value self) rhs); put (mkOrderId v).

Definition order_id_deref self : Z := order_id_value self.
Definition order_id_from (value : Z) : OrderId := mkOrderId value.
Definition order_id_into self : Z := order_id_value self.

Definition increase_by_one self : outcome E (option OrderId) :=
  let max_index := if is_bid self then max_bid_id self else max_ask_id self in
  bound ← order_id_sub max_index (mkOrderId 1);
  if order_id_value self =? order_id_value bound then mret None
  else next ← u_add 64 (order_id_value self) 1; mret (Some (mkOrderId next)).

(** [OrderbookOrderId for OrderId]. *)
Definition order_id_new (is_bid : bool) : OrderId :=
  if is_bid then start_bid_id else start_ask_id.
Definition checked_increase self : outcome E (option OrderId) := increase_by_one self.
End OrderId.

Definition order_id_ok (x : OrderId) : Prop := in_range 64 (order_id_value x).

(** The assigning operators are the pure ones, a [u64] on the right is its id,
    and a sum that is an id is undone by the difference. *)
Lemma order_id_ops `{BuildProfile} {E} (x y : OrderId) :
  order_id_add_assign (E:=E) y x =
    match order_id_add x y with Ok z => (Ok (), z) | Err e => (Err e, x) | Panic => (Panic, x) | OutOfFuel => (OutOfFuel, x) end ∧
  order_id_sub_assign (E:=E) y x =
    match order_id_sub x y with Ok z => (Ok (), z) | Err e => (Err e, x) | Panic => (Panic, x) | OutOfFuel => (OutOfFuel, x) end ∧
  order_id_add_assign_u64 (E:=E) (order_id_into y) x = order_id_add_assign y x ∧
  order_id_add_u64 (E:=E) x (order_id_into y) = order_id_add x y ∧
  (order_id_ok x → in_range 64 (order_id_value x + order_id_value y) →
     (z ← order_id_add (E:=E) x y; order_id_sub z y) = Ok x).
Proof.
  unfold order_id_add_assign, order_id_sub_assign, order_id_add, order_id_sub. split_and!; [| |done|done|].
  - rewrite !M_bind_run. cbn. rewrite M_bind_run. unfold lift. by destruct (u_add _ _ _).
  - rewrite !M_bind_run. cbn. rewrite M_bind_run. unfold lift. by destruct (u_sub _ _ _).
  - intros Hx Hs. rewrite u_add_ok by done. simpl. rewrite u_sub_ok by (replace (_ - _) with (order_id_value x) by (simpl; lia); exact Hx).
    simpl. destruct x as [x]. simpl. do 2 f_equal. lia.
Qed.

(** The side of an id is decided by its size. *)
Lemma is_bid_lt x : order_id_ok x → is_bid x = (order_id_value x <? 2 ^ 63).
Proof.
  destruct x as [x]. unfold order_id_ok, in_range, is_bid, start_ask_id. cbn [order_id_value]. intros Hx.
  change (Z.shiftl 1 (u64_BITS - 1)) with (2 ^ 63).
  apply eq_true_iff_eq. rewrite Z.eqb_eq, Z.ltb_lt.
  assert (Z.land x (2 ^ 63) = 0 ↔ Z.testbit x 63 = false) as ->.
  { split.
    - intros Hl. pose proof (f_equal (λ y, Z.testbit y 63) Hl) as Hb. cbv beta in Hb.
      rewrite Z.land_spec, Z.pow2_bits_true, andb_true_r, Z.testbit_0_l in Hb by lia. done.
    - intros Hb. apply Z.bits_inj'. intros j Hj. rewrite Z.land_spec, Z.testbit_0_l.
      destruct (Z.eq_dec j 63) as [->|]; [by rewrite Hb|].
      rewrite Z.pow2_bits_false by lia. apply andb_false_r. }
  split; intros Hb.
  - destruct (Z.lt_ge_cases x (2 ^ 63)) as [|Hge]; [done|exfalso].
    assert (Z.testbit x 63 = true); [|congruence].
    rewrite Z.testbit_true by lia.
    assert (x / 2 ^ 63 = 1) as ->; [|done].
    symmetry. apply Z.div_unique with (x - 2 ^ 63); lia.
  - apply Z.bits_above_log2; [lia|]. destruct (Z.eq_dec x 0) as [->|]; [done|].
    apply Z.log2_lt_pow2; lia.
Qed.

(** The last id that either side hands out. *)
Definition last_id (bid : bool) : Z := if bid then 2 ^ 63 - 1 else 2 ^ 64 - 2.

Section Increase.
Context `{BuildProfile} {E : Type}.

(** [checked_increase] never aborts: it refuses the last id of a side and
    otherwise counts up on the same side.  The id [u64::MAX], which is
    never issued, is excluded: there the addition overflows. *)
Lemma checked_increase_spec x :
  order_id_ok x → order_id_value x ≠ u64_MAX →
  checked_increase (E:=E) x =
    Ok (if order_id_value x =? last_id (is_bid x) then None
        else Some (mkOrderId (order_id_value x + 1))).
Proof.
  intros Hx Hmax. pose proof Hx as Hx'. unfold order_id_ok, in_range in Hx'.
  unfold u64_MAX, u64_BITS in Hmax.
  unfold checked_increase, increase_by_one, order_id_sub.
  rewrite (is_bid_lt x Hx). unfold last_id.
  change (2 ^ 64) with 18446744073709551616 in *.
  destruct (Z.ltb_spec (order_id_value x) (2 ^ 63)) as [Hb|Hb];
    change (2 ^ 63) with 9223372036854775808 in *.
  - rewrite u_sub_ok by (split; vm_compute; done). cbn [fmap outcome_fmap]. run_step.
    change (order_id_value (max_bid_id x) - order_id_value (mkOrderId 1)) with (9223372036854775808 - 1).
    cbn [order_id_value]. destruct (Z.eqb_spec (order_id_value x) (9223372036854775808 - 1)); [done|].
    rewrite u_add_ok by (unfold in_range; change (2 ^ 64) with 18446744073709551616; lia). done.
  - rewrite u_sub_ok by (split; vm_compute; done). cbn [fmap outcome_fmap]. run_step.
    change (order_id_value (max_ask_id x) - order_id_value (mkOrderId 1)) with (18446744073709551616 - 2).
    cbn [order_id_value]. destruct (Z.eqb_spec (order_id_value x) (18446744073709551616 - 2)); [done|].
    rewrite u_add_ok by (unfold in_range; change (2 ^ 64) with 18446744073709551616; lia). done.
Qed.

Lemma checked_increase_side x y :
  order_id_ok x → order_id_value x ≠ u64_MAX →
  checked_increase (E:=E) x = Ok (Some y) →
  order_id_ok y ∧ order_id_value y ≠ u64_MAX ∧ is_bid y = is_bid x ∧
  order_id_value y = order_id_value x + 1.
Proof.
  intros Hx Hmax. rewrite checked_increase_spec by done.
  destruct (Z.eqb_spec (order_id_value x) (last_id (is_bid x))) as [|Hne]; [done|].
  intros [= <-].
  revert Hne. rewrite (is_bid_lt x Hx). unfold order_id_ok, in_range, last_id, u64_MAX, u64_BITS in *.
  change (2 ^ 64) with 18446744073709551616 in *. change (2 ^ 63) with 9223372036854775808 in *.
  intros Hne.
  assert (order_id_ok (mkOrderId (order_id_value x + 1))) as Hy.
  { unfold order_id_ok, in_range. simpl order_id_value.
    change (2 ^ 64) with 18446744073709551616. lia. }
  simpl order_id_value.
  destruct (Z.ltb_spec (order_id_value x) 9223372036854775808).
  - split_and!; [lia|lia|lia| |done].
    rewrite (is_bid_lt _ Hy). apply Z.ltb_lt. simpl order_id_value. lia.
  - split_and!; [lia|lia|lia| |done].
    rewrite (is_bid_lt _ Hy). apply Z.ltb_ge. simpl order_id_value. lia.
Qed.
End Increase.
