(* ===== verification/BTreeMap.v ===== *)
(** * Ordered maps

    [BTreeMap] as far as the order book iterates over one: an association
    list with strictly increasing keys. *)
From S2P Require Import Prelude.

Section BTreeMap.
Context {A : Type}.
Implicit Types (m : list (Z * A)) (k : Z) (a : A).

Fixpoint bt_get k m : option A :=
  match m with
  | [] => None
  | (k', a) :: m => if k =? k' then Some a else bt_get k m
  end.

Fixpoint bt_insert k a m : list (Z * A) :=
  match m with
  | [] => [(k, a)]
  | (k', a') :: m' =>
      if k <? k' then (k, a) :: m
      else if k =? k' then (k, a) :: m'
      else (k', a') :: bt_insert k a m'
  end.

Fixpoint bt_remove k m : list (Z * A) :=
  match m with
  | [] => []
  | (k', a') :: m' => if k =? k' then m' else (k', a') :: bt_remove k m'
  end.

Definition bt_ok m : Prop := StronglySorted Z.lt m.*1.

Lemma bt_ok_cons k a m : bt_ok ((k, a) :: m) ↔ (∀ x, x ∈ m.*1 → k < x) ∧ bt_ok m.
Proof.
  unfold bt_ok. simpl. split.
  - intros [? Hall]%StronglySorted_inv. by rewrite Forall_forall in Hall.
  - intros [Hall ?]. constructor; [done|]. by rewrite Forall_forall.
Qed.

Lemma bt_get_elem k a m : bt_get k m = Some a → (k, a) ∈ m.
Proof.
  induction m as [|[k' a'] m IH]; simpl; [done|].
  destruct (Z.eqb_spec k k') as [->|]; [intros [= ->]; by left|right; auto].
Qed.

Lemma bt_get_key k a m : bt_get k m = Some a → k ∈ m.*1.
Proof. intros Hg%bt_get_elem. apply list_elem_of_fmap. by exists (k, a). Qed.

Lemma bt_get_None k m : bt_get k m = None ↔ k ∉ m.*1.
Proof.
  induction m as [|[k' a'] m IH]; simpl; [split; [intros _; apply not_elem_of_nil|done]|].
  rewrite elem_of_cons. destruct (Z.eqb_spec k k') as [->|]; [naive_solver|].
  rewrite IH. naive_solver.
Qed.

Lemma bt_get_insert k k' a m :
  bt_get k' (bt_insert k a m) = if k' =? k then Some a else bt_get k' m.
Proof.
  induction m as [|[k0 a0] m IH]; simpl; [done|].
  destruct (Z.ltb_spec k k0); [done|].
  destruct (Z.eqb_spec k k0) as [->|]; simpl.
  - by destruct (Z.eqb_spec k' k0).
  - rewrite IH. destruct (Z.eqb_spec k' k0) as [->|]; [|done].
    by destruct (Z.eqb_spec k0 k); [subst|].
Qed.

Lemma bt_insert_keys k a m x : x ∈ (bt_insert k a m).*1 ↔ x = k ∨ x ∈ m.*1.
Proof.
  induction m as [|[k0 a0] m IH]; simpl; [set_solver|].
  destruct (k <? k0); simpl; [set_solver|].
  destruct (Z.eqb_spec k k0); simpl; [set_solver|].
  rewrite !elem_of_cons, IH. tauto.
Qed.

Lemma bt_insert_ok k a m : bt_ok m → bt_ok (bt_insert k a m).
Proof.
  induction m as [|[k0 a0] m IH]; simpl; [intros _; repeat constructor|].
  intros Hm. destruct (Z.ltb_spec k k0); [|destruct (Z.eqb_spec k k0) as [->|]].
  - apply bt_ok_cons. split; [|done]. apply bt_ok_cons in Hm as [Hlt _].
    simpl. intros x [->|Hx]%elem_of_cons; [lia|]. specialize (Hlt x Hx). lia.
  - apply bt_ok_cons in Hm as [Hlt Hm]. by apply bt_ok_cons.
  - apply bt_ok_cons in Hm as [Hlt Hm]. apply bt_ok_cons. split; [|auto].
    intros x [->|Hx]%bt_insert_keys; [lia|auto].
Qed.

Lemma bt_remove_sub k m x : x ∈ bt_remove k m → x ∈ m.
Proof.
  induction m as [|[k0 a0] m IH]; simpl; [done|].
  destruct (k =? k0); [by right|]. intros [->|?]%elem_of_cons; [by left|right; auto].
Qed.

Lemma bt_remove_ok k m : bt_ok m → bt_ok (bt_remove k m).
Proof.
  induction m as [|[k0 a0] m IH]; simpl; [done|].
  intros [Hlt Hm]%bt_ok_cons. destruct (k =? k0); [done|].
  apply bt_ok_cons. split; [|auto]. intros x ([k1 a1] & -> & Hx%bt_remove_sub)%list_elem_of_fmap.
  apply Hlt, list_elem_of_fmap. by exists (k1, a1).
Qed.

Lemma bt_get_remove k k' m :
  bt_ok m → bt_get k' (bt_remove k m) = if k' =? k then None else bt_get k' m.
Proof.
  induction m as [|[k0 a0] m IH]; simpl; [by destruct (_ =? _)|].
  intros [Hlt Hm]%bt_ok_cons. destruct (Z.eqb_spec k k0) as [->|Hne].
  - destruct (Z.eqb_spec k' k0) as [->|]; [|done].
    apply bt_get_None. intros Hin%Hlt. lia.
  - simpl. rewrite IH by done.
    destruct (Z.eqb_spec k' k0) as [->|]; [|done]. by destruct (Z.eqb_spec k0 k); [subst|].
Qed.

(** Removing the first entry. *)
Lemma bt_remove_absent k m : k ∉ m.*1 → bt_remove k m = m.
Proof.
  induction m as [|[k' a] m IH]; simpl; [done|]. rewrite not_elem_of_cons. intros [Hk Hm].
  destruct (Z.eqb_spec k k'); [done|]. by rewrite IH.
Qed.

Lemma bt_remove_head k a m : bt_remove k ((k, a) :: m) = m.
Proof. simpl. by rewrite Z.eqb_refl. Qed.

(** A key below every other one is inserted in front, a key above every
    other one at the end. *)
Lemma bt_insert_last k a m : (∀ x, x ∈ m.*1 → x < k) → bt_insert k a m = m ++ [(k, a)].
Proof.
  induction m as [|[k0 a0] m IH]; simpl; [done|]. intros Hlt.
  assert (k0 < k) by (apply Hlt; by left).
  destruct (Z.ltb_spec k k0); [lia|]. destruct (Z.eqb_spec k k0); [lia|].
  rewrite IH; [done|]. intros x Hx. apply Hlt. by right.
Qed.
End BTreeMap.
