(* ===== verification/Tick.v ===== *)
(** * Orders at one price level

    [trait OrderInterface] of [types.rs] as a type class, and its
    implementation [Tick]: the open orders of a price level in the order of
    their ids.  [filled] serves them first come, first served; it neither
    creates nor destroys quantity and cannot abort. *)
From S2P Require Import Prelude Index OrderId BTreeMap.
From Stdlib Require Import Bool.

Inductive OrderError := OrderNotExist | NotOwner | Underflow | OrderOverflow.

#[export] Instance OrderError_eq_dec : EqDecision OrderError.
Proof. solve_decision. Defined.

(** [struct Order]: quantity, owner and the block at which the order expires. *)
Record Order (Account : Type) := mkOrder {
  quantity : Z;
  owner : Account;
  expired_at : Z
}.
Arguments mkOrder {Account} _ _ _.
Arguments quantity {Account} _.
Arguments owner {Account} _.
Arguments expired_at {Account} _.

#[export] Instance Order_eq_dec `{EqDecision A} : EqDecision (Order A).
Proof. solve_decision. Defined.

(** [trait OrderInterface]: what the order book needs of the value stored at
    a price.  Methods with a [&mut self] receiver are state transformers. *)
Class OrderInterface (Account V : Type) := {
  order_new : OrderId → Account → Z → Z → V;
  find_order_of : V → Account → option (list (Order Account));
  orders : V → V;
  order_is_empty : V → bool;
  placed : OrderId → Account → Z → Z → V → V;
  filled : ∀ {E : Type}, Z → M V E (option (list (Account * Z)));
  added : Account → OrderId → Z → M V OrderError ();
  canceled : Account → OrderId → Z → M V OrderError ()
}.

(** [struct Tick { open_orders: BTreeMap<OrderId, Order> }]. *)
Record Tick (Account : Type) := mkTick { open_orders : list (Z * Order Account) }.
Arguments mkTick {Account} _.
Arguments open_orders {Account} _.

#[export] Instance Tick_eq_dec `{EqDecision A} : EqDecision (Tick A).
Proof. solve_decision. Defined.

Section Tick.
Context `{OrderBookIndex, BuildProfile} {Account : Type} `{EqDecision Account}.
Implicit Types (self : Tick Account) (order : Order Account).

Definition Order_new (owner : Account) (quantity expired_at : Z) : Order Account :=
  mkOrder quantity owner expired_at.

Definition with_quantity (q : Z) order : Order Account :=
  mkOrder q (owner order) (expired_at order).

Definition Tick_new (order_id : OrderId) (owner : Account) (quantity expired_at : Z) : Tick Account :=
  mkTick (bt_insert (order_id_value order_id) (Order_new owner quantity expired_at) []).

Definition Tick_find_order_of self (o : Account) : option (list (Order Account)) :=
  let matched := filter (λ order, owner order = o) (open_orders self).*2 in
  match matched with [] => None | _ => Some matched end.

Definition Tick_is_empty self : bool :=
  match open_orders self with [] => true | _ => false end.

Definition Tick_placed (order_id : OrderId) (owner : Account) (quantity expired_at : Z)
    self : Tick Account :=
  mkTick (bt_insert (order_id_value order_id) (Order_new owner quantity expired_at)
            (open_orders self)).

(** The loop of [filled] over [open_orders.iter_mut()]: returns the orders
    as updated in place, and the final [filled], [to_remove] and [res]. *)
Fixpoint fill_loop {E} (quantity0 : Z) (ords : list (Z * Order Account))
    (filled : Z) (to_remove : list Z) (res : list (Account * Z)) :
    outcome E (list (Z * Order Account) * Z * list Z * list (Account * Z)) :=
  match ords with
  | [] => Ok ([], filled, to_remove, res)
  | (id, order) :: rest =>
      remain ← u_sub BITS quantity0 filled;
      if remain =? 0 then Ok (ords, filled, to_remove, res)
      else if remain <=? quantity order then
        left ← u_sub BITS (quantity order) remain;
        filled ← u_add BITS filled remain;
        '(rest', f, rm, r) ← fill_loop quantity0 rest filled to_remove
                               (res ++ [(owner order, remain)]);
        Ok ((id, with_quantity left order) :: rest', f, rm, r)
      else
        filled ← u_add BITS filled (quantity order);
        '(rest', f, rm, r) ← fill_loop quantity0 rest filled (to_remove ++ [id])
                               (res ++ [(owner order, quantity order)]);
        Ok ((id, order) :: rest', f, rm, r)
  end.

Definition Tick_filled {E} (quantity : Z) : M (Tick Account) E (option (list (Account * Z))) :=
  self ← get;
  '(ords, filled, to_remove, res) ← lift (fill_loop quantity (open_orders self) 0 [] []);
  _ ← put (mkTick (foldl (λ m id, bt_remove id m) ords to_remove));
  mret (if filled =? 0 then None else Some res).

Definition Tick_added (maybe_owner : Account) (order_id : OrderId) (q : Z) :
    M (Tick Account) OrderError () :=
  self ← get;
  match bt_get (order_id_value order_id) (open_orders self) with
  | Some order =>
      _ ← lift (ensure (bool_decide (owner order = maybe_owner)) NotOwner);
      new_quantity ← lift (ok_or (checked_add BITS (quantity order) q) OrderOverflow);
      put (mkTick (bt_insert (order_id_value order_id) (with_quantity new_quantity order)
                     (open_orders self)))
  | None => throw OrderNotExist
  end.

Definition Tick_canceled (maybe_owner : Account) (order_id : OrderId) (q : Z) :
    M (Tick Account) OrderError () :=
  self ← get;
  match bt_get (order_id_value order_id) (open_orders self) with
  | Some order =>
      _ ← lift (ensure (bool_decide (owner order = maybe_owner)) NotOwner);
      new_quantity ← lift (ok_or (checked_sub BITS (quantity order) q) Underflow);
      _ ← put (mkTick (bt_insert (order_id_value order_id) (with_quantity new_quantity order)
                         (open_orders self)));
      if new_quantity =? 0 then
        modify (λ self, mkTick (bt_remove (order_id_value order_id) (open_orders self)))
      else mret ()
  | None => throw OrderNotExist
  end.

#[export] Instance Tick_OrderInterface : OrderInterface Account (Tick Account) := {
  order_new := Tick_new;
  find_order_of := Tick_find_order_of;
  orders := λ self, self;
  order_is_empty := Tick_is_empty;
  placed := Tick_placed;
  filled := @Tick_filled;
  added := Tick_added;
  canceled := Tick_canceled
}.
End Tick.

(** ** Invariant and specification *)
Section TickSpec.
Context `{OrderBookIndex, BuildProfile} {Account : Type} `{EqDecision Account}.
Implicit Types (self : Tick Account) (l : list (Z * Order Account)).

Definition order_ok (o : Order Account) : Prop := in_range BITS (quantity o).

Definition tick_ok self : Prop :=
  bt_ok (open_orders self) ∧ Forall order_ok (open_orders self).*2.

(** Open quantity of a level, and what a list of fills adds up to. *)
Definition total l : Z := foldr (λ e acc, quantity e.2 + acc) 0 l.
Definition fill_sum (res : list (Account * Z)) : Z := foldr (λ e acc, e.2 + acc) 0 res.

(** First come, first served: serve [q] from the front. *)
Fixpoint serve (q : Z) l : list (Z * Order Account) * list (Account * Z) :=
  match l with
  | [] => ([], [])
  | (id, o) :: l' =>
      if q =? 0 then (l, [])
      else if q <=? quantity o then ((id, with_quantity (quantity o - q) o) :: l', [(owner o, q)])
      else let '(rest, res) := serve (q - quantity o) l' in (rest, (owner o, quantity o) :: res)
  end.

Lemma total_nonneg l : Forall order_ok l.*2 → 0 ≤ total l.
Proof.
  induction l as [|[id o] l IH]; simpl; [lia|]. intros [Ho Hl]%Forall_cons.
  unfold order_ok, in_range in Ho. specialize (IH Hl). lia.
Qed.

Lemma serve_conserves q l :
  0 ≤ q → Forall order_ok l.*2 →
  fill_sum (serve q l).2 = Z.min q (total l) ∧
  total (serve q l).1 = total l - Z.min q (total l) ∧
  Forall order_ok (serve q l).1.*2.
Proof.
  revert q. induction l as [|[id o] l IH]; intros q Hq; simpl.
  { intros _. split_and!; [lia|lia|constructor]. }
  intros [Ho Hl]%Forall_cons. pose proof (total_nonneg l Hl).
  unfold order_ok, in_range in Ho.
  destruct (Z.eqb_spec q 0) as [->|]; simpl.
  { split_and!; [lia|lia|by apply Forall_cons]. }
  destruct (Z.leb_spec q (quantity o)); simpl.
  - split_and!; [lia|lia|]. apply Forall_cons. split; [|done].
    unfold order_ok, in_range. simpl. lia.
  - destruct (IH (q - quantity o) ltac:(lia) Hl) as (Hf & Ht & Hok).
    destruct (serve (q - quantity o) l) as [rest res]. simpl in *. split_and!; [lia|lia|done].
Qed.

Lemma foldl_remove_prefix (pre l : list (Z * Order Account)) :
  foldl (λ m id, bt_remove id m) (pre ++ l) pre.*1 = l.
Proof.
  induction pre as [|[id o] pre IH]; simpl; [done|]. by rewrite Z.eqb_refl.
Qed.

(** Once everything is filled the loop stops. *)
Lemma fill_loop_done {E} q l rm res :
  in_range BITS q → fill_loop (E:=E) q l q rm res = Ok (l, q, rm, res).
Proof.
  intros Hq. destruct l as [|[id o] l]; simpl; [done|].
  rewrite u_sub_ok by (unfold in_range in *; lia). simpl. by rewrite Z.sub_diag.
Qed.

Lemma fill_loop_spec {E} q l f rm res :
  in_range BITS q → 0 ≤ f ≤ q → Forall order_ok l.*2 →
  ∃ pre,
    fill_loop (E:=E) q l f rm res =
      Ok (pre ++ (serve (q - f) l).1, f + fill_sum (serve (q - f) l).2, rm ++ pre.*1,
          res ++ (serve (q - f) l).2) ∧
    ∃ post, l = pre ++ post.
Proof.
  intros Hq. revert f rm res. induction l as [|[id o] l IH]; intros f rm res Hf Hl; simpl.
  { exists []. simpl. rewrite !app_nil_r, Z.add_0_r. split; [done|by exists []]. }
  apply Forall_cons in Hl as [Ho Hl]. unfold order_ok in Ho. unfold in_range in *. simpl in Ho.
  rewrite u_sub_ok by (unfold in_range; lia). run_step.
  destruct (Z.eqb_spec (q - f) 0).
  { exists []. simpl. rewrite !app_nil_r, Z.add_0_r. split; [done|by eexists]. }
  destruct (Z.leb_spec (q - f) (quantity o)).
  - rewrite u_sub_ok by (unfold in_range; lia). run_step.
    rewrite u_add_ok by (unfold in_range; lia). run_step.
    replace (f + (q - f)) with q by lia.
    rewrite (fill_loop_done q) by done. run_step. exists []. simpl.
    rewrite app_nil_r. split; [|by eexists]. by replace (f + (q - f + 0)) with q by lia.
  - rewrite u_add_ok by (unfold in_range; lia). run_step.
    destruct (IH (f + quantity o) (rm ++ [id]) (res ++ [(owner o, quantity o)]))
      as (pre & Hrun & post & Hpost); [lia|done|].
    rewrite Hrun. run_step. replace (q - (f + quantity o)) with (q - f - quantity o) by lia.
    destruct (serve (q - f - quantity o) l) as [rest res']. exists ((id, o) :: pre).
    simpl. rewrite <-!app_assoc. simpl. split; [|exists post; by rewrite Hpost].
    by rewrite Z.add_assoc.
Qed.

(** [filled] is [serve]; no arithmetic aborts or wraps, in any build. *)
Lemma filled_serve {E} q self :
  in_range BITS q → tick_ok self →
  Tick_filled (E:=E) q self =
    (Ok (if Z.min q (total (open_orders self)) =? 0 then None
         else Some (serve q (open_orders self)).2),
     mkTick (serve q (open_orders self)).1).
Proof.
  intros Hq [_ Hok]. unfold Tick_filled. run_step.
  destruct (fill_loop_spec (E:=E) q (open_orders self) 0 [] [] Hq) as (pre & -> & post & Hpost);
    [unfold in_range in Hq; lia|done|].
  rewrite Z.sub_0_r. run_step. cbn [app]. rewrite foldl_remove_prefix, Z.add_0_l.
  destruct (serve_conserves q (open_orders self) (proj1 Hq) Hok) as (-> & _ & _). done.
Qed.

(** The orders left after serving are a suffix, but for the quantity of its
    first order, which may have shrunk. *)
Lemma serve_keys q l : ∃ pre, l.*1 = pre ++ (serve q l).1.*1.
Proof.
  revert q. induction l as [|[id o] l IH]; intros q; simpl; [by exists []|].
  destruct (q =? 0); [by exists []|]. destruct (q <=? quantity o); [by exists []|].
  destruct (IH (q - quantity o)) as [pre Hpre].
  destruct (serve (q - quantity o) l) as [rest res]. exists (id :: pre). simpl in *. by f_equal.
Qed.

Lemma serve_ok q self :
  0 ≤ q → tick_ok self → tick_ok (mkTick (serve q (open_orders self)).1).
Proof.
  intros Hq [Hbt Hok]. split; simpl; [|by apply serve_conserves].
  destruct (serve_keys q (open_orders self)) as [pre Hpre]. unfold bt_ok in *.
  rewrite Hpre in Hbt. by apply StronglySorted_app in Hbt as (_ & _ & ?).
Qed.
End TickSpec.

(** ** The other operations *)
Section TickOps.
Context `{OrderBookIndex, BuildProfile} {Account : Type} `{EqDecision Account}.
Implicit Types (self : Tick Account).

Lemma Forall_bt_insert (P : Order Account → Prop) k o (m : list (Z * Order Account)) :
  Forall P m.*2 → P o → Forall P (bt_insert k o m).*2.
Proof.
  intros Hm Ho. induction m as [|[k' o'] m IH]; simpl; [by constructor|].
  apply Forall_cons in Hm as [? Hm].
  destruct (k <? k'); simpl; [by repeat constructor|].
  destruct (k =? k'); simpl; constructor; auto.
Qed.

Lemma Forall_bt_remove (P : Order Account → Prop) k (m : list (Z * Order Account)) :
  Forall P m.*2 → Forall P (bt_remove k m).*2.
Proof.
  rewrite !Forall_forall. intros Hm o ([k' o'] & -> & Hin%bt_remove_sub)%list_elem_of_fmap.
  apply Hm, list_elem_of_fmap. by exists (k', o').
Qed.

Lemma Tick_new_ok id o q e : in_range BITS q → tick_ok (Tick_new (Account:=Account) id o q e).
Proof. intros Hq. split; repeat constructor; apply Hq. Qed.

Lemma Tick_placed_ok id o q e self :
  in_range BITS q → tick_ok self → tick_ok (Tick_placed id o q e self).
Proof.
  intros Hq [Hbt Hok]. split; simpl; [by apply bt_insert_ok|by apply Forall_bt_insert].
Qed.

(** A new id is larger than every id in use, so a placed order goes to the
    end of the queue. *)
Lemma Tick_placed_last id o q e self :
  (∀ x, x ∈ (open_orders self).*1 → x < order_id_value id) →
  open_orders (Tick_placed id o q e self) =
  open_orders self ++ [(order_id_value id, mkOrder q o e)].
Proof. apply bt_insert_last. Qed.

(** [canceled], branch by branch. *)
Definition cancel_result (self : Tick Account) (who : Account) (id q : Z) : outcome OrderError () :=
  match bt_get id (open_orders self) with
  | None => Err OrderNotExist
  | Some o => if decide (owner o = who)
              then if q <=? quantity o then Ok () else Err Underflow
              else Err NotOwner
  end.

Definition cancel_effect (self : Tick Account) (id q : Z) : Tick Account :=
  match bt_get id (open_orders self) with
  | Some o => if quantity o =? q then mkTick (bt_remove id (open_orders self))
              else mkTick (bt_insert id (with_quantity (quantity o - q) o) (open_orders self))
  | None => self
  end.

Lemma bt_remove_insert {A} k (a : A) m :
  bt_ok m → bt_remove k (bt_insert k a m) = bt_remove k m.
Proof.
  induction m as [|[k' a'] m IH]; simpl; [intros _; by rewrite Z.eqb_refl|].
  intros [Hlt Hm]%bt_ok_cons. destruct (Z.ltb_spec k k') as [Hk|Hk]; simpl.
  - rewrite Z.eqb_refl. destruct (Z.eqb_spec k k'); [lia|]. f_equal.
    symmetry. clear IH Hm. induction m as [|[k2 a2] m IH]; simpl; [done|].
    assert (k' < k2) by (apply Hlt; simpl; by left).
    destruct (Z.eqb_spec k k2); [lia|]. rewrite IH; [done|]. intros x Hx. apply Hlt. by right.
  - destruct (Z.eqb_spec k k') as [->|]; simpl; [by rewrite Z.eqb_refl|].
    destruct (Z.eqb_spec k k'); [done|]. by rewrite IH.
Qed.

Lemma canceled_spec who id q self :
  tick_ok self → in_range BITS q →
  Tick_canceled who id q self =
    (cancel_result self who (order_id_value id) q,
     match cancel_result self who (order_id_value id) q with
     | Ok _ => cancel_effect self (order_id_value id) q
     | _ => self
     end).
Proof.
  intros [Hbt Hok] Hq. unfold Tick_canceled, cancel_result, cancel_effect. run_step.
  destruct (bt_get _ _) as [o|] eqn:Hget; [|done].
  assert (order_ok o) as Ho.
  { rewrite Forall_forall in Hok. apply Hok, list_elem_of_fmap.
    apply bt_get_elem in Hget. by eexists (_, _). }
  unfold order_ok, in_range in *. run_step.
  case_decide as Hown; [rewrite bool_decide_true by done|by rewrite bool_decide_false].
  run_step. unfold checked_sub. destruct (Z.leb_spec q (quantity o)).
  - rewrite checked_ok by (unfold in_range; lia). run_step.
    destruct (Z.eqb_spec (quantity o - q) 0), (Z.eqb_spec (quantity o) q); try lia; [|done].
    run_step. unfold modify. cbn [open_orders]. by rewrite bt_remove_insert.
  - by rewrite (proj2 (checked_None _ _)) by (unfold in_range; lia).
Qed.

(** Placing under a fresh id and cancelling all of it restores the level. *)
Lemma placed_canceled id o q e self :
  in_range BITS q → tick_ok self → order_id_value id ∉ (open_orders self).*1 →
  Tick_canceled o id q (Tick_placed id o q e self) = (Ok (), self).
Proof.
  intros Hq Hok Hid. rewrite canceled_spec; [|by apply Tick_placed_ok|done].
  unfold cancel_result, cancel_effect, Tick_placed. cbn [open_orders].
  rewrite bt_get_insert, Z.eqb_refl. cbn [owner quantity Order_new].
  rewrite decide_True, Z.leb_refl, Z.eqb_refl by done.
  rewrite bt_remove_insert by apply Hok. rewrite bt_remove_absent by done. by destruct self.
Qed.

Lemma cancel_effect_ok self id q who :
  tick_ok self → 0 ≤ q → cancel_result self who id q = Ok () → tick_ok (cancel_effect self id q).
Proof.
  intros [Hbt Hok] Hq. unfold cancel_result, cancel_effect.
  destruct (bt_get _ _) as [o|] eqn:Hget; [|done].
  case_decide; [|done]. destruct (Z.leb_spec q (quantity o)); [|done]. intros _.
  assert (order_ok o) as Ho.
  { rewrite Forall_forall in Hok. apply Hok, list_elem_of_fmap.
    apply bt_get_elem in Hget. by eexists (_, _). }
  destruct (_ =? q); split; simpl;
    [by apply bt_remove_ok|by apply Forall_bt_remove|by apply bt_insert_ok|].
  apply Forall_bt_insert; [done|]. unfold order_ok, in_range in *. simpl. lia.
Qed.
End TickOps.

(** ** What a price level promises to the order book *)
Class OrderInterfaceLaws (Account V : Type) `{OrderBookIndex, OrderInterface Account V} := {
  value_ok : V → Prop;
  (** the open quantity of the level *)
  value_total : V → Z;
  new_law id o q e :
    in_range BITS q → value_ok (order_new id o q e) ∧ value_total (order_new id o q e) = q;
  placed_law id o q e v :
    in_range BITS q → value_ok v → value_ok (placed id o q e v);
  total_law v : value_ok v → 0 ≤ value_total v;
  filled_law {E : Type} q v :
    in_range BITS q → value_ok v →
    ∃ r v', filled (E:=E) q v = (Ok r, v') ∧ value_ok v' ∧
      value_total v' = value_total v - Z.min q (value_total v) ∧
      fill_sum (default [] r) = Z.min q (value_total v) ∧
      Forall (λ f, 0 ≤ f.2) (default [] r) ∧
      (value_total v < q → order_is_empty v' = true);
  canceled_law who id q v :
    in_range BITS q → value_ok v →
    ∃ v', (canceled who id q v = (Ok (), v') ∧ value_ok v' ∧ value_total v' = value_total v - q)
          ∨ (∃ e, canceled who id q v = (Err e, v) ∧ v' = v)
}.

Section TickLaws.
Context `{OrderBookIndex, BuildProfile} {Account : Type} `{EqDecision Account}.
Implicit Types (self : Tick Account) (m : list (Z * Order Account)).

Lemma total_insert k o o' m :
  bt_ok m → bt_get k m = Some o →
  total (bt_insert k o' m) = total m - quantity o + quantity o'.
Proof.
  induction m as [|[k' a'] m IH]; [done|]. intros [Hlt Hm]%bt_ok_cons. simpl.
  destruct (Z.eqb_spec k k') as [->|Hne].
  - intros [= ->]. rewrite Z.ltb_irrefl. simpl. lia.
  - intros Hget. destruct (Z.ltb_spec k k') as [Hk|].
    + pose proof (Hlt k (bt_get_key _ _ _ Hget)). lia.
    + simpl. rewrite IH by done. lia.
Qed.

Lemma total_remove k o m :
  bt_get k m = Some o → total (bt_remove k m) = total m - quantity o.
Proof.
  induction m as [|[k' a'] m IH]; [done|]. simpl.
  destruct (Z.eqb_spec k k') as [->|Hne]; [intros [= ->]; lia|].
  intros Hget. simpl. rewrite IH by done. lia.
Qed.

Lemma cancel_effect_total self who id q :
  tick_ok self → cancel_result self who id q = Ok () →
  total (open_orders (cancel_effect self id q)) = total (open_orders self) - q.
Proof.
  intros [Hbt _]. unfold cancel_result, cancel_effect.
  destruct (bt_get _ _) as [o|] eqn:Hget; [|done].
  case_decide; [|done]. destruct (q <=? quantity o); [|done]. intros _.
  destruct (Z.eqb_spec (quantity o) q); simpl.
  - rewrite (total_remove _ o) by done. lia.
  - rewrite (total_insert _ o) by done. simpl. lia.
Qed.

(** A level that holds less than is asked for is used up. *)
Lemma serve_all q l :
  Forall order_ok l.*2 → total (Account:=Account) l < q → (serve q l).1 = [].
Proof.
  revert q. induction l as [|[id o] l IH]; intros q; simpl; [done|].
  intros [Ho Hl]%Forall_cons Ht. pose proof (total_nonneg l Hl).
  unfold order_ok, in_range in Ho. destruct (Z.eqb_spec q 0); [lia|].
  destruct (Z.leb_spec q (quantity o)); [lia|].
  specialize (IH (q - quantity o) Hl ltac:(lia)). by destruct (serve _ l).
Qed.

Lemma serve_fills_nonneg q (l : list (Z * Order Account)) :
  0 ≤ q → Forall order_ok l.*2 → Forall (λ f, 0 ≤ f.2) (serve q l).2.
Proof.
  revert q. induction l as [|[id o] l IH]; intros q Hq; simpl; [constructor|].
  intros [Ho Hl]%Forall_cons. unfold order_ok, in_range in Ho.
  destruct (q =? 0); [constructor|]. destruct (Z.leb_spec q (quantity o)).
  - repeat constructor. done.
  - specialize (IH (q - quantity o) ltac:(lia) Hl). destruct (serve _ l). simpl in *.
    constructor; [simpl; lia|done].
Qed.

(** The fills name the owners of the first orders, in order. *)
Lemma serve_owners q (l : list (Z * Order Account)) :
  (serve q l).2.*1 `prefix_of` (owner <$> l.*2).
Proof.
  revert q. induction l as [|[id o] l IH]; intros q; simpl; [done|].
  destruct (q =? 0); [apply prefix_nil|]. destruct (q <=? quantity o); simpl.
  - apply prefix_cons, prefix_nil.
  - specialize (IH (q - quantity o)). destruct (serve _ l). simpl in *. by apply prefix_cons.
Qed.

#[export] Program Instance Tick_OrderInterfaceLaws : OrderInterfaceLaws Account (Tick Account) := {
  value_ok := tick_ok;
  value_total := λ self, total (open_orders self)
}.
Next Obligation. intros id o q e Hq. split; [by apply Tick_new_ok|simpl; lia]. Qed.
Next Obligation. intros. by apply Tick_placed_ok. Qed.
Next Obligation. intros v [_ Hok]. by apply total_nonneg. Qed.
Next Obligation.
  intros E q v Hq Hv. eexists _, _. split; [by apply filled_serve|].
  destruct (serve_conserves q (open_orders v) (proj1 Hq) (proj2 Hv)) as (Hf & Ht & Hok).
  split_and!; [by apply serve_ok, Hv; apply Hq|done| | |].
  - destruct (Z.eqb_spec (Z.min q (total (open_orders v))) 0) as [He|]; simpl; [lia|done].
  - destruct (_ =? 0); simpl; [constructor|]. apply serve_fills_nonneg; [apply Hq|apply Hv].
  - intros Hlt. simpl. unfold Tick_is_empty. simpl. by rewrite serve_all by (apply Hv || done).
Qed.
Next Obligation.
  intros who id q v Hq Hv. pose proof (canceled_spec who id q v Hv Hq) as Hc. simpl.
  destruct (cancel_result v who (order_id_value id) q) as [[]|e| |] eqn:Hr.
  - exists (cancel_effect v (order_id_value id) q). left. split_and!; [done| |].
    + eapply cancel_effect_ok; [done|apply Hq|done].
    + by eapply cancel_effect_total.
  - exists v. right. eauto.
  - unfold cancel_result in Hr. by repeat (case_match; try done).
  - unfold cancel_result in Hr. by repeat (case_match; try done).
Qed.
End TickLaws.
