(* ===== verification/OrderBook.v ===== *)
(** * The order book on top of the critbit tree

    [trait OrderBook] of [types.rs] as a type class, its implementation for
    [CritbitTree] (the [impl] block of [critbit.rs]) and the specification
    that it refines: a finite map from prices to price levels.  Everything is
    parametric in the price level ([OrderInterface]), as the source is. *)
From S2P Require Import Prelude Index Critbit CritbitShape CritbitOps CritbitInsert CritbitRemove OrderId Tick.
From Stdlib Require Import Bool.

(** [trait OrderBook]; [Error] is its associated error type, [V] its [Order]. *)
Class OrderBook (Account V Error B : Type) := {
  book_new : B;
  book_size : B → nat;
  book_is_empty : B → bool;
  get_orders : B → Account → list (Order Account);
  open_orders_at : B → Z → outcome Error (option V);
  min_order : B → option (Z * Z);
  max_order : B → option (Z * Z);
  place_order : OrderId → Account → Z → Z → Z → M B Error ();
  fill_order : Z → Z → M B Error (option (list (Account * Z)));
  cancel_order : Account → Z → OrderId → Z → M B Error ()
}.

Definition index_le {V} (a b : Z * LeafNode V) : Prop := a.1 ≤ b.1.
#[export] Instance index_le_dec {V} : RelDecision (index_le (V:=V)).
Proof. intros a b. apply Z_le_dec. Defined.

Section CritbitBook.
Context `{OrderBookIndex, BuildProfile} {Account V : Type} `{OrderInterface Account V}.
Implicit Types (t : CritbitTree V).

Abbreviation op A := (M (CritbitTree V) CritbitTreeError A).

(** [leaves.values()]: in the order of the leaf indices. *)
Definition leaf_values t : list (LeafNode V) :=
  (merge_sort (index_le (V:=V)) (map_to_list (leaves t))).*2.

Definition tree_get_orders t (o : Account) : list (Order Account) :=
  concat (omap (λ l, find_order_of (lf_value l) o) (leaf_values t)).

Definition tree_open_orders_at t (key : Z) : outcome CritbitTreeError (option V) :=
  found ← find_leaf t key;
  match found with
  | Some leaf_index =>
      match leaves t !! leaf_index with
      | Some leaf => mret (Some (orders (lf_value leaf)))
      | None => mret None
      end
  | None => mret None
  end.

Definition tree_min_order t : option (Z * Z) :=
  match min_leaf t with Ok maybe_min => maybe_min | _ => None end.
Definition tree_max_order t : option (Z * Z) :=
  match max_leaf t with Ok maybe_max => maybe_max | _ => None end.

(** [leaves.get_mut(i)] followed by a mutation of the value. *)
Definition set_value (i : Z) (leaf : LeafNode V) (v : V) t : CritbitTree V :=
  set_leaves (<[i := leaf_with_value v leaf]> (leaves t)) t.

Definition tree_place_order (order_id : OrderId) (owner : Account) (key quantity expired_at : Z) :
    op () :=
  found ← gets (λ t, find_leaf t key);
  match found with
  | Some leaf_index =>
      if leaf_index =? PARTITION_INDEX then throw LeafNodeShouldExist else
      leaf_node ← gets (λ t, ok_or (leaves t !! leaf_index) LeafNodeShouldExist);
      modify (set_value leaf_index leaf_node
                (placed order_id owner quantity expired_at (lf_value leaf_node)))
  | None => insert key (order_new order_id owner quantity expired_at)
  end.

Definition tree_fill_order (key quantity : Z) : op (option (list (Account * Z))) :=
  found ← gets (λ t, find_leaf t key);
  match found with
  | Some leaf_index =>
      t ← get;
      match leaves t !! leaf_index with
      | Some leaf =>
          let '(r, v) := filled quantity (lf_value leaf) in
          _ ← put (set_value leaf_index leaf v t);
          filled ← lift r;
          if order_is_empty v then _ ← remove_leaf_by_index leaf_index; mret filled
          else mret filled
      | None => mret None
      end
  | None => mret None
  end.

Definition tree_cancel_order (maybe_owner : Account) (key : Z) (order_id : OrderId) (quantity : Z) :
    op () :=
  found ← gets (λ t, find_leaf t key);
  match found with
  | Some leaf_index =>
      if leaf_index =? PARTITION_INDEX then mret () else
      t ← get;
      match leaves t !! leaf_index with
      | Some leaf =>
          let '(r, v) := canceled maybe_owner order_id quantity (lf_value leaf) in
          _ ← put (set_value leaf_index leaf v t);
          lift (map_err (λ _, ValueOps) r)
      | None => throw NotFound
      end
  | None => throw NotFound
  end.

#[export] Instance CritbitTree_OrderBook :
    OrderBook Account V CritbitTreeError (CritbitTree V) := {
  book_new := new;
  book_size := size;
  book_is_empty := is_empty;
  get_orders := tree_get_orders;
  open_orders_at := tree_open_orders_at;
  min_order := tree_min_order;
  max_order := tree_max_order;
  place_order := tree_place_order;
  fill_order := tree_fill_order;
  cancel_order := tree_cancel_order
}.
End CritbitBook.

(** ** The specification: a map from prices to levels *)
Section Levels.
Context {Account V : Type} `{OrderInterface Account V}.
Implicit Types (m : gmap Z V).

Definition levels_place (id : OrderId) (o : Account) (key q e : Z) m : gmap Z V :=
  <[key := match m !! key with
           | Some v => placed id o q e v
           | None => order_new id o q e
           end]> m.

Definition levels_fill {E} (key q : Z) m : outcome E (option (list (Account * Z))) * gmap Z V :=
  match m !! key with
  | None => (Ok None, m)
  | Some v => let '(r, v') := filled q v in
              (r, if order_is_empty v' then delete key m else <[key := v']> m)
  end.

Definition levels_cancel (o : Account) (key : Z) (id : OrderId) (q : Z) m :
    outcome CritbitTreeError () * gmap Z V :=
  match m !! key with
  | None => (Err NotFound, m)
  | Some v => let '(r, v') := canceled o id q v in (map_err (λ _, ValueOps) r, <[key := v']> m)
  end.
End Levels.

(** ** Refinement *)
Section Refinement.
Context `{OrderBookIndex, BuildProfile} {Account V : Type} `{OrderInterface Account V}.
Implicit Types (t : CritbitTree V).

Lemma repr_set_value ns (ls : gmap Z (LeafNode V)) p s i leaf v :
  ls !! i = Some leaf →
  repr ns ls p s → repr ns (<[i := leaf_with_value v leaf]> ls) p s.
Proof.
  intros Hi. revert p. induction s as [j k|j b l IHl r IHr]; intros p; simpl.
  - intros [w Hw]. destruct (decide (i = j)) as [->|Hne].
    + rewrite Hi in Hw. injection Hw as ->. exists v. by rewrite lookup_insert_eq.
    + exists w. by rewrite lookup_insert_ne.
  - intros (? & ? & ?). auto.
Qed.

Lemma set_value_shape t s i leaf v :
  leaves t !! i = Some leaf → tree_shape t s → tree_shape (set_value i leaf v t) s.
Proof.
  intros Hi Hts. split; try apply Hts.
  - simpl. apply repr_set_value; [done|apply Hts].
  - intros j. simpl. rewrite lookup_insert_is_Some', <-(ts_leaf_dom _ _ Hts).
    split; [intros [<-|?]; eauto|auto].
Qed.

Lemma set_value_wf t i leaf v :
  tree_wf t → leaves t !! i = Some leaf → tree_wf (set_value i leaf v t).
Proof.
  intros [->|[s Hts]] Hi; [done|]. right. exists s. by apply set_value_shape.
Qed.

Lemma set_value_contents t i leaf v :
  tree_wf t → leaves t !! i = Some leaf →
  contents (set_value i leaf v t) = <[lf_key leaf := v]> (contents t).
Proof.
  intros Hwf Hi. pose proof (set_value_wf t i leaf v Hwf Hi) as Hwf'.
  pose proof Hwf as [->|[s Hts]]; [done|].
  apply map_eq. intros k. apply option_eq. intros w.
  rewrite contents_lookup, lookup_insert_Some, contents_lookup by done. simpl. split.
  - intros (j & q & [[<- Heq]|[Hne Hj]]%lookup_insert_Some).
    + left. unfold leaf_with_value in Heq. by injection Heq as <- <- <-.
    + right. split; [|by eauto]. intros <-. apply Hne.
      apply (ts_entry_key_unique t s Hts (lf_key leaf)).
      * apply (ts_leaf_entry t s Hts _ _ Hi).
      * apply (ts_leaf_entry t s Hts _ _ Hj).
  - intros [[<- <-]|(Hne & j & q & Hj)].
    + exists i, (lf_parent leaf). by rewrite lookup_insert_eq.
    + exists j, q. rewrite lookup_insert_ne; [done|]. intros <-.
      rewrite Hi in Hj. by simplify_eq/=.
Qed.

Lemma wf_leaf_not_partition t i leaf :
  tree_wf t → leaves t !! i = Some leaf → i ≠ PARTITION_INDEX.
Proof.
  intros [->|[s Hts]] Hi; [done|]. pose proof CAPACITY_PARTITION.
  pose proof (ts_leaf_ids _ _ Hts) as Hl. rewrite Forall_forall in Hl.
  assert (i ∈ leaf_ids s) as Hin by (apply (ts_leaf_dom _ _ Hts); eauto).
  specialize (Hl i Hin). pose proof (ts_next _ _ Hts). lia.
Qed.

Lemma place_order_refines id o key q e t :
  tree_wf t → in_range BITS key →
  is_Some (contents t !! key) ∨ next_leaf_node_index t < CAPACITY →
  ∃ t', tree_place_order id o key q e t = (Ok (), t') ∧ tree_wf t' ∧
        contents t' = levels_place id o key q e (contents t) ∧
        next_leaf_node_index t' ≤ next_leaf_node_index t + 1.
Proof.
  intros Hwf Hkey Hroom. unfold tree_place_order, levels_place. rewrite M_bind_run. unfold gets.
  pose proof (find_leaf_spec t key Hwf) as Hf.
  destruct (contents t !! key) as [v|] eqn:Hk.
  - destruct Hf as (i & p & Hf & Hi). rewrite Hf.
    destruct (Z.eqb_spec i PARTITION_INDEX); [by eapply wf_leaf_not_partition in Hi|].
    rewrite M_bind_run, Hi. cbn [ok_or lf_value]. unfold modify.
    eexists. split_and!; [done|by apply set_value_wf|by rewrite set_value_contents|simpl; lia].
  - rewrite Hf. destruct Hroom as [[? ?]|Hroom]; [done|].
    destruct (insert_absent t key (order_new id o q e)) as (t' & ? & ? & ? & ?); try done.
    exists t'. split_and!; [done..|lia].
Qed.

Lemma place_order_full id o key q e t :
  tree_wf t → contents t !! key = None → next_leaf_node_index t = CAPACITY →
  (tree_place_order id o key q e t).1 = Err ExceedCapacity.
Proof.
  intros Hwf Hk Hfull. unfold tree_place_order. rewrite M_bind_run. unfold gets.
  pose proof (find_leaf_spec t key Hwf) as Hf. rewrite Hk in Hf. rewrite Hf.
  by rewrite insert_full.
Qed.

Lemma fill_order_refines key q t :
  tree_wf t →
  (∀ v, contents t !! key = Some v → ∃ r, (filled (E:=CritbitTreeError) q v).1 = Ok r) →
  ∃ t', tree_fill_order key q t = ((levels_fill key q (contents t)).1, t') ∧ tree_wf t' ∧
        contents t' = (levels_fill (E:=CritbitTreeError) key q (contents t)).2 ∧
        next_leaf_node_index t' ≤ next_leaf_node_index t.
Proof.
  intros Hwf Hfill. unfold tree_fill_order, levels_fill. rewrite M_bind_run. unfold gets.
  pose proof (find_leaf_spec t key Hwf) as Hf.
  destruct (contents t !! key) as [v|] eqn:Hk.
  - destruct Hf as (i & p & Hf & Hi). rewrite Hf. run_step. rewrite Hi. cbn [lf_value].
    destruct (Hfill v eq_refl) as [r Hr].
    destruct (filled q v) as [r' v'] eqn:Hfv. simpl in Hr. subst r'. run_step. cbn [fst snd].
    set (t1 := set_value i _ v' t).
    assert (tree_wf t1) as Hwf1 by (by apply set_value_wf).
    assert (contents t1 = <[key := v']> (contents t)) as Hc1 by (by subst t1; rewrite set_value_contents).
    destruct (order_is_empty v').
    + destruct (remove_present t1 i (mkLeafNode p key v') Hwf1) as (t2 & Hrun & Hwf2 & Hc2 & Hn2).
      { subst t1. simpl. by rewrite lookup_insert_eq. }
      exists t2. rewrite M_bind_run. unfold lift. rewrite M_bind_run, Hrun. split_and!; [done|done| |done].
      rewrite Hc2, Hc1. simpl. by rewrite delete_insert_eq.
    + exists t1. by split_and!.
  - rewrite Hf. by exists t.
Qed.

Lemma cancel_order_refines o key id q t :
  tree_wf t →
  ∃ t', tree_cancel_order o key id q t = ((levels_cancel o key id q (contents t)).1, t') ∧
        tree_wf t' ∧ contents t' = (levels_cancel o key id q (contents t)).2 ∧
        next_leaf_node_index t' = next_leaf_node_index t.
Proof.
  intros Hwf. unfold tree_cancel_order, levels_cancel. rewrite M_bind_run. unfold gets.
  pose proof (find_leaf_spec t key Hwf) as Hf.
  destruct (contents t !! key) as [v|] eqn:Hk.
  - destruct Hf as (i & p & Hf & Hi). rewrite Hf.
    destruct (Z.eqb_spec i PARTITION_INDEX); [by eapply wf_leaf_not_partition in Hi|].
    run_step. rewrite Hi. cbn [lf_value].
    destruct (canceled o id q v) as [r v'] eqn:Hcv. run_step. simpl.
    eexists. split_and!; [done|by apply set_value_wf|by rewrite set_value_contents|done].
  - rewrite Hf. by exists t.
Qed.
End Refinement.

(** ** What an order book promises to the pool *)
Class OrderBookLaws (Account V Error B : Type)
    `{OrderInterfaceLaws Account V, !OrderBook Account V Error B} := {
  book_ok : B → Prop;
  levels : B → gmap Z V;
  (** there is an index left for one more price level *)
  book_room : B → Prop;
  book_new_law : book_ok book_new ∧ levels book_new = ∅;
  book_values_law b p v : book_ok b → levels b !! p = Some v → value_ok v;
  book_prices_law b p : book_ok b → is_Some (levels b !! p) → in_range BITS p;
  book_size_law b : book_ok b → book_size b = stdpp.base.size (levels b);
  min_order_law b :
    book_ok b →
    match min_order b with
    | None => levels b = ∅
    | Some (p, _) => least_key (levels b) p
    end;
  max_order_law b :
    book_ok b →
    match max_order b with
    | None => levels b = ∅
    | Some (p, _) => greatest_key (levels b) p
    end;
  place_order_law id o p q e b :
    book_ok b → in_range BITS p → in_range BITS q →
    is_Some (levels b !! p) ∨ book_room b →
    ∃ b', place_order id o p q e b = (Ok (), b') ∧ book_ok b' ∧
          levels b' = levels_place id o p q e (levels b);
  place_order_room_law id o p q e b b' :
    book_ok b → place_order id o p q e b = (Ok (), b') →
    is_Some (levels b !! p) ∨ book_room b;
  fill_order_law p q b :
    book_ok b → in_range BITS q →
    ∃ r b', fill_order p q b = (Ok r, b') ∧ book_ok b' ∧
            levels_fill (E:=Error) p q (levels b) = (Ok r, levels b');
  cancel_order_law o p id q b :
    book_ok b → in_range BITS q →
    (∃ v v' b', levels b !! p = Some v ∧ canceled o id q v = (Ok (), v') ∧
                cancel_order o p id q b = (Ok (), b') ∧ book_ok b' ∧
                levels b' = <[p := v']> (levels b)) ∨
    (∃ e b', cancel_order o p id q b = (Err e, b') ∧ book_ok b' ∧ levels b' = levels b)
}.

Section TreeLaws.
Context `{Hidx : OrderBookIndex, BuildProfile} {Account V : Type}.
Context `{HO : !OrderInterface Account V, HL : !OrderInterfaceLaws Account V}.
Implicit Types (t : CritbitTree V).

Definition tree_ok t : Prop := tree_wf t ∧ map_Forall (λ _, value_ok) (contents t).

Lemma contents_range t k : tree_wf t → is_Some (contents t !! k) → in_range BITS k.
Proof.
  intros [->|[s Hts]] Hk; [by rewrite contents_new, lookup_empty in Hk; destruct Hk|].
  apply (contents_keys t s k Hts) in Hk. eapply crit_key_range; [apply Hts|done].
Qed.

Lemma contents_nodup t : tree_wf t → NoDup (map_to_list (payload <$> leaves t)).*2.*1.
Proof.
  intros [->|[s Hts]].
  { rewrite leaves_new, fmap_empty, map_to_list_empty. constructor. }
  rewrite <-list_fmap_compose. apply NoDup_fmap_2_strong; [|apply NoDup_map_to_list].
  intros [i [k v]] [j [k' v']] Hi Hj Heq. simpl in Heq. subst k'.
  apply elem_of_map_to_list' in Hi, Hj. simpl in Hi, Hj.
  apply lookup_fmap_Some in Hi as (lf & Hlf & Hi). apply lookup_fmap_Some in Hj as (lf' & Hlf' & Hj).
  pose proof (ts_leaf_entry t s Hts _ _ Hi) as He. pose proof (ts_leaf_entry t s Hts _ _ Hj) as He'.
  unfold payload in *. simplify_eq/=.
  assert (i = j) as -> by (eapply (ts_entry_key_unique t s Hts); [exact He|congruence]).
  congruence.
Qed.

Lemma contents_size t : tree_wf t → size t = stdpp.base.size (contents t).
Proof.
  intros Hwf. unfold size, contents.
  rewrite <-(map_size_fmap payload), <-length_map_to_list.
  rewrite map_size_list_to_map by (by apply contents_nodup). by rewrite !length_fmap.
Qed.

(** The leaves in the order of their indices are the levels. *)
Lemma leaf_values_contents t : tree_wf t → payload <$> leaf_values t ≡ₚ map_to_list (contents t).
Proof.
  intros Hwf. unfold contents, leaf_values. rewrite map_to_list_to_map by (by apply contents_nodup).
  rewrite map_to_list_fmap, merge_sort_Permutation. by rewrite <-!list_fmap_compose.
Qed.

Lemma tree_open_orders_at_spec t key :
  tree_wf t → tree_open_orders_at t key = Ok (orders <$> contents t !! key).
Proof.
  intros Hwf. unfold tree_open_orders_at. pose proof (find_leaf_spec t key Hwf) as Hf.
  destruct (contents t !! key) as [v|]; [|by rewrite Hf].
  destruct Hf as (i & p & Hf & Hi). rewrite Hf. simpl. by rewrite Hi.
Qed.

Lemma tree_get_orders_spec t o :
  tree_wf t →
  tree_get_orders t o ≡ₚ map_to_list (contents t) ≫= λ e, default [] (find_order_of e.2 o).
Proof.
  intros Hwf. rewrite <-leaf_values_contents by done. unfold tree_get_orders. apply reflexive_eq.
  induction (leaf_values t) as [|lf l IH]; [done|]. csimpl.
  destruct (find_order_of (lf_value lf) o); simpl; by rewrite IH.
Qed.

Lemma tree_min_order_spec t :
  tree_wf t →
  match tree_min_order t with
  | None => contents t = ∅
  | Some (p, _) => least_key (contents t) p
  end.
Proof.
  intros Hwf. unfold tree_min_order.
  destruct (min_leaf_spec t Hwf) as [[? ->]|(k & i & -> & ? & _)]; done.
Qed.

Lemma tree_max_order_spec t :
  tree_wf t →
  match tree_max_order t with
  | None => contents t = ∅
  | Some (p, _) => greatest_key (contents t) p
  end.
Proof.
  intros Hwf. unfold tree_max_order.
  destruct (max_leaf_spec t Hwf) as [[? ->]|(k & i & -> & ? & _)]; done.
Qed.

#[export] Program Instance CritbitTree_OrderBookLaws :
    OrderBookLaws Account V CritbitTreeError (CritbitTree V) := {
  book_ok := tree_ok;
  levels := contents;
  book_room := λ t, next_leaf_node_index t < CAPACITY
}.
Next Obligation. split; [split; [by left|]|done]. simpl. rewrite contents_new. apply map_Forall_empty. Qed.
Next Obligation. intros t p v [_ Hall] Hv. by apply (Hall p). Qed.
Next Obligation. intros t p [Hwf _] Hp. by eapply contents_range. Qed.
Next Obligation. intros t [Hwf _]. by apply contents_size. Qed.
Next Obligation. intros t [Hwf _]. by apply tree_min_order_spec. Qed.
Next Obligation. intros t [Hwf _]. by apply tree_max_order_spec. Qed.
Next Obligation.
  intros id o p q e t [Hwf Hall] Hp Hq Hroom. simpl.
  destruct (place_order_refines id o p q e t Hwf Hp Hroom) as (t' & Hrun & Hwf' & Hc & _).
  exists t'. split_and!; [done| |done]. split; [done|]. rewrite Hc. unfold levels_place.
  apply map_Forall_insert_2; [|done].
  destruct (contents t !! p) as [v|] eqn:Hv; [apply placed_law; [done|by apply (Hall p)]|].
  by apply new_law.
Qed.
Next Obligation.
  intros id o p q e t t' [Hwf _] Hrun. simpl in *.
  destruct (contents t !! p) as [v|] eqn:Hv; [left; eauto|right].
  pose proof (tree_wf_next t Hwf) as Hn.
  destruct (decide (next_leaf_node_index t = CAPACITY)) as [Hfull|]; [exfalso|lia].
  pose proof (place_order_full id o p q e t Hwf Hv Hfull) as Herr. by rewrite Hrun in Herr.
Qed.
Next Obligation.
  intros p q t [Hwf Hall] Hq. simpl.
  destruct (fill_order_refines p q t Hwf) as (t' & Hrun & Hwf' & Hc & _).
  { intros v Hv. destruct (filled_law (E:=CritbitTreeError) q v Hq (Hall p v Hv))
      as (r & v' & -> & _). by exists r. }
  unfold levels_fill in *. destruct (contents t !! p) as [v|] eqn:Hv.
  - destruct (filled_law (E:=CritbitTreeError) q v Hq (Hall p v Hv)) as (r & v' & Hf & Hok & _).
    rewrite Hf in *. simpl in *. exists r, t'. split_and!; [done| |by rewrite Hc].
    split; [done|]. rewrite Hc. destruct (order_is_empty v').
    + by apply map_Forall_delete.
    + by apply map_Forall_insert_2.
  - simpl in *. exists None, t'. split_and!; [done| |by rewrite Hc]. split; [done|by rewrite Hc].
Qed.
Next Obligation.
  intros o p id q t [Hwf Hall] Hq. simpl.
  destruct (cancel_order_refines o p id q t Hwf) as (t' & Hrun & Hwf' & Hc & _).
  unfold levels_cancel in *. destruct (contents t !! p) as [v|] eqn:Hv.
  - destruct (canceled_law o id q v Hq (Hall p v Hv)) as (v' & [(Hf & Hok & _)|(e & Hf & ->)]);
      rewrite Hf in *; simpl in *.
    + left. exists v, v', t'. split_and!; try done. split; [done|]. rewrite Hc.
      by apply map_Forall_insert_2.
    + right. exists ValueOps, t'. rewrite insert_id in Hc by done.
      split_and!; [done| |done]. split; [done|by rewrite Hc].
  - right. simpl in *. exists NotFound, t'. split_and!; [done| |done]. split; [done|by rewrite Hc].
Qed.
End TreeLaws.

(** ** Whole histories of an order book

    Commands are the mutating methods of the trait; a history is run on the
    tree and on the map of levels, collecting what every call returns. *)
Inductive book_cmd (Account : Type) :=
| CmdPlace (id : OrderId) (o : Account) (price q e : Z)
| CmdFill (price q : Z)
| CmdCancel (o : Account) (price : Z) (id : OrderId) (q : Z).
Arguments CmdPlace {Account} _ _ _ _ _.
Arguments CmdFill {Account} _ _.
Arguments CmdCancel {Account} _ _ _ _.

Section History.
Context `{Hidx : OrderBookIndex, BuildProfile} {Account V : Type}.
Context `{HO : !OrderInterface Account V, HL : !OrderInterfaceLaws Account V}.

Abbreviation answer := (outcome CritbitTreeError (option (list (Account * Z)))).

Definition void {A B E} (x : outcome E A * B) : outcome E (option (list (Account * Z))) * B :=
  ((λ _, None) <$> x.1, x.2).

Definition step_tree (c : book_cmd Account) (t : CritbitTree V) : answer * CritbitTree V :=
  match c with
  | CmdPlace id o p q e => void (tree_place_order id o p q e t)
  | CmdFill p q => tree_fill_order p q t
  | CmdCancel o p id q => void (tree_cancel_order o p id q t)
  end.

Definition step_levels (c : book_cmd Account) (m : gmap Z V) : answer * gmap Z V :=
  match c with
  | CmdPlace id o p q e => (Ok None, levels_place id o p q e m)
  | CmdFill p q => levels_fill p q m
  | CmdCancel o p id q => void (levels_cancel o p id q m)
  end.

Fixpoint run_cmds {S} (step : book_cmd Account → S → answer * S) (cs : list (book_cmd Account))
    (s : S) : list answer * S :=
  match cs with
  | [] => ([], s)
  | c :: cs => let '(a, s') := step c s in
               let '(l, s'') := run_cmds step cs s' in (a :: l, s'')
  end.

(** Prices and quantities are values of the index type. *)
Definition cmd_ok (c : book_cmd Account) : Prop :=
  match c with
  | CmdPlace _ _ p q _ => in_range BITS p ∧ in_range BITS q
  | CmdFill _ q => in_range BITS q
  | CmdCancel _ _ _ q => in_range BITS q
  end.

Lemma step_refines c (t : CritbitTree V) :
  cmd_ok c → tree_ok t → next_leaf_node_index t < CAPACITY →
  ∃ t', step_tree c t = ((step_levels c (contents t)).1, t') ∧ tree_ok t' ∧
        contents t' = (step_levels c (contents t)).2 ∧
        next_leaf_node_index t' ≤ next_leaf_node_index t + 1.
Proof.
  intros Hc [Hwf Hall] Hroom. destruct c as [id o p q e|p q|o p id q]; simpl in *.
  - destruct Hc as [Hp Hq].
    destruct (place_order_refines id o p q e t Hwf Hp) as (t' & Hrun & Hwf' & Hcon & Hn); [auto|].
    destruct (place_order_law id o p q e t) as (t2 & Hrun2 & Hok & _); [done|done|done|by right|].
    simpl in Hrun2. rewrite Hrun in Hrun2. injection Hrun2 as <-.
    exists t'. rewrite Hrun. by split_and!.
  - destruct (fill_order_refines p q t Hwf) as (t' & Hrun & Hwf' & Hcon & Hn).
    { intros v Hv. destruct (filled_law (E:=CritbitTreeError) q v Hc (Hall p v Hv))
        as (r & v' & -> & _). by exists r. }
    destruct (fill_order_law p q t) as (r & t2 & Hrun2 & Hok & _); [done|done|].
    simpl in Hrun2. rewrite Hrun in Hrun2. injection Hrun2 as _ <-.
    exists t'. rewrite Hrun. split_and!; [done|done|done|lia].
  - destruct (cancel_order_refines o p id q t Hwf) as (t' & Hrun & Hwf' & Hcon & Hn).
    assert (tree_ok t') as Hok.
    { destruct (cancel_order_law o p id q t) as [(v & v' & t2 & _ & _ & Hrun2 & Hok & _)
        |(e & t2 & Hrun2 & Hok & _)]; try done; simpl in Hrun2; rewrite Hrun in Hrun2;
        by injection Hrun2 as _ <-. }
    exists t'. rewrite Hrun. unfold void. simpl. split_and!; [done|done|done|lia].
Qed.

Lemma run_refines cs (t : CritbitTree V) :
  Forall cmd_ok cs → tree_ok t →
  next_leaf_node_index t + Z.of_nat (length cs) ≤ CAPACITY →
  (run_cmds step_tree cs t).1 = (run_cmds step_levels cs (contents t)).1 ∧
  tree_ok (run_cmds step_tree cs t).2 ∧
  contents (run_cmds step_tree cs t).2 = (run_cmds step_levels cs (contents t)).2.
Proof.
  revert t. induction cs as [|c cs IH]; intros t; simpl; [done|].
  intros [Hc Hcs]%Forall_cons Hok Hroom.
  destruct (step_refines c t Hc Hok) as (t' & Hrun & Hok' & Hcon & Hn); [lia|].
  rewrite Hrun. destruct (step_levels c (contents t)) as [a m]. simpl in Hcon. subst m.
  destruct (IH t' Hcs Hok') as (Ha & Hok2 & Hc2); [lia|]. simpl.
  destruct (run_cmds step_tree cs t') as [l t2], (run_cmds step_levels cs (contents t')) as [l' m2].
  simpl in *. subst. done.
Qed.
End History.
