(* ===== verification/Backing.v ===== *)
(** * What open orders are owed

    Sums over finite maps, and the open orders of a price level as a list of
    owners and quantities.  [LevelOwed] is what a level promises about this
    list: whatever it counts for, as long as parts count no more than the
    whole, an operation adds at most the order it is given, and what a fill
    hands out is no longer there. *)
From S2P Require Import Prelude Index OrderId BTreeMap Tick OrderBook.
From Stdlib Require Import Bool.

(** ** Sums over finite maps *)
Section MapSum.
Context {K A : Type} `{Countable K}.
Implicit Types (f : K → A → Z) (m : gmap K A).

Definition map_sum f m : Z := map_fold (λ k x n, f k x + n) 0 m.

Lemma map_sum_empty f : map_sum f ∅ = 0.
Proof. apply map_fold_empty. Qed.

Lemma map_sum_insert_new f m k x : m !! k = None → map_sum f (<[k:=x]> m) = f k x + map_sum f m.
Proof. intros Hk. unfold map_sum. rewrite map_fold_insert_L; [done|intros; lia|done]. Qed.

Lemma map_sum_delete f m k x : m !! k = Some x → map_sum f (delete k m) = map_sum f m - f k x.
Proof.
  intros Hk. rewrite <-(insert_delete_id m k x) at 2 by done.
  rewrite map_sum_insert_new by apply lookup_delete_eq. lia.
Qed.

Lemma map_sum_insert f m k x :
  map_sum f (<[k:=x]> m) = map_sum f m - from_option (f k) 0 (m !! k) + f k x.
Proof.
  destruct (m !! k) as [y|] eqn:Hk; simpl.
  - rewrite <-(map_sum_delete f m k y) by done. rewrite <-insert_delete_eq.
    rewrite map_sum_insert_new by apply lookup_delete_eq. lia.
  - rewrite map_sum_insert_new by done. lia.
Qed.

Lemma map_sum_nonneg f m : (∀ k x, m !! k = Some x → 0 ≤ f k x) → 0 ≤ map_sum f m.
Proof.
  induction m as [|k x m Hk IH] using map_ind; intros Hf; [by rewrite map_sum_empty|].
  rewrite map_sum_insert_new by done.
  assert (0 ≤ f k x) by (apply Hf; by rewrite lookup_insert_eq).
  assert (0 ≤ map_sum f m); [|lia]. apply IH. intros j y Hj. apply Hf.
  rewrite lookup_insert_ne; [done|]. intros ->. congruence.
Qed.

(** One entry of a sum of nonnegative terms. *)
Lemma map_sum_entry f m k x :
  (∀ j y, m !! j = Some y → 0 ≤ f j y) → m !! k = Some x → f k x ≤ map_sum f m.
Proof.
  intros Hf Hk. assert (0 ≤ map_sum f (delete k m)) as Hd.
  { apply map_sum_nonneg. intros j y [_ Hj]%lookup_delete_Some. by apply Hf. }
  rewrite (map_sum_delete f m k x Hk) in Hd. lia.
Qed.
End MapSum.

(** ** Weights of orders *)
Section Weights.
Context {Account : Type}.
Implicit Types (g : Account → Z → Z) (l : list (Account * Z)).

(** What orders, given by owner and quantity, count for. *)
Definition weigh g l : Z := foldr (λ e n, g e.1 e.2 + n) 0 l.

(** Parts count no more than the whole, and nothing less than zero. *)
Definition superadditive g : Prop :=
  ∀ o a b, 0 ≤ a → 0 ≤ b → 0 ≤ g o a ∧ g o a + g o b ≤ g o (a + b).

Lemma superadditive_mono g o a b : superadditive g → 0 ≤ a ≤ b → g o a ≤ g o b.
Proof.
  intros Hg Hab. destruct (Hg o a (b - a)) as [_ Hs]; [lia..|].
  destruct (Hg o (b - a) 0) as [Hn _]; [lia..|]. replace (a + (b - a)) with b in Hs by lia. lia.
Qed.

Lemma weigh_nonneg g l : superadditive g → Forall (λ e, 0 ≤ e.2) l → 0 ≤ weigh g l.
Proof.
  intros Hg. induction 1 as [|e l He _ IH]; simpl; [done|].
  destruct (Hg e.1 e.2 0) as [? _]; lia.
Qed.

Lemma weigh_elem g l o q :
  superadditive g → Forall (λ e, 0 ≤ e.2) l → (o, q) ∈ l → g o q ≤ weigh g l.
Proof.
  intros Hg Hl Hin. apply list_elem_of_split in Hin as (l1 & l2 & ->).
  apply Forall_app in Hl as [H1 [Hq H2]%Forall_cons].
  pose proof (weigh_nonneg g l1 Hg H1). pose proof (weigh_nonneg g l2 Hg H2).
  assert (weigh g (l1 ++ (o, q) :: l2) = weigh g l1 + (g o q + weigh g l2)) as ->; [|lia].
  clear. induction l1 as [|e l1 IH]; simpl; [done|]. simpl in IH. lia.
Qed.
End Weights.

(** ** What a level promises *)
Class LevelOwed (Account V : Type) `{OrderInterfaceLaws Account V} := {
  owed : V → list (Account * Z);
  owed_nonneg v : value_ok v → Forall (λ e, 0 ≤ e.2) (owed v);
  owed_new_law id o q e : owed (order_new id o q e) = [(o, q)];
  owed_placed_law (g : Account → Z → Z) id o q e v :
    superadditive g → value_ok v → weigh g (owed (placed id o q e v)) ≤ weigh g (owed v) + g o q;
  owed_filled_law {E : Type} (g : Account → Z → Z) q v r v' :
    superadditive g → in_range BITS q → value_ok v → filled (E:=E) q v = (Ok r, v') →
    Forall (λ e, 0 ≤ e.2) (default [] r) ∧ weigh g (default [] r) + weigh g (owed v') ≤ weigh g (owed v);
  owed_canceled_law (g : Account → Z → Z) who id q v v' :
    superadditive g → in_range BITS q → value_ok v → canceled who id q v = (Ok (), v') →
    weigh g (owed v') ≤ weigh g (owed v)
}.

(** ** Price levels as [Tick]s *)
Section TickOwed.
Context `{OrderBookIndex, BuildProfile} {Account : Type} `{EqDecision Account}.
Implicit Types (l : list (Z * Order Account)) (g : Account → Z → Z).

Definition order_list l : list (Account * Z) := (λ e, (owner e.2, quantity e.2)) <$> l.

Lemma order_list_nonneg l : Forall order_ok l.*2 → Forall (λ e, 0 ≤ e.2) (order_list l).
Proof.
  intros Hl. induction l as [|[k o] l IH]; simpl; [constructor|].
  apply Forall_cons in Hl as [[Ho _] Hl]. constructor; [exact Ho|by apply IH].
Qed.

Lemma weigh_insert g k o l :
  superadditive g → Forall order_ok l.*2 →
  weigh g (order_list (bt_insert k o l)) ≤ weigh g (order_list l) + g (owner o) (quantity o).
Proof.
  intros Hg. induction l as [|[k' o'] l IH]; simpl; [lia|]. intros [[Ho _] Hl]%Forall_cons.
  specialize (IH Hl). destruct (k <? k'); simpl; [lia|]. destruct (k =? k'); simpl; [|simpl in *; lia].
  destruct (Hg (owner o') (quantity o') 0) as [? _]; [done|lia|lia].
Qed.

Lemma weigh_replace g k o o' l :
  superadditive g → Forall order_ok l.*2 → bt_ok l → bt_get k l = Some o → owner o' = owner o → 0 ≤ quantity o' ≤ quantity o →
  weigh g (order_list (bt_insert k o' l)) ≤ weigh g (order_list l).
Proof.
  intros Hg. induction l as [|[k' a'] l IH]; [done|]. intros [[Ho _] Hl]%Forall_cons [Hlt Hok]%bt_ok_cons.
  cbn [bt_get bt_insert]. destruct (Z.eqb_spec k k') as [->|Hne].
  - intros [= ->] Hown Hq. rewrite Z.ltb_irrefl. simpl. rewrite Hown.
    pose proof (superadditive_mono g (owner o) (quantity o') (quantity o) Hg ltac:(lia)). lia.
  - intros Hget Hown Hq. destruct (Z.ltb_spec k k') as [Hk|].
    + pose proof (Hlt k (bt_get_key _ _ _ Hget)). lia.
    + simpl. specialize (IH Hl Hok Hget Hown Hq). lia.
Qed.

Lemma weigh_remove g k l :
  superadditive g → Forall order_ok l.*2 → weigh g (order_list (bt_remove k l)) ≤ weigh g (order_list l).
Proof.
  intros Hg. induction l as [|[k' o'] l IH]; simpl; [done|]. intros [[Ho _] Hl]%Forall_cons.
  specialize (IH Hl). destruct (Hg (owner o') (quantity o') 0) as [? _]; [done|lia|].
  destruct (k =? k'); simpl; lia.
Qed.

(** Serving splits one order at most. *)
Lemma weigh_serve g q l :
  superadditive g → 0 ≤ q → Forall order_ok l.*2 →
  weigh g (serve q l).2 + weigh g (order_list (serve q l).1) ≤ weigh g (order_list l).
Proof.
  intros Hg. revert q. induction l as [|[k o] l IH]; intros q Hq; simpl; [done|].
  intros [[Ho _] Hl]%Forall_cons. destruct (Z.eqb_spec q 0); simpl; [lia|].
  destruct (Z.leb_spec q (quantity o)); simpl.
  - destruct (Hg (owner o) q (quantity o - q)) as [_ Hs]; [lia..|].
    replace (q + (quantity o - q)) with (quantity o) in Hs by lia. lia.
  - specialize (IH (q - quantity o) ltac:(lia) Hl). destruct (serve _ l) as [rest res].
    simpl in *. lia.
Qed.

#[export] Program Instance Tick_LevelOwed : LevelOwed Account (Tick Account) := {
  owed t := order_list (open_orders t)
}.
Next Obligation. intros v [_ Hok]. by apply order_list_nonneg. Qed.
Next Obligation. done. Qed.
Next Obligation. intros g id o q e v Hg [_ Hok]. by apply weigh_insert. Qed.
Next Obligation.
  intros E g q v r v' Hg Hq Hv Hf. simpl in Hf. rewrite filled_serve in Hf by done.
  injection Hf as <- <-. cbn [open_orders].
  pose proof (weigh_serve g q (open_orders v) Hg (proj1 Hq) (proj2 Hv)) as Hs.
  pose proof (serve_fills_nonneg q (open_orders v) (proj1 Hq) (proj2 Hv)) as Hnn.
  destruct (_ =? 0); simpl; [|by split].
  pose proof (weigh_nonneg g (serve q (open_orders v)).2 Hg Hnn). split; [constructor|lia].
Qed.
Next Obligation.
  intros g who id q v v' Hg Hq Hv Hc. simpl in Hc. rewrite canceled_spec in Hc by done.
  unfold cancel_result, cancel_effect in Hc.
  destruct (bt_get (order_id_value id) (open_orders v)) as [o|] eqn:Hget; [|done].
  case_decide; [|done]. destruct (Z.leb_spec q (quantity o)); [|done]. injection Hc as <-.
  destruct (quantity o =? q); cbn [open_orders].
  - by apply weigh_remove, Hv.
  - eapply weigh_replace; [done|apply Hv|apply Hv|exact Hget|done|]. destruct Hq. simpl. lia.
Qed.
End TickOwed.

(** ** Whole books *)
Section BookOwed.
Context {Account V : Type} `{HW : LevelOwed Account V}.
Implicit Types (m : gmap Z V) (g : Z → Account → Z → Z).

(** [g p] tells what an order at price [p] counts for. *)
Definition levels_ok m : Prop := map_Forall (λ p v, 0 ≤ p ∧ value_ok v) m.
Definition book_owed g m : Z := map_sum (λ p v, weigh (g p) (owed v)) m.

Lemma book_owed_level g m p v :
  (∀ p, 0 ≤ p → superadditive (g p)) → levels_ok m → m !! p = Some v →
  weigh (g p) (owed v) ≤ book_owed g m.
Proof.
  intros Hg Hm Hv. apply (map_sum_entry (λ p v, weigh (g p) (owed v))); [|done].
  intros j y [Hj Hy]%Hm. apply weigh_nonneg; [by apply Hg|]. by apply owed_nonneg.
Qed.

Lemma book_owed_place g id o p q e m :
  (∀ p, 0 ≤ p → superadditive (g p)) → levels_ok m →
  book_owed g (levels_place id o p q e m) ≤ book_owed g m + g p o q.
Proof.
  intros Hg Hm. unfold book_owed, levels_place. rewrite map_sum_insert.
  destruct (m !! p) as [v|] eqn:Hv; simpl.
  - destruct (Hm p v Hv) as [Hp Hok].
    pose proof (owed_placed_law (g p) id o q e v (Hg p Hp) Hok). lia.
  - rewrite owed_new_law. simpl. lia.
Qed.

Lemma book_owed_fill {E} g p q m r m' :
  (∀ p, 0 ≤ p → superadditive (g p)) → levels_ok m → in_range BITS q →
  levels_fill (E:=E) p q m = (Ok r, m') →
  Forall (λ e, 0 ≤ e.2) (default [] r) ∧ weigh (g p) (default [] r) + book_owed g m' ≤ book_owed g m.
Proof.
  intros Hg Hm Hq. unfold levels_fill, book_owed. destruct (m !! p) as [v|] eqn:Hv.
  2:{ intros [= <- <-]. simpl. split; [constructor|lia]. }
  destruct (filled q v) as [r' v'] eqn:Hf. intros [= -> <-].
  destruct (Hm p v Hv) as [Hp Hok]. destruct (filled_law (E:=E) q v Hq Hok) as (r2 & v2 & Hf2 & Hok2 & _).
  rewrite Hf in Hf2. injection Hf2 as <- <-.
  destruct (owed_filled_law (g p) q v r v' (Hg p Hp) Hq Hok Hf) as [Hnn Hle]. split; [exact Hnn|].
  pose proof (weigh_nonneg (g p) (owed v') (Hg p Hp) (owed_nonneg v' Hok2)) as Hn.
  destruct (order_is_empty v').
  - rewrite (map_sum_delete _ m p v Hv). lia.
  - rewrite map_sum_insert, Hv. simpl. lia.
Qed.

Lemma book_owed_cancel g p q who id m v v' :
  (∀ p, 0 ≤ p → superadditive (g p)) → levels_ok m → in_range BITS q →
  m !! p = Some v → canceled who id q v = (Ok (), v') →
  book_owed g (<[p := v']> m) ≤ book_owed g m.
Proof.
  intros Hg Hm Hq Hv Hc. unfold book_owed. rewrite map_sum_insert, Hv. simpl. destruct (Hm p v Hv) as [Hp Hok].
  pose proof (owed_canceled_law (g p) who id q v v' (Hg p Hp) Hq Hok Hc). lia.
Qed.
End BookOwed.
