(* ===== verification/Errors.v ===== *)
(** * Errors of the pallet

    [enum Error] of [lib.rs], and [DispatchError] as far as the pallet
    produces or forwards one: its own errors, the [TokenError] of a withdrawal
    that would kill the account, the error of an unsigned origin, and the
    errors of the asset pallets. *)
From S2P Require Import Prelude.

Module PalletError.
Inductive Error :=
| InvalidAssetPair
| PoolExists
| WrongDesiredAmount
| AmountOneLessThanMinimal
| AmountTwoLessThanMinimal
| ReserveLeftLessThanMinimal
| AmountOutTooHigh
| PoolNotFound
| Overflow
| AssetOneDepositDidNotMeetMinimum
| AssetTwoDepositDidNotMeetMinimum
| AssetOneWithdrawalDidNotMeetMinimum
| AssetTwoWithdrawalDidNotMeetMinimum
| OptimalAmountLessThanDesired
| InsufficientLiquidityMinted
| ZeroLiquidity
| ZeroAmount
| ProvidedMinimumNotSufficientForSwap
| ProvidedMaximumNotSufficientForSwap
| InvalidPath
| NonUniquePath
| IncorrectPoolAssetId
| BelowMinimum
| InvalidOrderPrice
| InvalidOrderQuantity
| ErrorOnFillOrder
| ErrorOnPlaceOrder
| ErrorOnCancelOrder
| OrderNotFound
| NoPermission
| OverOrderQuantity
| ConversionError
| NoOps
| InvalidTickSize
| InvalidLotSize.

#[global] Instance Error_eq_dec : EqDecision Error.
Proof. solve_decision. Defined.
End PalletError.

Inductive DispatchError :=
| DModule (e : PalletError.Error)
| DNotExpendable
| DBadOrigin
| DExternal (code : Z).

#[export] Instance DispatchError_eq_dec : EqDecision DispatchError.
Proof. solve_decision. Defined.
