(* ===== verification/Amm.v ===== *)
(** * Arithmetic of the liquidity pool

    The pure functions of [lib.rs] that price swaps and liquidity: [mul_div],
    [quote], [get_amount_out], [get_amount_in],
    [calc_lp_amount_for_zero_supply], and [Normalize] of [types.rs].  Amounts
    are of type [Unit] ([BITS] wide); intermediate results are [U256]. *)
From S2P Require Import Prelude Index Errors.
From Stdlib Require Import Bool.
Import PalletError.

(** [HigherPrecisionUnit = U256]: its [-] operator aborts on underflow in
    every build. *)
Definition HBITS : Z := 256.
Definition h_sub {E} (a b : Z) : outcome E Z := if b <=? a then Ok (a - b) else Panic.

(** The constants of [Config] that the arithmetic reads, and the integer
    square root, which comes from the numeric library. *)
Class AmmConfig := {
  LPFee : Z;
  MintMinLiquidity : Z;
  integer_sqrt : Z → Z
}.

Section Amm.
Context `{OrderBookIndex, AmmConfig}.

Abbreviation res A := (outcome Error A).

Definition mul_div (a b c : Z) : res Z :=
  product ← ok_or (checked_mul HBITS a b) PalletError.Overflow;
  result ← ok_or (checked_div product c) PalletError.Overflow;
  ok_or (try_into BITS result) PalletError.Overflow.

Definition quote (amount reserve1 reserve2 : Z) : res Z := mul_div amount reserve2 reserve1.

Definition calc_lp_amount_for_zero_supply (amount1 amount2 : Z) : res Z :=
  product ← ok_or (checked_mul HBITS amount1 amount2) PalletError.Overflow;
  result ← ok_or (checked_sub HBITS (integer_sqrt product) MintMinLiquidity)
             InsufficientLiquidityMinted;
  ok_or (try_into BITS result) PalletError.Overflow.

Definition get_amount_out (amount_in reserve_in reserve_out : Z) : res Z :=
  if (reserve_in =? 0) || (reserve_out =? 0) then Err ZeroLiquidity else
  after_fee ← h_sub 1000 LPFee;
  amount_in_with_fee ← ok_or (checked_mul HBITS amount_in after_fee) PalletError.Overflow;
  numerator ← ok_or (checked_mul HBITS amount_in_with_fee reserve_out) PalletError.Overflow;
  scaled ← ok_or (checked_mul HBITS reserve_in 1000) PalletError.Overflow;
  denominator ← ok_or (checked_add HBITS scaled amount_in_with_fee) PalletError.Overflow;
  result ← ok_or (checked_div numerator denominator) PalletError.Overflow;
  ok_or (try_into BITS result) PalletError.Overflow.

Definition get_amount_in (amount_out reserve_in reserve_out : Z) : res Z :=
  if (reserve_in =? 0) || (reserve_out =? 0) then Err ZeroLiquidity else
  if reserve_out <=? amount_out then Err AmountOutTooHigh else
  product ← ok_or (checked_mul HBITS reserve_in amount_out) PalletError.Overflow;
  numerator ← ok_or (checked_mul HBITS product 1000) PalletError.Overflow;
  left ← ok_or (checked_sub HBITS reserve_out amount_out) PalletError.Overflow;
  after_fee ← h_sub 1000 LPFee;
  denominator ← ok_or (checked_mul HBITS left after_fee) PalletError.Overflow;
  quotient ← ok_or (checked_div numerator denominator) PalletError.Overflow;
  result ← ok_or (checked_add HBITS quotient 1) PalletError.Overflow;
  ok_or (try_into BITS result) PalletError.Overflow.
End Amm.

(** [trait Normalize]: the factor [10u64.pow(d)] is computed in [u64]. *)
Section Normalize.
Context `{OrderBookIndex, BuildProfile} {E : Type}.

Definition pow10 (d : Z) : outcome E Z := overflowing 64 (10 ^ d).

Definition normalize (self : Z) (adjustment : option Z) : outcome E Z :=
  factor ← pow10 (default 0 adjustment);
  u_mul BITS self factor.

Definition denom (self : Z) (adjustment : Z) : outcome E Z :=
  factor ← pow10 adjustment;
  u_div self factor.
End Normalize.

(** ** Facts *)
Section AmmFacts.
Context `{OrderBookIndex, AmmConfig}.

Lemma mul_div_Ok a b c r :
  mul_div a b c = Ok r ↔ c ≠ 0 ∧ in_range HBITS (a * b) ∧ r = a * b / c ∧ in_range BITS r.
Proof.
  unfold mul_div, checked_mul, try_into. split.
  - intros Hr. inv_run. rewrite checked_Some in *. rewrite checked_div_Some in *.
    destruct_and!. by subst.
  - intros (Hc & Hp & -> & Hr). rewrite checked_ok by done. run_step.
    rewrite (proj2 (checked_div_Some _ _ _)) by done. run_step. by rewrite checked_ok.
Qed.

Lemma mul_div_floor a b c r :
  0 < c → mul_div a b c = Ok r → r * c ≤ a * b < (r + 1) * c.
Proof.
  intros Hc (_ & _ & -> & _)%mul_div_Ok.
  pose proof (Z.mul_div_le (a * b) c Hc). pose proof (Z.mul_succ_div_gt (a * b) c Hc). lia.
Qed.

Lemma h_sub_Ok {E} a b r : h_sub (E:=E) a b = Ok r ↔ b ≤ a ∧ r = a - b.
Proof. unfold h_sub. destruct (Z.leb_spec b a); naive_solver lia. Qed.

(** The pricing formula with the fee taken from the input. *)
Definition out_formula (a rin rout : Z) : Z :=
  a * (1000 - LPFee) * rout / (rin * 1000 + a * (1000 - LPFee)).
Definition in_formula (o rin rout : Z) : Z :=
  rin * o * 1000 / ((rout - o) * (1000 - LPFee)) + 1.

Lemma get_amount_out_Ok a rin rout r :
  get_amount_out a rin rout = Ok r →
  rin ≠ 0 ∧ rout ≠ 0 ∧ LPFee ≤ 1000 ∧ r = out_formula a rin rout ∧ in_range BITS r.
Proof.
  unfold get_amount_out. intros Hr.
  destruct ((rin =? 0) || (rout =? 0)) eqn:Hz; [done|].
  apply orb_false_iff in Hz as [?%Z.eqb_neq ?%Z.eqb_neq].
  unfold checked_mul, checked_add, try_into in Hr. inv_run.
  rewrite checked_Some, h_sub_Ok, ?checked_div_Some in *. destruct_and!. by subst.
Qed.

Lemma get_amount_in_Ok o rin rout r :
  get_amount_in o rin rout = Ok r →
  rin ≠ 0 ∧ rout ≠ 0 ∧ o < rout ∧ LPFee < 1000 ∧ r = in_formula o rin rout ∧ in_range BITS r.
Proof.
  unfold get_amount_in. intros Hr.
  destruct ((rin =? 0) || (rout =? 0)) eqn:Hz; [done|].
  apply orb_false_iff in Hz as [?%Z.eqb_neq ?%Z.eqb_neq].
  destruct (Z.leb_spec rout o); [done|].
  unfold checked_mul, checked_add, checked_sub, try_into in Hr. inv_run.
  rewrite checked_Some, h_sub_Ok, ?checked_div_Some in *. destruct_and!. subst.
  split_and!; try done. assert (LPFee ≠ 1000) by nia. lia.
Qed.

(** A completed swap does not decrease the product of the reserves. *)
Lemma out_formula_product a rin rout :
  0 ≤ LPFee ≤ 1000 → 0 ≤ a → 0 < rin → 0 < rout →
  rin * rout ≤ (rin + a) * (rout - out_formula a rin rout).
Proof.
  intros Hfee Ha Hin Hout. unfold out_formula.
  set (n := a * (1000 - LPFee)). assert (0 ≤ n ≤ a * 1000) as Hn by (subst n; nia).
  assert (0 < rin * 1000 + n) as Hd by lia.
  pose proof (Z.mul_div_le (n * rout) (rin * 1000 + n) Hd) as Hle.
  set (x := n * rout / (rin * 1000 + n)) in *.
  assert (0 ≤ x) by (apply Z.div_pos; nia).
  assert (x ≤ rout) by (apply Z.div_le_upper_bound; nia).
  assert (1000 * (x * (rin + a)) ≤ 1000 * (a * rout)); [|nia].
  nia.
Qed.

Lemma out_formula_lt a rin rout :
  0 ≤ LPFee ≤ 1000 → 0 ≤ a → 0 < rin → 0 < rout → 0 ≤ out_formula a rin rout < rout.
Proof.
  intros Hfee Ha Hin Hout. unfold out_formula.
  set (n := a * (1000 - LPFee)). assert (0 ≤ n) by (subst n; nia).
  split; [apply Z.div_pos; nia|]. apply Z.div_lt_upper_bound; nia.
Qed.

Lemma out_formula_mono a b rin rout :
  0 ≤ LPFee ≤ 1000 → 0 ≤ a ≤ b → 0 < rin → 0 < rout →
  out_formula a rin rout ≤ out_formula b rin rout.
Proof.
  intros Hfee Hab Hin Hout. unfold out_formula.
  set (n := a * (1000 - LPFee)). set (m := b * (1000 - LPFee)).
  assert (0 ≤ n ≤ m) by (subst n m; nia).
  apply Z.div_le_lower_bound; [lia|].
  pose proof (Z.mul_div_le (n * rout) (rin * 1000 + n) ltac:(lia)) as Hle.
  set (x := n * rout / (rin * 1000 + n)) in *.
  assert (x ≤ rout) by (apply Z.div_le_upper_bound; nia). nia.
Qed.

(** The input that [get_amount_in] asks for buys at least the output... *)
Lemma in_formula_sufficient o rin rout :
  0 ≤ LPFee < 1000 → 0 ≤ o < rout → 0 < rin →
  o ≤ out_formula (in_formula o rin rout) rin rout.
Proof.
  intros Hfee Ho Hin. unfold out_formula, in_formula.
  set (g := 1000 - LPFee). assert (0 < g) by (subst g; lia).
  assert (0 < (rout - o) * g) as Hd by nia.
  pose proof (Z.mul_succ_div_gt (rin * o * 1000) ((rout - o) * g) Hd) as Hgt.
  set (x := rin * o * 1000 / ((rout - o) * g)) in *.
  assert (0 ≤ x) by (apply Z.div_pos; nia).
  apply Z.div_le_lower_bound; [nia|]. nia.
Qed.

(** ... and overpays by at most one unit: two units less would not do. *)
Lemma in_formula_tight o rin rout a :
  0 ≤ LPFee < 1000 → 0 ≤ o < rout → 0 < rin →
  0 ≤ a ≤ in_formula o rin rout - 2 → out_formula a rin rout < o.
Proof.
  intros Hfee Ho Hin. unfold out_formula, in_formula.
  set (g := 1000 - LPFee). assert (0 < g) by (subst g; lia).
  assert (0 < (rout - o) * g) as Hd by nia.
  pose proof (Z.mul_div_le (rin * o * 1000) ((rout - o) * g) Hd) as Hle.
  set (x := rin * o * 1000 / ((rout - o) * g)) in *. intros Ha.
  apply Z.div_lt_upper_bound; [nia|].
  assert ((rout - o) * g * a < rin * o * 1000) by nia. nia.
Qed.

Lemma in_formula_product o rin rout :
  0 ≤ LPFee < 1000 → 0 ≤ o < rout → 0 < rin →
  0 < in_formula o rin rout ∧ rin * rout ≤ (rin + in_formula o rin rout) * (rout - o).
Proof.
  intros Hfee Ho Hin. unfold in_formula.
  set (g := 1000 - LPFee). assert (0 < g ≤ 1000) by (subst g; lia).
  assert (0 < (rout - o) * g) as Hd by nia.
  pose proof (Z.mul_succ_div_gt (rin * o * 1000) ((rout - o) * g) Hd) as Hgt.
  set (x := rin * o * 1000 / ((rout - o) * g)) in *.
  assert (0 ≤ x) by (apply Z.div_pos; nia). split; [lia|].
  assert (rin * o * g < (rout - o) * (x + 1) * g) by nia. nia.
Qed.

(** Below 2^118 nothing overflows, so the call returns the formula. *)
Definition amount_ok (x : Z) : Prop := 0 ≤ x < 2 ^ 118 ∧ in_range BITS x.

Lemma in_range_H x : 0 ≤ x < 2 ^ 255 → in_range HBITS x.
Proof.
  intros Hx. unfold in_range, HBITS. split; [lia|].
  eapply Z.lt_trans; [apply Hx|]. apply Z.pow_lt_mono_r; lia.
Qed.

Lemma get_amount_out_total a rin rout :
  0 ≤ LPFee ≤ 1000 → amount_ok a → amount_ok rin → amount_ok rout → 0 < rin → 0 < rout →
  get_amount_out a rin rout = Ok (out_formula a rin rout).
Proof.
  intros Hfee [Ha Har] [Hin Hinr] [Hout Houtr] Hin0 Hout0.
  pose proof (out_formula_lt a rin rout Hfee (proj1 Ha) Hin0 Hout0) as Hlt.
  unfold get_amount_out, checked_mul, checked_add, try_into.
  destruct (Z.eqb_spec rin 0); [lia|]. destruct (Z.eqb_spec rout 0); [lia|]. cbn [orb].
  unfold h_sub. destruct (Z.leb_spec LPFee 1000); [|lia]. run_step.
  set (fa := a * (1000 - LPFee)).
  assert (0 ≤ fa ≤ a * 1000) by (subst fa; nia).
  assert (2 ^ 118 * 1000 < 2 ^ 128) as Hk1 by done.
  assert (2 ^ 128 * 2 ^ 118 < 2 ^ 255) as Hk2 by done.
  assert (2 ^ 128 + 2 ^ 128 < 2 ^ 255) as Hk3 by done.
  assert (0 ≤ fa * rout < 2 ^ 255) as Hmul by nia.
  rewrite (checked_ok HBITS (rin * 1000)) by (apply in_range_H; lia).
  rewrite (checked_ok HBITS fa) by (apply in_range_H; lia). run_step.
  rewrite (checked_ok HBITS (fa * rout)) by (apply in_range_H; exact Hmul). run_step.
  rewrite checked_ok by (apply in_range_H; lia). run_step.
  rewrite (proj2 (checked_div_Some _ _ (out_formula a rin rout))) by (split; [lia|done]). run_step.
  by rewrite checked_ok by (unfold in_range in *; lia).
Qed.

Lemma get_amount_in_total o rin rout :
  0 ≤ LPFee < 1000 → amount_ok o → amount_ok rin → amount_ok rout → 0 < rin → o < rout →
  in_range BITS (in_formula o rin rout) →
  get_amount_in o rin rout = Ok (in_formula o rin rout).
Proof.
  intros Hfee [Ho Hor] [Hin Hinr] [Hout Houtr] Hin0 Hlt Hr.
  unfold get_amount_in, checked_mul, checked_add, checked_sub, try_into.
  destruct (Z.eqb_spec rin 0); [lia|]. destruct (Z.eqb_spec rout 0); [lia|]. cbn [orb].
  destruct (Z.leb_spec rout o); [lia|].
  assert (2 ^ 118 * 2 ^ 118 * 1000 < 2 ^ 255) as Hk1 by done.
  assert (2 ^ 118 * 1000 < 2 ^ 255) as Hk2 by done.
  assert (0 ≤ rin * o < 2 ^ 118 * 2 ^ 118) as Hp by nia.
  assert (0 ≤ (rout - o) * (1000 - LPFee) ≤ 2 ^ 118 * 1000) as Hq by nia.
  rewrite (checked_ok HBITS (rout - o)) by (apply in_range_H; lia).
  rewrite (checked_ok HBITS (rin * o)) by (apply in_range_H; lia). run_step.
  rewrite (checked_ok HBITS (rin * o * 1000)) by (apply in_range_H; lia). run_step.
  unfold h_sub. destruct (Z.leb_spec LPFee 1000); [|lia]. run_step.
  rewrite (checked_ok HBITS ((rout - o) * _)) by (apply in_range_H; lia). run_step.
  rewrite (proj2 (checked_div_Some _ _ (in_formula o rin rout - 1)))
    by (split; [nia|unfold in_formula; lia]). run_step.
  replace (in_formula o rin rout - 1 + 1) with (in_formula o rin rout) by lia.
  assert (2 ^ BITS ≤ 2 ^ HBITS) as Hw.
  { apply Z.pow_le_mono_r; [lia|]. pose proof BITS_upper. unfold HBITS. lia. }
  rewrite (checked_ok HBITS) by (unfold in_range in *; lia). run_step.
  by rewrite checked_ok.
Qed.
End AmmFacts.

Section NormalizeFacts.
Context `{OrderBookIndex, BuildProfile} {E : Type}.

(** The powers of ten up to [10^19] fit in [u64]; the next one does not. *)
Lemma pow10_ok d : 0 ≤ d ≤ 19 → pow10 (E:=E) d = Ok (10 ^ d).
Proof.
  intros Hd. apply overflowing_ok. split; [lia|].
  eapply Z.le_lt_trans; [apply (Z.pow_le_mono_r 10 d 19); lia|]. done.
Qed.

Lemma denom_normalize x d y :
  0 ≤ d ≤ 19 → in_range BITS (x * 10 ^ d) →
  normalize (E:=E) x (Some d) = Ok y → denom (E:=E) y d = Ok x.
Proof.
  intros Hd Hx. unfold normalize, denom. simpl default. rewrite pow10_ok by done. run_step.
  rewrite u_mul_ok by done. intros [= <-]. unfold u_div.
  destruct (Z.eqb_spec (10 ^ d) 0); [lia|]. by rewrite Z.div_mul.
Qed.
End NormalizeFacts.

Section AmmNoFuel.
Context `{OrderBookIndex, AmmConfig, BuildProfile}.

Lemma no_fuel_h_sub {E} a b : no_fuel (E:=E) (h_sub a b).
Proof. unfold h_sub. auto with nofuel. Qed.
Lemma no_fuel_normalize {E} x d : no_fuel (E:=E) (normalize x d).
Proof. unfold normalize, pow10. auto with nofuel. Qed.
Lemma no_fuel_denom {E} x d : no_fuel (E:=E) (denom x d).
Proof. unfold denom, pow10. auto with nofuel. Qed.
Lemma no_fuel_quote a b c : no_fuel (quote a b c).
Proof. unfold quote, mul_div. auto with nofuel. Qed.
Lemma no_fuel_get_amount_out a b c : no_fuel (get_amount_out a b c).
Proof. unfold get_amount_out. auto 20 using no_fuel_h_sub with nofuel. Qed.
Lemma no_fuel_get_amount_in a b c : no_fuel (get_amount_in a b c).
Proof. unfold get_amount_in. auto 20 using no_fuel_h_sub with nofuel. Qed.
End AmmNoFuel.

#[export] Hint Resolve no_fuel_h_sub no_fuel_normalize no_fuel_denom no_fuel_quote
  no_fuel_get_amount_out no_fuel_get_amount_in : nofuel.
