(* ===== verification/Locator.v ===== *)
(** * Pool locators

    [trait PoolLocator] of [types.rs] and its implementations.  The account
    of a pool is derived from its id by hashing the encoding and decoding the
    hash; hash and codec are library code, so the derivation is a parameter.
    A [Result] with the error [()] is an [option]. *)
From S2P Require Import Prelude.
From Stdlib Require Import Bool.

Class PoolLocator (AccountId AssetKind PoolId : Type) := {
  address : PoolId → option AccountId;
  pool_id : AssetKind → AssetKind → option PoolId
}.

Definition pool_address `{PoolLocator AccountId AssetKind PoolId} (asset1 asset2 : AssetKind) :
    option AccountId :=
  match pool_id asset1 asset2 with
  | Some id => address id
  | None => None
  end.

(** [Result::or]. *)
Definition result_or {A} (a b : option A) : option A :=
  match a with None => b | Some _ => a end.

Section Locators.
Context {AccountId AssetKind : Type} `{EqDecision AssetKind}.
Context (derive : AssetKind * AssetKind → option AccountId).

Definition BaseQuoteAsset : PoolLocator AccountId AssetKind (AssetKind * AssetKind) := {|
  pool_id := λ base_asset quote_asset,
    if decide (base_asset = quote_asset) then None else Some (base_asset, quote_asset);
  address := derive
|}.

Definition WithFirstAsset (first : AssetKind) :
    PoolLocator AccountId AssetKind (AssetKind * AssetKind) := {|
  pool_id := λ asset1 asset2,
    if decide (asset1 = asset2) then None
    else if decide (first = asset1) then Some (first, asset2)
    else if decide (first = asset2) then Some (first, asset1)
    else None;
  address := derive
|}.

(** The order on assets is that of [Ord]. *)
Definition Ascending (lt : AssetKind → AssetKind → bool) :
    PoolLocator AccountId AssetKind (AssetKind * AssetKind) := {|
  pool_id := λ asset1 asset2,
    if lt asset2 asset1 then Some (asset2, asset1)
    else if lt asset1 asset2 then Some (asset1, asset2)
    else None;
  address := derive
|}.
End Locators.

Definition Chain {AccountId AssetKind}
    (First Second : PoolLocator AccountId AssetKind (AssetKind * AssetKind)) :
    PoolLocator AccountId AssetKind (AssetKind * AssetKind) := {|
  pool_id := λ asset1 asset2,
    result_or (pool_id (PoolLocator:=First) asset1 asset2)
              (pool_id (PoolLocator:=Second) asset1 asset2);
  address := λ id,
    result_or (address (PoolLocator:=First) id) (address (PoolLocator:=Second) id)
|}.

(** [AccountIdConverter] and [AccountIdConverterNoSeed]: the derivation.  The
    codec and the hash are library code; [decode] reads from the bytes
    followed by zeros without end ([TrailingZeroInput]).  The error of
    [try_convert] is the id that was given. *)
Section Converters.
Context {Seed PoolId AccountId : Type}.
Context (blake2_256 : list Z → list Z) (decode : list Z → option AccountId).

Definition AccountIdConverter (encode : Seed * PoolId → list Z) (seed : Seed) (id : PoolId) : AccountId + PoolId :=
  match decode (blake2_256 (encode (seed, id))) with
  | Some account => inl account
  | None => inr id
  end.

Definition AccountIdConverterNoSeed (encode : PoolId → list Z) (id : PoolId) : AccountId + PoolId :=
  match decode (blake2_256 (encode id)) with
  | Some account => inl account
  | None => inr id
  end.
End Converters.

(** Does the order of the two assets matter? *)
Definition locator_symmetric {AccountId AssetKind PoolId}
    (L : PoolLocator AccountId AssetKind PoolId) : Prop :=
  ∀ a b, pool_id (PoolLocator:=L) a b = pool_id (PoolLocator:=L) b a.

Section LocatorFacts.
Context {AccountId AssetKind : Type} `{EqDecision AssetKind}.
Context (derive : AssetKind * AssetKind → option AccountId).

Lemma WithFirstAsset_symmetric first : locator_symmetric (WithFirstAsset derive first).
Proof.
  intros a b. simpl. repeat case_decide; congruence.
Qed.

Lemma Ascending_symmetric lt :
  (∀ a b, lt a b = true → lt b a = false) → locator_symmetric (Ascending derive lt).
Proof.
  intros Hasym a b. simpl. destruct (lt b a) eqn:H1, (lt a b) eqn:H2; try done.
  apply Hasym in H1. congruence.
Qed.

Lemma Chain_symmetric (L1 L2 : PoolLocator AccountId AssetKind (AssetKind * AssetKind)) :
  locator_symmetric L1 → locator_symmetric L2 → locator_symmetric (Chain L1 L2).
Proof. intros H1 H2 a b. simpl. by rewrite H1, H2. Qed.

(** [BaseQuoteAsset] keeps the two directions of a pair apart. *)
Lemma BaseQuoteAsset_inj a b a' b' :
  pool_id (PoolLocator:=BaseQuoteAsset derive) a b =
    pool_id (PoolLocator:=BaseQuoteAsset derive) a' b' →
  a ≠ b → a' = a ∧ b' = b.
Proof. simpl. intros Heq Hne. repeat case_decide; try done. by simplify_eq. Qed.
End LocatorFacts.
