(* ===== verification/Assets.v ===== *)
(** * Asset registries

    The pallet works on the asset pallets of the runtime through the
    [fungibles] traits.  They are library code and therefore a parameter: a
    type class of the calls that the pallet makes, on a ledger of an abstract
    type.  [FungiblesLaws] states the documented effect of these calls on
    balances; theorems that rely on it say so.  [Bank] is a small ledger that
    satisfies the laws. *)
From S2P Require Import Prelude Errors.
From Stdlib Require Import Bool.

(** [enum Preservation], the two values in use. *)
Inductive Preservation := Preserve | Expendable.

#[export] Instance Preservation_eq_dec : EqDecision Preservation.
Proof. solve_decision. Defined.

(** [Credit]: an amount of an asset taken out of circulation. *)
Record Credit (AssetId : Type) := mkCredit { credit_asset : AssetId; peek : Z }.
Arguments mkCredit {AssetId} _ _.
Arguments credit_asset {AssetId} _.
Arguments peek {AssetId} _.

(** [Credit::split]: at most the whole credit is split off. *)
Definition split {AssetId} (c : Credit AssetId) (amount : Z) : Credit AssetId * Credit AssetId :=
  let first := Z.min (peek c) amount in
  (mkCredit (credit_asset c) first, mkCredit (credit_asset c) (peek c - first)).

(** [Config::Assets] and [Config::AssetsFreezer] (the freeze reason is always
    [LimitOrder], precision [Exact] and fortitude [Polite]). *)
Class Fungibles (AccountId AssetId Ledger : Type) := {
  reducible_balance : Ledger → AssetId → AccountId → Preservation → Z;
  minimum_balance : Ledger → AssetId → Z;
  transfer : AssetId → AccountId → AccountId → Z → Preservation → M Ledger DispatchError ();
  withdraw_asset : AssetId → AccountId → Z → Preservation → M Ledger DispatchError (Credit AssetId);
  resolve : AccountId → Credit AssetId → M Ledger (Credit AssetId) ();
  should_touch : Ledger → AssetId → AccountId → bool;
  touch_asset : AssetId → AccountId → AccountId → M Ledger DispatchError ();
  on_unbalanced : Credit AssetId → Ledger → Ledger;
  increase_frozen : AssetId → AccountId → Z → M Ledger DispatchError ();
  decrease_frozen : AssetId → AccountId → Z → M Ledger DispatchError ()
}.

(** [Config::PoolAssets]: the lp tokens. *)
Class PoolFungibles (AccountId PoolAssetId Ledger : Type) := {
  total_issuance : Ledger → PoolAssetId → Z;
  create_asset : PoolAssetId → AccountId → Z → M Ledger DispatchError ();
  mint_into : PoolAssetId → AccountId → Z → M Ledger DispatchError ();
  burn_from : PoolAssetId → AccountId → Z → M Ledger DispatchError ();
  pool_should_touch : Ledger → PoolAssetId → AccountId → bool;
  pool_touch : PoolAssetId → AccountId → AccountId → M Ledger DispatchError ()
}.

(** ** Documented behaviour

    [balance] and [frozen] are what the registry stores ([frozen] is zero for
    an account that nothing restricts); a successful call changes them as its
    documentation says and nothing else.  An expendable withdrawal or transfer
    that would leave less than the minimum balance also takes the rest, the
    dust, so the laws speak about calls that leave nothing or the minimum. *)
Definition moved {K} `{EqDecision K} (k k' : K) (v : Z) : Z := if decide (k = k') then v else 0.

Class FungiblesLaws (AccountId AssetId Ledger : Type)
    `{!EqDecision AccountId, !EqDecision AssetId, !Fungibles AccountId AssetId Ledger} := {
  balance : Ledger → AssetId → AccountId → Z;
  frozen : Ledger → AssetId → AccountId → Z;
  reducible_law l a who p :
    0 ≤ balance l a who → 0 ≤ reducible_balance l a who p ≤ balance l a who;
  reducible_free l a who :
    frozen l a who = 0 → 0 ≤ balance l a who →
    reducible_balance l a who Expendable = balance l a who;
  withdraw_law a who v p l c l' :
    withdraw_asset a who v p l = (Ok c, l') →
    (p = Expendable → balance l a who = v ∨ minimum_balance l a ≤ balance l a who - v) →
    c = mkCredit a v ∧ v ≤ balance l a who ∧ frozen l' = frozen l ∧
    ∀ a' w', balance l' a' w' = balance l a' w' - moved (a, who) (a', w') v;
  resolve_law who c l l' :
    resolve who c l = (Ok (), l') →
    frozen l' = frozen l ∧
    ∀ a' w', balance l' a' w' = balance l a' w' + moved (credit_asset c, who) (a', w') (peek c);
  transfer_law a src dst v p l l' :
    transfer a src dst v p l = (Ok (), l') →
    (p = Expendable → balance l a src = v ∨ minimum_balance l a ≤ balance l a src - v) →
    v ≤ balance l a src ∧ frozen l' = frozen l ∧
    ∀ a' w', balance l' a' w' =
      balance l a' w' - moved (a, src) (a', w') v + moved (a, dst) (a', w') v;
  increase_frozen_law a who v l l' :
    increase_frozen a who v l = (Ok (), l') →
    balance l' = balance l ∧
    ∀ a' w', frozen l' a' w' = frozen l a' w' + moved (a, who) (a', w') v;
  decrease_frozen_law a who v l l' :
    decrease_frozen a who v l = (Ok (), l') →
    balance l' = balance l ∧
    ∀ a' w', frozen l' a' w' = frozen l a' w' - moved (a, who) (a', w') v
}.

(** The debit leaves no dust behind. *)
Definition no_dust `{FungiblesLaws AccountId AssetId Ledger} (l : Ledger) (a : AssetId)
    (who : AccountId) (v : Z) : Prop :=
  balance l a who = v ∨ minimum_balance l a ≤ balance l a who - v.

(** Lp tokens are assets of a registry of their own: minting and burning them
    changes their issuance and no balance of the other assets, and transfers
    of the other assets leave their issuance and all minimum balances.  (Lp
    tokens are created with the minimum balance 1, so they leave no dust.) *)
Class PoolFungiblesLaws (AccountId AssetId PoolAssetId Ledger : Type)
    `{FungiblesLaws AccountId AssetId Ledger, !PoolFungibles AccountId PoolAssetId Ledger} := {
  mint_law t who v l l' :
    mint_into t who v l = (Ok (), l') →
    balance l' = balance l ∧ frozen l' = frozen l ∧ total_issuance l' t = total_issuance l t + v;
  burn_law t who v l l' :
    burn_from t who v l = (Ok (), l') →
    balance l' = balance l ∧ frozen l' = frozen l ∧ total_issuance l' t = total_issuance l t - v ∧
    minimum_balance l' = minimum_balance l;
  transfer_other_law a src dst v p l l' :
    transfer a src dst v p l = (Ok (), l') →
    total_issuance l' = total_issuance l ∧ minimum_balance l' = minimum_balance l
}.

(** ** A ledger that satisfies the laws

    Accounts and assets are numbers; every asset has the minimum balance 1;
    no account freezes more than it has; lp tokens live in the same record. *)
Module Bank.
Record t := mk {
  balances : gmap (Z * Z) Z;   (* (asset, account) *)
  freezes : gmap (Z * Z) Z;
  lp : gmap (Z * Z) Z;
  issuance : gmap Z Z
}.

Definition bal (l : t) (a who : Z) : Z := default 0 (balances l !! (a, who)).
Definition frz (l : t) (a who : Z) : Z := default 0 (freezes l !! (a, who)).
Definition lp_bal (l : t) (a who : Z) : Z := default 0 (lp l !! (a, who)).
Definition iss (l : t) (a : Z) : Z := default 0 (issuance l !! a).

Definition set_bal (a who v : Z) (l : t) : t :=
  mk (<[(a, who) := v]> (balances l)) (freezes l) (lp l) (issuance l).
Definition set_frz (a who v : Z) (l : t) : t :=
  mk (balances l) (<[(a, who) := v]> (freezes l)) (lp l) (issuance l).
Definition set_lp (a who v total : Z) (l : t) : t :=
  mk (balances l) (freezes l) (<[(a, who) := v]> (lp l)) (<[a := total]> (issuance l)).

Definition reducible (l : t) (a who : Z) (p : Preservation) : Z :=
  if frz l a who =? 0 then
    match p with
    | Expendable => bal l a who
    | Preserve => Z.min (bal l a who) (saturating_sub (bal l a who) 1)
    end
  else Z.min (bal l a who) (saturating_sub (bal l a who) (Z.max (frz l a who) 1)).

Definition take (a who v : Z) (p : Preservation) : M t DispatchError () := λ l,
  if (0 <=? v) && (v <=? reducible l a who p) && (v <=? bal l a who)
  then (Ok (), set_bal a who (bal l a who - v) l) else (Err (DExternal 1), l).

Definition give (a who v : Z) (l : t) : t := set_bal a who (bal l a who + v) l.

#[global] Instance bank_fungibles : Fungibles Z Z t := {|
  reducible_balance := reducible;
  minimum_balance := λ _ _, 1;
  transfer := λ a src dst v p, _ ← take a src v p; modify (give a dst v);
  withdraw_asset := λ a who v p, _ ← take a who v p; mret (mkCredit a v);
  resolve := λ who c, modify (give (credit_asset c) who (peek c));
  should_touch := λ _ _ _, false;
  touch_asset := λ _ _ _, mret ();
  on_unbalanced := λ _ l, l;
  increase_frozen := λ a who v l,
    if frz l a who + v <=? bal l a who then (Ok (), set_frz a who (frz l a who + v) l)
    else (Err (DExternal 4), l);
  decrease_frozen := λ a who v l,
    if v <=? frz l a who then (Ok (), set_frz a who (frz l a who - v) l)
    else (Err (DExternal 2), l)
|}.

#[global] Instance bank_pool_fungibles : PoolFungibles Z Z t := {|
  total_issuance := iss;
  create_asset := λ _ _ _, mret ();
  mint_into := λ a who v, modify (λ l, set_lp a who (lp_bal l a who + v) (iss l a + v) l);
  burn_from := λ a who v l,
    if v <=? lp_bal l a who then (Ok (), set_lp a who (lp_bal l a who - v) (iss l a - v) l)
    else (Err (DExternal 3), l);
  pool_should_touch := λ _ _ _, false;
  pool_touch := λ _ _ _, mret ()
|}.

Lemma bal_set a who v l a' w' :
  bal (set_bal a who v l) a' w' = if decide ((a, who) = (a', w')) then v else bal l a' w'.
Proof. unfold bal, set_bal. simpl. rewrite lookup_insert. by case_decide. Qed.

Lemma frz_set a who v l a' w' :
  frz (set_frz a who v l) a' w' = if decide ((a, who) = (a', w')) then v else frz l a' w'.
Proof. unfold frz, set_frz. simpl. rewrite lookup_insert. by case_decide. Qed.

Lemma take_law a who v p l l' :
  take a who v p l = (Ok (), l') →
  v ≤ bal l a who ∧ frz l' = frz l ∧
  ∀ a' w', bal l' a' w' = bal l a' w' - moved (a, who) (a', w') v.
Proof.
  unfold take. destruct (_ && _) eqn:Hv; [|done]. intros [= <-].
  apply andb_true_iff in Hv as [_ Hv%Z.leb_le]. split_and!; [done|done|].
  intros a' w'. rewrite bal_set. unfold moved. case_decide; simplify_eq; lia.
Qed.

Lemma give_law a who v l a' w' : bal (give a who v l) a' w' = bal l a' w' + moved (a, who) (a', w') v.
Proof. unfold give. rewrite bal_set. unfold moved. case_decide; simplify_eq; lia. Qed.

#[global] Program Instance bank_laws : FungiblesLaws Z Z t := {| balance := bal; frozen := frz |}.
Next Obligation.
  intros l a who p Hb. unfold reducible_balance, bank_fungibles, reducible, saturating_sub in *.
  destruct (frz l a who =? 0), p; lia.
Qed.
Next Obligation. intros l a who Hf Hb. simpl. unfold reducible. by rewrite Hf. Qed.
Next Obligation.
  intros a who v p l c l' Hw _. simpl in Hw. inv_run. split; [done|].
  destruct x. by eapply take_law.
Qed.
Next Obligation.
  intros who c l l' [= <-]. split; [done|]. intros a' w'. apply give_law.
Qed.
Next Obligation.
  intros a src dst v p l l' Ht _. simpl in Ht. inv_run. destruct x.
  apply take_law in H as (Hv & Hf & Hb). split_and!; [done|done|].
  intros a' w'. by rewrite give_law, Hb.
Qed.
Next Obligation.
  intros a who v l l'. simpl. destruct (_ <=? _); [|done]. intros [= <-]. split; [done|].
  intros a' w'. rewrite frz_set. unfold moved. case_decide; simplify_eq; lia.
Qed.
Next Obligation.
  intros a who v l l'. simpl. destruct (v <=? _); [|done]. intros [= <-]. split; [done|].
  intros a' w'. rewrite frz_set. unfold moved. case_decide; simplify_eq; lia.
Qed.

#[global] Program Instance bank_pool_laws : PoolFungiblesLaws Z Z Z t.
Next Obligation.
  intros a who v l l' [= <-]. split_and!; [done|done|]. simpl. unfold iss, set_lp. simpl.
  by rewrite lookup_insert_eq.
Qed.
Next Obligation.
  intros a who v l l'. simpl. destruct (v <=? _); [|done]. intros [= <-].
  split_and!; [done|done| |done]. unfold iss, set_lp. simpl. by rewrite lookup_insert_eq.
Qed.
Next Obligation.
  intros a src dst v p l l' Ht. simpl in Ht. inv_run. destruct x.
  unfold take in H. by destruct (_ && _); simplify_eq.
Qed.
End Bank.

(** The calls made while matching return. *)
Class FungiblesReturn (AccountId AssetId Ledger : Type) `{!Fungibles AccountId AssetId Ledger} := {
  withdraw_returns a who v p : returns (withdraw_asset a who v p);
  resolve_returns who c : returns (resolve who c);
  transfer_returns a src dst v p : returns (transfer a src dst v p);
  decrease_frozen_returns a who v : returns (decrease_frozen a who v)
}.
#[export] Hint Resolve withdraw_returns resolve_returns transfer_returns decrease_frozen_returns : nofuel.

#[export] Instance bank_returns : FungiblesReturn Z Z Bank.t.
Proof.
  assert (∀ a who v p, returns (Bank.take a who v p)) as Htake.
  { intros a who v p l. unfold Bank.take. by destruct (_ && _). }
  split; intros; simpl; auto with nofuel.
  intros l. by destruct (v <=? _).
Qed.
