(* ===== verification/Config.v ===== *)
(** * Configuration of the pallet

    [trait Config] of [lib.rs]: the types and constants that the runtime
    supplies, with the registries, the locator and the order book as the
    interfaces of the previous files. *)
From S2P Require Import Prelude Index OrderId Tick OrderBook Errors Amm Locator Assets.

Class Config := {
  AccountId : Type;
  AssetKind : Type;
  PoolId : Type;
  PoolAssetId : Type;
  (** [OrderBook] with its associated types [Order] and [Error] *)
  Book : Type;
  Level : Type;
  BookError : Type;
  Ledger : Type;
  #[global] AccountId_eq :: EqDecision AccountId;
  #[global] AssetKind_eq :: EqDecision AssetKind;
  #[global] PoolId_eq :: EqDecision PoolId;
  #[global] PoolId_countable :: Countable PoolId;
  #[global] Unit :: OrderBookIndex;
  #[global] profile :: BuildProfile;
  #[global] amm :: AmmConfig;
  #[global] Assets :: Fungibles AccountId AssetKind Ledger;
  #[global] PoolAssets :: PoolFungibles AccountId PoolAssetId Ledger;
  #[global] Locator :: PoolLocator AccountId AssetKind PoolId;
  #[global] OrderBook_impl :: OrderBook AccountId Level BookError Book;
  PoolSetupFee : Z;
  PoolSetupFeeAsset : AssetKind;
  OrderExpiration : Z;
  (** a [Permill], with its multiplication *)
  LiquidityWithdrawalFee : Z;
  permill_mul : Z → Z → Z;
  MaxSwapPathLength : Z;
  (** [Incrementable for PoolAssetId] *)
  initial_value : option PoolAssetId;
  increment : PoolAssetId → option PoolAssetId
}.
