(* ===== verification/Pool.v ===== *)
(** * The pool record and its order books

    [struct Pool] of [types.rs] and its methods.  [pool_ok] is the invariant
    that every method keeps, proved against [OrderBookLaws]; the order ids
    handed out are increasing and tell the side of the book. *)
From S2P Require Import Prelude Index OrderId Tick OrderBook Errors Amm Locator Assets Config CritbitOps.
From Stdlib Require Import Bool.
Import PalletError.

Record Pool `{T : Config} := mkPool {
  lp_token : PoolAssetId;
  bids : Book;
  asks : Book;
  next_bid_id : OrderId;
  next_ask_id : OrderId;
  taker_fee_rate : Z;
  tick_size : Z;
  lot_size : Z;
  pool_decimals : Z;
  base_decimals : Z;
  quote_decimals : Z
}.

Record PoolQuery `{T : Config} := mkPoolQuery {
  q_bids : Book;
  q_asks : Book;
  base_reserve : Z;
  quote_reserve : Z;
  q_pool_price : Z
}.

Record PoolMetadata := mkPoolMetadata {
  m_taker_fee_rate : Z;
  m_lot_size : Z;
  m_tick_size : Z;
  m_pool_decimals : Z;
  m_base_decimals : Z;
  m_quote_decimals : Z
}.

Section Pool.
Context `{T : Config}.
Implicit Types self : Pool.

Definition set_bids (b : Book) self : Pool :=
  mkPool _ (lp_token self) b (asks self) (next_bid_id self) (next_ask_id self)
    (taker_fee_rate self) (tick_size self) (lot_size self)
    (pool_decimals self) (base_decimals self) (quote_decimals self).
Definition set_asks (b : Book) self : Pool :=
  mkPool _ (lp_token self) (bids self) b (next_bid_id self) (next_ask_id self)
    (taker_fee_rate self) (tick_size self) (lot_size self)
    (pool_decimals self) (base_decimals self) (quote_decimals self).
Definition set_next_bid (i : OrderId) self : Pool :=
  mkPool _ (lp_token self) (bids self) (asks self) i (next_ask_id self)
    (taker_fee_rate self) (tick_size self) (lot_size self)
    (pool_decimals self) (base_decimals self) (quote_decimals self).
Definition set_next_ask (i : OrderId) self : Pool :=
  mkPool _ (lp_token self) (bids self) (asks self) (next_bid_id self) i
    (taker_fee_rate self) (tick_size self) (lot_size self)
    (pool_decimals self) (base_decimals self) (quote_decimals self).

Definition Pool_new (lp : PoolAssetId) (taker_fee tick lot pool_dec base_dec quote_dec : Z) : Pool :=
  mkPool _ lp book_new book_new (order_id_new true) (order_id_new false)
    taker_fee tick lot pool_dec base_dec quote_dec.

Definition to_pool_query self (b_r q_r price : Z) : PoolQuery :=
  mkPoolQuery _ (bids self) (asks self) b_r q_r price.

Definition to_pool_metadata self : PoolMetadata :=
  mkPoolMetadata (taker_fee_rate self) (lot_size self) (tick_size self)
    (pool_decimals self) (base_decimals self) (quote_decimals self).

(** [u8] subtractions guarded by the comparison, so they are exact. *)
Definition decimal_adjustment self : option Z * option Z * option Z :=
  let p_adj := if pool_decimals self =? 0 then None else Some (pool_decimals self) in
  if quote_decimals self <? base_decimals self
  then (p_adj, None, Some (base_decimals self - quote_decimals self))
  else if base_decimals self <? quote_decimals self
  then (p_adj, Some (quote_decimals self - base_decimals self), None)
  else (p_adj, None, None).

Definition get_orderbook self (is_bid : bool) : Book := if is_bid then bids self else asks self.

Definition orderbook_size self (is_bid : bool) : nat :=
  if is_bid then book_size (bids self) else book_size (asks self).

(** [%] aborts on a zero tick or lot size; [&&] is lazy. *)
Definition is_valid_order_price self (price : Z) : outcome Error bool :=
  if 0 <? price then r ← u_rem price (tick_size self); mret (r =? 0) else mret false.

Definition is_valid_order_quantity self (q : Z) : outcome Error bool :=
  if lot_size self <=? q then r ← u_rem q (lot_size self); mret (r =? 0) else mret false.

Definition pool_lp_token self : PoolAssetId := lp_token self.
Definition bid_orders self : Book := bids self.
Definition ask_orders self : Book := asks self.

Definition orders_for self (o : AccountId) (is_bid : bool) : list (Order AccountId) :=
  if is_bid then get_orders (bids self) o else get_orders (asks self) o.

Definition next_bid_order_id : M Pool Error OrderId :=
  self ← get;
  let next := next_bid_id self in
  incr ← lift (checked_increase next);
  next' ← lift (ok_or incr PalletError.Overflow);
  _ ← put (set_next_bid next' self);
  mret next.

Definition next_ask_order_id : M Pool Error OrderId :=
  self ← get;
  let next := next_ask_id self in
  incr ← lift (checked_increase next);
  next' ← lift (ok_or incr PalletError.Overflow);
  _ ← put (set_next_ask next' self);
  mret next.

Definition next_bid_order self : option (Z * Z) := max_order (bids self).
Definition next_ask_order self : option (Z * Z) := min_order (asks self).

(** [current] is [frame_system::block_number()], a [u32]. *)
Definition pool_place_order (current : Z) (is_bid : bool) (o : AccountId) (price q : Z) :
    M Pool Error (Z * OrderId) :=
  expired_at ← lift (u_add 32 current OrderExpiration);
  order_id ← (if is_bid then
                order_id ← next_bid_order_id;
                _ ← zoom bids set_bids
                      (map_err_M (λ _, ErrorOnPlaceOrder) (place_order order_id o price q expired_at));
                mret order_id
              else
                order_id ← next_ask_order_id;
                _ ← zoom asks set_asks
                      (map_err_M (λ _, ErrorOnPlaceOrder) (place_order order_id o price q expired_at));
                mret order_id);
  mret (price, order_id).

(** A bid is filled from the asks and the other way round. *)
Definition pool_fill_order (is_bid : bool) (price q : Z) :
    M Pool Error (option (list (AccountId * Z))) :=
  if is_bid then zoom asks set_asks (map_err_M (λ _, ErrorOnFillOrder) (fill_order price q))
  else zoom bids set_bids (map_err_M (λ _, ErrorOnFillOrder) (fill_order price q)).

Definition pool_cancel_order (maybe_owner : AccountId) (price : Z) (order_id : OrderId) (q : Z) :
    M Pool Error OrderId :=
  _ ← (if is_bid order_id then
         zoom bids set_bids
           (map_err_M (λ _, ErrorOnCancelOrder) (cancel_order maybe_owner price order_id q))
       else
         zoom asks set_asks
           (map_err_M (λ _, ErrorOnCancelOrder) (cancel_order maybe_owner price order_id q)));
  mret order_id.
End Pool.

Section PoolFacts.
Context `{T : Config, HO : !OrderInterface AccountId Level, HL : !OrderInterfaceLaws AccountId Level}.
Context `{HB : !OrderBookLaws AccountId Level BookError Book}.
Implicit Types self : Pool.

Definition pool_ok self : Prop :=
  book_ok (bids self) ∧ book_ok (asks self) ∧
  (order_id_ok (next_bid_id self) ∧ is_bid (next_bid_id self) = true) ∧
  (order_id_ok (next_ask_id self) ∧ order_id_value (next_ask_id self) ≠ u64_MAX ∧
   is_bid (next_ask_id self) = false) ∧
  0 < tick_size self ∧ 0 < lot_size self.

Lemma Pool_new_ok lp fee tick lot pd bd qd :
  0 < tick → 0 < lot → pool_ok (Pool_new lp fee tick lot pd bd qd).
Proof.
  intros Ht Hl. destruct book_new_law as [Hb _].
  split_and!; try done; simpl; unfold order_id_ok, in_range; simpl; lia.
Qed.

Lemma is_bid_max x : order_id_ok x → is_bid x = true → order_id_value x ≠ u64_MAX.
Proof.
  intros Hx Hb He. rewrite is_bid_lt in Hb by done. apply Z.ltb_lt in Hb.
  rewrite He in Hb. by vm_compute in Hb.
Qed.

(** The validity tests cannot abort, and mean divisibility. *)
Lemma is_valid_order_price_spec self price :
  0 < tick_size self →
  ∃ b, is_valid_order_price self price = Ok b ∧
       (b = true ↔ 0 < price ∧ (tick_size self | price)).
Proof.
  intros Ht. unfold is_valid_order_price, u_rem. destruct (Z.ltb_spec 0 price) as [Hp|Hp].
  - destruct (Z.eqb_spec (tick_size self) 0); [lia|]. eexists. split; [done|].
    rewrite Z.eqb_eq, Z.mod_divide by lia. tauto.
  - exists false. split; [done|]. split; [done|lia].
Qed.

Lemma is_valid_order_quantity_spec self q :
  0 < lot_size self →
  ∃ b, is_valid_order_quantity self q = Ok b ∧
       (b = true ↔ lot_size self ≤ q ∧ (lot_size self | q)).
Proof.
  intros Ht. unfold is_valid_order_quantity, u_rem.
  destruct (Z.leb_spec (lot_size self) q) as [Hp|Hp].
  - destruct (Z.eqb_spec (lot_size self) 0); [lia|]. eexists. split; [done|].
    rewrite Z.eqb_eq, Z.mod_divide by lia. tauto.
  - exists false. split; [done|]. split; [done|lia].
Qed.

(** The next order to be filled is the best price of the side. *)
Lemma next_bid_order_best self :
  pool_ok self →
  match next_bid_order self with
  | None => levels (bids self) = ∅
  | Some (p, _) => greatest_key (levels (bids self)) p
  end.
Proof. intros (Hb & _). by apply max_order_law. Qed.

Lemma next_ask_order_best self :
  pool_ok self →
  match next_ask_order self with
  | None => levels (asks self) = ∅
  | Some (p, _) => least_key (levels (asks self)) p
  end.
Proof. intros (_ & Ha & _). by apply min_order_law. Qed.

(** The side that an order is filled from. *)
Definition counter_book (is_bid : bool) self : Book := if is_bid then asks self else bids self.
Definition set_counter_book (is_bid : bool) (b : Book) self : Pool :=
  if is_bid then set_asks b self else set_bids b self.

Lemma set_counter_book_ok side b self :
  book_ok b → pool_ok self → pool_ok (set_counter_book side b self).
Proof.
  intros Hb (Hbi & Ha & Hrest).
  destruct side; [exact (conj Hbi (conj Hb Hrest))|exact (conj Hb (conj Ha Hrest))].
Qed.

(** Filling serves one level of the opposite side and cannot fail. *)
Lemma pool_fill_order_spec side price q self :
  pool_ok self → in_range BITS q →
  ∃ r b', pool_fill_order side price q self = (Ok r, set_counter_book side b' self) ∧
          book_ok b' ∧
          levels_fill (E:=BookError) price q (levels (counter_book side self)) = (Ok r, levels b').
Proof.
  intros Hp Hq. assert (book_ok (counter_book side self)) as Hb
    by (destruct Hp as (? & ? & _); by destruct side).
  destruct (fill_order_law price q _ Hb Hq) as (r & b' & Hrun & Hok & Hl).
  exists r, b'. split_and!; [|done|done].
  unfold pool_fill_order. destruct side; simpl in *; unfold zoom, map_err_M; by rewrite Hrun.
Qed.

Lemma next_bid_order_id_spec self :
  pool_ok self →
  next_bid_order_id self =
    (if order_id_value (next_bid_id self) =? last_id true then (Err PalletError.Overflow, self)
     else (Ok (next_bid_id self), set_next_bid (mkOrderId (order_id_value (next_bid_id self) + 1)) self)).
Proof.
  intros (_ & _ & [Hok Hb] & _). unfold next_bid_order_id. run_step.
  rewrite checked_increase_spec by (done || by apply is_bid_max). rewrite Hb. run_step.
  by destruct (_ =? last_id true).
Qed.

Lemma next_ask_order_id_spec self :
  pool_ok self →
  next_ask_order_id self =
    (if order_id_value (next_ask_id self) =? last_id false then (Err PalletError.Overflow, self)
     else (Ok (next_ask_id self), set_next_ask (mkOrderId (order_id_value (next_ask_id self) + 1)) self)).
Proof.
  intros (_ & _ & _ & (Hok & Hm & Hb) & _). unfold next_ask_order_id. run_step.
  rewrite checked_increase_spec by done. rewrite Hb. run_step.
  by destruct (_ =? last_id false).
Qed.

Lemma checked_increase_next x :
  order_id_ok x → order_id_value x ≠ u64_MAX → order_id_value x ≠ last_id (is_bid x) →
  let y := mkOrderId (order_id_value x + 1) in
  order_id_ok y ∧ order_id_value y ≠ u64_MAX ∧ is_bid y = is_bid x.
Proof.
  intros Hx Hm Hl y. destruct (checked_increase_side (E:=Error) x y) as (? & ? & ? & _); try done.
  rewrite checked_increase_spec by done. by destruct (Z.eqb_spec (order_id_value x) (last_id (is_bid x))).
Qed.

Lemma set_next_bid_ok self :
  pool_ok self → order_id_value (next_bid_id self) ≠ last_id true →
  pool_ok (set_next_bid (mkOrderId (order_id_value (next_bid_id self) + 1)) self).
Proof.
  intros (? & ? & [Hok Hb] & (? & ? & ?) & ? & ?) Hne.
  destruct (checked_increase_next (next_bid_id self)) as (? & _ & Hb'); [done|by apply is_bid_max|by rewrite Hb|].
  rewrite Hb in Hb'. by split_and!.
Qed.

Lemma set_next_ask_ok self :
  pool_ok self → order_id_value (next_ask_id self) ≠ last_id false →
  pool_ok (set_next_ask (mkOrderId (order_id_value (next_ask_id self) + 1)) self).
Proof.
  intros (? & ? & (? & ?) & (Hok & Hm & Hb) & ? & ?) Hne.
  destruct (checked_increase_next (next_ask_id self)) as (? & ? & Hb'); [done|done|by rewrite Hb|].
  rewrite Hb in Hb'. by split_and!.
Qed.

(** Placing an order, when there is an id and an index left for it. *)
Lemma pool_place_order_spec current side o price q self :
  pool_ok self → in_range BITS price → in_range BITS q → in_range 32 (current + OrderExpiration) →
  let book := get_orderbook self side in
  let id := if side then next_bid_id self else next_ask_id self in
  order_id_value id ≠ last_id side →
  is_Some (levels book !! price) ∨ book_room book →
  ∃ self', pool_place_order current side o price q self = (Ok (price, id), self') ∧
    pool_ok self' ∧ is_bid id = side ∧
    levels (get_orderbook self' side) =
      levels_place id o price q (current + OrderExpiration) (levels book) ∧
    get_orderbook self' (negb side) = get_orderbook self (negb side).
Proof.
  intros Hp Hpr Hq He book id Hid Hroom. unfold pool_place_order. run_step.
  rewrite u_add_ok by done. run_step.
  pose proof Hp as (Hb & Ha & [Hbi Hbb] & (Hai & Ham & Hab) & _).
  destruct side; cbn [get_orderbook] in book.
  - pose proof (set_next_bid_ok self Hp Hid) as Hp'.
    rewrite M_bind_run, next_bid_order_id_spec by done.
    destruct (Z.eqb_spec (order_id_value (next_bid_id self)) (last_id true)) as [|_]; [done|].
    destruct (place_order_law id o price q (current + OrderExpiration) _ Hb Hpr Hq Hroom)
      as (b' & Hrun & Hok & Hl).
    rewrite M_bind_run. unfold zoom, map_err_M. cbn [bids set_next_bid]. fold id. rewrite Hrun.
    eexists. split; [done|]. simpl. split_and!; [|done|done|done].
    by apply (set_counter_book_ok false b').
  - pose proof (set_next_ask_ok self Hp Hid) as Hp'.
    rewrite M_bind_run, next_ask_order_id_spec by done.
    destruct (Z.eqb_spec (order_id_value (next_ask_id self)) (last_id false)) as [|_]; [done|].
    destruct (place_order_law id o price q (current + OrderExpiration) _ Ha Hpr Hq Hroom)
      as (b' & Hrun & Hok & Hl).
    rewrite M_bind_run. unfold zoom, map_err_M. cbn [asks set_next_ask]. fold id. rewrite Hrun.
    eexists. split; [done|]. simpl. split_and!; [|done|done|done].
    by apply (set_counter_book_ok true b').
Qed.

(** Cancelling keeps the invariant whatever it returns. *)
Lemma pool_cancel_order_ok who price id q self :
  pool_ok self → in_range BITS q →
  ∃ r self', pool_cancel_order who price id q self = (r, self') ∧ pool_ok self' ∧
             (r = Ok id ∨ (r = Err ErrorOnCancelOrder)).
Proof.
  intros Hp Hq. unfold pool_cancel_order.
  destruct (is_bid id); rewrite M_bind_run; unfold zoom, map_err_M.
  - pose proof Hp as (Hb & _).
    destruct (cancel_order_law who price id q _ Hb Hq)
      as [(v & v' & b' & _ & _ & Hrun & Hok & _)|(e & b' & Hrun & Hok & _)]; rewrite Hrun; simpl;
      eexists _, _; (split; [done|]); (split; [by apply (set_counter_book_ok false b')|auto]).
  - pose proof Hp as (_ & Ha & _).
    destruct (cancel_order_law who price id q _ Ha Hq)
      as [(v & v' & b' & _ & _ & Hrun & Hok & _)|(e & b' & Hrun & Hok & _)]; rewrite Hrun; simpl;
      eexists _, _; (split; [done|]); (split; [by apply (set_counter_book_ok true b')|auto]).
Qed.
End PoolFacts.
