(* ===== verification/Pallet.v ===== *)
(** * Pallet storage, events and swaps

    The storage items, events and internal functions of [lib.rs] that move
    assets between accounts and pools, and the [Swap] and [SwapCredit]
    implementations of [swap.rs].  A function that reads and writes storage
    is a state transformer on [World]; storage is kept on an error, and
    [with_storage_layer] rolls it back where the source does. *)
From S2P Require Import Prelude Index OrderId Tick OrderBook Errors Amm Locator Assets Config Pool.
From Stdlib Require Import Bool.
Import PalletError.

Inductive Event `{T : Config} :=
| PoolCreated (creator : AccountId) (pool : PoolId) (pool_account : AccountId)
    (lp : PoolAssetId) (fee tick lot : Z)
| LiquidityAdded (who mint_to : AccountId) (pool : PoolId)
    (base_asset_provided quote_asset_provided : Z) (lp : PoolAssetId) (lp_token_minted : Z)
| LiquidityRemoved (who withdraw_to : AccountId) (pool : PoolId)
    (base_asset_amount quote_asset_amount : Z) (lp : PoolAssetId)
    (lp_token_burned withdrawal_fee : Z)
| SwapExecuted (who send_to : AccountId) (amount_in amount_out : Z) (path : list (AssetKind * Z))
| SwapCreditExecuted (amount_in amount_out : Z) (path : list (AssetKind * Z))
| Touched (pool : PoolId) (who : AccountId)
| OrderMatched (orderer : AccountId) (filled : Z) (is_bid : bool)
| LimitOrder (pool : PoolId) (maker : AccountId) (order_price order_quantity : Z) (is_bid : bool)
| MarketOrder (taker : AccountId)
| LimitOrderPlaced (maker : AccountId) (order_price : Z) (pool : PoolId) (order_id : OrderId)
    (order_quantity : Z) (is_bid : bool)
| OrderCancelled (pool : PoolId) (owner : AccountId) (order_id : OrderId).

(** Storage: the ledgers of the asset pallets, the items of this pallet, the
    block number and the deposited events (latest first). *)
Record World `{T : Config} := mkWorld {
  ledger : Ledger;
  Pools : gmap PoolId Pool;
  NextPoolAssetId : option PoolAssetId;
  block_number : Z;
  events : list Event
}.

Section Pallet.
Context `{T : Config}.
Implicit Types w : World.

Abbreviation call A := (M World DispatchError A).

Definition set_ledger (l : Ledger) w : World :=
  mkWorld _ l (Pools w) (NextPoolAssetId w) (block_number w) (events w).
Definition set_pools (m : gmap PoolId Pool) w : World :=
  mkWorld _ (ledger w) m (NextPoolAssetId w) (block_number w) (events w).
Definition set_next_pool_asset_id (n : option PoolAssetId) w : World :=
  mkWorld _ (ledger w) (Pools w) n (block_number w) (events w).

Definition deposit_event (e : Event) : call () :=
  modify (λ w, mkWorld _ (ledger w) (Pools w) (NextPoolAssetId w) (block_number w) (e :: events w)).

(** A call into an asset registry; an error of the pallet as a
    [DispatchError]; [ensure!]; the error of a locator. *)
Definition on_ledger {E A} (m : M Ledger E A) : M World E A := zoom ledger set_ledger m.
Definition pallet_err {A} (m : outcome Error A) : outcome DispatchError A := map_err DModule m.
Definition require (b : bool) (e : Error) : call () := lift (pallet_err (ensure b e)).
Definition asset_pair {A} (m : option A) : outcome Error A := ok_or m InvalidAssetPair.

(** [with_storage_layer]: an error discards every change. *)
Definition with_storage_layer {E A} (m : M World E A) : M World E A := λ w,
  match m w with
  | (Ok a, w') => (Ok a, w')
  | (r, _) => (r, w)
  end.

Definition withdraw (asset : AssetKind) (who : AccountId) (value : Z) (keep_alive : bool) :
    call (Credit AssetKind) :=
  let preservation := if keep_alive then Preserve else Expendable in
  _ ← (if decide (preservation = Preserve) then
         w ← get;
         let free := reducible_balance (ledger w) asset who preservation in
         lift (ensure (value <=? free) DNotExpendable)
       else mret ());
  on_ledger (withdraw_asset asset who value preservation).

Definition get_balance w (owner : AccountId) (asset : AssetKind) : Z :=
  reducible_balance (ledger w) asset owner Expendable.

Definition get_reserves w (asset1 asset2 : AssetKind) : outcome Error (Z * Z) :=
  pool_account ← asset_pair (pool_address asset1 asset2);
  let balance1 := get_balance w pool_account asset1 in
  let balance2 := get_balance w pool_account asset2 in
  if (balance1 =? 0) || (balance2 =? 0) then Err ZeroLiquidity
  else Ok (balance1, balance2).

(** The loop of [balance_path_from_amount_out] over the reversed path. *)
Fixpoint amounts_in w (rev_path : list AssetKind) (amount_in : Z) :
    outcome Error (list (AssetKind * Z)) :=
  match rev_path with
  | [] => Ok []
  | asset2 :: rest =>
      match rest with
      | [] => Ok [(asset2, amount_in)]
      | asset1 :: _ =>
          '(b_r, q_r) ← get_reserves w asset2 asset1;
          amount_in' ← get_amount_in amount_in q_r b_r;
          tl ← amounts_in w rest amount_in';
          Ok ((asset2, amount_in) :: tl)
      end
  end.

Definition balance_path_from_amount_out w (amount_out : Z) (path : list AssetKind) :
    outcome Error (list (AssetKind * Z)) :=
  balance_path ← amounts_in w (rev path) amount_out;
  Ok (rev balance_path).

Fixpoint balance_path_from_amount_in w (amount_in : Z) (path : list AssetKind) :
    outcome Error (list (AssetKind * Z)) :=
  match path with
  | [] => Ok []
  | asset1 :: rest =>
      match rest with
      | [] => Ok [(asset1, amount_in)]
      | asset2 :: _ =>
          '(reserve_in, reserve_out) ← get_reserves w asset1 asset2;
          amount_out ← get_amount_out amount_in reserve_in reserve_out;
          tl ← balance_path_from_amount_in w amount_out rest;
          Ok ((asset1, amount_in) :: tl)
      end
  end.

(** [windows(2)] of the path, with the pools seen so far. *)
Fixpoint unique_pools (pools : list PoolId) (path : list AssetKind) : outcome Error () :=
  match path with
  | asset1 :: rest =>
      match rest with
      | asset2 :: _ =>
          id ← asset_pair (pool_id asset1 asset2);
          if bool_decide (id ∈ pools) then Err NonUniquePath else unique_pools (id :: pools) rest
      | [] => Ok ()
      end
  | [] => Ok ()
  end.

Definition validate_swap_path (path : list AssetKind) : outcome Error () :=
  _ ← ensure (2 <=? Z.of_nat (length path)) InvalidPath;
  _ ← ensure (Z.of_nat (length path) mod 2 ^ 32 <=? MaxSwapPathLength) InvalidPath;
  unique_pools [] path.

(** The pool of a hop: with [is_bid] the second asset is the base. *)
Definition hop_address (is_bid : bool) (asset1 asset2 : AssetKind) : outcome Error AccountId :=
  let '(base_asset, quote_asset) := if is_bid then (asset2, asset1) else (asset1, asset2) in
  asset_pair (pool_address base_asset quote_asset).

(** [resolve_path]: returns from the first pair of the path. *)
Fixpoint resolve_path (is_bid : bool) (path : list (AssetKind * Z)) : call (Credit AssetKind) :=
  match path with
  | (asset1, _) :: rest =>
      match rest with
      | (asset2, amount_out) :: _ =>
          pool_from ← lift (pallet_err (hop_address is_bid asset1 asset2));
          withdraw asset2 pool_from amount_out true
      | [] => resolve_path is_bid rest
      end
  | [] => throw (DModule InvalidPath)
  end.

Definition credit_swap (is_bid : bool) (credit_in : Credit AssetKind)
    (path : list (AssetKind * Z)) : M World (Credit AssetKind * DispatchError) (Credit AssetKind) :=
  credit_out ← map_err_M (pair credit_in) (resolve_path is_bid path);
  match path with
  | (asset1, _) :: (asset2, _) :: _ =>
      pool_to ← lift (map_err (λ e, (credit_in, DModule e)) (hop_address is_bid asset1 asset2));
      _ ← map_err_M (λ c, (c, DModule BelowMinimum)) (on_ledger (resolve pool_to credit_in));
      mret credit_out
  | _ => throw (credit_in, DModule InvalidPath)
  end.

Definition swap (is_bid : bool) (sender : AccountId) (path : list (AssetKind * Z))
    (send_to : AccountId) (keep_alive : bool) : call () :=
  '(asset_in, amount_in) ← lift (pallet_err (ok_or (head path) InvalidPath));
  credit_in ← withdraw asset_in sender amount_in keep_alive;
  credit_out ← map_err_M snd (credit_swap is_bid credit_in path);
  map_err_M (λ _, DModule BelowMinimum) (on_ledger (resolve send_to credit_out)).

Definition do_swap_exact_tokens_for_tokens (sender : AccountId) (path : list AssetKind)
    (amount_in : Z) (amount_out_min : option Z) (send_to : AccountId) (keep_alive : bool) : call Z :=
  _ ← require (0 <? amount_in) ZeroAmount;
  _ ← (if amount_out_min is Some m then require (0 <? m) ZeroAmount else mret ());
  _ ← lift (pallet_err (validate_swap_path path));
  w ← get;
  bpath ← lift (pallet_err (balance_path_from_amount_in w amount_in path));
  '(_, amount_out) ← lift (pallet_err (ok_or (last bpath) InvalidPath));
  _ ← (if amount_out_min is Some m
       then require (m <=? amount_out) ProvidedMinimumNotSufficientForSwap else mret ());
  _ ← swap false sender bpath send_to keep_alive;
  _ ← deposit_event (SwapExecuted sender send_to amount_in amount_out bpath);
  mret amount_out.

Definition do_swap_tokens_for_exact_tokens (sender : AccountId) (path : list AssetKind)
    (amount_out : Z) (amount_in_max : option Z) (send_to : AccountId) (keep_alive : bool) : call Z :=
  _ ← require (0 <? amount_out) ZeroAmount;
  _ ← (if amount_in_max is Some m then require (0 <? m) ZeroAmount else mret ());
  _ ← lift (pallet_err (validate_swap_path path));
  w ← get;
  bpath ← lift (pallet_err (balance_path_from_amount_out w amount_out path));
  '(_, amount_in) ← lift (pallet_err (ok_or (head bpath) InvalidPath));
  _ ← (if amount_in_max is Some m
       then require (amount_in <=? m) ProvidedMaximumNotSufficientForSwap else mret ());
  _ ← swap true sender bpath send_to keep_alive;
  _ ← deposit_event (SwapExecuted sender send_to amount_in amount_out bpath);
  mret amount_in.

Abbreviation credit_call A := (M World (Credit AssetKind * DispatchError) A).

Definition do_swap_exact_credit_tokens_for_tokens (path : list AssetKind)
    (credit_in : Credit AssetKind) (amount_out_min : option Z) : credit_call (Credit AssetKind) :=
  let amount_in := peek credit_in in
  let inspect_path w : outcome Error (list (AssetKind * Z) * Z) :=
    _ ← ensure (bool_decide (head path = Some (credit_asset credit_in))) InvalidPath;
    _ ← ensure (negb (amount_in =? 0)) ZeroAmount;
    _ ← ensure (if amount_out_min is Some a then negb (a =? 0) else true) ZeroAmount;
    _ ← validate_swap_path path;
    bpath ← balance_path_from_amount_in w amount_in path;
    '(_, amount_out) ← ok_or (last bpath) InvalidPath;
    _ ← ensure (if amount_out_min is Some a then a <=? amount_out else true)
          ProvidedMinimumNotSufficientForSwap;
    Ok (bpath, amount_out) in
  '(bpath, amount_out) ← gets (λ w, map_err (λ e, (credit_in, DModule e)) (inspect_path w));
  credit_out ← credit_swap true credit_in bpath;
  _ ← modify (λ w, (deposit_event (SwapCreditExecuted amount_in amount_out bpath) w).2);
  mret credit_out.

Definition do_swap_credit_tokens_for_exact_tokens (path : list AssetKind)
    (credit_in : Credit AssetKind) (amount_out : Z) :
    credit_call (Credit AssetKind * Credit AssetKind) :=
  let amount_in_max := peek credit_in in
  let inspect_path w : outcome Error (list (AssetKind * Z) * Z) :=
    _ ← ensure (bool_decide (head path = Some (credit_asset credit_in))) InvalidPath;
    _ ← ensure (0 <? amount_in_max) ZeroAmount;
    _ ← ensure (0 <? amount_out) ZeroAmount;
    _ ← validate_swap_path path;
    bpath ← balance_path_from_amount_out w amount_out path;
    '(_, amount_in) ← ok_or (head bpath) InvalidPath;
    _ ← ensure (amount_in <=? amount_in_max) ProvidedMaximumNotSufficientForSwap;
    Ok (bpath, amount_in) in
  '(bpath, amount_in) ← gets (λ w, map_err (λ e, (credit_in, DModule e)) (inspect_path w));
  let '(credit_in, credit_change) := split credit_in amount_in in
  credit_out ← credit_swap false credit_in bpath;
  _ ← modify (λ w, (deposit_event (SwapCreditExecuted amount_in amount_out bpath) w).2);
  mret (credit_out, credit_change).

(** [Result::ok], keeping an abort. *)
Definition result_ok {E E' A} (m : outcome E A) : outcome E' (option A) :=
  match m with
  | Ok a => Ok (Some a)
  | Err _ => Ok None
  | Panic => Panic
  | OutOfFuel => OutOfFuel
  end.

Definition quote_price_exact_tokens_for_tokens w (asset1 asset2 : AssetKind) (amount : Z)
    (include_fee : bool) : outcome Error (option Z) :=
  match pool_address asset1 asset2 with
  | Some pool_account =>
      let balance1 := get_balance w pool_account asset1 in
      let balance2 := get_balance w pool_account asset2 in
      if negb (balance1 =? 0) then
        if include_fee then result_ok (get_amount_out amount balance1 balance2)
        else result_ok (quote amount balance1 balance2)
      else Ok None
  | None => Ok None
  end.

Definition quote_price_tokens_for_exact_tokens w (asset1 asset2 : AssetKind) (amount : Z)
    (include_fee : bool) : outcome Error (option Z) :=
  match pool_address asset1 asset2 with
  | Some pool_account =>
      let balance1 := get_balance w pool_account asset1 in
      let balance2 := get_balance w pool_account asset2 in
      if negb (balance1 =? 0) then
        if include_fee then result_ok (get_amount_in amount balance1 balance2)
        else result_ok (quote amount balance2 balance1)
      else Ok None
  | None => Ok None
  end.

(** [Swap for Pallet] and [SwapCredit for Pallet] of [swap.rs]. *)
Definition max_path_len : Z := MaxSwapPathLength.

Definition swap_exact_tokens_for_tokens (sender : AccountId) (path : list AssetKind)
    (amount_in : Z) (amount_out_min : option Z) (send_to : AccountId) (keep_alive : bool) : call Z :=
  with_storage_layer
    (do_swap_exact_tokens_for_tokens sender path amount_in amount_out_min send_to keep_alive).

Definition swap_tokens_for_exact_tokens (sender : AccountId) (path : list AssetKind)
    (amount_out : Z) (amount_in_max : option Z) (send_to : AccountId) (keep_alive : bool) : call Z :=
  with_storage_layer
    (do_swap_tokens_for_exact_tokens sender path amount_out amount_in_max send_to keep_alive).

Definition swap_exact_credit_for_tokens (path : list AssetKind) (credit_in : Credit AssetKind)
    (amount_out_min : option Z) : credit_call (Credit AssetKind) :=
  with_storage_layer (do_swap_exact_credit_tokens_for_tokens path credit_in amount_out_min).

Definition swap_credit_for_exact_tokens (path : list AssetKind) (credit_in : Credit AssetKind)
    (amount_out : Z) : credit_call (Credit AssetKind * Credit AssetKind) :=
  with_storage_layer (do_swap_credit_tokens_for_exact_tokens path credit_in amount_out).
End Pallet.
