(* ===== verification/PalletFacts.v ===== *)
(** * What a swap does to balances

    Facts on [Pallet], proved against [FungiblesLaws]: a successful swap
    takes exactly the quoted input from the sender, pays exactly the quoted
    output, moves both through the account of one pool, and does not decrease
    the product of that pool's reserves. *)
From S2P Require Import Prelude Index OrderId Tick OrderBook Errors Amm Locator Assets Config Pool Pallet.
From Stdlib Require Import Bool.
Import PalletError.

(** ** Inversion of successful runs *)
Section Inversion.
Context `{T : Config}.
Implicit Types w : World.

Lemma map_err_M_Ok {S E E' A} (f : E → E') (m : M S E A) s a s' :
  map_err_M f m s = (Ok a, s') → m s = (Ok a, s').
Proof. unfold map_err_M. destruct (m s) as [[] ]; simpl; naive_solver. Qed.

Lemma on_ledger_Ok {E A} (m : M Ledger E A) w a w' :
  on_ledger m w = (Ok a, w') → ∃ l, m (ledger w) = (Ok a, l) ∧ w' = set_ledger l w.
Proof. unfold on_ledger, zoom. destruct (m (ledger w)) as [r l]. intros [= -> <-]. eauto. Qed.

Lemma require_Ok b e w u w' : require b e w = (Ok u, w') → b = true ∧ w' = w.
Proof. unfold require, lift. destruct b; simpl; naive_solver. Qed.

Lemma require_if_Ok (o : option Z) (c : Z → bool) e w u w' :
  (if o is Some m then require (c m) e else mret ()) w = (Ok u, w') →
  (∀ m, o = Some m → c m = true) ∧ w' = w.
Proof.
  destruct o; simpl; [intros [? ->]%require_Ok; naive_solver|]. intros [= _ <-]. done.
Qed.

Lemma pallet_err_Ok {A} (m : outcome Error A) a : pallet_err m = Ok a → m = Ok a.
Proof. apply map_err_Ok_inv. Qed.

Lemma asset_pair_Ok {A} (m : option A) a : asset_pair m = Ok a → m = Some a.
Proof. apply ok_or_Ok_inv. Qed.

Lemma with_storage_layer_Ok {E A} (m : M World E A) w a w' :
  with_storage_layer m w = (Ok a, w') → m w = (Ok a, w').
Proof. unfold with_storage_layer. destruct (m w) as [[] ]; naive_solver. Qed.
End Inversion.

(** Strips a successful call down to the runs of its parts. *)
Ltac inv_call :=
  repeat (inv_run; match goal with
  | H : map_err_M _ _ _ = (Ok _, _) |- _ => apply map_err_M_Ok in H
  | H : on_ledger _ _ = (Ok _, _) |- _ => apply on_ledger_Ok in H as (? & H & ?)
  | H : require _ _ _ = (Ok _, _) |- _ => apply require_Ok in H as [H ?]
  | H : match _ with Some _ => _ | None => _ end _ = (Ok _, _) |- _ =>
      apply require_if_Ok in H as [H ?]
  | H : pallet_err _ = Ok _ |- _ => apply pallet_err_Ok in H
  | H : asset_pair _ = Ok _ |- _ => apply asset_pair_Ok in H
  | H : (let '(_, _) := ?x in _) _ = (Ok _, _) |- _ => destruct x eqn:?
  | H : deposit_event _ _ = (_, _) |- _ => unfold deposit_event in H
  end); inv_run.

Section SwapFacts.
Context `{T : Config, HF : !FungiblesLaws AccountId AssetKind Ledger}.
Implicit Types w : World.

Lemma withdraw_Ok asset who v keep w c w' :
  withdraw asset who v keep w = (Ok c, w') →
  keep = true ∨ no_dust (ledger w) asset who v →
  c = mkCredit asset v ∧ v ≤ balance (ledger w) asset who ∧
  (∃ l, w' = set_ledger l w) ∧ frozen (ledger w') = frozen (ledger w) ∧
  ∀ a' x, balance (ledger w') a' x = balance (ledger w) a' x - moved (asset, who) (a', x) v.
Proof.
  unfold withdraw. intros Hw Hd. destruct keep; simpl in Hw; inv_call; subst;
    (apply withdraw_law in Hw as (-> & ? & ? & ?); [split_and!; eauto|intros Hp]); [done|].
  by destruct Hd.
Qed.

(** One hop: from the sender to the pool, from the pool to the receiver. *)
Lemma swap_one_hop side sender a x b y send_to keep w u w' :
  swap side sender [(a, x); (b, y)] send_to keep w = (Ok u, w') →
  keep = true ∨ no_dust (ledger w) a sender x →
  ∃ pa l, hop_address side a b = Ok pa ∧ w' = set_ledger l w ∧
    frozen l = frozen (ledger w) ∧
    ∀ a' z, balance l a' z =
      balance (ledger w) a' z - moved (a, sender) (a', z) x - moved (b, pa) (a', z) y
      + moved (a, pa) (a', z) x + moved (b, send_to) (a', z) y.
Proof.
  unfold swap. simpl head. intros Hs Hd. inv_call. unfold credit_swap in *. inv_call.
  cbn [resolve_path] in *. inv_call.
  repeat match goal with
  | H : withdraw _ _ _ _ _ = (Ok _, _) |- _ =>
      apply withdraw_Ok in H as (-> & ? & (? & ->) & ? & ?); [|by (left + exact Hd)]
  | H : resolve _ _ _ = (Ok ?u, _) |- _ => destruct u; apply resolve_law in H as (? & ?)
  | H : hop_address _ _ _ = Ok _, H' : hop_address _ _ _ = Ok _ |- _ => rewrite H in H'; simplify_eq
  end.
  eexists _, _. split_and!; [done|done| |]; simpl in *; [congruence|].
  intros a' z. repeat match goal with H : ∀ _ _, balance _ _ _ = _ |- _ => rewrite H; clear H end. lia.
Qed.

Lemma get_reserves_Ok w a b ra rb :
  get_reserves w a b = Ok (ra, rb) →
  ∃ pa, pool_address a b = Some pa ∧ ra = get_balance w pa a ∧ rb = get_balance w pa b ∧
        ra ≠ 0 ∧ rb ≠ 0.
Proof.
  unfold get_reserves. intros Hr. inv_call.
  destruct (_ || _) eqn:Hz in Hr; [done|]. simplify_eq.
  apply orb_false_iff in Hz as [?%Z.eqb_neq ?%Z.eqb_neq]. by exists x.
Qed.

(** How one hop changes the balances of everybody. *)
Definition hop_effect (a b : AssetKind) (pa sender send_to : AccountId) (x y : Z) (l l' : Ledger) : Prop :=
  ∀ a' z, balance l' a' z =
    balance l a' z - moved (a, sender) (a', z) x - moved (b, pa) (a', z) y
    + moved (a, pa) (a', z) x + moved (b, send_to) (a', z) y.

Lemma swap_exact_in_Ok sender a b x min send_to keep w out w' :
  do_swap_exact_tokens_for_tokens sender [a; b] x min send_to keep w = (Ok out, w') →
  keep = true ∨ no_dust (ledger w) a sender x →
  ∃ pa l, pool_address a b = Some pa ∧ 0 < x ∧
    get_balance w pa a ≠ 0 ∧ get_balance w pa b ≠ 0 ∧
    get_amount_out x (get_balance w pa a) (get_balance w pa b) = Ok out ∧
    (∀ m, min = Some m → m ≤ out) ∧
    ledger w' = l ∧ Pools w' = Pools w ∧ frozen l = frozen (ledger w) ∧
    hop_effect a b pa sender send_to x out (ledger w) l.
Proof.
  unfold do_swap_exact_tokens_for_tokens. intros Hs Hd. inv_call.
  cbn [balance_path_from_amount_in] in *. inv_call.
  match goal with H : get_reserves _ _ _ = Ok ?p |- _ => destruct p as [ra rb] end.
  inv_call. simpl in *. simplify_eq.
  match goal with H : get_reserves _ _ _ = _ |- _ =>
    apply get_reserves_Ok in H as (pa & Hpa & -> & -> & ? & ?) end.
  match goal with H : swap _ _ _ _ _ _ = _ |- _ =>
    apply swap_one_hop in H as (pa' & l & Hhop & -> & ? & ?); [|exact Hd] end.
  unfold hop_address in Hhop. apply asset_pair_Ok in Hhop. rewrite Hpa in Hhop. simplify_eq.
  exists pa', l. split_and!; try done; [by apply Z.ltb_lt|].
  intros m ->. apply Z.leb_le. auto.
Qed.

(** For an exact output the pool is looked up with the bought asset first. *)
Lemma swap_exact_out_Ok sender a b y max send_to keep w x w' :
  do_swap_tokens_for_exact_tokens sender [a; b] y max send_to keep w = (Ok x, w') →
  keep = true ∨ no_dust (ledger w) a sender x →
  ∃ pa l, pool_address b a = Some pa ∧ 0 < y ∧
    get_balance w pa a ≠ 0 ∧ get_balance w pa b ≠ 0 ∧
    get_amount_in y (get_balance w pa a) (get_balance w pa b) = Ok x ∧
    (∀ m, max = Some m → x ≤ m) ∧
    ledger w' = l ∧ Pools w' = Pools w ∧ frozen l = frozen (ledger w) ∧
    hop_effect a b pa sender send_to x y (ledger w) l.
Proof.
  unfold do_swap_tokens_for_exact_tokens, balance_path_from_amount_out. intros Hs Hd. inv_call.
  cbn [amounts_in rev app] in *. inv_call.
  match goal with H : get_reserves _ _ _ = Ok ?p |- _ => destruct p as [ra rb] end.
  inv_call. simpl in *. simplify_eq.
  match goal with H : get_reserves _ _ _ = _ |- _ =>
    apply get_reserves_Ok in H as (pa & Hpa & -> & -> & ? & ?) end.
  match goal with H : swap _ _ _ _ _ _ = _ |- _ =>
    apply swap_one_hop in H as (pa' & l & Hhop & -> & ? & ?); [|exact Hd] end.
  unfold hop_address in Hhop. apply asset_pair_Ok in Hhop. rewrite Hpa in Hhop. simplify_eq.
  exists pa', l. split_and!; try done; [by apply Z.ltb_lt|].
  intros m ->. apply Z.leb_le. auto.
Qed.

(** The reserves of an unfrozen pool account after a hop. *)
Definition pool_account_free (l : Ledger) (a b : AssetKind) (pa : AccountId) : Prop :=
  (∀ c, frozen l c pa = 0) ∧ 0 ≤ balance l a pa ∧ 0 ≤ balance l b pa.

Lemma get_balance_bounds w who a :
  0 ≤ balance (ledger w) a who → 0 ≤ get_balance w who a ≤ balance (ledger w) a who.
Proof. apply reducible_law. Qed.

Lemma hop_reserves a b pa sender send_to x y w w' :
  a ≠ b → sender ≠ pa → send_to ≠ pa → 0 ≤ x → 0 ≤ y ≤ balance (ledger w) b pa →
  pool_account_free (ledger w) a b pa → frozen (ledger w') = frozen (ledger w) →
  hop_effect a b pa sender send_to x y (ledger w) (ledger w') →
  get_balance w' pa a = get_balance w pa a + x ∧ get_balance w' pa b = get_balance w pa b - y.
Proof.
  intros Hab Hs Hr Hx Hy (Hf & Ha & Hb) Hfr Heff.
  assert (balance (ledger w') a pa = balance (ledger w) a pa + x) as Hwa.
  { rewrite Heff. unfold moved. repeat case_decide; simplify_eq; lia. }
  assert (balance (ledger w') b pa = balance (ledger w) b pa - y) as Hwb.
  { rewrite Heff. unfold moved. repeat case_decide; simplify_eq; lia. }
  unfold get_balance.
  rewrite !reducible_free; rewrite ?Hfr, ?Hf, ?Hwa, ?Hwb; done || lia.
Qed.
End SwapFacts.

(** ** Swap paths *)
Section Paths.
Context `{T : Config}.

(** The pools along a path, in order. *)
Fixpoint path_ids (path : list AssetKind) : option (list PoolId) :=
  match path with
  | a :: rest =>
      match rest with
      | b :: _ => id ← pool_id a b; ids ← path_ids rest; Some (id :: ids)
      | [] => Some []
      end
  | [] => Some []
  end.

Lemma unique_pools_spec seen path :
  unique_pools seen path = Ok () ↔
  ∃ ids, path_ids path = Some ids ∧ NoDup ids ∧ ∀ id, id ∈ ids → id ∉ seen.
Proof.
  revert seen. induction path as [|a path IH]; intros seen.
  { split; [|done]. exists []. split_and!; [done|constructor|by intros id ?%not_elem_of_nil]. }
  destruct path as [|b path].
  { split; [|done]. exists []. split_and!; [done|constructor|by intros id ?%not_elem_of_nil]. }
  change (path_ids (a :: b :: path)) with (id ← pool_id a b; ids ← path_ids (b :: path); Some (id :: ids)).
  change (unique_pools seen (a :: b :: path)) with
    (id ← asset_pair (pool_id a b);
     if bool_decide (id ∈ seen) then Err NonUniquePath else unique_pools (id :: seen) (b :: path)).
  destruct (pool_id a b) as [id|]; [|split; [done|by intros (ids & ? & _)]].
  cbn [asset_pair ok_or mbind outcome_bind option_bind].
  case_bool_decide as Hin.
  - split; [done|]. intros (ids & Hids & _ & Hd).
    destruct (path_ids (b :: path)) as [l|]; simplify_eq/=. exfalso. apply (Hd id); [by left|done].
  - rewrite IH. split.
    + intros (ids & -> & Hnd & Hd). exists (id :: ids). split_and!; [done| |].
      * constructor; [|done]. intros Hid. apply (Hd id Hid). by left.
      * intros j [->|Hj]%elem_of_cons; [done|]. intros Hs. apply (Hd j Hj). by right.
    + destruct (path_ids (b :: path)) as [l|]; [|by intros (ids & ? & _)].
      intros (ids & [= <-] & [Hni Hnd]%NoDup_cons & Hd). exists l. split_and!; [done|done|].
      intros j Hj [->|Hs]%elem_of_cons; [done|]. apply (Hd j); [by right|done].
Qed.

Lemma validate_swap_path_spec path :
  validate_swap_path path = Ok () ↔
  2 ≤ Z.of_nat (length path) ∧ Z.of_nat (length path) mod 2 ^ 32 ≤ MaxSwapPathLength ∧
  ∃ ids, path_ids path = Some ids ∧ NoDup ids.
Proof.
  unfold validate_swap_path, ensure.
  destruct (Z.leb_spec 2 (Z.of_nat (length path))); [|by split; [|lia]].
  cbn [mbind outcome_bind].
  destruct (Z.leb_spec (Z.of_nat (length path) mod 2 ^ 32) MaxSwapPathLength); [|by split; [|lia]].
  cbn [mbind outcome_bind]. rewrite unique_pools_spec. split.
  - intros (ids & ? & ? & _). eauto.
  - intros (_ & _ & ids & ? & ?). exists ids. split_and!; [done|done|]. intros id _ []%not_elem_of_nil.
Qed.
End Paths.
