(* ===== verification/Matching.v ===== *)
(** * Order matching

    Market and limit orders of [lib.rs]: the search for the quantity that the
    pool can take before the book is better, the loop that takes turns
    between pool and book, the settlement of filled orders, placing and
    cancelling.  [&mut Pool] arguments are passed in and returned. *)
From S2P Require Import Prelude Index OrderId Tick OrderBook Errors Amm Locator Assets Config Pool Pallet.
From Stdlib Require Import Bool.
Import PalletError.

Section Matching.
Context `{T : Config}.
Implicit Types (w : World) (pool : Pool).

Abbreviation call A := (M World DispatchError A).

(** [origin]: the signer, if any. *)
Definition ensure_signed (origin : option AccountId) : outcome DispatchError AccountId :=
  ok_or origin DBadOrigin.

Definition pool_price pool (base_reserve quote_reserve : Z) : outcome Error Z :=
  let '(p_adj, b_adj, q_adj) := decimal_adjustment pool in
  base_norm ← normalize base_reserve b_adj;
  quote_norm ← normalize quote_reserve q_adj;
  amount ← normalize 1 p_adj;
  quote amount base_norm quote_norm.

(** The pool price after a swap of [mid] base units. *)
Definition price_after (is_bid : bool) pool (b_r q_r mid : Z) : outcome Error Z :=
  let '(p_adj, b_adj, q_adj) := decimal_adjustment pool in
  if is_bid then
    amount_in ← get_amount_in mid q_r b_r;
    unit ← normalize 1 p_adj;
    b_left ← u_sub BITS b_r mid;
    b_norm ← normalize b_left b_adj;
    q_more ← u_add BITS q_r amount_in;
    q_norm ← normalize q_more q_adj;
    quote unit b_norm q_norm
  else
    amount_out ← get_amount_out mid b_r q_r;
    unit ← normalize 1 p_adj;
    b_more ← u_add BITS b_r mid;
    b_norm ← normalize b_more b_adj;
    q_left ← u_sub BITS q_r amount_out;
    q_norm ← normalize q_left q_adj;
    quote unit b_norm q_norm.

(** The binary search of [find_max_swap_quantity]. *)
Fixpoint search (fuel : nat) (is_bid : bool) (target : Z) pool (b_r q_r min max swap_quantity : Z) :
    outcome Error Z :=
  if min <? max then
    match fuel with
    | O => OutOfFuel
    | S fuel =>
        s ← u_add BITS min max;
        s' ← u_add BITS s 1;
        mid ← u_div s' 2;
        pool_price ← price_after is_bid pool b_r q_r mid;
        if pool_price =? target then Ok mid else
        one_normalized ← normalize 1 (Some (base_decimals pool));
        if pool_price <? target then
          if is_bid then
            min' ← u_add BITS mid one_normalized;
            search fuel is_bid target pool b_r q_r min' max mid
          else
            max' ← u_sub BITS mid one_normalized;
            search fuel is_bid target pool b_r q_r min max' mid
        else
          if is_bid then
            max' ← u_sub BITS mid one_normalized;
            search fuel is_bid target pool b_r q_r min max' swap_quantity
          else
            min' ← u_add BITS mid one_normalized;
            search fuel is_bid target pool b_r q_r min' max swap_quantity
    end
  else Ok swap_quantity.

Definition search_fuel : nat := S (Z.to_nat BITS).

Definition find_max_swap_quantity w (is_bid : bool) (target : Z) pool
    (base_asset quote_asset : AssetKind) (remain_orders : Z) : outcome Error Z :=
  '(b_r, q_r) ← get_reserves w base_asset quote_asset;
  search search_fuel is_bid target pool b_r q_r 0 remain_orders 0.

Definition do_fill_pool (is_bid : bool) (orderer : AccountId) (q : Z)
    (base_asset quote_asset : AssetKind) : call () :=
  if is_bid then
    _ ← do_swap_tokens_for_exact_tokens orderer [quote_asset; base_asset] q None orderer false;
    mret ()
  else
    _ ← do_swap_exact_tokens_for_tokens orderer [base_asset; quote_asset] q None orderer false;
    mret ().

(** The fold over the filled orders: pushes them with their price and adds
    their quantities. *)
Fixpoint collect_filled (price : Z) (fills : list (AccountId * Z))
    (filled_orders : list (AccountId * Z * Z)) (acc : Z) :
    outcome Error (list (AccountId * Z * Z) * Z) :=
  match fills with
  | [] => Ok (filled_orders, acc)
  | (o, q) :: fills =>
      acc' ← u_add BITS acc q;
      collect_filled price fills (filled_orders ++ [(o, price, q)]) acc'
  end.

Definition do_fill_book (is_bid : bool) pool (price order_quantity : Z)
    (filled_orders : list (AccountId * Z * Z)) :
    outcome Error (Pool * Z * list (AccountId * Z * Z)) :=
  let '(r, pool') := pool_fill_order is_bid price order_quantity pool in
  maybe ← map_err (λ _, ErrorOnFillOrder) r;
  '(filled_orders', filled) ← (match maybe with
                               | None => Ok (filled_orders, 0)
                               | Some fills => collect_filled price fills filled_orders 0
                               end);
  remain ← u_sub BITS order_quantity filled;
  Ok (pool', remain, filled_orders').

(** [while remain_orders > 0] of [do_match_order]. *)
Fixpoint match_loop (fuel : nat) (is_bid : bool) (orderer : AccountId)
    (base_asset quote_asset : AssetKind) pool (remain_orders : Z)
    (filled_orders : list (AccountId * Z * Z)) :
    call (Pool * Z * list (AccountId * Z * Z)) :=
  if 0 <? remain_orders then
    match (if is_bid then next_ask_order pool else next_bid_order pool) with
    | Some (target_price, _) =>
        match fuel with
        | O => lift OutOfFuel
        | S fuel =>
            max_swap_quantity ← gets (λ w, pallet_err
              (find_max_swap_quantity w is_bid target_price pool base_asset quote_asset remain_orders));
            if remain_orders <=? max_swap_quantity then
              _ ← do_fill_pool is_bid orderer remain_orders base_asset quote_asset;
              match_loop fuel is_bid orderer base_asset quote_asset pool 0 filled_orders
            else
              let is_pool := negb (max_swap_quantity =? 0) in
              _ ← (if is_pool then
                     do_fill_pool is_bid orderer max_swap_quantity base_asset quote_asset
                   else mret ());
              remain ← lift (u_sub BITS remain_orders max_swap_quantity);
              '(pool', remain', filled') ←
                lift (pallet_err (do_fill_book is_bid pool target_price remain filled_orders));
              match_loop fuel is_bid orderer base_asset quote_asset pool' remain' filled'
        end
    | None => mret (pool, remain_orders, filled_orders)
    end
  else mret (pool, remain_orders, filled_orders).

(** Every round empties a level or finishes the order. *)
Definition match_fuel (is_bid : bool) pool : nat := S (S (orderbook_size pool (negb is_bid))).

(** [released]: what the freeze of the order's owner is reduced by. *)
Definition released_amount (is_bid : bool) pool (p q : Z) : outcome Error Z :=
  if is_bid then Ok q
  else
    r ← u_mul BITS p q;
    let '(p_adj, _, q_adj) := decimal_adjustment pool in
    adj ← u_add 8 (default 0 p_adj) (default 0 q_adj);
    denom r adj.

Fixpoint settle (is_bid : bool) pool (asset1 asset2 : AssetKind) (orderer : AccountId)
    (filled_orders : list (AccountId * Z * Z)) : call () :=
  match filled_orders with
  | [] => mret ()
  | (owner, p, q) :: rest =>
      released ← lift (pallet_err (released_amount is_bid pool p q));
      _ ← on_ledger (decrease_frozen asset1 owner released);
      let '(transfer1, transfer2) := if is_bid then (q, released) else (released, q) in
      _ ← on_ledger (transfer asset1 owner orderer transfer1 Preserve);
      _ ← on_ledger (transfer asset2 orderer owner transfer2 Preserve);
      settle is_bid pool asset1 asset2 orderer rest
  end.

Definition handle_filled_orders (is_bid : bool) pool (base_asset quote_asset : AssetKind)
    (orderer : AccountId) (filled_orders : list (AccountId * Z * Z)) : call () :=
  let '(asset1, asset2) := if is_bid then (base_asset, quote_asset) else (quote_asset, base_asset) in
  settle is_bid pool asset1 asset2 orderer filled_orders.

Definition do_match_order (is_bid : bool) (orderer : AccountId) pool
    (base_asset quote_asset : AssetKind) (order_quantity : Z) : call Pool :=
  '(pool, remain_orders, filled_orders) ←
    match_loop (match_fuel is_bid pool) is_bid orderer base_asset quote_asset pool order_quantity [];
  _ ← (if 0 <? remain_orders
       then do_fill_pool is_bid orderer remain_orders base_asset quote_asset else mret ());
  _ ← handle_filled_orders is_bid pool base_asset quote_asset orderer filled_orders;
  _ ← deposit_event (OrderMatched orderer order_quantity is_bid);
  mret pool.

Definition freeze_asset (who : AccountId) (asset : AssetKind) (amount : Z) : call () :=
  on_ledger (increase_frozen asset who amount).

Definition do_place_order (is_bid : bool) (id : PoolId) pool (maker : AccountId)
    (base_asset quote_asset : AssetKind) (price q : Z) : call Pool :=
  let '(p_adj, _, q_adj) := decimal_adjustment pool in
  _ ← (if is_bid then
         product ← lift (pallet_err (u_mul BITS price q));
         adj ← lift (pallet_err (u_add 8 (default 0 p_adj) (default 0 q_adj)));
         freeze_amount ← lift (pallet_err (denom product adj));
         freeze_asset maker quote_asset freeze_amount
       else freeze_asset maker base_asset q);
  w ← get;
  let '(r, pool') := pool_place_order (block_number w) is_bid maker price q pool in
  '(price, order_id) ← lift (pallet_err (map_err (λ _, ErrorOnPlaceOrder) r));
  _ ← deposit_event (LimitOrderPlaced maker price id order_id q is_bid);
  mret pool'.

(** [Pools::try_mutate]: the new value is written when the closure succeeds. *)
Definition mutate_pool (id : PoolId) (f : Pool → call Pool) : call () :=
  w ← get;
  pool ← lift (pallet_err (ok_or (Pools w !! id) PoolNotFound));
  pool' ← f pool;
  modify (λ w, set_pools (<[id := pool']> (Pools w)) w).

Definition do_market_order (is_bid : bool) (taker : AccountId) (base_asset quote_asset : AssetKind)
    (q : Z) : call () :=
  _ ← require (0 <? q) WrongDesiredAmount;
  id ← lift (pallet_err (asset_pair (pool_id base_asset quote_asset)));
  mutate_pool id (λ pool,
    valid ← lift (pallet_err (is_valid_order_quantity pool q));
    _ ← require valid InvalidOrderQuantity;
    pool' ← do_match_order is_bid taker pool base_asset quote_asset q;
    _ ← deposit_event (MarketOrder taker);
    mret pool').

Definition do_limit_order (maker : AccountId) (order_price order_quantity : Z) (is_bid : bool)
    (base_asset quote_asset : AssetKind) : call () :=
  id ← lift (pallet_err (asset_pair (pool_id base_asset quote_asset)));
  mutate_pool id (λ pool,
    '(b_r, q_r) ← gets (λ w, pallet_err (get_reserves w base_asset quote_asset));
    current ← lift (pallet_err (map_err (λ _, ZeroLiquidity) (pool_price pool b_r q_r)));
    valid ← lift (pallet_err (is_valid_order_price pool order_price));
    _ ← require valid InvalidOrderPrice;
    valid ← lift (pallet_err (is_valid_order_quantity pool order_quantity));
    _ ← require valid InvalidOrderQuantity;
    let should_match_order := if is_bid then current <=? order_price else order_price <=? current in
    pool' ← (if should_match_order
             then do_match_order is_bid maker pool base_asset quote_asset order_quantity
             else do_place_order is_bid id pool maker base_asset quote_asset
                    order_price order_quantity);
    _ ← deposit_event (LimitOrder id maker order_price order_quantity is_bid);
    mret pool').

Definition do_cancel_order (owner : AccountId) (base_asset quote_asset : AssetKind)
    (price : Z) (order_id : OrderId) (q : Z) : call () :=
  id ← lift (pallet_err (asset_pair (pool_id base_asset quote_asset)));
  mutate_pool id (λ pool,
    let '(r, pool') := pool_cancel_order owner price order_id q pool in
    _ ← lift (pallet_err (map_err (λ _, ErrorOnCancelOrder) r));
    _ ← deposit_event (OrderCancelled id owner order_id);
    mret pool').

Definition get_pool_query w (base_asset quote_asset : AssetKind) : outcome Error PoolQuery :=
  id ← ok_or (pool_id base_asset quote_asset) PoolNotFound;
  pool ← ok_or (Pools w !! id) PoolNotFound;
  '(b_r, q_r) ← get_reserves w base_asset quote_asset;
  price ← pool_price pool b_r q_r;
  Ok (to_pool_query pool b_r q_r price).

Definition get_pool_metadata w (base_asset quote_asset : AssetKind) : outcome Error PoolMetadata :=
  id ← ok_or (pool_id base_asset quote_asset) PoolNotFound;
  pool ← ok_or (Pools w !! id) PoolNotFound;
  Ok (to_pool_metadata pool).

(** The dispatchables; every dispatch runs in a storage layer. *)
Definition market_order (origin : option AccountId) (base_asset quote_asset : AssetKind)
    (q : Z) (is_bid : bool) : call () :=
  with_storage_layer (
    taker ← lift (ensure_signed origin);
    do_market_order is_bid taker base_asset quote_asset q).

Definition limit_order (origin : option AccountId) (base_asset quote_asset : AssetKind)
    (is_bid : bool) (price q : Z) : call () :=
  with_storage_layer (
    maker ← lift (ensure_signed origin);
    do_limit_order maker price q is_bid base_asset quote_asset).

Definition cancel_order_call (origin : option AccountId) (base_asset quote_asset : AssetKind)
    (price : Z) (order_id : OrderId) (q : Z) : call () :=
  with_storage_layer (
    maybe_owner ← lift (ensure_signed origin);
    do_cancel_order maybe_owner base_asset quote_asset price order_id q).
End Matching.
