(* ===== verification/SearchFacts.v ===== *)
(** * The search for the pool's share

    [find_max_swap_quantity] where its step cannot wrap around, because the
    base asset has no decimals (the step is then one unit) or because the
    build checks for overflow: it terminates within its fuel, and what it
    returns is between zero and the order, and drives the pool price at most
    to the target from below. *)
From S2P Require Import Prelude Index OrderId Tick OrderBook Errors Amm Locator Assets Config Pool Pallet PalletFacts Matching.
From Stdlib Require Import Bool.
Import PalletError.

Section Search.
Context `{T : Config}.
Implicit Types (w : World) (pool : Pool).

Lemma no_fuel_price_after side pool b_r q_r mid : no_fuel (price_after side pool b_r q_r mid).
Proof.
  unfold price_after. destruct (decimal_adjustment pool) as [[p b] q].
  destruct side; auto 20 with nofuel.
Qed.

(** The step of the search cannot wrap: it is one unit, or overflow aborts. *)
Definition step_ok pool : Prop :=
  base_decimals pool = 0 ∨ (overflow_checks = true ∧ 0 ≤ base_decimals pool).

Lemma step_ok_same pool pool' :
  step_ok pool → base_decimals pool' = base_decimals pool → step_ok pool'.
Proof. unfold step_ok. by intros ? ->. Qed.

Lemma overflowing_checked {E} n r :
  overflow_checks = true → overflowing (E:=E) n r = Ok r ∨ overflowing (E:=E) n r = Panic.
Proof. intros Hc. unfold overflowing. rewrite Hc. destruct (in_rangeb n r); auto. Qed.

Lemma normalize_step pool {E} : step_ok pool →
  normalize (E:=E) 1 (Some (base_decimals pool)) = Panic ∨
  ∃ k, normalize (E:=E) 1 (Some (base_decimals pool)) = Ok k ∧ 0 < k ∧
       (k = 1 ∨ overflow_checks = true).
Proof.
  unfold normalize. simpl default. intros [->|[Hc Hd]].
  - right. exists 1. split_and!; [|done|by left]. rewrite pow10_ok by lia. run_step.
    rewrite u_mul_ok; [done|]. unfold in_range. split; [done|].
    pose proof BITS_lower. pose proof (Z.pow_le_mono_r 2 32 BITS). lia.
  - unfold pow10. destruct (overflowing_checked (E:=E) 64 (10 ^ base_decimals pool) Hc) as [->| ->];
      run_step; [|by left].
    unfold u_mul. destruct (overflowing_checked (E:=E) BITS (1 * 10 ^ base_decimals pool) Hc) as [->| ->];
      [|by left].
    right. eexists. split_and!; [done|lia|by right].
Qed.

Definition half : Z := 2 ^ (BITS - 1).

Lemma half_double : 2 ^ BITS = 2 * half.
Proof. apply pow_BITS_split. Qed.

(** What the search guarantees about its result: nothing was recorded, or
    the price after swapping the recorded quantity is at most the target. *)
Definition search_post side target pool b_r q_r lo hi sq q : Prop :=
  q = sq ∨
  (lo < q ≤ hi ∧ ∃ p, price_after side pool b_r q_r q = Ok p ∧ p ≤ target).

Lemma search_spec fuel side target pool b_r q_r min max sq :
  step_ok pool → 0 ≤ min → max < half - 1 →
  max - min < 2 ^ Z.of_nat fuel →
  no_fuel (search fuel side target pool b_r q_r min max sq) ∧
  ∀ q, search fuel side target pool b_r q_r min max sq = Ok q →
       search_post side target pool b_r q_r min max sq q.
Proof.
  intros Hdec. revert min max sq. induction fuel as [|fuel IH]; intros min max sq Hmin Hmax Hf.
  - simpl. destruct (Z.ltb_spec min max); [simpl in Hf; lia|].
    split; [done|]. intros q [= ->]. by left.
  - cbn [search]. destruct (Z.ltb_spec min max) as [Hlt|];
      [|split; [done|]; intros q [= ->]; by left].
    rewrite Nat2Z.inj_succ, Z.pow_succ_r in Hf by lia.
    pose proof half_double as Hh.
    rewrite u_add_ok by (unfold in_range; lia). run_step.
    rewrite u_add_ok by (unfold in_range; lia). run_step.
    unfold u_div. cbn [Z.eqb]. run_step. set (mid := (min + max + 1) / 2).
    assert (min < mid ≤ max ∧ 2 * mid ≤ min + max + 1 < 2 * mid + 2) as [Hmid Hdiv].
    { subst mid. pose proof (Z.div_mod (min + max + 1) 2 ltac:(lia)).
      pose proof (Z.mod_pos_bound (min + max + 1) 2 ltac:(lia)). lia. }
    pose proof (no_fuel_price_after side pool b_r q_r mid) as Hnf.
    destruct (price_after side pool b_r q_r mid) as [p|e| |] eqn:Hp; run_step; try done.
    destruct (Z.eqb_spec p target) as [->|Hne].
    { split; [done|]. intros q [= <-]. right. split; [lia|]. eauto with lia. }
    destruct (normalize_step pool (E:=Error) Hdec) as [->|(k & -> & Hk & Hwrap)]; run_step; [done|].
    assert (∀ lo hi sq', 0 ≤ lo → hi < half - 1 → hi - lo < 2 ^ Z.of_nat fuel →
      min ≤ lo → hi ≤ max →
      (sq' = sq ∨ sq' = mid ∧ p < target) →
      no_fuel (search fuel side target pool b_r q_r lo hi sq') ∧
      ∀ q, search fuel side target pool b_r q_r lo hi sq' = Ok q →
           search_post side target pool b_r q_r min max sq q) as Hrec.
    { intros lo hi sq' H1 H2 H3 H4 H5 Hsq. destruct (IH lo hi sq' H1 H2 H3) as [Hn Hpost].
      split; [done|]. intros q Hq. destruct (Hpost q Hq) as [->|(Hr & Hpr)].
      - destruct Hsq as [->|[-> Hlt']]; [by left|]. right. split; [lia|]. eauto with lia.
      - right. split; [lia|done]. }
    assert ((u_add (E:=Error) BITS mid k = Ok (mid + k) ∨ u_add (E:=Error) BITS mid k = Panic) ∧
            (u_sub (E:=Error) BITS mid k = Ok (mid - k) ∨ u_sub (E:=Error) BITS mid k = Panic))
      as [Hadd Hsub].
    { destruct Hwrap as [->|Hc]; [|by split; apply overflowing_checked].
      split; left; [apply u_add_ok|apply u_sub_ok]; unfold in_range; lia. }
    destruct (Z.ltb_spec p target), side;
      (destruct Hadd as [->| ->] || destruct Hsub as [->| ->]); run_step; try done;
      apply Hrec; (lia || auto).
Qed.

Lemma find_max_swap_quantity_spec w side target pool base quote_asset remain :
  step_ok pool → 0 ≤ remain < half - 1 →
  no_fuel (find_max_swap_quantity w side target pool base quote_asset remain) ∧
  ∀ q, find_max_swap_quantity w side target pool base quote_asset remain = Ok q →
    0 ≤ q ≤ remain ∧
    (q ≠ 0 → ∃ b_r q_r p, get_reserves w base quote_asset = Ok (b_r, q_r) ∧
               price_after side pool b_r q_r q = Ok p ∧ p ≤ target).
Proof.
  intros Hdec Hr. unfold find_max_swap_quantity.
  assert (no_fuel (get_reserves w base quote_asset)) as Hnf.
  { unfold get_reserves, asset_pair. auto 10 with nofuel. }
  destruct (get_reserves w base quote_asset) as [[b_r q_r]|e| |] eqn:Hres; run_step; try done.
  destruct (search_spec search_fuel side target pool b_r q_r 0 remain 0 Hdec) as [Hn Hpost];
    [lia|lia| |].
  { pose proof half_double. pose proof BITS_pos. unfold search_fuel.
    rewrite Nat2Z.inj_succ, Z2Nat.id, Z.pow_succ_r by lia. lia. }
  split; [done|]. intros q Hq. destruct (Hpost q Hq) as [->|(Hb & p & Hp & Hle)].
  - split; [lia|done].
  - split; [lia|]. intros _. by exists b_r, q_r, p.
Qed.
End Search.
