(* ===== verification/MatchFacts.v ===== *)
(** * The matching loop

    [do_match_order] takes turns between pool and book.  Every round empties
    the best level or finishes the order, so the loop ends; the book is used
    in price order; and the quantities taken from the pool and from the book
    add up to the order. *)
From S2P Require Import Prelude Index CritbitOps OrderId Tick OrderBook Errors Amm Locator Assets Config Pool Pallet PalletFacts Matching SearchFacts.
From Stdlib Require Import Bool.
Import PalletError.

(** ** Frames of the pool side *)
Section PoolSide.
Context `{T : Config}.
Implicit Types (w : World).

Lemma withdraw_frame asset who v keep w c w' :
  withdraw asset who v keep w = (Ok c, w') → ∃ l, w' = set_ledger l w.
Proof. unfold withdraw. intros Hw. destruct keep; simpl in Hw; inv_call; eauto. Qed.

Lemma resolve_path_frame side path w c w' :
  resolve_path side path w = (Ok c, w') → ∃ l, w' = set_ledger l w.
Proof.
  induction path as [|[a x] path IH]; simpl; [done|].
  destruct path as [|[b y] path]; [done|]. intros Hs. inv_call. by eapply withdraw_frame.
Qed.

Lemma set_ledger_twice l1 l2 w : set_ledger l2 (set_ledger l1 w) = set_ledger l2 w.
Proof. done. Qed.

Lemma swap_frame side sender path send_to keep w u w' :
  swap side sender path send_to keep w = (Ok u, w') → ∃ l, w' = set_ledger l w.
Proof.
  unfold swap, credit_swap. intros Hs. inv_call.
  repeat match goal with
  | H : withdraw _ _ _ _ _ = _ |- _ => apply withdraw_frame in H as [? ->]
  | H : resolve_path _ _ _ = _ |- _ => apply resolve_path_frame in H as [? ->]
  end.
  repeat case_match; try done; inv_call; subst; eauto using set_ledger_twice.
Qed.

(** The base quantity that a swap event stands for. *)
Definition swap_quantity (side : bool) (e : Event) : Z :=
  match e with SwapExecuted _ _ x y _ => if side then y else x | _ => 0 end.
Definition swapped (side : bool) (es : list Event) : Z :=
  foldr (λ e acc, swap_quantity side e + acc) 0 es.

(** Filling from the pool is one swap of exactly the quantity. *)
Lemma do_fill_pool_frame side o q base quote_asset w u w' :
  do_fill_pool side o q base quote_asset w = (Ok u, w') →
  0 < q ∧ ∃ e, events w' = e :: events w ∧ swap_quantity side e = q ∧ Pools w' = Pools w.
Proof.
  unfold do_fill_pool, do_swap_tokens_for_exact_tokens, do_swap_exact_tokens_for_tokens.
  destruct side; intros Hs; inv_call;
    match goal with H : swap _ _ _ _ _ _ = _ |- _ => apply swap_frame in H as [? ->] end;
    (split; [by apply Z.ltb_lt|]); eexists; by split_and!.
Qed.
End PoolSide.

(** ** The book side *)
Section BookSide.
Context `{T : Config, HO : !OrderInterface AccountId Level, HL : !OrderInterfaceLaws AccountId Level}.
Context `{HB : !OrderBookLaws AccountId Level BookError Book}.
Implicit Types (w : World) (pool : Pool) (side : bool).

Definition filled_sum (l : list (AccountId * Z * Z)) : Z := foldr (λ e acc, e.2 + acc) 0 l.

Lemma filled_sum_app l1 l2 : filled_sum (l1 ++ l2) = filled_sum l1 + filled_sum l2.
Proof. induction l1 as [|x l1 IH]; simpl; [done|]. unfold filled_sum in *. lia. Qed.

Lemma filled_sum_at price (fills : list (AccountId * Z)) :
  filled_sum ((λ f, (f.1, price, f.2)) <$> fills) = fill_sum fills.
Proof.
  unfold filled_sum, fill_sum. induction fills as [|[o q] fills IH]; [done|].
  cbn [fmap list_fmap foldr fst snd]. by rewrite IH.
Qed.

Lemma collect_filled_spec price fills acc_l acc :
  0 ≤ acc → Forall (λ f, 0 ≤ f.2) fills → acc + fill_sum fills < 2 ^ BITS →
  collect_filled price fills acc_l acc =
    Ok (acc_l ++ ((λ f, (f.1, price, f.2)) <$> fills), acc + fill_sum fills).
Proof.
  revert acc_l acc. induction fills as [|[o q] fills IH]; intros acc_l acc Hacc; simpl.
  - intros _ _. by rewrite app_nil_r, Z.add_0_r.
  - intros [Hq Hf]%Forall_cons Hlt. simpl in Hq.
    assert (0 ≤ fill_sum fills) as Hnn.
    { clear -Hf. induction Hf as [|[??] ? Hq ? IH]; simpl in *; lia. }
    rewrite u_add_ok by (unfold in_range; lia). run_step.
    rewrite IH by (done || lia). rewrite <-app_assoc. simpl. do 2 f_equal. lia.
Qed.

Definition book_levels side pool : gmap Z Level := levels (counter_book side pool).

(** The best price is filled: what is taken is subtracted from the order and
    recorded at that price; a level that cannot satisfy the order is gone. *)
Lemma do_fill_book_spec side pool price q fo v :
  pool_ok pool → in_range BITS q → book_levels side pool !! price = Some v →
  ∃ pool' new,
    do_fill_book side pool price q fo =
      Ok (pool', q - Z.min q (value_total v), fo ++ new) ∧
    pool_ok pool' ∧ base_decimals pool' = base_decimals pool ∧
    filled_sum new = Z.min q (value_total v) ∧ Forall (λ f, f.1.2 = price) new ∧
    (∀ p, is_Some (book_levels side pool' !! p) → is_Some (book_levels side pool !! p)) ∧
    (value_total v < q → book_levels side pool' = delete price (book_levels side pool)).
Proof.
  intros Hok Hq Hv. unfold do_fill_book.
  destruct (pool_fill_order_spec side price q pool Hok Hq) as (r & b' & Hrun & Hb' & Hl).
  rewrite Hrun. run_step.
  assert (value_ok v) as Hval.
  { destruct Hok as (Hb & Ha & _). unfold book_levels in Hv.
    destruct side; [apply (book_values_law _ _ _ Ha Hv)|apply (book_values_law _ _ _ Hb Hv)]. }
  destruct (filled_law (E:=BookError) q v Hq Hval) as (r' & v' & Hf & _ & _ & Hsum & Hnn & Hempty).
  unfold levels_fill, book_levels in *. rewrite Hv, Hf in Hl. injection Hl as -> Hlev.
  pose proof (total_law v Hval) as Hpos. pose proof Hq as [Hq0 Hq1].
  set (new := (λ f, (f.1, price, f.2)) <$> default [] r).
  assert ((match r with
           | None => Ok (fo, 0)
           | Some fills => collect_filled price fills fo 0
           end) = Ok (fo ++ new, Z.min q (value_total v))) as ->.
  { destruct r as [fills|]; simpl in *.
    - rewrite collect_filled_spec by (done || lia). by rewrite Hsum.
    - rewrite <-Hsum. by rewrite app_nil_r. }
  run_step. rewrite u_sub_ok by (unfold in_range; lia). run_step.
  exists (set_counter_book side b' pool), new.
  assert (counter_book side (set_counter_book side b' pool) = b') as Hcb by (by destruct side).
  split_and!; [done|by apply set_counter_book_ok|by destruct side| | | |].
  - rewrite <-Hsum. apply filled_sum_at.
  - subst new. apply Forall_fmap, Forall_true. done.
  - intros p. rewrite Hcb, <-Hlev. destruct (order_is_empty v').
    + intros [_ ?]%lookup_delete_is_Some. done.
    + intros [<-|?]%lookup_insert_is_Some'; eauto.
  - intros Hlt. by rewrite Hcb, <-Hlev, Hempty.
Qed.

(** [p] is at least as good a price as [p'] for an order of the given side. *)
Definition better side (p p' : Z) : Prop := if side then p ≤ p' else p' ≤ p.

Lemma next_order_best side pool :
  pool_ok pool →
  match (if side then next_ask_order pool else next_bid_order pool) with
  | None => book_levels side pool = ∅
  | Some (p, _) => is_Some (book_levels side pool !! p) ∧
                   ∀ p', is_Some (book_levels side pool !! p') → better side p p'
  end.
Proof.
  intros Hok. unfold book_levels, better. destruct side.
  - apply next_ask_order_best in Hok. destruct (next_ask_order pool) as [[p ?]|]; done.
  - apply next_bid_order_best in Hok. destruct (next_bid_order pool) as [[p ?]|]; done.
Qed.

(** What the loop has done when it returns: the fills in price order, and
    the order divided between swaps, fills and what is left. *)
Definition prices (l : list (AccountId * Z * Z)) : list Z := (λ f, f.1.2) <$> l.

Definition loop_post side w pool remain (fo : list (AccountId * Z * Z)) w' pool' remain' fo' : Prop :=
  pool_ok pool' ∧ (remain' = 0 ∨ book_levels side pool' = ∅) ∧ 0 ≤ remain' ∧
  Pools w' = Pools w ∧
  (∃ new, fo' = fo ++ new ∧
     StronglySorted (better side) (prices new) ∧
     (∀ p, p ∈ prices new → is_Some (book_levels side pool !! p)) ∧
     ∃ es, events w' = es ++ events w ∧
           remain = swapped side es + filled_sum new + remain').

Lemma prices_const price new : Forall (λ f, f.1.2 = price) new → ∀ p, p ∈ prices new → p = price.
Proof.
  rewrite Forall_forall. intros Hall p (f & -> & Hf)%list_elem_of_fmap. by apply Hall.
Qed.

Lemma sorted_const side price new :
  Forall (λ f, f.1.2 = price) new → StronglySorted (better side) (prices new).
Proof.
  intros Hall. induction Hall as [|f l Hf Hall IH]; simpl; constructor; [done|].
  rewrite Forall_forall. intros p Hp. rewrite (prices_const price l) by done.
  rewrite Hf. unfold better. destruct side; lia.
Qed.

Lemma swapped_app side es1 es2 : swapped side (es1 ++ es2) = swapped side es1 + swapped side es2.
Proof. induction es1 as [|e es1 IH]; simpl; [done|]. unfold swapped in *. lia. Qed.

(** One round followed by the rest of the loop. *)
Lemma loop_post_step side w1 w2 w3 pool pool2 pool3 price q1 q2 remain2 remain3 fo new fo3 es :
  events w2 = es ++ events w1 → swapped side es = q1 → Pools w2 = Pools w1 →
  is_Some (book_levels side pool !! price) →
  (∀ p', is_Some (book_levels side pool !! p') → better side price p') →
  (∀ p, is_Some (book_levels side pool2 !! p) → is_Some (book_levels side pool !! p)) →
  Forall (λ f, f.1.2 = price) new → filled_sum new = q2 →
  loop_post side w2 pool2 remain2 (fo ++ new) w3 pool3 remain3 fo3 →
  loop_post side w1 pool (q1 + q2 + remain2) fo w3 pool3 remain3 fo3.
Proof.
  intros Hev Hq1 Hpools Hp Hbest Hsub Hnew Hq2
    (Hok & Hend & Hrem & Hpools3 & new3 & -> & Hsort & Hin & es3 & Hev3 & Hsum).
  split_and!; [done|done|done|congruence|]. exists (new ++ new3).
  split_and!; [by rewrite app_assoc| | |].
  - unfold prices in *. rewrite fmap_app. apply StronglySorted_app. split_and!; [|by apply sorted_const with price|done].
    intros p p' Hpn Hp3. rewrite (prices_const price new Hnew p Hpn). apply Hbest, Hsub, Hin, Hp3.
  - intros p. unfold prices. rewrite fmap_app, elem_of_app. intros [Hpn|Hp3].
    + by rewrite (prices_const price new Hnew p Hpn).
    + apply Hsub, Hin, Hp3.
  - exists (es3 ++ es). rewrite Hev3, Hev, app_assoc. split; [done|].
    rewrite swapped_app, filled_sum_app. lia.
Qed.
End BookSide.

(** ** The loop *)
Section Loop.
Context `{T : Config, HO : !OrderInterface AccountId Level, HL : !OrderInterfaceLaws AccountId Level}.
Context `{HB : !OrderBookLaws AccountId Level BookError Book}.
Context `{HR : !FungiblesReturn AccountId AssetKind Ledger}.
Implicit Types (w : World) (pool : Pool) (side : bool).

Lemma withdraw_call_returns asset who v keep : returns (withdraw asset who v keep).
Proof. unfold withdraw, on_ledger. destruct keep; simpl; eauto 10 with nofuel. Qed.

Lemma no_fuel_hop side a b : no_fuel (hop_address side a b).
Proof. unfold hop_address, asset_pair. destruct side; auto with nofuel. Qed.

Lemma resolve_path_returns side path : returns (resolve_path side path).
Proof.
  induction path as [|[a x] [|[b y] path] IH]; simpl; unfold pallet_err;
    auto using withdraw_call_returns, no_fuel_hop with nofuel.
Qed.

Lemma swap_returns side sender path send_to keep : returns (swap side sender path send_to keep).
Proof.
  unfold swap, pallet_err, on_ledger. apply returns_bind; [auto with nofuel|]. intros [a x].
  apply returns_bind; [apply withdraw_call_returns|]. intros c.
  apply returns_bind; [|eauto with nofuel]. apply returns_map_err. unfold credit_swap.
  apply returns_bind; [apply returns_map_err, resolve_path_returns|]. intros c'.
  destruct path as [|[a1 x1] [|[a2 x2] path]]; eauto 10 using no_fuel_hop with nofuel.
Qed.

Lemma no_fuel_get_reserves w a b : no_fuel (get_reserves w a b).
Proof. unfold get_reserves, asset_pair. eauto 10 with nofuel. Qed.

Lemma no_fuel_unique_pools pools path : no_fuel (unique_pools pools path).
Proof.
  revert pools. induction path as [|a [|b path] IH]; intros pools; [done|done|].
  apply no_fuel_bind; [apply no_fuel_ok_or|]. intros id. apply no_fuel_if; [done|apply IH].
Qed.

Lemma no_fuel_amounts_in w path x : no_fuel (amounts_in w path x).
Proof.
  revert x. induction path as [|a [|b path] IH]; intros x; [done|done|].
  apply no_fuel_bind; [apply no_fuel_get_reserves|]. intros [? ?].
  apply no_fuel_bind; [apply no_fuel_get_amount_in|]. intros x'.
  apply no_fuel_bind; [apply IH|done].
Qed.

Lemma no_fuel_path_in w path x : no_fuel (balance_path_from_amount_in w x path).
Proof.
  revert x. induction path as [|a [|b path] IH]; intros x; [done|done|].
  apply no_fuel_bind; [apply no_fuel_get_reserves|]. intros [? ?].
  apply no_fuel_bind; [apply no_fuel_get_amount_out|]. intros x'.
  apply no_fuel_bind; [apply IH|done].
Qed.

Lemma returns_require b e : returns (require b e).
Proof. unfold require, pallet_err. auto with nofuel. Qed.

Lemma returns_deposit_event e : returns (E:=DispatchError) (deposit_event e).
Proof. unfold deposit_event. auto with nofuel. Qed.

Lemma do_fill_pool_returns side o q base quote_asset : returns (do_fill_pool side o q base quote_asset).
Proof.
  unfold do_fill_pool, do_swap_tokens_for_exact_tokens, do_swap_exact_tokens_for_tokens,
    validate_swap_path, pallet_err, balance_path_from_amount_out.
  destruct side; (apply returns_bind; [|eauto with nofuel]);
    repeat first [apply returns_require | apply returns_deposit_event | apply swap_returns
      | apply no_fuel_unique_pools | apply no_fuel_amounts_in | apply no_fuel_path_in
      | apply returns_bind; [|intros] | apply returns_lift | apply no_fuel_map_err
      | apply no_fuel_bind; [|intros] | progress auto with nofuel | case_match].
Qed.

Lemma book_levels_size side pool :
  pool_ok pool → orderbook_size pool (negb side) = stdpp.base.size (book_levels side pool).
Proof.
  intros (Hb & Ha & _). unfold book_levels. destruct side; simpl; by apply book_size_law.
Qed.

Lemma loop_post_refl side w pool remain fo :
  pool_ok pool → 0 ≤ remain → (remain = 0 ∨ book_levels side pool = ∅) →
  loop_post side w pool remain fo w pool remain fo.
Proof.
  intros Hok Hr Hend. split_and!; [done..|]. exists []. rewrite app_nil_r.
  split_and!; [done|constructor|by intros p ?%not_elem_of_nil|]. exists []. split; [done|simpl; lia].
Qed.

(** Enough fuel: more than the number of levels left. *)
Definition loop_fuel_ok side (fuel : nat) pool remain : Prop :=
  remain = 0 ∨ (stdpp.base.size (book_levels side pool) < fuel)%nat.

(** The rounds of the loop. *)
Definition loop_spec side o base quote_asset fuel : Prop :=
  ∀ pool remain fo w,
    pool_ok pool → step_ok pool → 0 ≤ remain < half - 1 →
    loop_fuel_ok side fuel pool remain →
    no_fuel (match_loop fuel side o base quote_asset pool remain fo w).1 ∧
    ∀ pool' remain' fo' w',
      match_loop fuel side o base quote_asset pool remain fo w = (Ok (pool', remain', fo'), w') →
      loop_post side w pool remain fo w' pool' remain' fo'.

Lemma match_loop_done fuel side o base quote_asset pool fo w :
  match_loop fuel side o base quote_asset pool 0 fo w = (Ok (pool, 0, fo), w).
Proof. by destruct fuel. Qed.

Lemma in_range_half x : 0 ≤ x < half - 1 → in_range BITS x.
Proof. intros Hx. unfold in_range. rewrite half_double. lia. Qed.

(** Everything from the pool. *)
Lemma round_pool side o base quote_asset fuel pool remain fo w :
  pool_ok pool → 0 ≤ remain →
  let run := (_ ← do_fill_pool side o remain base quote_asset;
              match_loop fuel side o base quote_asset pool 0 fo) w in
  no_fuel run.1 ∧
  ∀ pool' remain' fo' w', run = (Ok (pool', remain', fo'), w') →
    loop_post side w pool remain fo w' pool' remain' fo'.
Proof.
  intros Hok Hr. cbv zeta. split.
  - apply (returns_bind (do_fill_pool side o remain base quote_asset)); [apply do_fill_pool_returns|].
    intros _ w1. by rewrite match_loop_done.
  - intros pool' remain' fo' w' Hrun. inv_call. rewrite match_loop_done in Hrun. simplify_eq.
    match goal with H : do_fill_pool _ _ _ _ _ _ = _ |- _ =>
      apply do_fill_pool_frame in H as (Hpos & e & He & Hq & Hp) end.
    split_and!; [done|by left|lia|done|]. exists []. rewrite app_nil_r.
    split_and!; [done|constructor|by intros p ?%not_elem_of_nil|].
    exists [e]. split; [done|]. simpl. lia.
Qed.

(** Some from the pool (possibly nothing), then the best level. *)
Lemma round_book side o base quote_asset fuel pool remain fo w price msq :
  loop_spec side o base quote_asset fuel →
  pool_ok pool → step_ok pool → 0 ≤ remain < half - 1 → 0 ≤ msq < remain →
  (stdpp.base.size (book_levels side pool) < S fuel)%nat →
  is_Some (book_levels side pool !! price) →
  (∀ p', is_Some (book_levels side pool !! p') → better side price p') →
  let run := (_ ← (if negb (msq =? 0) then do_fill_pool side o msq base quote_asset else mret ());
              rem ← lift (u_sub BITS remain msq);
              '(pool', remain', filled') ← lift (pallet_err (do_fill_book side pool price rem fo));
              match_loop fuel side o base quote_asset pool' remain' filled') w in
  no_fuel run.1 ∧
  ∀ pool' remain' fo' w', run = (Ok (pool', remain', fo'), w') →
    loop_post side w pool remain fo w' pool' remain' fo'.
Proof.
  intros IH Hok Hdec Hr Hm Hsize [v Hv] Hbest. cbv zeta.
  pose proof (in_range_half _ Hr) as Hrr. destruct Hrr as [_ Hrr].
  destruct (do_fill_book_spec side pool price (remain - msq) fo v Hok)
    as (pool2 & new & Hfill & Hok2 & Hdec2 & Hsum & Hnew & Hsub & Hgone);
    [unfold in_range; lia|done|].
  assert (0 ≤ value_total v) as Htot.
  { apply total_law. destruct Hok as (Hb & Ha & _). unfold book_levels in Hv.
    destruct side; [apply (book_values_law _ _ _ Ha Hv)|apply (book_values_law _ _ _ Hb Hv)]. }
  set (rem2 := remain - msq - Z.min (remain - msq) (value_total v)) in *.
  assert (∀ w2, no_fuel (match_loop fuel side o base quote_asset pool2 rem2 (fo ++ new) w2).1 ∧
    ∀ pool' remain' fo' w',
      match_loop fuel side o base quote_asset pool2 rem2 (fo ++ new) w2 = (Ok (pool', remain', fo'), w') →
      loop_post side w2 pool2 rem2 (fo ++ new) w' pool' remain' fo') as Hrest.
  { intros w2. apply IH; [done|by eapply step_ok_same|subst rem2; lia|].
    destruct (Z.lt_ge_cases (value_total v) (remain - msq)) as [Hlt|]; [|left; subst rem2; lia].
    right. rewrite Hgone, map_size_delete, Hv by done.
    assert (stdpp.base.size (book_levels side pool) ≠ 0%nat); [|lia].
    intros He. apply map_size_empty_inv in He. by rewrite He in Hv. }
  assert (returns (if negb (msq =? 0) then do_fill_pool side o msq base quote_asset else mret ()))
    as Hpool by (destruct (negb _); [apply do_fill_pool_returns|apply returns_ret]).
  split.
  - apply (returns_bind (if negb (msq =? 0) then _ else _)); [done|]. intros _ w2.
    run_step. rewrite u_sub_ok by (unfold in_range; lia). run_step. rewrite Hfill. apply Hrest.
  - intros pool' remain' fo' w' Hrun. apply M_bind_inv in Hrun as (u & w2 & Hp & Hrun).
    revert Hrun. run_step. rewrite u_sub_ok by (unfold in_range; lia). run_step. rewrite Hfill.
    intros Hrun. apply Hrest in Hrun.
    assert (∃ es, events w2 = es ++ events w ∧ swapped side es = msq ∧ Pools w2 = Pools w)
      as (es & Hes & Hsw & Hpools).
    { destruct (Z.eqb_spec msq 0) as [->|]; simpl in Hp.
      - injection Hp as _ <-. by exists [].
      - apply do_fill_pool_frame in Hp as (_ & e & He & Hq & ?). exists [e].
        split_and!; [done|simpl; lia|done]. }
    replace remain with (msq + Z.min (remain - msq) (value_total v) + rem2) by (subst rem2; lia).
    eapply loop_post_step; [exact Hes|exact Hsw|exact Hpools|eauto|exact Hbest|exact Hsub
      |exact Hnew|exact Hsum|exact Hrun].
Qed.

Lemma match_loop_spec side o base quote_asset fuel : loop_spec side o base quote_asset fuel.
Proof.
  induction fuel as [|fuel IH]; intros pool remain fo w Hok Hdec Hr Hfuel; cbn [match_loop].
  - destruct (Z.ltb_spec 0 remain) as [Hpos|].
    + destruct Hfuel as [->|Hsz]; lia.
    + split; [done|]. intros pool' remain' fo' w' [= <- <- <- <-].
      apply loop_post_refl; [done|lia|left; lia].
  - destruct (Z.ltb_spec 0 remain) as [Hpos|].
    2:{ split; [done|]. intros pool' remain' fo' w' [= <- <- <- <-].
        apply loop_post_refl; [done|lia|left; lia]. }
    pose proof (next_order_best side pool Hok) as Hbest.
    destruct (if side then next_ask_order pool else next_bid_order pool) as [[price ?]|].
    2:{ split; [done|]. intros pool' remain' fo' w' [= <- <- <- <-].
        apply loop_post_refl; [done|lia|by right]. }
    destruct Hbest as [Hin Hbest]. destruct Hfuel as [->|Hsz]; [lia|].
    rewrite M_bind_run. unfold gets.
    destruct (find_max_swap_quantity_spec w side price pool base quote_asset remain Hdec Hr) as [Hnf Hspec].
    destruct (find_max_swap_quantity w side price pool base quote_asset remain)
      as [msq|e| |] eqn:Hmax; simpl pallet_err; try done.
    destruct (Hspec msq eq_refl) as [Hmsq _].
    destruct (Z.leb_spec remain msq).
    + apply round_pool; [done|lia].
    + apply round_book; [done|done|done|done|lia|done|done|done].
Qed.

Lemma no_fuel_released side pool p q : no_fuel (released_amount side pool p q).
Proof.
  unfold released_amount. destruct side; [done|].
  destruct (decimal_adjustment pool) as [[??]?]. auto 10 with nofuel.
Qed.

Lemma settle_returns side pool a1 a2 o l : returns (settle side pool a1 a2 o l).
Proof.
  induction l as [|[[owner p] q] l IH]; cbn [settle]; [apply returns_ret|].
  unfold on_ledger, pallet_err.
  apply returns_bind; [apply returns_lift, no_fuel_map_err, no_fuel_released|]. intros r.
  destruct side; eauto 10 with nofuel.
Qed.

Lemma settle_frame side pool a1 a2 o l w u w' :
  settle side pool a1 a2 o l w = (Ok u, w') → ∃ l', w' = set_ledger l' w.
Proof.
  revert w. induction l as [|[[owner p] q] l IH]; intros w Hs; cbn [settle] in Hs.
  - inv_call. exists (ledger w'). by destruct w'.
  - inv_call. destruct side; inv_call; subst; apply IH in Hs as [l' ->]; eauto using set_ledger_twice.
Qed.

Lemma do_match_order_spec side o pool base quote_asset q w :
  pool_ok pool → step_ok pool → 0 ≤ q < half - 1 →
  no_fuel (do_match_order side o pool base quote_asset q w).1 ∧
  ∀ pool' w', do_match_order side o pool base quote_asset q w = (Ok pool', w') →
    pool_ok pool' ∧ Pools w' = Pools w ∧
    ∃ fills es w1 w2,
      events w' = OrderMatched o q side :: es ++ events w ∧
      q = swapped side es + filled_sum fills ∧
      StronglySorted (better side) (prices fills) ∧
      (∀ p, p ∈ prices fills → is_Some (book_levels side pool !! p)) ∧
      handle_filled_orders side pool' base quote_asset o fills w1 = (Ok (), w2) ∧
      ledger w' = ledger w2.
Proof.
  intros Hok Hdec Hq. unfold do_match_order.
  destruct (match_loop_spec side o base quote_asset (match_fuel side pool) pool q [] w Hok Hdec Hq)
    as [Hnf Hpost].
  { right. unfold match_fuel. rewrite book_levels_size by done. lia. }
  assert (∀ (pool1 : Pool) fills, returns (handle_filled_orders side pool1 base quote_asset o fills)) as Hh
    by (intros; unfold handle_filled_orders; destruct side; apply settle_returns).
  split.
  - rewrite M_bind_run.
    destruct (match_loop _ _ _ _ _ _ _ _ w) as [[[[pool1 rem] fills]|e| |] w1]; try done.
    apply (returns_bind (if 0 <? rem then _ else _)).
    + destruct (0 <? rem); [apply do_fill_pool_returns|apply returns_ret].
    + eauto 10 using returns_deposit_event with nofuel.
  - intros pool' w' Hrun. apply M_bind_inv in Hrun as ([[pool1 rem] fills] & w1 & Hloop & Hrun).
    apply Hpost in Hloop as (Hok1 & Hend & Hrem & Hpools & new & -> & Hsort & Hin & es & Hev & Hsum).
    inv_call.
    match goal with H : (if 0 <? rem then _ else _) w1 = (_, ?wx) |- _ =>
      assert (∃ es', events wx = es' ++ events w1 ∧ swapped side es' = rem ∧ Pools wx = Pools w1)
        as (es' & Hev' & Hsw & Hp')
        by (destruct (Z.ltb_spec 0 rem);
            [apply do_fill_pool_frame in H as (_ & e & ? & ? & ?); exists [e]; split_and!; [done|simpl; lia|done]
            |inv_call; exists []; split_and!; [done|simpl; lia|done]]) end.
    match goal with H : handle_filled_orders _ _ _ _ _ _ _ = (Ok ?u, _) |- _ =>
      destruct u; rename H into Hset end.
    pose proof Hset as Hset'. unfold handle_filled_orders in Hset'.
    assert (∃ a1 a2, (if side then (base, quote_asset) else (quote_asset, base)) = (a1, a2))
      as (a1 & a2 & Ha) by (destruct side; eauto).
    rewrite Ha in Hset'. apply settle_frame in Hset' as [l' Hl'].
    split_and!; [done|subst; simpl; congruence|].
    exists new, (es' ++ es), x0, x2. subst x2. simpl.
    split_and!; [by rewrite Hev', Hev, app_assoc|rewrite swapped_app; lia|done|done|done|done].
Qed.
End Loop.
