(* ===== verification/Liquidity.v ===== *)
(** * Pools and liquidity

    The dispatchables of [lib.rs] that create a pool, add and remove
    liquidity, and touch the accounts of a pool. *)
From S2P Require Import Prelude Index OrderId Tick OrderBook Errors Amm Locator Assets Config Pool Pallet Matching.
From Stdlib Require Import Bool.
Import PalletError.

Section Liquidity.
Context `{T : Config}.
Implicit Types w : World.

Abbreviation call A := (M World DispatchError A).

(** [if should_touch(..) { touch(..)? }]; tells whether it touched. *)
Definition touch_if_needed (asset : AssetKind) (who depositor : AccountId) : call bool :=
  w ← get;
  if should_touch (ledger w) asset who then
    _ ← on_ledger (touch_asset asset who depositor); mret true
  else mret false.
Definition pool_touch_if_needed (asset : PoolAssetId) (who depositor : AccountId) : call bool :=
  w ← get;
  if pool_should_touch (ledger w) asset who then
    _ ← on_ledger (pool_touch asset who depositor); mret true
  else mret false.

Definition do_create_pool (sender : AccountId) (base_asset : AssetKind) (base_dec : Z)
    (quote_asset : AssetKind) (quote_dec taker_fee tick lot pool_dec : Z) : call () :=
  _ ← require (negb (bool_decide (base_asset = quote_asset))) InvalidAssetPair;
  _ ← require (0 <? tick) InvalidTickSize;
  _ ← require (0 <? lot) InvalidLotSize;
  id ← lift (pallet_err (asset_pair (pool_id base_asset quote_asset)));
  w ← get;
  _ ← require (negb (bool_decide (is_Some (Pools w !! id)))) PoolExists;
  pool_account ← lift (pallet_err (asset_pair (address id)));
  fee ← withdraw PoolSetupFeeAsset sender PoolSetupFee true;
  _ ← modify (λ w, set_ledger (on_unbalanced fee (ledger w)) w);
  _ ← touch_if_needed base_asset pool_account sender;
  _ ← touch_if_needed quote_asset pool_account sender;
  w ← get;
  lp ← lift (pallet_err (ok_or
         (match NextPoolAssetId w with Some n => Some n | None => initial_value end)
         IncorrectPoolAssetId));
  next_lp ← lift (pallet_err (ok_or (increment lp) IncorrectPoolAssetId));
  _ ← modify (set_next_pool_asset_id (Some next_lp));
  _ ← on_ledger (create_asset lp pool_account 1);
  _ ← pool_touch_if_needed lp pool_account sender;
  _ ← modify (λ w, set_pools
        (<[id := Pool_new lp taker_fee tick lot pool_dec base_dec quote_dec]> (Pools w)) w);
  deposit_event (PoolCreated sender id pool_account lp taker_fee tick lot).

(** The amounts to deposit: both as desired for an empty pool, otherwise in
    the ratio of the reserves. *)
Definition deposit_amounts (base_reserve quote_reserve base_desired quote_desired base_min quote_min : Z) :
    outcome Error (Z * Z) :=
  if (base_reserve =? 0) || (quote_reserve =? 0) then Ok (base_desired, quote_desired)
  else
    quote_optimal ← quote base_desired base_reserve quote_reserve;
    if quote_optimal <=? quote_desired then
      _ ← ensure (quote_min <=? quote_optimal) AssetTwoDepositDidNotMeetMinimum;
      Ok (base_desired, quote_optimal)
    else
      base_optimal ← quote quote_desired quote_reserve base_reserve;
      _ ← ensure (base_optimal <=? base_desired) OptimalAmountLessThanDesired;
      _ ← ensure (base_min <=? base_optimal) AssetOneDepositDidNotMeetMinimum;
      Ok (base_optimal, quote_desired).

Definition do_add_liquidity (sender : AccountId) (base_asset quote_asset : AssetKind)
    (base_desired quote_desired base_min quote_min : Z) (mint_to : AccountId) : call () :=
  id ← lift (pallet_err (asset_pair (pool_id base_asset quote_asset)));
  _ ← require ((0 <? base_desired) && (0 <? quote_desired)) WrongDesiredAmount;
  w ← get;
  pool ← lift (pallet_err (ok_or (Pools w !! id) PoolNotFound));
  pool_account ← lift (pallet_err (asset_pair (address id)));
  let base_reserve := get_balance w pool_account base_asset in
  let quote_reserve := get_balance w pool_account quote_asset in
  '(base_amount, quote_amount) ← lift (pallet_err
    (deposit_amounts base_reserve quote_reserve base_desired quote_desired base_min quote_min));
  _ ← require (minimum_balance (ledger w) base_asset <=? saturating_add BITS base_amount base_reserve)
        AmountOneLessThanMinimal;
  _ ← require (minimum_balance (ledger w) quote_asset <=? saturating_add BITS quote_amount quote_reserve)
        AmountTwoLessThanMinimal;
  _ ← on_ledger (transfer base_asset sender pool_account base_amount Preserve);
  _ ← on_ledger (transfer quote_asset sender pool_account quote_amount Preserve);
  w ← get;
  let total_supply := total_issuance (ledger w) (lp_token pool) in
  lp_token_amount ← (if total_supply =? 0 then
                       amount ← lift (pallet_err
                         (calc_lp_amount_for_zero_supply base_amount quote_amount));
                       _ ← on_ledger (mint_into (lp_token pool) pool_account MintMinLiquidity);
                       mret amount
                     else
                       side1 ← lift (pallet_err (mul_div base_amount total_supply base_reserve));
                       side2 ← lift (pallet_err (mul_div quote_amount total_supply quote_reserve));
                       mret (Z.min side1 side2));
  _ ← require (MintMinLiquidity <? lp_token_amount) InsufficientLiquidityMinted;
  _ ← on_ledger (mint_into (lp_token pool) mint_to lp_token_amount);
  deposit_event (LiquidityAdded sender mint_to id base_amount quote_amount
                   (lp_token pool) lp_token_amount).

(** The amounts that redeeming [lp_token_burn] pays out. *)
Definition redeem_amounts (base_reserve quote_reserve total_supply lp_token_burn : Z) :
    outcome Error (Z * Z) :=
  let withdrawal_fee_amount := permill_mul LiquidityWithdrawalFee lp_token_burn in
  let lp_redeem_amount := saturating_sub lp_token_burn withdrawal_fee_amount in
  base_amount ← mul_div lp_redeem_amount base_reserve total_supply;
  quote_amount ← mul_div lp_redeem_amount quote_reserve total_supply;
  Ok (base_amount, quote_amount).

Definition do_remove_liquidity (sender : AccountId) (base_asset quote_asset : AssetKind)
    (lp_token_burn base_min_receive quote_min_receive : Z) (withdraw_to : AccountId) : call () :=
  id ← lift (pallet_err (asset_pair (pool_id base_asset quote_asset)));
  _ ← require (0 <? lp_token_burn) ZeroLiquidity;
  w ← get;
  pool ← lift (pallet_err (ok_or (Pools w !! id) PoolNotFound));
  pool_account ← lift (pallet_err (asset_pair (address id)));
  let base_reserve := get_balance w pool_account base_asset in
  let quote_reserve := get_balance w pool_account quote_asset in
  let total_supply := total_issuance (ledger w) (lp_token pool) in
  '(base_amount, quote_amount) ← lift (pallet_err
    (redeem_amounts base_reserve quote_reserve total_supply lp_token_burn));
  _ ← require (negb (base_amount =? 0) && (base_min_receive <=? base_amount))
        AssetOneWithdrawalDidNotMeetMinimum;
  _ ← require (negb (quote_amount =? 0) && (quote_min_receive <=? quote_amount))
        AssetTwoWithdrawalDidNotMeetMinimum;
  let base_reserve_left := saturating_sub base_reserve base_amount in
  let quote_reserve_left := saturating_sub quote_reserve quote_amount in
  _ ← require (minimum_balance (ledger w) base_asset <=? base_reserve_left) ReserveLeftLessThanMinimal;
  _ ← require (minimum_balance (ledger w) quote_asset <=? quote_reserve_left) ReserveLeftLessThanMinimal;
  _ ← on_ledger (burn_from (lp_token pool) sender lp_token_burn);
  _ ← on_ledger (transfer base_asset pool_account withdraw_to base_amount Expendable);
  _ ← on_ledger (transfer quote_asset pool_account withdraw_to quote_amount Expendable);
  deposit_event (LiquidityRemoved sender withdraw_to id base_amount quote_amount
                   (lp_token pool) lp_token_burn LiquidityWithdrawalFee).

(** Returns the number of accounts touched, which sets the weight. *)
Definition do_touch (who : AccountId) (base_asset quote_asset : AssetKind) : call Z :=
  id ← lift (pallet_err (asset_pair (pool_id base_asset quote_asset)));
  w ← get;
  pool ← lift (pallet_err (ok_or (Pools w !! id) PoolNotFound));
  pool_account ← lift (pallet_err (asset_pair (address id)));
  t1 ← touch_if_needed base_asset pool_account who;
  t2 ← touch_if_needed quote_asset pool_account who;
  t3 ← pool_touch_if_needed (lp_token pool) pool_account who;
  _ ← deposit_event (Touched id who);
  mret ((if (t1 : bool) then 1 else 0) + (if (t2 : bool) then 1 else 0)
        + (if (t3 : bool) then 1 else 0)).

Definition create_pool (origin : option AccountId) (base_asset : AssetKind) (base_dec : Z)
    (quote_asset : AssetKind) (quote_dec taker_fee tick lot pool_dec : Z) : call () :=
  with_storage_layer (
    sender ← lift (ensure_signed origin);
    do_create_pool sender base_asset base_dec quote_asset quote_dec taker_fee tick lot pool_dec).

Definition add_liquidity (origin : option AccountId) (base_asset quote_asset : AssetKind)
    (base_desired quote_desired base_min quote_min : Z) (mint_to : AccountId) : call () :=
  with_storage_layer (
    sender ← lift (ensure_signed origin);
    do_add_liquidity sender base_asset quote_asset base_desired quote_desired
      base_min quote_min mint_to).

Definition remove_liquidity (origin : option AccountId) (base_asset quote_asset : AssetKind)
    (lp_token_burn base_min_receive quote_min_receive : Z) (withdraw_to : AccountId) : call () :=
  with_storage_layer (
    sender ← lift (ensure_signed origin);
    do_remove_liquidity sender base_asset quote_asset lp_token_burn
      base_min_receive quote_min_receive withdraw_to).

Definition touch (origin : option AccountId) (base_asset quote_asset : AssetKind) : call Z :=
  with_storage_layer (
    who ← lift (ensure_signed origin);
    do_touch who base_asset quote_asset).
End Liquidity.
