(* ===== verification/LiquidityFacts.v ===== *)
(** * What adding and removing liquidity does

    Deposits follow the ratio of the reserves and respect the limits of the
    caller; the shares handed out are not worth more than what was paid in;
    a withdrawal pays at most the proportional share and leaves the pool above
    the minimum balances. *)
From S2P Require Import Prelude Index OrderId Tick OrderBook Errors Amm Locator Assets Config Pool Pallet PalletFacts Matching Liquidity.
From Stdlib Require Import Bool.
Import PalletError.

Section LiquidityFacts.
Context `{T : Config}.
Implicit Types w : World.

Lemma deposit_amounts_Ok rb rq bd qd bm qm b q :
  0 < rb → 0 < rq → 0 ≤ bd → 0 ≤ qd →
  deposit_amounts rb rq bd qd bm qm = Ok (b, q) →
  (b = bd ∧ q * rb ≤ bd * rq < (q + 1) * rb ∧ qm ≤ q ≤ qd) ∨
  (q = qd ∧ b * rq ≤ qd * rb < (b + 1) * rq ∧ bm ≤ b ≤ bd).
Proof.
  intros Hrb Hrq Hbd Hqd. unfold deposit_amounts.
  destruct (Z.eqb_spec rb 0); [lia|]. destruct (Z.eqb_spec rq 0); [lia|]. cbn [orb].
  intros Hd. inv_call. destruct (Z.leb_spec x qd).
  - inv_call. simplify_eq. left. split; [done|].
    match goal with H : quote _ _ _ = Ok _ |- _ => apply mul_div_floor in H; [|done] end.
    match goal with H : (_ <=? _) = true |- _ => apply Z.leb_le in H end. lia.
  - inv_call. simplify_eq. right. split; [done|].
    repeat match goal with
    | H : quote _ _ _ = Ok _ |- _ => apply mul_div_floor in H; [|done]
    | H : (_ <=? _) = true |- _ => apply Z.leb_le in H
    end. lia.
Qed.

Lemma deposit_amounts_first rb rq bd qd bm qm :
  rb = 0 ∨ rq = 0 → deposit_amounts rb rq bd qd bm qm = Ok (bd, qd).
Proof.
  intros Hz. unfold deposit_amounts.
  destruct (Z.eqb_spec rb 0), (Z.eqb_spec rq 0); cbn [orb]; done || lia.
Qed.

Lemma redeem_amounts_Ok rb rq supply burn b q :
  0 < supply → 0 ≤ permill_mul LiquidityWithdrawalFee burn ≤ burn → 0 ≤ rb → 0 ≤ rq →
  redeem_amounts rb rq supply burn = Ok (b, q) →
  0 ≤ b ∧ 0 ≤ q ∧ b * supply ≤ burn * rb ∧ q * supply ≤ burn * rq.
Proof.
  intros Hs Hfee Hrb Hrq. unfold redeem_amounts, saturating_sub. intros Hr. inv_call.
  rewrite Z.max_l in * by lia.
  repeat match goal with H : mul_div _ _ _ = Ok _ |- _ =>
    pose proof (proj1 (mul_div_Ok _ _ _ _) H) as (_ & _ & _ & [? _]);
    apply mul_div_floor in H; [|done] end.
  split_and!; nia.
Qed.

(** The new pool is registered once, empty and with a positive tick and lot. *)
Lemma create_pool_Ok sender base bd quote_asset qd fee tick lot pd w w' :
  do_create_pool sender base bd quote_asset qd fee tick lot pd w = (Ok (), w') →
  base ≠ quote_asset ∧ 0 < tick ∧ 0 < lot ∧
  ∃ id lp, pool_id base quote_asset = Some id ∧ Pools w !! id = None ∧
    Pools w' = <[id := Pool_new lp fee tick lot pd bd qd]> (Pools w) ∧
    NextPoolAssetId w' = increment lp ∧ is_Some (increment lp) ∧
    (match NextPoolAssetId w with Some n => Some n | None => initial_value end) = Some lp.
Proof.
  assert (∀ a who d v v' b, touch_if_needed a who d v = (Ok b, v') → ∃ l, v' = set_ledger l v) as Ht.
  { intros a who d v v' b Hv. unfold touch_if_needed in Hv. inv_call.
    destruct (should_touch _ _ _) in Hv; inv_call; [eauto|]. exists (ledger v'). by destruct v'. }
  assert (∀ a who d v v' b, pool_touch_if_needed a who d v = (Ok b, v') → ∃ l, v' = set_ledger l v) as Hpt.
  { intros a who d v v' b Hv. unfold pool_touch_if_needed in Hv. inv_call.
    destruct (pool_should_touch _ _ _) in Hv; inv_call; [eauto|]. exists (ledger v'). by destruct v'. }
  assert (∀ a who v k x c x', withdraw a who v k x = (Ok c, x') → ∃ l, x' = set_ledger l x) as Hw.
  { intros a who v k x c x' Hx. unfold withdraw in Hx. destruct k; simpl in Hx; inv_call; eauto. }
  unfold do_create_pool. intros Hc. inv_call. subst.
  repeat match goal with
  | H : touch_if_needed _ _ _ _ = _ |- _ => apply Ht in H as [? ->]
  | H : pool_touch_if_needed _ _ _ _ = _ |- _ => apply Hpt in H as [? ->]
  | H : withdraw _ _ _ _ _ = _ |- _ => apply Hw in H as [? ->]
  | H : (_ <? _) = true |- _ => apply Z.ltb_lt in H
  | H : negb (bool_decide _) = true |- _ => apply negb_true_iff, bool_decide_eq_false in H
  end.
  split_and!; [done|done|done|]. simpl in *.
  eexists _, _. split_and!; [done|by apply eq_None_not_Some|done|done|by eexists|done].
Qed.
Context `{HF : !FungiblesLaws AccountId AssetKind Ledger}.
Context `{HP : !PoolFungiblesLaws AccountId AssetKind PoolAssetId Ledger}.

(** Two assets move from one account to another. *)
Definition pair_moved (base quote_asset : AssetKind) (src dst : AccountId) (b q : Z) (l l' : Ledger) : Prop :=
  frozen l' = frozen l ∧
  ∀ a z, balance l' a z =
    balance l a z - moved (base, src) (a, z) b - moved (quote_asset, src) (a, z) q
    + moved (base, dst) (a, z) b + moved (quote_asset, dst) (a, z) q.

Lemma transfer_pair base quote_asset src dst b q p l l1 l2 :
  transfer base src dst b p l = (Ok (), l1) → transfer quote_asset src dst q p l1 = (Ok (), l2) →
  (p = Expendable → no_dust l base src b ∧ no_dust l1 quote_asset src q) →
  pair_moved base quote_asset src dst b q l l2 ∧ total_issuance l2 = total_issuance l.
Proof.
  intros H1 H2 Hd. pose proof (transfer_other_law _ _ _ _ _ _ _ H1) as [Hi1 _].
  pose proof (transfer_other_law _ _ _ _ _ _ _ H2) as [Hi2 _].
  apply transfer_law in H1 as (_ & Hf1 & Hb1); [|intros Hp; apply (Hd Hp)].
  apply transfer_law in H2 as (_ & Hf2 & Hb2); [|intros Hp; apply (Hd Hp)].
  split; [|congruence]. split; [congruence|]. intros a z. rewrite Hb2, Hb1. lia.
Qed.

Lemma transfer_pair_left base quote_asset src dst b q p l l1 l2 :
  base ≠ quote_asset →
  transfer base src dst b p l = (Ok (), l1) → transfer quote_asset src dst q p l1 = (Ok (), l2) →
  minimum_balance l base ≤ balance l base src - b →
  minimum_balance l quote_asset ≤ balance l quote_asset src - q →
  pair_moved base quote_asset src dst b q l l2 ∧ total_issuance l2 = total_issuance l.
Proof.
  intros Hne H1 H2 Hmb Hmq. apply (transfer_pair _ _ _ _ _ _ _ _ _ _ H1 H2). intros _.
  assert (no_dust l base src b) as Hd by (by right). split; [done|right].
  pose proof (transfer_other_law _ _ _ _ _ _ _ H1) as [_ ->].
  apply transfer_law in H1 as (_ & _ & Hb1); [|by intros _].
  rewrite Hb1. unfold moved. repeat case_decide; simplify_eq; lia.
Qed.

Lemma add_liquidity_Ok sender base quote_asset bd qd bm qm mint_to w w' :
  do_add_liquidity sender base quote_asset bd qd bm qm mint_to w = (Ok (), w') →
  ∃ id pool pa b q lp,
    pool_id base quote_asset = Some id ∧ Pools w !! id = Some pool ∧ address id = Some pa ∧
    0 < bd ∧ 0 < qd ∧
    deposit_amounts (get_balance w pa base) (get_balance w pa quote_asset) bd qd bm qm = Ok (b, q) ∧
    pair_moved base quote_asset sender pa b q (ledger w) (ledger w') ∧ Pools w' = Pools w ∧
    MintMinLiquidity < lp ∧
    let supply := total_issuance (ledger w) (lp_token pool) in
    let supply' := total_issuance (ledger w') (lp_token pool) in
    if supply =? 0
    then calc_lp_amount_for_zero_supply b q = Ok lp ∧ supply' = MintMinLiquidity + lp
    else ∃ s1 s2, mul_div b supply (get_balance w pa base) = Ok s1 ∧
           mul_div q supply (get_balance w pa quote_asset) = Ok s2 ∧ lp = Z.min s1 s2 ∧
           supply' = supply + lp.
Proof.
  unfold do_add_liquidity. intros Hrun. inv_call. subst. simpl in *.
  repeat match goal with H : _ && _ = true |- _ => apply andb_true_iff in H as [?%Z.ltb_lt ?%Z.ltb_lt] end.
  match goal with H1 : transfer base _ _ _ _ _ = (Ok ?u, _), H2 : transfer quote_asset _ _ _ _ _ = (Ok ?u', _) |- _ =>
    destruct u, u'; destruct (transfer_pair _ _ _ _ _ _ _ _ _ _ H1 H2) as [Hmv Hiss]; [done|] end.
  match goal with H : mint_into _ mint_to ?v _ = (Ok ?u, _) |- _ =>
    destruct u; apply mint_law in H as (Hb & Hf & Hi); rename v into lp end.
  match goal with H : Pools _ !! ?i = Some ?p, H' : deposit_amounts _ _ _ _ _ _ = Ok (?b, ?q),
    Ha : address _ = Some ?pa |- _ => exists i, p, pa, b, q, lp end.
  match goal with H : (MintMinLiquidity <? lp) = true |- _ => apply Z.ltb_lt in H end.
  unfold pair_moved in *. destruct Hmv as [Hmf Hmv]. rewrite Hiss in *.
  destruct (total_issuance _ _ =? 0) eqn:Hz; inv_call; subst; simpl in *.
  - match goal with H : mint_into _ _ MintMinLiquidity _ = (Ok ?u, _) |- _ =>
      destruct u; apply mint_law in H as (Hb' & Hf' & Hi') end.
    apply Z.eqb_eq in Hz. split_and!; try done; [congruence|by rewrite Hb, Hb'|].
    rewrite Hi, Hi', Hiss. lia.
  - split_and!; try done; [congruence|by rewrite Hb|].
    eexists _, _. split_and!; [eassumption|eassumption|done|congruence].
Qed.

(** Nothing is left as dust: the reserve left is above the minimum. *)
Lemma remove_liquidity_Ok sender base quote_asset burn bm qm to w w' :
  do_remove_liquidity sender base quote_asset burn bm qm to w = (Ok (), w') →
  base ≠ quote_asset →
  ∃ id pool pa b q,
    pool_id base quote_asset = Some id ∧ Pools w !! id = Some pool ∧ address id = Some pa ∧
    0 < burn ∧
    redeem_amounts (get_balance w pa base) (get_balance w pa quote_asset)
      (total_issuance (ledger w) (lp_token pool)) burn = Ok (b, q) ∧
    bm ≤ b ∧ qm ≤ q ∧ Pools w' = Pools w ∧
    (0 ≤ balance (ledger w) base pa → 0 ≤ balance (ledger w) quote_asset pa →
     0 < minimum_balance (ledger w) base → 0 < minimum_balance (ledger w) quote_asset →
     pair_moved base quote_asset pa to b q (ledger w) (ledger w') ∧
     total_issuance (ledger w') (lp_token pool) = total_issuance (ledger w) (lp_token pool) - burn ∧
     minimum_balance (ledger w) base ≤ get_balance w pa base - b ∧
     minimum_balance (ledger w) quote_asset ≤ get_balance w pa quote_asset - q).
Proof.
  unfold do_remove_liquidity. intros Hrun Hne. inv_call. subst. simpl in *.
  unfold saturating_sub in *.
  repeat match goal with
  | H : _ && _ = true |- _ => apply andb_true_iff in H as [? ?%Z.leb_le]
  | H : (_ <? _) = true |- _ => apply Z.ltb_lt in H
  | H : (_ <=? _) = true |- _ => apply Z.leb_le in H
  end.
  match goal with H : burn_from _ _ _ _ = (Ok ?u, _) |- _ =>
    destruct u; apply burn_law in H as (Hb & Hf & Hi & Hm) end.
  match goal with H : Pools _ !! ?i = Some ?p, H' : redeem_amounts _ _ _ _ = Ok (?x, ?y),
    Ha : address _ = Some ?z |- _ =>
    exists i, p, z, x, y; rename z into pa, x into b, y into q end.
  split_and!; try done. intros Hbb Hbq Hmb Hmq.
  match goal with |- context [get_balance ?w pa base] =>
    pose proof (get_balance_bounds w pa base Hbb); pose proof (get_balance_bounds w pa quote_asset Hbq) end.
  match goal with H1 : transfer base _ _ _ _ _ = (Ok ?u, _), H2 : transfer quote_asset _ _ _ _ _ = (Ok ?u', _) |- _ =>
    destruct u, u'; destruct (transfer_pair_left _ _ _ _ _ _ _ _ _ _ Hne H1 H2) as [[Hmf Hmv] Hiss];
    [rewrite Hm, Hb; lia..|] end.
  rewrite Hb in Hmv. split_and!; [split; [congruence|done]|congruence|lia|lia].
Qed.
End LiquidityFacts.
