(* ===== verification/OrderFacts.v ===== *)
(** * Placing, cancelling and the decision between matching and placing

    What a limit order does on success: it is valid, it is matched when its
    price crosses the pool price and placed otherwise; a placed order freezes
    the maker's asset and joins the end of its level. *)
From S2P Require Import Prelude Index CritbitOps OrderId Tick OrderBook Errors Amm Locator Assets Config Pool Pallet PalletFacts Matching SearchFacts MatchFacts.
From Stdlib Require Import Bool.
Import PalletError.

Section OrderFacts.
Context `{T : Config, HO : !OrderInterface AccountId Level, HL : !OrderInterfaceLaws AccountId Level}.
Context `{HB : !OrderBookLaws AccountId Level BookError Book}.
Implicit Types (w : World) (pool : Pool) (side : bool).

(** A successful placement had an id and an index to use. *)
Lemma pool_place_order_Ok current side o price q pool r pool' :
  pool_ok pool → in_range BITS price → in_range BITS q →
  pool_place_order current side o price q pool = (Ok r, pool') →
  ∃ e, u_add (E:=Error) 32 current OrderExpiration = Ok e ∧
    let id := if side then next_bid_id pool else next_ask_id pool in
    r = (price, id) ∧ is_bid id = side ∧ pool_ok pool' ∧
    base_decimals pool' = base_decimals pool ∧
    levels (get_orderbook pool' side) =
      levels_place id o price q e (levels (get_orderbook pool side)) ∧
    get_orderbook pool' (negb side) = get_orderbook pool (negb side).
Proof.
  intros Hok Hp Hq. unfold pool_place_order. intros Hrun.
  apply M_bind_inv in Hrun as (e & s1 & He & Hrun). unfold lift in He. injection He as He <-.
  exists e. split; [done|]. cbv zeta.
  pose proof Hok as (Hb & Ha & [Hbi Hbb] & (Hai & Ham & Hab) & _).
  apply M_bind_inv in Hrun as (id & s1 & Hrun & Hret). injection Hret as <- <-.
  destruct side; apply M_bind_inv in Hrun as (id' & s2 & Hid' & Hrun);
    apply M_bind_inv in Hrun as (u & s3 & Hz & Hret); injection Hret as <- <-.
  - rewrite next_bid_order_id_spec in Hid' by done.
    destruct (Z.eqb_spec (order_id_value (next_bid_id pool)) (last_id true)) as [|Hid]; [done|].
    injection Hid' as <- <-. unfold zoom, map_err_M in Hz. simpl in Hz.
    destruct (place_order _ _ _ _ _ _) as [[[]|?| |] b'] eqn:Hpl in Hz; simpl in Hz; [|done..].
    injection Hz as _ <-.
    pose proof (place_order_room_law _ _ _ _ _ _ _ Hb Hpl) as Hroom.
    destruct (place_order_law (next_bid_id pool) o price q e (bids pool) Hb Hp Hq Hroom)
      as (b2 & Hpl2 & Hok2 & Hl). rewrite Hpl in Hpl2. injection Hpl2 as <-.
    split_and!; [done|done| |done|done|done].
    apply (set_counter_book_ok false b'); [done|]. by apply set_next_bid_ok.
  - rewrite next_ask_order_id_spec in Hid' by done.
    destruct (Z.eqb_spec (order_id_value (next_ask_id pool)) (last_id false)) as [|Hid]; [done|].
    injection Hid' as <- <-. unfold zoom, map_err_M in Hz. simpl in Hz.
    destruct (place_order _ _ _ _ _ _) as [[[]|?| |] b'] eqn:Hpl in Hz; simpl in Hz; [|done..].
    injection Hz as _ <-.
    pose proof (place_order_room_law _ _ _ _ _ _ _ Ha Hpl) as Hroom.
    destruct (place_order_law (next_ask_id pool) o price q e (asks pool) Ha Hp Hq Hroom)
      as (b2 & Hpl2 & Hok2 & Hl). rewrite Hpl in Hpl2. injection Hpl2 as <-.
    split_and!; [done|done| |done|done|done].
    apply (set_counter_book_ok true b'); [done|]. by apply set_next_ask_ok.
Qed.

(** What a placed order freezes: the quote for a bid, the base for an ask. *)
Definition freeze_amount side pool (price q : Z) : outcome Error Z :=
  if side then
    let '(p_adj, _, q_adj) := decimal_adjustment pool in
    product ← u_mul BITS price q;
    adj ← u_add 8 (default 0 p_adj) (default 0 q_adj);
    denom product adj
  else Ok q.

Lemma do_place_order_Ok `{HF : !FungiblesLaws AccountId AssetKind Ledger}
    side id pool maker base quote_asset price q w pool' w' :
  pool_ok pool → in_range BITS price → in_range BITS q →
  do_place_order side id pool maker base quote_asset price q w = (Ok pool', w') →
  ∃ amount oid e,
    freeze_amount side pool price q = Ok amount ∧ is_bid oid = side ∧ pool_ok pool' ∧
    levels (get_orderbook pool' side) =
      levels_place oid maker price q e (levels (get_orderbook pool side)) ∧
    get_orderbook pool' (negb side) = get_orderbook pool (negb side) ∧
    events w' = LimitOrderPlaced maker price id oid q side :: events w ∧
    Pools w' = Pools w ∧ balance (ledger w') = balance (ledger w) ∧
    ∀ a z, frozen (ledger w') a z =
      frozen (ledger w) a z + moved (if side then quote_asset else base, maker) (a, z) amount.
Proof.
  intros Hok Hp Hq. unfold do_place_order, freeze_amount, freeze_asset.
  destruct (decimal_adjustment pool) as [[p_adj b_adj] q_adj]. intros Hrun.
  apply M_bind_inv in Hrun as (u & w1 & Hfr & Hrun).
  assert (∃ amount l, (if side then
            product ← u_mul BITS price q;
            adj ← u_add 8 (default 0 p_adj) (default 0 q_adj); denom product adj
          else Ok (E:=Error) q) = Ok amount ∧ w1 = set_ledger l w ∧
          increase_frozen (if side then quote_asset else base) maker amount (ledger w) = (Ok (), l))
    as (amount & l & Hamt & -> & Hinc).
  { destruct side; inv_call; subst; destruct u.
    - eexists _, _. split_and!; [|done|exact Hfr].
      repeat match goal with H : u_mul _ _ _ = Ok _ |- _ => rewrite H; clear H
             | H : u_add _ _ _ = Ok _ |- _ => rewrite H; clear H end. done.
    - eexists _, _. by split_and!. }
  apply increase_frozen_law in Hinc as [Hbal Hfz].
  apply M_bind_inv in Hrun as (w0 & w2 & Hget & Hrun). unfold get in Hget. simplify_eq.
  destruct (pool_place_order _ side maker price q pool) as [r pool2] eqn:Hpl.
  inv_call. subst.
  apply pool_place_order_Ok in Hpl as (e & _ & Hr & Hs & Hok' & _ & Hl & Ho); [|done..].
  simplify_eq. simpl. by eexists amount, _, e; split_and!.
Qed.

(** A successful mutation of a pool. *)
Lemma mutate_pool_Ok id (f : Pool → M World DispatchError Pool) w w' :
  mutate_pool id f w = (Ok (), w') →
  ∃ pool pool' w1, Pools w !! id = Some pool ∧ f pool w = (Ok pool', w1) ∧
    w' = set_pools (<[id := pool']> (Pools w1)) w1.
Proof.
  unfold mutate_pool. intros Hm.
  apply M_bind_inv in Hm as (w1 & w2 & Hg & Hm). unfold get in Hg. injection Hg as <- <-.
  apply M_bind_inv in Hm as (pool & w2 & Hp & Hm). unfold lift in Hp. injection Hp as Hp <-.
  apply pallet_err_Ok, ok_or_Ok_inv in Hp.
  apply M_bind_inv in Hm as (pool' & w2 & Hrun & Hm).
  unfold modify in Hm. injection Hm as <-. eauto 10.
Qed.

(** Prices and quantities are multiples of the tick and lot sizes. *)
Definition order_valid pool (price q : Z) : Prop :=
  0 < price ∧ (tick_size pool | price) ∧ lot_size pool ≤ q ∧ (lot_size pool | q).

Lemma do_limit_order_Ok side maker price q base quote_asset w w' :
  (∀ id pool, Pools w !! id = Some pool → pool_ok pool) →
  do_limit_order maker price q side base quote_asset w = (Ok (), w') →
  ∃ id pool b_r q_r current pool' w1,
    pool_id base quote_asset = Some id ∧ Pools w !! id = Some pool ∧ order_valid pool price q ∧
    get_reserves w base quote_asset = Ok (b_r, q_r) ∧ pool_price pool b_r q_r = Ok current ∧
    (if (if side then current <=? price else price <=? current)
     then do_match_order side maker pool base quote_asset q w
     else do_place_order side id pool maker base quote_asset price q w) = (Ok pool', w1) ∧
    ledger w' = ledger w1 ∧ events w' = LimitOrder id maker price q side :: events w1 ∧
    Pools w' = <[id := pool']> (Pools w1).
Proof.
  intros Hok Hl. unfold do_limit_order in Hl.
  apply M_bind_inv in Hl as (id & w2 & Hid & Hl). unfold lift in Hid. injection Hid as Hid <-.
  apply pallet_err_Ok, asset_pair_Ok in Hid.
  apply mutate_pool_Ok in Hl as (pool & pool' & w1 & Hpool & Hf & ->).
  pose proof (Hok _ _ Hpool) as (_ & _ & _ & _ & Ht & Hlot).
  destruct (is_valid_order_price_spec pool price Ht) as (bp & Hbp & Hvp).
  destruct (is_valid_order_quantity_spec pool q Hlot) as (bq & Hbq & Hvq).
  apply M_bind_inv in Hf as ([b_r q_r] & w2 & Hg & Hf). unfold gets in Hg. injection Hg as Hg <-.
  apply pallet_err_Ok in Hg.
  apply M_bind_inv in Hf as (current & w2 & Hc & Hf). unfold lift in Hc. injection Hc as Hc <-.
  apply pallet_err_Ok, map_err_Ok_inv in Hc.
  rewrite Hbp, Hbq in Hf. inv_call. subst.
  destruct (proj1 Hvp eq_refl). destruct (proj1 Hvq eq_refl).
  match goal with H : (if ?c then _ else _) ?v = (Ok ?p, ?w1) |- _ =>
    assert ((if c then do_match_order side maker pool base quote_asset q v
             else do_place_order side id pool maker base quote_asset price q v) = (Ok p, w1))
      by (by destruct c); exists id, pool, b_r, q_r, current, p, w1 end.
  by split_and!.
Qed.

Lemma do_market_order_Ok side taker base quote_asset q w w' :
  (∀ id pool, Pools w !! id = Some pool → pool_ok pool) →
  do_market_order side taker base quote_asset q w = (Ok (), w') →
  ∃ id pool pool' w1,
    pool_id base quote_asset = Some id ∧ Pools w !! id = Some pool ∧
    0 < q ∧ lot_size pool ≤ q ∧ (lot_size pool | q) ∧
    do_match_order side taker pool base quote_asset q w = (Ok pool', w1) ∧
    ledger w' = ledger w1 ∧ events w' = MarketOrder taker :: events w1 ∧
    Pools w' = <[id := pool']> (Pools w1).
Proof.
  intros Hok Hm. unfold do_market_order in Hm.
  apply M_bind_inv in Hm as (u & w2 & Hq & Hm). apply require_Ok in Hq as [Hq%Z.ltb_lt ->].
  apply M_bind_inv in Hm as (id & w2 & Hid & Hm). unfold lift in Hid. injection Hid as Hid <-.
  apply pallet_err_Ok, asset_pair_Ok in Hid.
  apply mutate_pool_Ok in Hm as (pool & pool' & w1 & Hpool & Hf & ->).
  pose proof (Hok _ _ Hpool) as (_ & _ & _ & _ & _ & Hlot).
  destruct (is_valid_order_quantity_spec pool q Hlot) as (bq & Hbq & Hvq).
  rewrite Hbq in Hf. inv_call. subst. destruct (proj1 Hvq eq_refl).
  match goal with H : do_match_order _ _ _ _ _ _ _ = (Ok ?p, ?w1) |- _ =>
    exists id, pool, p, w1 end. by split_and!.
Qed.
End OrderFacts.

(** ** Settlement of an ask, and what a bid releases *)
Section AskSettlement.
Context `{T : Config, HF : !FungiblesLaws AccountId AssetKind Ledger}.
Implicit Types (w : World) (pool : Pool).

Lemma settle_ask_Ok pool a1 a2 o ow p q w w' :
  settle false pool a1 a2 o [(ow, p, q)] w = (Ok (), w') →
  ∃ r, freeze_amount true pool p q = Ok r ∧
    (∀ a z, frozen (ledger w') a z = frozen (ledger w) a z - moved (a1, ow) (a, z) r) ∧
    ∀ a z, balance (ledger w') a z =
      balance (ledger w) a z - moved (a1, ow) (a, z) r - moved (a2, o) (a, z) q
      + moved (a1, o) (a, z) r + moved (a2, ow) (a, z) q.
Proof.
  intros Hs. cbn [settle] in Hs. apply M_bind_inv in Hs as (r & w1 & Hr & Hs).
  unfold lift in Hr. injection Hr as Hr <-. apply pallet_err_Ok in Hr.
  exists r. split.
  { unfold released_amount, freeze_amount in *.
    destruct (decimal_adjustment pool) as [[p_adj b_adj] q_adj]. exact Hr. }
  inv_call. subst. simpl in *.
  repeat match goal with
  | H : decrease_frozen _ _ _ _ = (Ok ?u, _) |- _ => destruct u; apply decrease_frozen_law in H as [Hb Hf]
  | H : transfer _ _ _ _ _ _ = (Ok ?u, _) |- _ => destruct u; apply transfer_law in H as (_ & ? & ?); [|done]
  end.
  split; intros a z.
  - rewrite <-Hf. congruence.
  - repeat match goal with H : ∀ _ _, balance _ _ _ = _ |- _ => rewrite H; clear H end.
    rewrite Hb. lia.
Qed.

(** Rounding down never releases more in parts than was frozen at once. *)
Lemma freeze_amount_parts pool p q1 q2 r1 r2 r :
  0 ≤ default 0 (decimal_adjustment pool).1.1 → 0 ≤ default 0 (decimal_adjustment pool).2 →
  in_range BITS (p * (q1 + q2)) → 0 ≤ p → 0 ≤ q1 → 0 ≤ q2 →
  freeze_amount true pool p q1 = Ok r1 → freeze_amount true pool p q2 = Ok r2 →
  freeze_amount true pool p (q1 + q2) = Ok r → r1 + r2 ≤ r ≤ r1 + r2 + 1.
Proof.
  unfold freeze_amount. destruct (decimal_adjustment pool) as [[p_adj b_adj] q_adj]. simpl.
  intros Hpa Hqa Hr Hp Hq1 Hq2.
  rewrite !u_mul_ok by (unfold in_range in *; nia). run_step. intros H1 H2 H3.
  destruct (u_add 8 _ _) as [d| | |]; [|done..]. unfold denom in *.
  cbn [mbind outcome_bind] in *.
  destruct (pow10 d) as [f| | |] eqn:Hf; [|done..]. cbn [mbind outcome_bind] in *.
  unfold u_div in *. destruct (Z.eqb_spec f 0); [done|]. simplify_eq.
  assert (0 < f).
  { apply overflowing_range in Hf; [unfold in_range in Hf; lia|done]. }
  pose proof (Z.div_mod (p * q1) f ltac:(lia)). pose proof (Z.mod_pos_bound (p * q1) f ltac:(lia)).
  pose proof (Z.div_mod (p * q2) f ltac:(lia)). pose proof (Z.mod_pos_bound (p * q2) f ltac:(lia)).
  split.
  - apply Z.div_le_lower_bound; nia.
  - apply Z.lt_succ_r, Z.div_lt_upper_bound; nia.
Qed.
End AskSettlement.
