(* ===== verification/Devnet.v ===== *)
(** * A concrete runtime

    The configuration of the runtime (its constants, the critbit tree of
    ticks as the order book, [BaseQuoteAsset] as the locator) over the [Bank]
    ledger, and a small chain state.  The witnesses of the theorems that
    have hypotheses run on it. *)
From S2P Require Import Prelude Weights Runtime Index Critbit OrderId Tick OrderBook Errors Amm Locator Assets Config Pool Pallet Matching Liquidity.

Definition devnet_amm : AmmConfig := {|
  LPFee := Params.LPFee;
  MintMinLiquidity := Params.MintMinLiquidity;
  integer_sqrt := Z.sqrt
|}.

(** Pool accounts are numbers derived from the pair, apart from each other and
    from user accounts; that of (1, 2) is 1036. *)
Definition devnet_derive (id : Z * Z) : option Z := Some (1000 + Z.pos (encode id)).

(** A runtime built with or without overflow checks. *)
Definition devnet (checks : bool) : Config :=
  let idx := u128 in
  let prof := {| overflow_checks := checks |} in {|
  AccountId := Z;
  AssetKind := Z;
  PoolId := Z * Z;
  PoolAssetId := Z;
  Book := CritbitTree (Tick Z);
  Level := Tick Z;
  BookError := CritbitTreeError;
  Ledger := Bank.t;
  Unit := idx;
  profile := prof;
  amm := devnet_amm;
  Assets := Bank.bank_fungibles;
  PoolAssets := Bank.bank_pool_fungibles;
  Locator := BaseQuoteAsset devnet_derive;
  OrderBook_impl := @CritbitTree_OrderBook idx prof Z (Tick Z) (@Tick_OrderInterface idx prof Z _);
  PoolSetupFee := Params.PoolSetupFee;
  PoolSetupFeeAsset := 0;
  OrderExpiration := Params.OrderExpiration;
  LiquidityWithdrawalFee := Params.LiquidityWithdrawalFee;
  permill_mul := λ p x, p * x / 1000000;
  MaxSwapPathLength := Params.MaxSwapPathLength;
  initial_value := Some 0;
  increment := λ n, Some (n + 1)
|}.

(** Assets: 0 pays the setup fee, 1 is a base and 2 a quote asset. *)
Definition alice : Z := 1.
Definition bob : Z := 2.
Definition genesis_ledger : Bank.t :=
  Bank.mk (list_to_map [((0, alice), 10 ^ 12); ((1, alice), 10 ^ 9); ((2, alice), 10 ^ 9);
                        ((1, bob), 10 ^ 9); ((2, bob), 10 ^ 9)]) ∅ ∅ ∅.
Definition genesis (checks : bool) : @World (devnet checks) :=
  mkWorld (devnet checks) genesis_ledger ∅ None 1 [].

(** Alice creates the pool (1, 2), decimals 0, and adds liquidity. *)
Definition with_pool_dec (checks : bool) (dec : Z) : @World (devnet checks) :=
  ((_ ← create_pool (T:=devnet checks) (Some alice) 1 dec 2 dec 0 1 1 0;
    add_liquidity (T:=devnet checks) (Some alice) 1 2 1000000 2000000 1 1 alice) (genesis checks)).2.
Definition with_pool (checks : bool) : @World (devnet checks) := with_pool_dec checks 0.
