(* ===== verification/Mock.v ===== *)
(** * The test runtime

    [mock.rs]: the pallet over 64-bit amounts with assets that are the native
    token or have an id.  The registries of assets, the derivation of pool
    accounts, [Permill] and the integer square root are the library's:
    parameters of the configuration.  The unit tests that run on it are not
    modelled: they call those registries and the assertions of the library. *)
From S2P Require Import Prelude Index Critbit OrderId Tick OrderBook Errors Amm Locator Assets Config Pool Pallet.

(** [NativeOrWithId<u32>] *)
Inductive NativeOrWithId := Native | WithId (id : Z).

#[export] Instance NativeOrWithId_eq_dec : EqDecision NativeOrWithId.
Proof. solve_decision. Defined.
#[export] Program Instance NativeOrWithId_countable : Countable NativeOrWithId :=
  inj_countable' (λ a, match a with Native => None | WithId id => Some id end)
                 (λ o, match o with None => Native | Some id => WithId id end) _.
Next Obligation. by intros []. Qed.

(** The constants of [impl Config for Test]. *)
Module TestParams.
Definition ExistentialDeposit : Z := 100.
Definition OrderExpiration : Z := 100.
Definition LiquidityWithdrawalFee : Z := 0.
Definition PoolSetupFee : Z := 100.
Definition LPFee : Z := 3.
Definition MaxSwapPathLength : Z := 4.
Definition MintMinLiquidity : Z := 100.
End TestParams.

Section Test.
Context {L : Type} {NativeAndAssets : Fungibles Z NativeOrWithId L} {LpAssets : PoolFungibles Z Z L}.
Context (into_account : NativeOrWithId * NativeOrWithId → option Z) (permill_of : Z → Z → Z) (sqrt : Z → Z).

Definition test_amm : AmmConfig := {|
  LPFee := TestParams.LPFee;
  MintMinLiquidity := TestParams.MintMinLiquidity;
  integer_sqrt := sqrt
|}.

(** The test runtime, built with or without overflow checks.  Ids of lp tokens
    are [u32]s that count up from zero. *)
Definition Test (checks : bool) : Config :=
  let idx := u64 in
  let prof := {| overflow_checks := checks |} in {|
  AccountId := Z;
  AssetKind := NativeOrWithId;
  PoolId := NativeOrWithId * NativeOrWithId;
  PoolAssetId := Z;
  Book := CritbitTree (Tick Z);
  Level := Tick Z;
  BookError := CritbitTreeError;
  Ledger := L;
  Unit := idx;
  profile := prof;
  amm := test_amm;
  Assets := NativeAndAssets;
  PoolAssets := LpAssets;
  Locator := BaseQuoteAsset into_account;
  OrderBook_impl := @CritbitTree_OrderBook idx prof Z (Tick Z) (@Tick_OrderInterface idx prof Z _);
  PoolSetupFee := TestParams.PoolSetupFee;
  PoolSetupFeeAsset := Native;
  OrderExpiration := TestParams.OrderExpiration;
  LiquidityWithdrawalFee := TestParams.LiquidityWithdrawalFee;
  permill_mul := permill_of;
  MaxSwapPathLength := TestParams.MaxSwapPathLength;
  initial_value := Some 0;
  increment := λ n, checked_add 32 n 1
|}.

(** [new_test_ext]: what the genesis block endows; block 1. *)
Definition endowed : list (Z * Z) := [(1, 10000); (2, 20000); (3, 30000); (4, 40000)].
Definition new_test_ext (checks : bool) (build_storage : list (Z * Z) → L) : World (T:=Test checks) :=
  mkWorld (Test checks) (build_storage endowed) ∅ None 1 [].

(** "Should be more or equal to the existential deposit." *)
Lemma setup_fee_covers_deposit checks : TestParams.ExistentialDeposit ≤ PoolSetupFee (Config:=Test checks).
Proof. done. Qed.

(** Every endowed account can pay for a pool and live on. *)
Lemma endowed_can_pay checks :
  Forall (λ b, PoolSetupFee (Config:=Test checks) + TestParams.ExistentialDeposit ≤ b.2) endowed.
Proof. repeat constructor; simpl; unfold TestParams.PoolSetupFee, TestParams.ExistentialDeposit; lia. Qed.
End Test.
