(* ===== verification/Benchmarks.v ===== *)
(** * Helpers of the benchmarks

    The pure part of [benchmarking.rs]: the pairs of assets for new pools and
    the amounts for a first deposit.  The file is written for an earlier
    version of the pallet: it creates pools from three arguments, uses a type
    [Balance] of [Config] (here [Unit]) and benchmarks swap calls, none of
    which exist, so the benchmarks themselves are not programs of this
    pallet. *)
From S2P Require Import Prelude Index Errors Amm Mock.
Import PalletError.

(** [BenchmarkHelper::create_pair] of [()] and of [NativeOrWithIdFactory]. *)
Definition create_pair_of_ids {AssetKind} (from_u32 : Z → AssetKind) (seed1 seed2 : Z) : AssetKind * AssetKind :=
  (from_u32 seed1, from_u32 seed2).

Definition create_pair (seed1 seed2 : Z) : NativeOrWithId * NativeOrWithId :=
  if seed1 mod 2 =? 0 then (WithId seed2, Native) else (Native, WithId seed2).

Section Amount.
Context `{OrderBookIndex, BuildProfile, AmmConfig} {E : Type}.

Definition valid_liquidity_amount (ed1 ed2 : Z) : outcome E (Z * Z) :=
  a ← u_add BITS (Z.max ed1 ed2) MintMinLiquidity;
  b ← u_add BITS a MintMinLiquidity;
  l ← u_add BITS b 1;
  Ok (l, l).
End Amount.

(** The asset of an odd seed is native, as the trait asks; the doc of the
    factory has it leading in every pair. *)
Lemma create_pair_native seed1 seed2 :
  create_pair seed1 seed2 = (if Z.odd seed1 then (Native, WithId seed2) else (WithId seed2, Native)).
Proof. unfold create_pair. rewrite Zmod_odd. by destruct (Z.odd seed1). Qed.

(** The amounts suffice for a first deposit: they mint the larger minimum
    balance, the liquidity that is locked, and one more. *)
Lemma valid_liquidity_amount_mints `{OrderBookIndex, BuildProfile, AmmConfig} ed1 ed2 :
  (∀ x : Z, 0 ≤ x → integer_sqrt (x * x) = x) → 0 ≤ ed1 → 0 ≤ ed2 → 0 ≤ MintMinLiquidity →
  in_range BITS (Z.max ed1 ed2 + MintMinLiquidity + MintMinLiquidity + 1) →
  let l := Z.max ed1 ed2 + MintMinLiquidity + MintMinLiquidity + 1 in
  valid_liquidity_amount (E:=Error) ed1 ed2 = Ok (l, l) ∧
  calc_lp_amount_for_zero_supply l l = Ok (Z.max ed1 ed2 + MintMinLiquidity + 1).
Proof.
  intros Hsqrt He1 He2 Hm Hr l. pose proof BITS_upper. pose proof BITS_lower. unfold in_range in Hr.
  assert (l * l < 2 ^ 256).
  { assert (2 ^ BITS * 2 ^ BITS ≤ 2 ^ 256); [|subst l; nia].
    rewrite <-Z.pow_add_r by lia. apply Z.pow_le_mono_r; lia. }
  split.
  - unfold valid_liquidity_amount. do 3 (rewrite u_add_ok by (unfold in_range; lia); run_step). done.
  - unfold calc_lp_amount_for_zero_supply, try_into, HBITS.
    assert (2 ^ BITS ≤ 2 ^ 256) by (apply Z.pow_le_mono_r; lia).
    assert (∀ w x, in_range w x → checked w x = Some x) as Hc by (intros; by apply checked_Some).
    assert (checked_mul 256 l l = Some (l * l)) as -> by (apply Hc; split; subst l; nia).
    run_step. rewrite Hsqrt by (subst l; lia).
    assert (checked_sub 256 l MintMinLiquidity = Some (Z.max ed1 ed2 + MintMinLiquidity + 1)) as ->.
    { unfold checked_sub. replace (l - MintMinLiquidity) with (Z.max ed1 ed2 + MintMinLiquidity + 1) by (subst l; lia).
      apply Hc. unfold in_range. lia. }
    run_step. by rewrite Hc by (unfold in_range; lia).
Qed.
