(* ===== verification/Findings.v ===== *)
(** * Behaviour that differs from what the code sets out to do

    Facts on the same definitions as everywhere else: the search for the
    pool's share that never ends, the settlement of a bid at no price, the
    cancelled order whose assets stay frozen, the exactly filled order that
    stays in the book, the swap along a longer path that stops after the
    first hop, and the credit swap that is quoted on one pool and executed on
    another. *)
From S2P Require Import Prelude Index Critbit BTreeMap OrderId Tick OrderBook Errors Amm Locator Assets Config Pool Pallet PalletFacts Matching Liquidity Devnet.
From Stdlib Require Import Bool.
Import PalletError.

(** ** The search that does not end

    One round of the search as a function on [(min, max, swap_quantity)]. *)
Section SearchSteps.
Context `{T : Config} (side : bool) (target : Z) (pool : Pool) (b_r q_r : Z).

Definition search_round (st : Z * Z * Z) : option (Z * Z * Z) :=
  let '(min, max, sq) := st in
  if min <? max then
    match (s ← u_add BITS min max; s' ← u_add BITS s 1; mid ← u_div s' 2;
           p ← price_after side pool b_r q_r mid;
           if p =? target then Err NoOps else
           step ← normalize 1 (Some (base_decimals pool));
           if p <? target then
             if side then min' ← u_add BITS mid step; Ok (min', max, mid)
             else max' ← u_sub BITS mid step; Ok (min, max', mid)
           else
             if side then max' ← u_sub BITS mid step; Ok (min, max', sq)
             else min' ← u_add BITS mid step; Ok (min', max, sq)) with
    | Ok st' => Some st'
    | _ => None
    end
  else None.

Definition search_from (fuel : nat) (st : Z * Z * Z) : outcome Error Z :=
  let '(min, max, sq) := st in search fuel side target pool b_r q_r min max sq.

Lemma search_round_spec st st' fuel :
  search_round st = Some st' →
  search_from 0 st = OutOfFuel ∧ search_from (S fuel) st = search_from fuel st'.
Proof.
  destruct st as [[min max] sq]. unfold search_round, search_from.
  destruct (min <? max) eqn:Hlt; [|done]. cbn [search]. rewrite Hlt. intros Hst. split; [done|].
  destruct (u_add BITS min max) as [s| | |]; cbn [mbind outcome_bind] in *; [|done..].
  destruct (u_add BITS s 1) as [s'| | |]; cbn [mbind outcome_bind] in *; [|done..].
  destruct (u_div s' 2) as [mid| | |]; cbn [mbind outcome_bind] in *; [|done..].
  destruct (price_after side pool b_r q_r mid) as [p| | |]; cbn [mbind outcome_bind] in *; [|done..].
  destruct (p =? target); [done|].
  destruct (normalize 1 _) as [step| | |]; cbn [mbind outcome_bind] in *; [|done..].
  destruct (p <? target), side;
    first [destruct (u_add BITS mid step) as [x| | |]; cbn [mbind outcome_bind] in *; [|done..]
          |destruct (u_sub BITS mid step) as [x| | |]; cbn [mbind outcome_bind] in *; [|done..]];
    by simplify_eq.
Qed.

Fixpoint rounds (n : nat) (st : Z * Z * Z) : option (Z * Z * Z) :=
  match n with
  | O => Some st
  | S n => match search_round st with Some st' => rounds n st' | None => None end
  end.

Lemma rounds_search n fuel st st' :
  rounds n st = Some st' → search_from (n + fuel) st = search_from fuel st'.
Proof.
  revert st. induction n as [|n IH]; intros st; simpl; [by intros [= ->]|].
  destruct (search_round st) as [st1|] eqn:Hr; [|done]. intros Hn.
  destruct (search_round_spec st st1 (n + fuel) Hr) as [_ Hs]. rewrite Hs. by apply IH.
Qed.

Lemma rounds_short n fuel st st' :
  rounds n st = Some st' → (fuel < n)%nat → search_from fuel st = OutOfFuel.
Proof.
  revert fuel st. induction n as [|n IH]; intros fuel st; simpl; [lia|].
  destruct (search_round st) as [st1|] eqn:Hr; [|done]. intros Hn Hlt.
  destruct fuel as [|fuel]; [by apply (search_round_spec st st1 0 Hr)|].
  destruct (search_round_spec st st1 fuel Hr) as [_ Hs]. rewrite Hs. apply IH; [done|lia].
Qed.

(** A state that comes back to itself is never left. *)
Lemma cycle_never_ends n st fuel :
  (0 < n)%nat → rounds n st = Some st → search_from fuel st = OutOfFuel.
Proof.
  intros Hn Hc. induction fuel as [fuel IH] using lt_wf_ind.
  destruct (decide (fuel < n)%nat) as [Hlt|Hge]; [by eapply rounds_short|].
  replace fuel with (n + (fuel - n))%nat by lia.
  rewrite (rounds_search n _ st st Hc). apply IH. lia.
Qed.

Lemma lasso_never_ends k n st0 st fuel :
  (0 < n)%nat → rounds k st0 = Some st → rounds n st = Some st →
  search_from fuel st0 = OutOfFuel.
Proof.
  intros Hn Hk Hc. destruct (decide (fuel < k)%nat) as [Hlt|Hge]; [by eapply rounds_short|].
  replace fuel with (k + (fuel - k))%nat by lia.
  rewrite (rounds_search k _ st0 st Hk). by eapply cycle_never_ends.
Qed.
End SearchSteps.

(** A pool with two decimals for the assets and three for the price. *)
Definition lasso_pool : @Pool (devnet false) := Pool_new (T:=devnet false) 0 0 1 1 3 2 2.
Definition lasso_state : Z * Z * Z :=
  default (0, 0, 0) (rounds (T:=devnet false) false 1935848 lasso_pool 376 729733 7 (0, 411, 0)).

Lemma lasso_search fuel :
  search (T:=devnet false) fuel false 1935848 lasso_pool 376 729733 0 411 0 = OutOfFuel.
Proof.
  apply (lasso_never_ends (T:=devnet false) false 1935848 lasso_pool 376 729733 7 121
           (0, 411, 0) lasso_state fuel); [lia|by vm_compute|by vm_compute].
Qed.

(** The same pool on chain: Alice bids below the pool price, Bob sells. *)
Definition lasso_world : @World (devnet false) :=
  ((_ ← create_pool (T:=devnet false) (Some alice) 1 2 2 2 0 1 1 3;
    _ ← add_liquidity (T:=devnet false) (Some alice) 1 2 376 729733 1 1 alice;
    limit_order (T:=devnet false) (Some alice) 1 2 true 1935848 5) (genesis false)).2.

Lemma lasso_market_order :
  (market_order (T:=devnet false) (Some bob) 1 2 411 false lasso_world).1 = OutOfFuel.
Proof. by vm_compute. Qed.

(** With overflow checks the same search aborts. *)
Lemma lasso_search_checked :
  search (T:=devnet true) (search_fuel (T:=devnet true)) false 1935848 (Pool_new (T:=devnet true) 0 0 1 1 3 2 2)
    376 729733 0 411 0 = Panic.
Proof. by vm_compute. Qed.

(** ** Settlement of a bid *)
Section Settlement.
Context `{T : Config, HF : !FungiblesLaws AccountId AssetKind Ledger}.
Implicit Types w : World.

(** The price of the filled orders does not enter. *)
Lemma settle_bid_ignores_price pool a1 a2 o l l' w :
  (λ f : AccountId * Z * Z, (f.1.1, f.2)) <$> l = (λ f, (f.1.1, f.2)) <$> l' →
  settle true pool a1 a2 o l w = settle true pool a1 a2 o l' w.
Proof.
  revert l' w. induction l as [|[[ow p] q] l IH]; intros [|[[ow' p'] q'] l'] w Heq;
    try done; simpl in Heq; simplify_eq.
  cbn [settle released_amount]. unfold pallet_err, lift. simpl map_err. rewrite !M_bind_run.
  destruct (on_ledger (decrease_frozen a1 ow' q') w) as [[?|?| |] w1]; try done.
  rewrite !M_bind_run. destruct (on_ledger (transfer a1 ow' o q' Preserve) w1) as [[?|?| |] w2]; try done.
  rewrite !M_bind_run. destruct (on_ledger (transfer a2 o ow' q' Preserve) w2) as [[?|?| |] w3]; try done.
  by apply IH.
Qed.

(** The owner of a filled ask of [q] base units gets [q] quote units. *)
Lemma settle_bid_pays pool a1 a2 o ow p q w w' :
  settle true pool a1 a2 o [(ow, p, q)] w = (Ok (), w') → a1 ≠ a2 → o ≠ ow →
  balance (ledger w') a1 o = balance (ledger w) a1 o + q ∧
  balance (ledger w') a2 ow = balance (ledger w) a2 ow + q.
Proof.
  intros Hs Ha Ho. cbn [settle released_amount] in Hs. inv_call. subst. simpl in *.
  repeat match goal with
  | H : decrease_frozen _ _ _ _ = (Ok ?u, _) |- _ => destruct u; apply decrease_frozen_law in H as [Hb _]
  | H : transfer _ _ _ _ _ _ = (Ok ?u, _) |- _ => destruct u; apply transfer_law in H as (_ & _ & ?); [|done]
  end.
  split; repeat match goal with H : ∀ _ _, balance _ _ _ = _ |- _ => rewrite H end;
    rewrite ?Hb; unfold moved; repeat case_decide; simplify_eq; lia.
Qed.
End Settlement.

(** ** Cancelling leaves the ledger alone *)
Section Cancel.
Context `{T : Config}.

Lemma do_cancel_order_ledger o base quote_asset price id q w w' :
  do_cancel_order o base quote_asset price id q w = (Ok (), w') →
  ledger w' = ledger w ∧
  ∃ pid pool, pool_id base quote_asset = Some pid ∧ Pools w !! pid = Some pool ∧
    Pools w' = <[pid := (pool_cancel_order o price id q pool).2]> (Pools w) ∧
    (pool_cancel_order o price id q pool).1 = Ok id.
Proof.
  unfold do_cancel_order, mutate_pool. intros Hc. inv_call. simpl.
  match goal with H : Pools ?w !! ?i = Some ?p |- _ => rename p into pool end.
  destruct (pool_cancel_order o price id q pool) as [r pool'] eqn:Hp. inv_call. subst. simpl.
  split; [done|]. eexists _, _. split_and!; [done|done|by rewrite Hp|]. rewrite Hp.
  unfold pool_cancel_order in Hp. simpl. destruct (is_bid id); inv_call; by simplify_eq.
Qed.
End Cancel.

(** ** The exactly filled order *)
Section ExactFill.
Context `{OrderBookIndex, BuildProfile} {Account : Type} `{EqDecision Account}.

Lemma serve_exact (l : list (Z * Order Account)) :
  Forall order_ok l.*2 → 0 < total l → (serve (total l) l).1 ≠ [].
Proof.
  induction l as [|[id o] l IH]; simpl; [lia|].
  intros [Ho Hl]%Forall_cons Ht. pose proof (total_nonneg l Hl) as Hnn.
  unfold order_ok, in_range in Ho.
  destruct (Z.eqb_spec (quantity o + total l) 0); [lia|].
  destruct (Z.leb_spec (quantity o + total l) (quantity o)); [done|].
  replace (quantity o + total l - quantity o) with (total l) by lia.
  specialize (IH Hl ltac:(lia)). by destruct (serve (total l) l).
Qed.

Lemma exact_fill_stays {E} (self : Tick Account) :
  tick_ok self → 0 < total (open_orders self) < 2 ^ BITS →
  let self' := (Tick_filled (E:=E) (total (open_orders self)) self).2 in
  Tick_is_empty self' = false ∧ total (open_orders self') = 0.
Proof.
  intros Hok Ht. cbv zeta. rewrite filled_serve by (unfold in_range; done || lia). simpl.
  destruct (serve_conserves (total (open_orders self)) (open_orders self)) as (_ & Htot & _);
    [lia|apply Hok|].
  pose proof (serve_exact (open_orders self) (proj2 Hok) ltac:(lia)) as Hne.
  unfold Tick_is_empty. simpl. destruct (serve _ _).1 eqn:Hs; [done|].
  split; [done|]. lia.
Qed.
End ExactFill.

(** ** Longer paths and credits *)
Section Paths.
Context `{T : Config, HF : !FungiblesLaws AccountId AssetKind Ledger}.
Implicit Types w : World.

(** Three assets: the receiver gets the second one, while the value
    returned and announced is an amount of the third. *)
Lemma swap_three_assets sender a b c x min send_to keep w out w' :
  do_swap_exact_tokens_for_tokens sender [a; b; c] x min send_to keep w = (Ok out, w') →
  keep = true ∨ no_dust (ledger w) a sender x →
  ∃ pab pbc y, pool_address a b = Some pab ∧ pool_address b c = Some pbc ∧
    get_amount_out x (get_balance w pab a) (get_balance w pab b) = Ok y ∧
    get_amount_out y (get_balance w pbc b) (get_balance w pbc c) = Ok out ∧
    ∀ a' z, balance (ledger w') a' z =
      balance (ledger w) a' z - moved (a, sender) (a', z) x - moved (b, pab) (a', z) y
      + moved (a, pab) (a', z) x + moved (b, send_to) (a', z) y.
Proof.
  unfold do_swap_exact_tokens_for_tokens. intros Hs Hd. inv_call.
  cbn [balance_path_from_amount_in] in *. inv_call.
  repeat match goal with H : get_reserves _ _ _ = Ok ?p |- _ =>
    destruct p as [? ?]; apply get_reserves_Ok in H as (? & ? & -> & -> & _ & _) end.
  inv_call. repeat match goal with H : get_reserves _ _ _ = Ok ?p |- _ =>
    destruct p as [? ?]; apply get_reserves_Ok in H as (? & ? & -> & -> & _ & _) end.
  inv_call. simpl in *. simplify_eq.
  match goal with H : swap _ _ ((a, x) :: (b, ?y) :: ?rest) _ _ _ = _ |- _ =>
    change (swap false sender ((a, x) :: (b, y) :: rest) send_to keep)
      with (swap false sender [(a, x); (b, y)] send_to keep) in H;
    apply swap_one_hop in H as (pa & l & Hhop & -> & _ & Hbal); [|exact Hd] end.
  unfold hop_address in Hhop. apply asset_pair_Ok in Hhop.
  match goal with H : pool_address a b = Some ?p |- _ =>
    assert_fails (unify p pa); rewrite H in Hhop end. simplify_eq.
  match goal with H : pool_address b _ = Some ?p, H' : get_amount_out x _ _ = Ok ?y |- _ =>
    exists pa, p, y end.
  split_and!; [done|done|done|done|exact Hbal].
Qed.

(** A credit of [a] is priced with the reserves of the pool [(a, b)], but it
    is paid into, and the output taken from, the account of [(b, a)]. *)
Lemma credit_swap_other_pool a b x min w c w' :
  do_swap_exact_credit_tokens_for_tokens [a; b] (mkCredit a x) min w = (Ok c, w') →
  ∃ pab pba, pool_address a b = Some pab ∧ pool_address b a = Some pba ∧
    get_amount_out x (get_balance w pab a) (get_balance w pab b) = Ok (peek c) ∧
    credit_asset c = b ∧
    ∀ a' z, balance (ledger w') a' z =
      balance (ledger w) a' z - moved (b, pba) (a', z) (peek c) + moved (a, pba) (a', z) x.
Proof.
  unfold do_swap_exact_credit_tokens_for_tokens. cbn [peek credit_asset]. intros Hs.
  cbn [balance_path_from_amount_in] in *. inv_call.
  match goal with H : get_reserves _ _ _ = Ok ?p |- _ =>
    destruct p as [? ?]; apply get_reserves_Ok in H as (pab & Hpab & -> & -> & _ & _) end.
  inv_call. simpl in *. simplify_eq.
  unfold credit_swap in *. inv_call. cbn [resolve_path] in *. inv_call.
  repeat match goal with
  | H : withdraw _ _ _ _ _ = (Ok _, _) |- _ => apply withdraw_Ok in H as (-> & _ & (? & ->) & _ & ?); [|by left]
  | H : resolve _ _ _ = (Ok ?u, _) |- _ => destruct u; apply resolve_law in H as (_ & ?)
  | H : hop_address _ _ _ = Ok _, H' : hop_address _ _ _ = Ok _ |- _ => rewrite H in H'; simplify_eq
  | H : hop_address true _ _ = Ok _ |- _ => unfold hop_address in H; apply asset_pair_Ok in H
  end.
  eexists _, _. split_and!; [eassumption|eassumption|eassumption|done|]. subst. simpl in *.
  intros a' z'. repeat match goal with H : ∀ _ _, balance _ _ _ = _ |- _ => rewrite H; clear H end. lia.
Qed.
End Paths.
