(* ===== verification/Frames.v ===== *)
(** * What the calls of a composed call all do to the storage

    [upholds R m]: a successful run of [m] relates the storage before it to
    the storage after it by the preorder [R]; [keeps f m]: it leaves what [f]
    reads of the storage as it was.  The hints of the database [frame] prove
    it for calls that are composed of such calls. *)
From S2P Require Import Prelude Index OrderId Tick OrderBook Errors Amm Locator Assets Config Pool Pallet PalletFacts Matching MatchFacts.
From Stdlib Require Import Bool.
Import PalletError.

Definition upholds `{T : Config} {E A} (R : World → World → Prop) (m : M World E A) : Prop :=
  ∀ w a w', m w = (Ok a, w') → R w w'.

Abbreviation keeps f := (upholds (λ w w' : World, f w' = f w)).

#[export] Instance keeps_preorder `{T : Config} {X} (f : World → X) : PreOrder (λ w w' : World, f w' = f w).
Proof. split; [done|]. intros w1 w2 w3 H1 H2. congruence. Qed.

Section Upholds.
Context `{T : Config} (R : World → World → Prop) `{HR : !PreOrder R}.

Lemma upholds_refl {E A} (m : M World E A) : (∀ w a w', m w = (Ok a, w') → w' = w) → upholds R m.
Proof using HR. intros Hm w a w' ->%Hm. reflexivity. Qed.
Lemma upholds_bind {E A B} (m : M World E A) (k : A → M World E B) :
  upholds R m → (∀ a, upholds R (k a)) → upholds R (m ≫= k).
Proof using HR.
  intros Hm Hk w b w' (a & w1 & H1 & H2)%M_bind_inv. transitivity w1; [by eapply Hm|by eapply Hk].
Qed.
Lemma upholds_ret {E A} (a : A) : upholds (E:=E) R (mret a).
Proof using HR. apply upholds_refl. by intros w b w' [= _ <-]. Qed.
Lemma upholds_lift {E A} (m : outcome E A) : upholds R (lift m).
Proof using HR. apply upholds_refl. by intros w b w' [= _ <-]. Qed.
Lemma upholds_throw {E A} (e : E) : upholds (A:=A) R (throw e).
Proof. by intros w b w'. Qed.
Lemma upholds_gets {E A} (g : World → outcome E A) : upholds R (gets g).
Proof using HR. apply upholds_refl. by intros w b w' [= _ <-]. Qed.
Lemma upholds_get {E} : upholds (E:=E) R get.
Proof using HR. apply upholds_refl. by intros w b w' [= _ <-]. Qed.
Lemma upholds_map_err {E E' A} (g : E → E') (m : M World E A) : upholds R m → upholds R (map_err_M g m).
Proof. intros Hm w a w' Hr%map_err_M_Ok. by eapply Hm. Qed.
Lemma upholds_require b e : upholds R (require b e).
Proof using HR. apply upholds_refl. by intros w u w' [_ ->]%require_Ok. Qed.
Lemma upholds_if {E A} (b : bool) (m1 m2 : M World E A) :
  upholds R m1 → upholds R m2 → upholds R (if b then m1 else m2).
Proof. by destruct b. Qed.
Lemma upholds_require_if (o : option Z) (c : Z → bool) e :
  upholds R (if o is Some m then require (c m) e else mret ()).
Proof using HR. apply upholds_refl. by intros w u w' [_ ->]%require_if_Ok. Qed.
Lemma upholds_modify {E} (g : World → World) : (∀ w, R w (g w)) → upholds (E:=E) R (modify g).
Proof. by intros Hg w u w' [= _ <-]. Qed.
End Upholds.

(** ** The pools *)
Section Pools.
Context `{T : Config}.

Abbreviation keeps_pools := (keeps Pools).

Lemma keeps_ledger {E A} (m : M Ledger E A) : keeps_pools (on_ledger m).
Proof. by intros w a w' (l & _ & ->)%on_ledger_Ok. Qed.
Lemma keeps_event e : keeps_pools (deposit_event e).
Proof. by intros w u w' [= _ <-]. Qed.
Lemma keeps_swap side s path to k : keeps_pools (swap side s path to k).
Proof. by intros w u w' [l ->]%swap_frame. Qed.
End Pools.

Create HintDb frame.
#[export] Hint Resolve upholds_bind upholds_ret upholds_lift upholds_throw upholds_gets upholds_get
  upholds_map_err upholds_require upholds_if upholds_require_if keeps_ledger keeps_event keeps_swap : frame.
#[export] Hint Extern 0 (PreOrder _) => solve [typeclasses eauto] : frame.

(** Unfolds binds, pairs and lets until the hints apply. *)
Ltac keeps :=
  repeat first [ progress auto with frame
               | apply upholds_bind; [typeclasses eauto| |intros]
               | apply upholds_if
               | match goal with |- upholds _ (let '(_, _) := ?x in _) => destruct x end ].
