(* ===== verification/Dispatch.v ===== *)
(** * Histories of the chain

    The dispatchables of the pallet and the swap entry points as the labels
    of a transition system on [World].  Every pool of a reachable state
    satisfies [pool_ok], whatever the configuration of the registries. *)
From S2P Require Import Prelude Index CritbitOps OrderId Tick OrderBook Errors Amm Locator Assets Config Pool Pallet PalletFacts Matching SearchFacts MatchFacts Liquidity LiquidityFacts OrderFacts Findings Frames.
From Stdlib Require Import Bool.
Import PalletError.

Inductive dispatch `{T : Config} :=
| Call_create_pool (origin : option AccountId) (base : AssetKind) (base_dec : Z)
    (quote_asset : AssetKind) (quote_dec fee tick lot pool_dec : Z)
| Call_add_liquidity (origin : option AccountId) (base quote_asset : AssetKind)
    (base_desired quote_desired base_min quote_min : Z) (mint_to : AccountId)
| Call_remove_liquidity (origin : option AccountId) (base quote_asset : AssetKind)
    (burn base_min quote_min : Z) (withdraw_to : AccountId)
| Call_touch (origin : option AccountId) (base quote_asset : AssetKind)
| Call_market_order (origin : option AccountId) (base quote_asset : AssetKind) (q : Z) (is_bid : bool)
| Call_limit_order (origin : option AccountId) (base quote_asset : AssetKind) (is_bid : bool) (price q : Z)
| Call_cancel_order (origin : option AccountId) (base quote_asset : AssetKind) (price : Z)
    (id : OrderId) (q : Z)
| Call_swap_exact_in (sender : AccountId) (path : list AssetKind) (amount_in : Z)
    (amount_out_min : option Z) (send_to : AccountId) (keep_alive : bool)
| Call_swap_exact_out (sender : AccountId) (path : list AssetKind) (amount_out : Z)
    (amount_in_max : option Z) (send_to : AccountId) (keep_alive : bool).

Section Dispatch.
Context `{T : Config}.
Implicit Types (w : World) (c : dispatch).

Definition discard {A} (m : M World DispatchError A) : M World DispatchError () := _ ← m; mret ().

Definition run_dispatch c : M World DispatchError () :=
  match c with
  | Call_create_pool o b bd q qd fee tick lot pd => create_pool o b bd q qd fee tick lot pd
  | Call_add_liquidity o b q bd qd bm qm to => add_liquidity o b q bd qd bm qm to
  | Call_remove_liquidity o b q burn bm qm to => remove_liquidity o b q burn bm qm to
  | Call_touch o b q => discard (touch o b q)
  | Call_market_order o b qa q side => market_order o b qa q side
  | Call_limit_order o b qa side p q => limit_order o b qa side p q
  | Call_cancel_order o b qa p id q => cancel_order_call o b qa p id q
  | Call_swap_exact_in s path x m to k => discard (swap_exact_tokens_for_tokens s path x m to k)
  | Call_swap_exact_out s path y m to k => discard (swap_tokens_for_exact_tokens s path y m to k)
  end.

(** Prices and quantities of orders are values of the type [Unit]. *)
Definition dispatch_ok c : Prop :=
  match c with
  | Call_market_order _ _ _ q _ => in_range BITS q
  | Call_limit_order _ _ _ _ p q => in_range BITS p ∧ in_range BITS q
  | Call_cancel_order _ _ _ _ _ q => in_range BITS q
  | _ => True
  end.

Inductive step : World → World → Prop :=
| step_dispatch c w r w' : dispatch_ok c → run_dispatch c w = (r, w') → step w w'
| step_block n w :
    step w (mkWorld _ (ledger w) (Pools w) (NextPoolAssetId w) n []).

Definition reachable (w0 w : World) : Prop := rtc step w0 w.

(** A list of calls, one after the other, whatever they return. *)
Definition run_all (cs : list dispatch) w : World := foldl (λ w c, (run_dispatch c w).2) w cs.

Lemma run_all_reachable cs w : Forall dispatch_ok cs → reachable w (run_all cs w).
Proof.
  revert w. induction cs as [|c cs IH]; intros w; [by intros _; apply rtc_refl|].
  intros [Hc Hcs]%Forall_cons. eapply rtc_l; [|by apply IH].
  eapply step_dispatch; [exact Hc|]. apply surjective_pairing.
Qed.
End Dispatch.

Section DispatchFacts.
Context `{T : Config, HO : !OrderInterface AccountId Level, HL : !OrderInterfaceLaws AccountId Level}.
Context `{HB : !OrderBookLaws AccountId Level BookError Book}.
Implicit Types (w : World) (pool : Pool) (side : bool).

Definition world_ok w : Prop := map_Forall (λ _ pool, pool_ok pool) (Pools w).

(** The loop keeps the invariant with any decimals and any fuel. *)
Lemma match_loop_pool_ok fuel side o base qa pool remain fo w pool' remain' fo' w' :
  pool_ok pool → in_range BITS remain →
  match_loop fuel side o base qa pool remain fo w = (Ok (pool', remain', fo'), w') →
  pool_ok pool' ∧ Pools w' = Pools w.
Proof.
  revert pool remain fo w. induction fuel as [|fuel IH]; intros pool remain fo w Hok Hr Hrun;
    cbn [match_loop] in Hrun.
  - destruct (0 <? remain); [destruct (if side then _ else _) as [[? ?]|] in Hrun|]; inv_call; done.
  - destruct (0 <? remain); [|by inv_call].
    pose proof (next_order_best side pool Hok) as Hbest.
    destruct (if side then next_ask_order pool else next_bid_order pool) as [[price ?]|];
      [|by inv_call].
    destruct Hbest as [[v Hv] _]. apply M_bind_inv in Hrun as (msq & w1 & Hm & Hrun).
    unfold gets in Hm. injection Hm as _ <-. destruct (remain <=? msq).
    + apply M_bind_inv in Hrun as (u & w2 & Hp & Hrun).
      apply do_fill_pool_frame in Hp as (_ & e & _ & _ & Hpools).
      rewrite match_loop_done in Hrun. injection Hrun as <- _ _ <-. done.
    + apply M_bind_inv in Hrun as (u & w2 & Hp & Hrun).
      assert (Pools w2 = Pools w) as Hpools.
      { destruct (negb _); [by apply do_fill_pool_frame in Hp as (_ & e & _ & _ & ?)|].
        by injection Hp as _ <-. }
      apply M_bind_inv in Hrun as (rem & w3 & Hrem & Hrun). unfold lift in Hrem.
      injection Hrem as Hrem <-.
      apply overflowing_range in Hrem; [|apply BITS_pos].
      destruct (do_fill_book_spec side pool price rem fo v Hok Hrem Hv)
        as (pool2 & new & Hfill & Hok2 & _).
      rewrite M_bind_run in Hrun. unfold lift in Hrun. rewrite Hfill in Hrun. simpl in Hrun.
      apply IH in Hrun as [? ?]; [split; [done|congruence]|done|].
      assert (0 ≤ value_total v).
      { apply total_law. destruct Hok as (Hb & Ha & _). unfold book_levels in Hv.
        destruct side; [apply (book_values_law _ _ _ Ha Hv)|apply (book_values_law _ _ _ Hb Hv)]. }
      unfold in_range in *. lia.
Qed.

Lemma do_match_order_pool_ok side o pool base qa q w pool' w' :
  pool_ok pool → in_range BITS q →
  do_match_order side o pool base qa q w = (Ok pool', w') → pool_ok pool' ∧ Pools w' = Pools w.
Proof.
  intros Hok Hq Hrun. unfold do_match_order in Hrun.
  apply M_bind_inv in Hrun as ([[pool1 rem] fills] & w1 & Hloop & Hrun).
  apply match_loop_pool_ok in Hloop as [Hok1 Hp1]; [|done..].
  apply M_bind_inv in Hrun as (u & w2 & Hfill & Hrun).
  assert (Pools w2 = Pools w1) as Hp2.
  { destruct (0 <? rem); [by apply do_fill_pool_frame in Hfill as (_ & e & _ & _ & ?)|].
    by injection Hfill as _ <-. }
  apply M_bind_inv in Hrun as (u2 & w3 & Hset & Hrun). unfold handle_filled_orders in Hset.
  assert (∃ l, w3 = set_ledger l w2) as [l ->] by (destruct side; by eapply settle_frame).
  inv_call. simpl. split; [done|congruence].
Qed.

Lemma do_place_order_pool_ok side id pool maker base qa price q w pool' w' :
  pool_ok pool → in_range BITS price → in_range BITS q →
  do_place_order side id pool maker base qa price q w = (Ok pool', w') →
  pool_ok pool' ∧ Pools w' = Pools w.
Proof.
  intros Hok Hp Hq. unfold do_place_order, freeze_asset.
  destruct (decimal_adjustment pool) as [[p_adj b_adj] q_adj]. intros Hrun.
  apply M_bind_inv in Hrun as (u & w1 & Hfr & Hrun).
  assert (∃ l, w1 = set_ledger l w) as [l ->] by (destruct side; inv_call; subst; eauto).
  apply M_bind_inv in Hrun as (w0 & w2 & Hget & Hrun). unfold get in Hget. simplify_eq.
  destruct (pool_place_order _ side maker price q pool) as [r pool2] eqn:Hpl.
  inv_call. subst. by apply pool_place_order_Ok in Hpl as (e & _ & _ & _ & Hok' & _).
Qed.

(** Writing a pool back. *)
Lemma mutate_pool_ok id (f : Pool → M World DispatchError Pool) w u w' :
  world_ok w →
  (∀ pool w1 pool' w2, pool_ok pool → f pool w1 = (Ok pool', w2) →
     pool_ok pool' ∧ Pools w2 = Pools w1) →
  mutate_pool id f w = (Ok u, w') → world_ok w'.
Proof.
  intros Hw Hf Hm. unfold mutate_pool in Hm.
  apply M_bind_inv in Hm as (w1 & w2 & Hg & Hm). unfold get in Hg. injection Hg as <- <-.
  apply M_bind_inv in Hm as (pool & w2 & Hp & Hm). unfold lift in Hp. injection Hp as Hp <-.
  apply pallet_err_Ok, ok_or_Ok_inv in Hp.
  apply M_bind_inv in Hm as (pool' & w2 & Hrun & Hm).
  apply Hf in Hrun as [Hok Hpools]; [|by apply (Hw id)].
  unfold modify in Hm. injection Hm as _ <-. unfold world_ok. simpl. rewrite Hpools.
  by apply map_Forall_insert_2.
Qed.
End DispatchFacts.

Section Invariant.
Context `{T : Config, HO : !OrderInterface AccountId Level, HL : !OrderInterfaceLaws AccountId Level}.
Context `{HB : !OrderBookLaws AccountId Level BookError Book}.
Implicit Types (w : World) (c : dispatch).

Abbreviation keeps_pools := (keeps Pools).

Lemma keeps_swap_exact_in s path x m to k : keeps_pools (do_swap_exact_tokens_for_tokens s path x m to k).
Proof. unfold do_swap_exact_tokens_for_tokens. keeps. Qed.
Lemma keeps_swap_exact_out s path y m to k : keeps_pools (do_swap_tokens_for_exact_tokens s path y m to k).
Proof. unfold do_swap_tokens_for_exact_tokens. keeps. Qed.
Lemma keeps_touch who b q : keeps_pools (do_touch who b q).
Proof. unfold do_touch, touch_if_needed, pool_touch_if_needed. keeps. Qed.
Lemma keeps_add s b q bd qd bm qm to : keeps_pools (do_add_liquidity s b q bd qd bm qm to).
Proof. unfold do_add_liquidity. keeps. Qed.
Lemma keeps_remove s b q burn bm qm to : keeps_pools (do_remove_liquidity s b q burn bm qm to).
Proof. unfold do_remove_liquidity. keeps. Qed.

Lemma keeps_world_ok {A} (m : M World DispatchError A) w a w' :
  keeps_pools m → world_ok w → m w = (Ok a, w') → world_ok w'.
Proof. intros Hk Hw Hm. unfold world_ok. by rewrite (Hk _ _ _ Hm). Qed.

(** One lemma per dispatchable that writes a pool. *)
Lemma market_order_ok side taker b qa q w u w' :
  world_ok w → in_range BITS q →
  do_market_order side taker b qa q w = (Ok u, w') → world_ok w'.
Proof.
  intros Hw Hq Hm. unfold do_market_order in Hm. inv_call. subst.
  eapply mutate_pool_ok; [exact Hw| |exact Hm]. intros pool w1 pool' w2 Hok Hf. cbv beta in Hf. inv_call. subst.
  match goal with H : do_match_order _ _ _ _ _ _ _ = _ |- _ =>
    apply do_match_order_pool_ok in H as [? Hp]; [|done..] end.
  split; [done|]. exact Hp.
Qed.

Lemma limit_order_ok side maker b qa p q w u w' :
  world_ok w → in_range BITS p → in_range BITS q →
  do_limit_order maker p q side b qa w = (Ok u, w') → world_ok w'.
Proof.
  intros Hw Hp Hq Hm. unfold do_limit_order in Hm. inv_call. subst.
  eapply mutate_pool_ok; [exact Hw| |exact Hm]. intros pool w1 pool' w2 Hok Hf. cbv beta in Hf. inv_call. subst.
  match goal with H : (if ?b then do_match_order _ _ _ _ _ _ else _) _ = (Ok _, _) |- _ =>
    destruct b; rename H into Hcall end.
  - apply do_match_order_pool_ok in Hcall as [? Hpl]; [|done..]. split; [done|exact Hpl].
  - apply do_place_order_pool_ok in Hcall as [? Hpl]; [|done..]. split; [done|exact Hpl].
Qed.

Lemma cancel_order_ok o b qa p id q w u w' :
  world_ok w → in_range BITS q →
  do_cancel_order o b qa p id q w = (Ok u, w') → world_ok w'.
Proof.
  intros Hw Hq Hm. unfold do_cancel_order in Hm. inv_call. subst.
  eapply mutate_pool_ok; [exact Hw| |exact Hm]. intros pool w1 pool' w2 Hok Hf. cbv beta in Hf.
  destruct (pool_cancel_order_ok o p id q pool Hok Hq) as (r & pool2 & Hc & Hok2 & _).
  rewrite Hc in Hf. inv_call. by subst.
Qed.

Lemma create_pool_world_ok s b bd qa qd fee tick lot pd w u w' :
  world_ok w → do_create_pool s b bd qa qd fee tick lot pd w = (Ok u, w') → world_ok w'.
Proof.
  intros Hw Hc. destruct u.
  apply create_pool_Ok in Hc as (_ & Ht & Hl & id & lp & _ & _ & Hp & _).
  unfold world_ok. rewrite Hp. apply map_Forall_insert_2; [by apply Pool_new_ok|done].
Qed.

(** A dispatch in its storage layer keeps what its successful runs keep. *)
Lemma signed_layer_ok {A} (P : World → Prop) origin (f : AccountId → M World DispatchError A) w r w' :
  P w → (∀ who u w2, f who w = (Ok u, w2) → P w2) →
  with_storage_layer (who ← lift (ensure_signed origin); f who) w = (r, w') → P w'.
Proof.
  intros Hw Hf. unfold with_storage_layer. rewrite M_bind_run. unfold lift, ensure_signed.
  destruct origin as [who|]; simpl; [|by intros [= _ <-]].
  destruct (f who w) as [[u|e| |] w2] eqn:Hrun; intros [= _ <-]; [by eapply Hf|done..].
Qed.

Lemma layer_ok {A} (P : World → Prop) (m : M World DispatchError A) w r w' :
  P w → (∀ u w2, m w = (Ok u, w2) → P w2) → with_storage_layer m w = (r, w') → P w'.
Proof.
  intros Hw Hf. unfold with_storage_layer.
  destruct (m w) as [[u|e| |] w2] eqn:Hrun; intros [= _ <-]; [by eapply Hf|done..].
Qed.

Lemma discard_run {A} (m : M World DispatchError A) w r w' :
  discard m w = (r, w') → ∃ r', m w = (r', w').
Proof.
  unfold discard. rewrite M_bind_run. destruct (m w) as [[a|e| |] w2]; intros [= _ <-]; eauto.
Qed.

Lemma run_dispatch_ok c w r w' :
  dispatch_ok c → world_ok w → run_dispatch c w = (r, w') → world_ok w'.
Proof.
  intros Hc Hw Hrun. destruct c; simpl in Hc, Hrun.
  - eapply (signed_layer_ok world_ok); [done| |exact Hrun]. intros who u w2 Hm.
    exact (create_pool_world_ok _ _ _ _ _ _ _ _ _ _ _ _ Hw Hm).
  - eapply (signed_layer_ok world_ok); [done| |exact Hrun]. intros x y z Hm.
    exact (keeps_world_ok _ _ _ _ (keeps_add _ _ _ _ _ _ _ _) Hw Hm).
  - eapply (signed_layer_ok world_ok); [done| |exact Hrun]. intros x y z Hm.
    exact (keeps_world_ok _ _ _ _ (keeps_remove _ _ _ _ _ _ _) Hw Hm).
  - apply discard_run in Hrun as [r' Hrun].
    eapply (signed_layer_ok world_ok); [done| |exact Hrun]. intros x y z Hm.
    exact (keeps_world_ok _ _ _ _ (keeps_touch _ _ _) Hw Hm).
  - eapply (signed_layer_ok world_ok); [done| |exact Hrun]. intros who u w2 Hm.
    exact (market_order_ok _ _ _ _ _ _ _ _ Hw Hc Hm).
  - eapply (signed_layer_ok world_ok); [done| |exact Hrun]. intros who u w2 Hl. destruct Hc as [Hp Hq].
    exact (limit_order_ok _ _ _ _ _ _ _ _ _ Hw Hp Hq Hl).
  - eapply (signed_layer_ok world_ok); [done| |exact Hrun]. intros who u w2 Hm.
    exact (cancel_order_ok _ _ _ _ _ _ _ _ _ Hw Hc Hm).
  - apply discard_run in Hrun as [r' Hrun].
    eapply (layer_ok world_ok); [done| |exact Hrun]. intros x y Hm.
    exact (keeps_world_ok _ _ _ _ (keeps_swap_exact_in _ _ _ _ _ _) Hw Hm).
  - apply discard_run in Hrun as [r' Hrun].
    eapply (layer_ok world_ok); [done| |exact Hrun]. intros x y Hm.
    exact (keeps_world_ok _ _ _ _ (keeps_swap_exact_out _ _ _ _ _ _) Hw Hm).
Qed.

Lemma reachable_ok w0 w : world_ok w0 → reachable w0 w → world_ok w.
Proof.
  intros Hw0 Hr. induction Hr as [|w0 w1 w2 Hstep _ IH]; [done|]. apply IH.
  destruct Hstep as [c w r w' Hc Hrun|n w]; [by eapply run_dispatch_ok|done].
Qed.
End Invariant.
