(* ===== verification/BackingFacts.v ===== *)
(** * Open orders are backed by frozen assets

    Placing an order freezes what it is worth at its price; settling a fill
    releases what the filled part is worth; nothing else touches the freezes.
    So in every history of a runtime that checks arithmetic the freeze of an
    account covers all of its open orders ([backed]). *)
From S2P Require Import Prelude Index CritbitOps OrderId Tick OrderBook Backing Errors Amm Locator Assets Config Pool Pallet PalletFacts Matching SearchFacts MatchFacts Liquidity LiquidityFacts OrderFacts Frames Dispatch.
From Stdlib Require Import Bool.
Import PalletError.

(** ** Calls of the registries that leave all freezes alone *)
Class KeepsFreezes (Who Kind LpKind Store : Type) `{PoolFungiblesLaws Who Kind LpKind Store} := {
  withdraw_frozen a who v p l c l' : withdraw_asset a who v p l = (Ok c, l') → frozen l' = frozen l;
  resolve_frozen who c l l' : resolve who c l = (Ok (), l') → frozen l' = frozen l;
  transfer_frozen a src dst v p l l' : transfer a src dst v p l = (Ok (), l') → frozen l' = frozen l;
  unbalanced_frozen c l : frozen (on_unbalanced c l) = frozen l;
  touch_frozen a who depositor l l' : touch_asset a who depositor l = (Ok (), l') → frozen l' = frozen l;
  create_frozen t who m l l' : create_asset t who m l = (Ok (), l') → frozen l' = frozen l;
  pool_touch_frozen t who depositor l l' : pool_touch t who depositor l = (Ok (), l') → frozen l' = frozen l
}.

#[export] Program Instance bank_keeps_freezes : KeepsFreezes Z Z Z Bank.t.
Next Obligation.
  intros a who v p l c l' Hw. simpl in Hw. inv_run.
  match goal with H : Bank.take _ _ _ _ _ = (Ok ?x, _) |- _ => destruct x; by apply Bank.take_law in H as (_ & ? & _) end.
Qed.
Next Obligation. by intros who c l l' [= <-]. Qed.
Next Obligation.
  intros a src dst v p l l' Ht. simpl in Ht. inv_run.
  match goal with H : Bank.take _ _ _ _ _ = (Ok ?x, _) |- _ => destruct x; by apply Bank.take_law in H as (_ & ? & _) end.
Qed.
Next Obligation. done. Qed.
Next Obligation. by intros a who d l l' [= <-]. Qed.
Next Obligation. by intros t who m l l' [= <-]. Qed.
Next Obligation. by intros t who d l l' [= <-]. Qed.

Section Freezes.
Context `{T : Config, HF : !FungiblesLaws AccountId AssetKind Ledger,
  HP : !PoolFungiblesLaws AccountId AssetKind PoolAssetId Ledger,
  HK : !KeepsFreezes AccountId AssetKind PoolAssetId Ledger}.

Abbreviation freezes := (λ w : World, frozen (ledger w)).

Lemma keeps_freezes_ledger {E A} (m : M Ledger E A) :
  (∀ l x l', m l = (Ok x, l') → frozen l' = frozen l) → keeps freezes (on_ledger m).
Proof. intros Hm w x w' (l & Hl & ->)%on_ledger_Ok. by eapply Hm. Qed.

Lemma keeps_freezes_withdraw_asset a who v p : keeps freezes (on_ledger (withdraw_asset a who v p)).
Proof. apply keeps_freezes_ledger. intros l c l'. apply withdraw_frozen. Qed.
Lemma keeps_freezes_resolve who c : keeps freezes (on_ledger (resolve who c)).
Proof. apply keeps_freezes_ledger. intros l [] l'. apply resolve_frozen. Qed.
Lemma keeps_freezes_transfer a src dst v p : keeps freezes (on_ledger (transfer a src dst v p)).
Proof. apply keeps_freezes_ledger. intros l [] l'. apply transfer_frozen. Qed.
Lemma keeps_freezes_touch a who d : keeps freezes (on_ledger (touch_asset a who d)).
Proof. apply keeps_freezes_ledger. intros l [] l'. apply touch_frozen. Qed.
Lemma keeps_freezes_pool_touch t who d : keeps freezes (on_ledger (pool_touch t who d)).
Proof. apply keeps_freezes_ledger. intros l [] l'. apply pool_touch_frozen. Qed.
Lemma keeps_freezes_create t who m : keeps freezes (on_ledger (create_asset t who m)).
Proof. apply keeps_freezes_ledger. intros l [] l'. apply create_frozen. Qed.
Lemma keeps_freezes_mint t who v : keeps freezes (on_ledger (mint_into t who v)).
Proof. apply keeps_freezes_ledger. by intros l [] l' (_ & ? & _)%mint_law. Qed.
Lemma keeps_freezes_burn t who v : keeps freezes (on_ledger (burn_from t who v)).
Proof. apply keeps_freezes_ledger. by intros l [] l' (_ & ? & _)%burn_law. Qed.
Lemma keeps_freezes_event e : keeps freezes (deposit_event e).
Proof. by intros w u w' [= _ <-]. Qed.
Lemma keeps_freezes_unbalanced {E} c :
  keeps freezes (modify (E:=E) (λ w, set_ledger (on_unbalanced c (ledger w)) w)).
Proof. apply upholds_modify. intros w. apply unbalanced_frozen. Qed.
Lemma keeps_freezes_set_pools {E} (f : World → gmap PoolId Pool) :
  keeps freezes (modify (E:=E) (λ w, set_pools (f w) w)).
Proof. by apply upholds_modify. Qed.
Lemma keeps_freezes_set_next {E} n : keeps freezes (modify (E:=E) (set_next_pool_asset_id n)).
Proof. by apply upholds_modify. Qed.

#[local] Hint Resolve keeps_freezes_withdraw_asset keeps_freezes_resolve keeps_freezes_transfer keeps_freezes_touch
  keeps_freezes_pool_touch keeps_freezes_create keeps_freezes_mint keeps_freezes_burn keeps_freezes_event
  keeps_freezes_unbalanced keeps_freezes_set_pools keeps_freezes_set_next : frame.

Lemma keeps_freezes_withdraw a who v k : keeps freezes (withdraw a who v k).
Proof. unfold withdraw. keeps. case_decide; keeps. Qed.
#[local] Hint Resolve keeps_freezes_withdraw : frame.

Lemma keeps_freezes_path side path : keeps freezes (resolve_path side path).
Proof. induction path as [|[a x] [|[b y] path] IH]; simpl; keeps. Qed.
#[local] Hint Resolve keeps_freezes_path : frame.

Lemma keeps_freezes_credit_swap side c path : keeps freezes (credit_swap side c path).
Proof. unfold credit_swap. keeps. destruct path as [|[? ?] [|[? ?] ?]]; keeps. Qed.
#[local] Hint Resolve keeps_freezes_credit_swap : frame.

Lemma keeps_freezes_swap side s path to k : keeps freezes (swap side s path to k).
Proof. unfold swap. keeps. Qed.
#[local] Hint Resolve keeps_freezes_swap : frame.

Lemma keeps_freezes_swap_in s path x m to k : keeps freezes (do_swap_exact_tokens_for_tokens s path x m to k).
Proof. unfold do_swap_exact_tokens_for_tokens. keeps. Qed.
Lemma keeps_freezes_swap_out s path y m to k : keeps freezes (do_swap_tokens_for_exact_tokens s path y m to k).
Proof. unfold do_swap_tokens_for_exact_tokens. keeps. Qed.
#[local] Hint Resolve keeps_freezes_swap_in keeps_freezes_swap_out : frame.

Lemma keeps_freezes_fill side o q b qa : keeps freezes (do_fill_pool side o q b qa).
Proof. unfold do_fill_pool. keeps. Qed.
#[local] Hint Resolve keeps_freezes_fill : frame.

Lemma keeps_freezes_loop fuel side o b qa pool remain fo :
  keeps freezes (match_loop fuel side o b qa pool remain fo).
Proof.
  revert pool remain fo. induction fuel as [|fuel IH]; intros pool remain fo; cbn [match_loop];
    (destruct (0 <? remain); [|keeps]);
    (destruct (if side then _ else _) as [[price ?]|]; [|keeps]); keeps.
Qed.

Lemma keeps_freezes_create_pool s b bd qa qd fee tick lot pd :
  keeps freezes (do_create_pool s b bd qa qd fee tick lot pd).
Proof. unfold do_create_pool, touch_if_needed, pool_touch_if_needed. keeps. Qed.
Lemma keeps_freezes_do_touch who b q : keeps freezes (do_touch who b q).
Proof. unfold do_touch, touch_if_needed, pool_touch_if_needed. keeps. Qed.
Lemma keeps_freezes_add s b q bd qd bm qm to : keeps freezes (do_add_liquidity s b q bd qd bm qm to).
Proof. unfold do_add_liquidity. keeps. Qed.
Lemma keeps_freezes_remove s b q burn bm qm to : keeps freezes (do_remove_liquidity s b q burn bm qm to).
Proof. unfold do_remove_liquidity. keeps. Qed.
Lemma keeps_freezes_cancel who b qa p id q : keeps freezes (do_cancel_order who b qa p id q).
Proof. unfold do_cancel_order, mutate_pool. keeps. Qed.
End Freezes.

(** ** The worth of orders *)
Section Worth.
Context `{T : Config, HO : !OrderInterface AccountId Level, HL : !OrderInterfaceLaws AccountId Level}.
Context `{HB : !OrderBookLaws AccountId Level BookError Book, HW : !LevelOwed AccountId Level}.
Implicit Types (pool : Pool) (side : bool).

(** What a bid (in the quote asset) or an ask (in the base asset) is worth. *)
Definition exponent pool : Z := default 0 (decimal_adjustment pool).1.1 + default 0 (decimal_adjustment pool).2.
Definition order_value side pool (p q : Z) : Z := if side then p * q / 10 ^ exponent pool else q.

Definition counted side pool (who : AccountId) (p : Z) (o : AccountId) (q : Z) : Z :=
  if decide (o = who) then order_value side pool p q else 0.

(** All open orders of an account on one side of a pool. *)
Definition pool_owed side pool who : Z :=
  book_owed (counted side pool who) (levels (get_orderbook pool side)).

(** The fills of a matching round, by owner, price and quantity. *)
Definition fills_weight (g : Z → AccountId → Z → Z) (l : list (AccountId * Z * Z)) : Z :=
  foldr (λ f n, g f.1.2 f.1.1 f.2 + n) 0 l.
Definition fills_owed side pool who : list (AccountId * Z * Z) → Z := fills_weight (counted side pool who).

(** What no order changes. *)
Definition same_terms pool pool' : Prop :=
  decimal_adjustment pool' = decimal_adjustment pool ∧ lp_token pool' = lp_token pool.

Lemma counted_same side pool pool' who : same_terms pool pool' → counted side pool' who = counted side pool who.
Proof. unfold counted, order_value, exponent. by intros [-> _]. Qed.

Lemma fills_owed_same side pool pool' who l :
  same_terms pool pool' → fills_owed side pool' who l = fills_owed side pool who l.
Proof. intros Hs. unfold fills_owed. by rewrite (counted_same side pool pool' who Hs). Qed.

Lemma fills_weight_app g l1 l2 : fills_weight g (l1 ++ l2) = fills_weight g l1 + fills_weight g l2.
Proof. unfold fills_weight. induction l1 as [|f l1 IH]; simpl; lia. Qed.

Lemma fills_weight_nonneg g l :
  (∀ p o q, 0 ≤ q → 0 ≤ g p o q) → Forall (λ f, 0 ≤ f.2) l → 0 ≤ fills_weight g l.
Proof.
  intros Hg. induction 1 as [|[[o p] q] l Hq Hl IH]; [done|]. specialize (Hg p o q Hq).
  change (fills_weight g ((o, p, q) :: l)) with (g p o q + fills_weight g l). lia.
Qed.

Lemma div_superadditive F p a b : 0 ≤ F → 0 ≤ p → 0 ≤ a → 0 ≤ b → 0 ≤ p * a / F ∧ p * a / F + p * b / F ≤ p * (a + b) / F.
Proof.
  intros HF Hp Ha Hb. destruct (Z.eq_dec F 0) as [->|]; [rewrite !Z.div_0_r; lia|].
  split; [apply Z.div_pos; nia|]. apply Z.div_le_lower_bound; [lia|].
  pose proof (Z.mul_div_le (p * a) F ltac:(lia)). pose proof (Z.mul_div_le (p * b) F ltac:(lia)). nia.
Qed.

Lemma counted_superadditive side pool who p : 0 ≤ p → superadditive (counted side pool who p).
Proof.
  intros Hp o a b Ha Hb. unfold counted, order_value. case_decide; [|lia].
  destruct side; [|lia]. apply div_superadditive; [|done..]. apply Z.pow_nonneg. lia.
Qed.
#[local] Hint Resolve counted_superadditive : core.

Lemma pool_levels_ok side pool : pool_ok pool → levels_ok (levels (get_orderbook pool side)).
Proof.
  intros (Hb & Ha & _) p v Hv. assert (book_ok (get_orderbook pool side)) as Hok by (by destruct side).
  split; [|by eapply book_values_law]. apply (book_prices_law _ p) in Hok; [|eauto]. apply Hok.
Qed.
#[local] Hint Resolve pool_levels_ok : core.

Lemma counter_get side pool : counter_book side pool = get_orderbook pool (negb side).
Proof. by destruct side. Qed.

Lemma pool_owed_nonneg side pool who : pool_ok pool → 0 ≤ pool_owed side pool who.
Proof.
  intros Hok. apply map_sum_nonneg. intros p v Hv. destruct (pool_levels_ok side pool Hok p v Hv) as [Hp Hval].
  apply weigh_nonneg; [auto|by apply owed_nonneg].
Qed.

(** One open order. *)
Lemma pool_owed_order side pool p v o q :
  pool_ok pool → levels (get_orderbook pool side) !! p = Some v → (o, q) ∈ owed v →
  order_value side pool p q ≤ pool_owed side pool o.
Proof.
  intros Hok Hv Hin. destruct (pool_levels_ok side pool Hok p v Hv) as [Hp Hval].
  etrans; [|apply (book_owed_level (counted side pool o) _ p v); auto].
  etrans; [|apply (weigh_elem _ _ o q); [auto|by apply owed_nonneg|done]].
  unfold counted. by rewrite decide_True.
Qed.

(** Filling from the book hands out no more than was owed. *)
Lemma collect_filled_Ok price fills fo acc l n :
  collect_filled price fills fo acc = Ok (l, n) → l = fo ++ ((λ f, (f.1, price, f.2)) <$> fills).
Proof.
  revert fo acc. induction fills as [|[o q] fills IH]; intros fo acc; simpl.
  - intros [= <- _]. by rewrite app_nil_r.
  - intros Hc. inv_run. match goal with H : collect_filled _ _ _ _ = _ |- _ => apply IH in H as -> end.
    by rewrite <-app_assoc.
Qed.

Lemma fills_weight_at g price (fills : list (AccountId * Z)) :
  fills_weight g ((λ f, (f.1, price, f.2)) <$> fills) = weigh (g price) fills.
Proof.
  unfold fills_weight, weigh. induction fills as [|[o q] fills IH]; [done|].
  cbn [fmap list_fmap foldr fst snd]. by rewrite IH.
Qed.

(** [pool'] is [pool] after the orders [new] were filled against it. *)
Definition fills_from side pool pool' (new : list (AccountId * Z * Z)) : Prop :=
  pool_ok pool' ∧ same_terms pool pool' ∧ get_orderbook pool' side = get_orderbook pool side ∧
  Forall (λ f, 0 ≤ f.2) new ∧
  ∀ g, (∀ p, 0 ≤ p → superadditive (g p)) →
    fills_weight g new + book_owed g (levels (get_orderbook pool' (negb side)))
      ≤ book_owed g (levels (get_orderbook pool (negb side))).

Lemma fills_from_refl side pool : pool_ok pool → fills_from side pool pool [].
Proof. intros Hok. split_and!; [done..|constructor|]. intros g _. simpl. lia. Qed.

Lemma fills_from_trans side pool1 pool2 pool3 l1 l2 :
  fills_from side pool1 pool2 l1 → fills_from side pool2 pool3 l2 → fills_from side pool1 pool3 (l1 ++ l2).
Proof.
  intros (_ & [Hd1 Ht1] & Hb1 & Hn1 & H1) (Hok & [Hd2 Ht2] & Hb2 & Hn2 & H2).
  split_and!; [done|by split; etrans|by etrans|by apply Forall_app|]. intros g Hg. specialize (H1 g Hg).
  specialize (H2 g Hg). rewrite fills_weight_app. lia.
Qed.

Lemma do_fill_book_owed side pool price q fo pool' rem fo' :
  pool_ok pool → in_range BITS q → do_fill_book side pool price q fo = Ok (pool', rem, fo') →
  ∃ new, fo' = fo ++ new ∧ in_range BITS rem ∧ fills_from side pool pool' new.
Proof.
  intros Hok Hq Hrun. unfold do_fill_book in Hrun.
  destruct (pool_fill_order_spec side price q pool Hok Hq) as (r & b' & Hfill & Hb' & Hl).
  rewrite Hfill in Hrun. rewrite counter_get in Hl.
  assert (∃ new filled, (match r with
             | None => Ok (fo, 0)
             | Some fills => collect_filled price fills fo 0
             end) = Ok (E:=Error) (fo ++ new, filled) ∧ fo' = fo ++ new ∧ pool' = set_counter_book side b' pool ∧
             u_sub (E:=Error) BITS q filled = Ok rem ∧ new = ((λ f, (f.1, price, f.2)) <$> default [] r))
    as (new & filled & _ & -> & -> & Hrem & ->).
  { simpl in Hrun. destruct r as [fills|]; simpl in Hrun.
    - destruct (collect_filled price fills fo 0) as [[l n]| | |] eqn:Hc; try done.
      pose proof (collect_filled_Ok _ _ _ _ _ _ Hc) as ->. simpl in Hrun. inv_run. by eexists _, _.
    - inv_run. eexists [], 0. rewrite app_nil_r. by split_and!. }
  eexists. split; [done|]. split; [eapply overflowing_range; [apply BITS_pos|exact Hrem]|].
  assert (get_orderbook (set_counter_book side b' pool) (negb side) = b') as Hg' by (by destruct side).
  assert (∀ g, (∀ p, 0 ≤ p → superadditive (g p)) → _) as Hfill2
    by (intros g Hg; exact (book_owed_fill (E:=BookError) g price q _ _ _ Hg (pool_levels_ok (negb side) pool Hok) Hq Hl)).
  split_and!; [by apply set_counter_book_ok|by destruct side|by destruct side| |].
  - destruct (Hfill2 (λ _ _ _, 0)) as [Hnn _]; [intros; unfold superadditive; lia|].
    apply Forall_fmap. exact Hnn.
  - intros g Hg. rewrite fills_weight_at, Hg'. by apply Hfill2.
Qed.

Lemma match_loop_owed fuel side o base qa pool remain fo w pool' remain' fo' w' :
  pool_ok pool → in_range BITS remain →
  match_loop fuel side o base qa pool remain fo w = (Ok (pool', remain', fo'), w') →
  ∃ new, fo' = fo ++ new ∧ fills_from side pool pool' new.
Proof.
  revert pool remain fo w. induction fuel as [|fuel IH]; intros pool remain fo w Hok Hr Hrun;
    cbn [match_loop] in Hrun.
  - exists []. rewrite app_nil_r.
    destruct (0 <? remain); [destruct (if side then _ else _) as [[? ?]|] in Hrun|]; inv_call;
      try done; (split; [done|by apply fills_from_refl]).
  - destruct (0 <? remain); [|inv_call; exists []; rewrite app_nil_r; split; [done|by apply fills_from_refl]].
    destruct (if side then next_ask_order pool else next_bid_order pool) as [[price ?]|];
      [|inv_call; exists []; rewrite app_nil_r; split; [done|by apply fills_from_refl]].
    apply M_bind_inv in Hrun as (msq & w1 & _ & Hrun). destruct (remain <=? msq).
    + apply M_bind_inv in Hrun as (u & w2 & _ & Hrun). apply IH in Hrun; [done|done|].
      unfold in_range in *. lia.
    + apply M_bind_inv in Hrun as (u & w2 & _ & Hrun).
      apply M_bind_inv in Hrun as (rem & w3 & Hrem & Hrun). unfold lift in Hrem.
      injection Hrem as Hrem <-. apply overflowing_range in Hrem; [|apply BITS_pos].
      apply M_bind_inv in Hrun as ([[pool2 rem2] fo2] & w3 & Hb & Hrun). unfold lift in Hb.
      injection Hb as Hb%pallet_err_Ok <-.
      apply do_fill_book_owed in Hb as (new & -> & Hrem2 & Hfrom); [|done..].
      apply IH in Hrun as (new2 & -> & Hfrom2); [|by destruct Hfrom|done].
      exists (new ++ new2). rewrite app_assoc. split; [done|]. by eapply fills_from_trans.
Qed.

(** ** Placing and cancelling *)
Lemma pool_place_order_terms current side o p q pool r pool' :
  pool_place_order current side o p q pool = (Ok r, pool') → same_terms pool pool'.
Proof.
  unfold pool_place_order, same_terms. intros Hrun.
  apply M_bind_inv in Hrun as (e & s & He & Hrun). injection He as _ <-.
  apply M_bind_inv in Hrun as (oid & s & Hrun & Hret). injection Hret as <- <-.
  destruct side; apply M_bind_inv in Hrun as (id' & s2 & Hid & Hrun);
    apply M_bind_inv in Hrun as (u & s3 & Hz & Hret); injection Hret as _ <-;
    unfold zoom, map_err_M in Hz; destruct (place_order _ _ _ _ _ _) in Hz; injection Hz as _ <-;
    (unfold next_bid_order_id in Hid || unfold next_ask_order_id in Hid);
    by inv_run; repeat case_match; simplify_eq.
Qed.

Lemma do_place_order_terms side id pool maker base qa p q w pool' w' :
  do_place_order side id pool maker base qa p q w = (Ok pool', w') → same_terms pool pool'.
Proof.
  unfold do_place_order. destruct (decimal_adjustment pool) as [[? ?] ?]. intros Hrun.
  apply M_bind_inv in Hrun as (u & w1 & _ & Hrun). apply M_bind_inv in Hrun as (w0 & w2 & _ & Hrun).
  destruct (pool_place_order _ _ _ _ _ _) as [r pool2] eqn:Hpl. inv_call. subst.
  by apply pool_place_order_terms in Hpl.
Qed.

(** Cancelling takes from the orders on either side. *)
Lemma pool_cancel_order_owed o p id q pool r pool' :
  pool_ok pool → in_range BITS q → pool_cancel_order o p id q pool = (r, pool') →
  pool_ok pool' ∧ same_terms pool pool' ∧ ∀ side g, (∀ p, 0 ≤ p → superadditive (g p)) →
    book_owed g (levels (get_orderbook pool' side)) ≤ book_owed g (levels (get_orderbook pool side)).
Proof.
  intros Hok Hq Hrun. destruct (pool_cancel_order_ok o p id q pool Hok Hq) as (r2 & pool2 & Hc & Hok2 & _).
  rewrite Hrun in Hc. injection Hc as <- <-. split; [done|].
  assert (same_terms pool pool' ∧ ∀ s, get_orderbook pool' s = get_orderbook pool s ∨
      levels (get_orderbook pool' s) = levels (get_orderbook pool s) ∨
      ∃ v v', levels (get_orderbook pool s) !! p = Some v ∧ canceled o id q v = (Ok (), v') ∧
        levels (get_orderbook pool' s) = <[p := v']> (levels (get_orderbook pool s))) as [Hd Hs].
  { pose proof Hok as (Hb & Ha & _). unfold pool_cancel_order in Hrun.
    destruct (is_bid id); rewrite M_bind_run in Hrun; unfold zoom, map_err_M in Hrun.
    - destruct (cancel_order_law o p id q _ Hb Hq) as [(v & v' & b' & Hv & Hcv & Hr & _ & Hl)|(e & b' & Hr & _ & Hl)];
        rewrite Hr in Hrun; injection Hrun as <- <-; (split; [done|]); intros []; naive_solver.
    - destruct (cancel_order_law o p id q _ Ha Hq) as [(v & v' & b' & Hv & Hcv & Hr & _ & Hl)|(e & b' & Hr & _ & Hl)];
        rewrite Hr in Hrun; injection Hrun as <- <-; (split; [done|]); intros []; naive_solver. }
  split; [done|]. intros side g Hg.
  destruct (Hs side) as [->|[->|(v & v' & Hv & Hcv & ->)]]; [done..|].
  eapply book_owed_cancel; [exact Hg|by apply pool_levels_ok|done..].
Qed.
End Worth.
