(* ===== verification/OrderDefects.v ===== *)
(** * Orders that are placed or matched against their intent

    The value of a bid that exceeds the width of an amount, the order that
    joins a book although the other side would meet its price, and the market
    order that aborts because the search takes a step larger than the order. *)
From S2P Require Import Prelude Index CritbitOps OrderId Tick OrderBook Backing Errors Amm Locator Assets Config Pool Pallet PalletFacts Matching SearchFacts MatchFacts Liquidity OrderFacts Dispatch BackingFacts.
From Stdlib Require Import Bool.
Import PalletError.

(** ** The value of a bid *)
Section Values.
Context `{T : Config}.
Implicit Types (w : World) (pool : Pool).

Lemma overflowing_out {E} width r :
  2 ^ width ≤ r → overflowing (E:=E) width r = if overflow_checks then Panic else Ok (r mod 2 ^ width).
Proof.
  intros Hr. unfold overflowing, in_rangeb. destruct (Z.ltb_spec r (2 ^ width)); [lia|]. by rewrite andb_false_r.
Qed.

Lemma bid_value_overflows pool p q :
  0 ≤ exponent pool ≤ 19 → 2 ^ BITS ≤ p * q →
  freeze_amount true pool p q =
    if overflow_checks then Panic else Ok ((p * q) mod 2 ^ BITS / 10 ^ exponent pool).
Proof.
  unfold freeze_amount, exponent. destruct (decimal_adjustment pool) as [[p_adj b_adj] q_adj]. simpl. intros He Ho.
  unfold u_mul. rewrite overflowing_out by done. destruct overflow_checks; [done|]. run_step.
  rewrite u_add_ok by (unfold in_range; lia). run_step.
  unfold denom. rewrite pow10_ok by done. run_step. unfold u_div.
  assert (0 < 10 ^ (default 0 p_adj + default 0 q_adj)) by (apply Z.pow_pos_nonneg; lia).
  by destruct (Z.eqb_spec (10 ^ (default 0 p_adj + default 0 q_adj)) 0); [lia|].
Qed.

(** What is lost is at least one unit. *)
Lemma wrapped_value_less v k m : 0 < k ≤ m → m ≤ v → v mod m / k < v / k.
Proof.
  intros Hk Hv. assert (v mod m / k + 1 ≤ v / k); [|lia].
  rewrite <-Z.div_add by lia. apply Z.div_le_mono; [lia|].
  pose proof (Z.div_mod v m ltac:(lia)). pose proof (Z.div_str_pos v m ltac:(lia)). nia.
Qed.

(** Placing stops where the computation of the value stops. *)
Lemma do_place_order_aborts id pool maker base quote_asset price q w :
  freeze_amount true pool price q = Panic →
  (do_place_order true id pool maker base quote_asset price q w).1 = Panic.
Proof.
  unfold freeze_amount, do_place_order. destruct (decimal_adjustment pool) as [[p_adj b_adj] q_adj]. intros Hp.
  rewrite M_bind_run.
  assert ((product ← lift (pallet_err (u_mul BITS price q));
           adj ← lift (pallet_err (u_add 8 (default 0 p_adj) (default 0 q_adj)));
           freeze_amount ← lift (pallet_err (denom product adj));
           freeze_asset maker quote_asset freeze_amount) w = (Panic, w)) as ->; [|done].
  revert Hp. rewrite !M_bind_run. unfold lift, pallet_err.
  destruct (u_mul BITS price q) as [v|?| |]; cbn [mbind outcome_bind map_err] in *; try done.
  rewrite M_bind_run. destruct (u_add 8 _ _) as [adj|?| |]; cbn [mbind outcome_bind map_err] in *; try done.
  rewrite M_bind_run. by destruct (denom v adj) as [n|?| |].
Qed.
End Values.

(** ** Books that cross *)
Section Crossing.
Context `{T : Config, HO : !OrderInterface AccountId Level, HL : !OrderInterfaceLaws AccountId Level}.
Context `{HB : !OrderBookLaws AccountId Level BookError Book}.
Implicit Types (w : World) (pool : Pool) (side : bool).

(** The best order that an order of the side could be filled from, and the
    best order of the side itself. *)
Definition opposite side pool : option (Z * Z) := if side then next_ask_order pool else next_bid_order pool.
Definition own side pool : option (Z * Z) := if side then next_bid_order pool else next_ask_order pool.

Lemma opposite_same side pool pool' :
  get_orderbook pool' (negb side) = get_orderbook pool (negb side) → opposite side pool' = opposite side pool.
Proof. unfold opposite, next_ask_order, next_bid_order. destruct side; simpl; by intros ->. Qed.

(** A price of the own side is at most as good as the best one. *)
Lemma own_best side pool p :
  pool_ok pool → is_Some (levels (get_orderbook pool side) !! p) →
  ∃ best i, own side pool = Some (best, i) ∧ better side p best.
Proof.
  intros Hok [v Hp]. unfold own, better. destruct side; simpl in *.
  - pose proof (next_bid_order_best pool Hok) as Hb. destruct (next_bid_order pool) as [[best i]|].
    + exists best, i. split; [done|]. destruct Hb as [_ Hb]. apply Hb. by exists v.
    + by rewrite Hb, lookup_empty in Hp.
  - pose proof (next_ask_order_best pool Hok) as Ha. destruct (next_ask_order pool) as [[best i]|].
    + exists best, i. split; [done|]. destruct Ha as [_ Ha]. apply Ha. by exists v.
    + by rewrite Ha, lookup_empty in Hp.
Qed.

Lemma placed_level id (o : AccountId) p q e (m : gmap Z Level) : is_Some (levels_place id o p q e m !! p).
Proof. unfold levels_place. rewrite lookup_insert_eq. eauto. Qed.
End Crossing.

(** ** The step of the search *)
Section Steps.
Context `{T : Config}.
Implicit Types (w : World) (pool : Pool) (side : bool).

Lemma u_sub_checked {E} width a b : overflow_checks = true → a < b → u_sub (E:=E) width a b = Panic.
Proof.
  intros Hc Hab. unfold u_sub, overflowing, in_rangeb. rewrite Hc. by destruct (Z.leb_spec 0 (a - b)); [lia|].
Qed.

(** The pool is already too dear (or too cheap) after half the order, and the
    step that shortens the interval is larger than that half. *)
Lemma search_step_aborts fuel side target pool b_r q_r q p :
  overflow_checks = true → 0 < q → q + 1 < 2 ^ BITS →
  price_after side pool b_r q_r ((q + 1) / 2) = Ok p → (if side then target < p else p < target) →
  0 ≤ base_decimals pool ≤ 19 → 10 ^ base_decimals pool < 2 ^ BITS → (q + 1) / 2 < 10 ^ base_decimals pool →
  search (S fuel) side target pool b_r q_r 0 q 0 = Panic.
Proof.
  intros Hc Hq Hw Hp Hfar Hd Hd' Hstep. cbn [search].
  destruct (Z.ltb_spec 0 q); [|lia].
  rewrite u_add_ok by (unfold in_range; lia). run_step. rewrite u_add_ok by (unfold in_range; lia). run_step.
  unfold u_div at 1. change (2 =? 0) with false. run_step. replace (0 + q + 1) with (q + 1) by lia. rewrite Hp. run_step.
  destruct (Z.eqb_spec p target) as [->|_]; [destruct side; lia|].
  unfold normalize. simpl default. rewrite pow10_ok by done. run_step.
  rewrite u_mul_ok by (unfold in_range; split; [apply Z.mul_nonneg_nonneg; lia|lia]). run_step.
  destruct (Z.ltb_spec p target), side; try lia; by rewrite u_sub_checked by (done || lia).
Qed.

(** A market order reaches the search in its first round. *)
Lemma market_order_search_aborts side who base quote_asset q w id pool target i :
  0 < q → pool_id base quote_asset = Some id → Pools w !! id = Some pool →
  is_valid_order_quantity pool q = Ok true →
  (if side then next_ask_order pool else next_bid_order pool) = Some (target, i) →
  find_max_swap_quantity w side target pool base quote_asset q = Panic →
  (market_order (Some who) base quote_asset q side w).1 = Panic.
Proof.
  intros Hq Hid Hpool Hv Hnext Hpanic. unfold market_order, with_storage_layer, do_market_order, mutate_pool.
  unfold pallet_err, asset_pair, require, ensure_signed. destruct (Z.ltb_spec 0 q); [|lia]. rewrite Hid.
  do 6 run_step. rewrite Hpool. do 3 run_step. unfold pallet_err. rewrite Hv. do 4 run_step.
  unfold do_match_order, match_fuel. rewrite !M_bind_run. cbn [match_loop].
  destruct (Z.ltb_spec 0 q); [|lia]. rewrite Hnext. rewrite M_bind_run. unfold gets, pallet_err. rewrite Hpanic. done.
Qed.
End Steps.
