(* ===== verification/Backed.v ===== *)
(** * The freezes of a history cover its open orders

    [claim] is what the open orders of one pool are worth to an account in an
    asset, [backing] the sum over all pools.  Each call changes the freezes of
    an account by at least what it changes the worth of its orders. *)
From S2P Require Import Prelude Index CritbitOps OrderId Tick OrderBook Backing Errors Amm Locator Assets Config Pool Pallet PalletFacts Matching SearchFacts MatchFacts Liquidity LiquidityFacts OrderFacts Frames Dispatch BackingFacts.
From Stdlib Require Import Bool.
Import PalletError.

Section Amounts.
Context `{T : Config}.
Implicit Types (pool : Pool) (side : bool).

(** With checked arithmetic an amount that is computed is exact. *)
Lemma overflowing_exact {E} w r x : overflow_checks = true → overflowing (E:=E) w r = Ok x → x = r.
Proof. intros Hc. unfold overflowing. rewrite Hc. destruct (in_rangeb w r); congruence. Qed.

Lemma released_amount_exact side pool p q r :
  overflow_checks = true → released_amount side pool p q = Ok r → r = order_value (negb side) pool p q.
Proof.
  intros Hc. unfold released_amount, order_value, exponent.
  destruct (decimal_adjustment pool) as [[p_adj b_adj] q_adj]. destruct side; simpl; [congruence|].
  unfold u_mul, u_add, denom, pow10, u_div. intros Hr. inv_run.
  repeat match goal with H : overflowing _ _ = Ok _ |- _ => apply overflowing_exact in H as ->; [|done] end.
  match goal with H : (if ?b then _ else _) = _ |- _ => destruct b; [done|by injection H as <-] end.
Qed.

Lemma freeze_amount_exact side pool p q r :
  overflow_checks = true → freeze_amount side pool p q = Ok r → r = order_value side pool p q.
Proof.
  intros Hc Hr. rewrite <-(negb_involutive side). apply released_amount_exact; [done|].
  unfold freeze_amount, released_amount in *. by destruct side, (decimal_adjustment pool) as [[? ?] ?].
Qed.

End Amounts.

Section Settled.
Context `{T : Config, HF : !FungiblesLaws AccountId AssetKind Ledger,
  HP : !PoolFungiblesLaws AccountId AssetKind PoolAssetId Ledger,
  HK : !KeepsFreezes AccountId AssetKind PoolAssetId Ledger}.
Context (Hchecks : overflow_checks = true).

(** Settling releases what the fills were worth. *)
Lemma settle_frozen side pool a1 a2 o fills w w' :
  settle side pool a1 a2 o fills w = (Ok (), w') → ∀ a who,
  frozen (ledger w') a who =
  frozen (ledger w) a who - (if decide (a1 = a) then fills_owed (negb side) pool who fills else 0).
Proof using Hchecks HK.
  revert w. induction fills as [|[[ow p] q] fills IH]; intros w Hs a who; cbn [settle] in Hs.
  - injection Hs as <-. simpl. case_decide; lia.
  - apply M_bind_inv in Hs as (r & w1 & Hr & Hs). unfold lift in Hr. injection Hr as Hr <-.
    apply pallet_err_Ok, released_amount_exact in Hr as ->; [|done].
    apply M_bind_inv in Hs as (u & w1 & Hd & Hs). apply on_ledger_Ok in Hd as (l & Hd & ->).
    destruct u. apply decrease_frozen_law in Hd as [_ Hd].
    set (r := order_value (negb side) pool p q) in *.
    destruct (if side then (q, r) else (r, q)) as [t1 t2].
    apply M_bind_inv in Hs as (u & w2 & H1 & Hs). apply keeps_freezes_transfer in H1.
    apply M_bind_inv in Hs as (u2 & w3 & H2 & Hs). apply keeps_freezes_transfer in H2.
    rewrite (IH w3 Hs), H2, H1. simpl. rewrite Hd. unfold moved, counted. subst r. simpl.
    repeat case_decide; simplify_eq; lia.
Qed.
End Settled.

Section Backed.
Context `{T : Config, HO : !OrderInterface AccountId Level, HL : !OrderInterfaceLaws AccountId Level}.
Context `{HB : !OrderBookLaws AccountId Level BookError Book, HW : !LevelOwed AccountId Level}.
Context `{HF : !FungiblesLaws AccountId AssetKind Ledger,
  HP : !PoolFungiblesLaws AccountId AssetKind PoolAssetId Ledger,
  HK : !KeepsFreezes AccountId AssetKind PoolAssetId Ledger}.

(** A pool is traded in one direction only ([BaseQuoteAsset]). *)
Context (pair_of : PoolId → AssetKind * AssetKind).
Context (pair_of_law : ∀ b q id, pool_id b q = Some id → pair_of id = (b, q)).
Context (Hchecks : overflow_checks = true).
Implicit Types (w : World) (pool : Pool) (side : bool).

Definition side_asset side id : AssetKind := if side then (pair_of id).2 else (pair_of id).1.
Definition side_claim side id pool a who : Z := if decide (side_asset side id = a) then pool_owed side pool who else 0.
Definition claim id pool a who : Z := side_claim true id pool a who + side_claim false id pool a who.
Definition backing w a who : Z := map_sum (λ id pool, claim id pool a who) (Pools w).
Definition backed w : Prop := ∀ a who, backing w a who ≤ frozen (ledger w) a who.

(** A call that changes a pool and leaves [Pools] to its caller. *)
Definition pays id pool pool' w w' : Prop :=
  pool_ok pool' ∧ Pools w' = Pools w ∧ ∀ a who,
  claim id pool' a who - claim id pool a who ≤ frozen (ledger w') a who - frozen (ledger w) a who.

Lemma claim_sides side id pool a who :
  claim id pool a who = side_claim side id pool a who + side_claim (negb side) id pool a who.
Proof. unfold claim. destruct side; simpl; lia. Qed.

Lemma pool_owed_same side pool pool' who :
  same_terms pool pool' → get_orderbook pool' side = get_orderbook pool side →
  pool_owed side pool' who = pool_owed side pool who.
Proof. intros Hd Hb. unfold pool_owed. by rewrite Hb, (counted_same side pool pool'). Qed.

(** Matching. *)
Lemma do_match_order_pays side o pool base qa q id w pool' w' :
  pool_ok pool → in_range BITS q → pair_of id = (base, qa) →
  do_match_order side o pool base qa q w = (Ok pool', w') → pays id pool pool' w w'.
Proof.
  intros Hok Hq Hid Hrun. destruct (do_match_order_pool_ok _ _ _ _ _ _ _ _ _ Hok Hq Hrun) as [Hok' Hpools].
  split_and!; [done..|]. intros a who. unfold do_match_order in Hrun.
  apply M_bind_inv in Hrun as ([[pool1 rem] fills] & w1 & Hloop & Hrun).
  pose proof (keeps_freezes_loop _ _ _ _ _ _ _ _ _ _ _ Hloop) as Hf1. cbv beta in Hf1.
  apply match_loop_owed in Hloop as (new & -> & (_ & Hd & Hside & _ & Hother)); [|done..].
  apply M_bind_inv in Hrun as (u & w2 & Hfill & Hrun).
  assert (frozen (ledger w2) = frozen (ledger w1)) as Hf2.
  { destruct (0 <? rem); [by apply keeps_freezes_fill in Hfill|]. by injection Hfill as _ <-. }
  apply M_bind_inv in Hrun as ([] & w3 & Hset & Hrun). unfold handle_filled_orders in Hset.
  assert (∀ a who, frozen (ledger w3) a who = frozen (ledger w2) a who -
    (if decide (side_asset (negb side) id = a) then fills_owed (negb side) pool1 who new else 0)) as Hf3.
  { unfold side_asset. rewrite Hid. intros b x. destruct side; exact (settle_frozen Hchecks _ _ _ _ _ _ _ _ Hset b x). }
  inv_call. subst. simpl. rewrite Hf3, Hf2, Hf1, !(claim_sides side). unfold side_claim.
  rewrite (pool_owed_same side pool pool') by done. 
  specialize (Hother (counted (negb side) pool who) ltac:(intros; by apply counted_superadditive)).
  unfold pool_owed. rewrite (counted_same (negb side) pool pool') by done. unfold fills_owed.
  rewrite (counted_same (negb side) pool pool') by done. case_decide; case_decide; lia.
Qed.

(** Placing. *)
Lemma do_place_order_pays side id pool maker base qa p q w pool' w' :
  pool_ok pool → in_range BITS p → in_range BITS q → pair_of id = (base, qa) →
  do_place_order side id pool maker base qa p q w = (Ok pool', w') → pays id pool pool' w w'.
Proof.
  intros Hok Hp Hq Hid Hrun. pose proof (do_place_order_terms _ _ _ _ _ _ _ _ _ _ _ Hrun) as Hd.
  apply do_place_order_Ok in Hrun
    as (amount & oid & e & Hamt & _ & Hok' & Hl & Ho & _ & Hpools & _ & Hf); [|done..].
  split_and!; [done..|]. intros a who. rewrite Hf, !(claim_sides side). unfold side_claim.
  rewrite (pool_owed_same (negb side) pool pool') by done.
  apply freeze_amount_exact in Hamt as ->; [|done].
  assert (pool_owed side pool' who ≤ pool_owed side pool who + counted side pool who p maker q) as Hle.
  { unfold pool_owed. rewrite Hl, (counted_same side pool pool') by done.
    apply book_owed_place; [intros; by apply counted_superadditive|by apply pool_levels_ok]. }
  assert ((if side then qa else base) = side_asset side id) as ->.
  { unfold side_asset. rewrite Hid. by destruct side. }
  unfold moved, counted in *. repeat case_decide; simplify_eq; lia.
Qed.

(** Writing a pool back. *)
Lemma mutate_pool_backed id (f : Pool → M World DispatchError Pool) w w' :
  world_ok w → backed w →
  (∀ pool pool' w2, pool_ok pool → f pool w = (Ok pool', w2) → pays id pool pool' w w2) →
  mutate_pool id f w = (Ok (), w') → world_ok w' ∧ backed w'.
Proof.
  intros Hw Hb Hf Hm. apply mutate_pool_Ok in Hm as (pool & pool' & w1 & Hpool & Hrun & ->).
  destruct (Hf pool pool' w1) as (Hok' & Hpools & Hpay); [by apply (Hw id)|done|].
  split; [unfold world_ok; simpl; rewrite Hpools; by apply map_Forall_insert_2|].
  intros a who. unfold backing. simpl. rewrite Hpools, map_sum_insert, Hpool. simpl.
  specialize (Hb a who). specialize (Hpay a who). unfold backing in Hb. lia.
Qed.

Lemma keeps_backed {A} (m : M World DispatchError A) w u w' :
  keeps Pools m → keeps (λ w, frozen (ledger w)) m → world_ok w ∧ backed w → m w = (Ok u, w') →
  world_ok w' ∧ backed w'.
Proof.
  intros Hp Hf [Hw Hb] Hm. unfold world_ok, backed, backing.
  rewrite (Hp _ _ _ Hm). pose proof (Hf _ _ _ Hm) as Hfz. cbv beta in Hfz. by rewrite Hfz.
Qed.

(** One lemma per dispatchable that writes a pool. *)
Lemma market_order_backed side taker b qa q w u w' :
  world_ok w ∧ backed w → in_range BITS q → do_market_order side taker b qa q w = (Ok u, w') →
  world_ok w' ∧ backed w'.
Proof using pair_of_law Hchecks HW HP HL HK HB.
  intros [Hw Hb] Hq Hm. unfold do_market_order in Hm. inv_call. subst. destruct u.
  eapply mutate_pool_backed; [done..| |done]. intros pool pool' w2 Hok Hf. cbv beta in Hf. inv_call. subst.
  match goal with H : do_match_order _ _ _ _ _ _ _ = (Ok _, _) |- _ =>
    eapply do_match_order_pays in H; [exact H|by eauto..] end.
Qed.

Lemma limit_order_backed side maker b qa p q w u w' :
  world_ok w ∧ backed w → in_range BITS p → in_range BITS q →
  do_limit_order maker p q side b qa w = (Ok u, w') → world_ok w' ∧ backed w'.
Proof using pair_of_law Hchecks HW HP HL HK HB.
  intros [Hw Hb] Hp Hq Hm. unfold do_limit_order in Hm. inv_call. subst. destruct u.
  eapply mutate_pool_backed; [done..| |done]. intros pool pool' w2 Hok Hf. cbv beta in Hf. inv_call. subst.
  match goal with H : (if ?b then do_match_order _ _ _ _ _ _ else _) _ = (Ok _, _) |- _ =>
    destruct b;
      [eapply do_match_order_pays in H; [exact H|by eauto..]|eapply do_place_order_pays in H; [exact H|by eauto..]] end.
Qed.

Lemma cancel_order_backed o b qa p id q w u w' :
  world_ok w ∧ backed w → in_range BITS q → do_cancel_order o b qa p id q w = (Ok u, w') →
  world_ok w' ∧ backed w'.
Proof using HW HL HB.
  intros [Hw Hb] Hq Hm. unfold do_cancel_order in Hm. inv_call. subst. destruct u.
  eapply mutate_pool_backed; [done..| |done]. intros pool pool' w2 Hok Hf. cbv beta in Hf.
  destruct (pool_cancel_order _ _ _ _ _) as [r pool2] eqn:Hc. inv_call. subst.
  apply pool_cancel_order_owed in Hc as (Hok' & Hd & Ho); [|done..].
  split_and!; [done..|]. intros a who. simpl. unfold claim, side_claim, pool_owed.
  pose proof (Ho true (counted true pool who) ltac:(intros; by apply counted_superadditive)).
  pose proof (Ho false (counted false pool who) ltac:(intros; by apply counted_superadditive)).
  rewrite !(counted_same _ pool pool') by done. repeat case_decide; lia.
Qed.

Lemma create_pool_backed s b bd qa qd fee tick lot pd w u w' :
  world_ok w ∧ backed w → do_create_pool s b bd qa qd fee tick lot pd w = (Ok u, w') →
  world_ok w' ∧ backed w'.
Proof using HW HP HL HK HB.
  intros [Hw Hb] Hc. split; [by eapply create_pool_world_ok|]. destruct u.
  pose proof (keeps_freezes_create_pool _ _ _ _ _ _ _ _ _ _ _ _ Hc) as Hf. cbv beta in Hf.
  apply create_pool_Ok in Hc as (_ & _ & _ & id & lp & _ & Hnone & Hp & _). intros a who.
  unfold backing. rewrite Hp, Hf, map_sum_insert_new by done. specialize (Hb a who). unfold backing in Hb.
  assert (∀ side, pool_owed side (Pool_new lp fee tick lot pd bd qd) who = 0) as Hz; [|unfold claim, side_claim; rewrite !Hz; by repeat case_decide].
  intros side. unfold pool_owed. destruct side; simpl; by rewrite (proj2 book_new_law).
Qed.

Lemma run_dispatch_backed c w r w' :
  dispatch_ok c → world_ok w ∧ backed w → run_dispatch c w = (r, w') → world_ok w' ∧ backed w'.
Proof using pair_of_law Hchecks HW HP HL HK HB.
  intros Hc Hw Hrun. pose proof (λ A m u w', @keeps_backed A m w u w') as Hk.
  destruct c; simpl in Hc, Hrun; try apply discard_run in Hrun as [r' Hrun];
    first [ eapply (signed_layer_ok (λ w, world_ok w ∧ backed w)); [done| |exact Hrun]; intros who u w2 Hm; cbv beta in *
          | eapply (layer_ok (λ w, world_ok w ∧ backed w)); [done| |exact Hrun]; intros u w2 Hm; cbv beta in * ].
  - exact (create_pool_backed _ _ _ _ _ _ _ _ _ _ _ _ Hw Hm).
  - eapply Hk; [apply keeps_add|apply keeps_freezes_add|exact Hw|exact Hm].
  - eapply Hk; [apply keeps_remove|apply keeps_freezes_remove|exact Hw|exact Hm].
  - eapply Hk; [apply keeps_touch|apply keeps_freezes_do_touch|exact Hw|exact Hm].
  - exact (market_order_backed _ _ _ _ _ _ _ _ Hw Hc Hm).
  - destruct Hc as [Hp Hq]. exact (limit_order_backed _ _ _ _ _ _ _ _ _ Hw Hp Hq Hm).
  - exact (cancel_order_backed _ _ _ _ _ _ _ _ _ Hw Hc Hm).
  - eapply Hk; [apply keeps_swap_exact_in|apply keeps_freezes_swap_in|exact Hw|exact Hm].
  - eapply Hk; [apply keeps_swap_exact_out|apply keeps_freezes_swap_out|exact Hw|exact Hm].
Qed.

Lemma reachable_backed w0 w : world_ok w0 → backed w0 → reachable w0 w → world_ok w ∧ backed w.
Proof using pair_of_law Hchecks HW HP HL HK HB.
  intros Hw0 Hb0 Hr. assert (world_ok w0 ∧ backed w0) as H0 by done. clear Hw0 Hb0.
  induction Hr as [|w0 w1 w2 Hstep _ IH]; [done|]. apply IH.
  destruct Hstep as [c w r w' Hc Hrun|n w]; [by eapply run_dispatch_backed|done].
Qed.

(** One open order against the freeze of its owner. *)
Lemma backed_order side id pool p v o q w :
  world_ok w → backed w → Pools w !! id = Some pool →
  levels (get_orderbook pool side) !! p = Some v → (o, q) ∈ owed v →
  order_value side pool p q ≤ frozen (ledger w) (side_asset side id) o.
Proof using HL HB.
  intros Hw Hb Hpool Hv Hin. etrans; [|apply Hb]. unfold backing.
  assert (∀ s i pl, Pools w !! i = Some pl → 0 ≤ side_claim s i pl (side_asset side id) o) as Hn.
  { intros s i pl Hi. unfold side_claim. case_decide; [|done]. apply pool_owed_nonneg. by apply (Hw i). }
  etrans; [|eapply (map_sum_entry (λ i pl, claim i pl (side_asset side id) o)); [|done]].
  - rewrite (claim_sides side). pose proof (Hn (negb side) id pool Hpool).
    pose proof (pool_owed_order side pool p v o q (Hw id pool Hpool) Hv Hin).
    unfold side_claim at 1. rewrite decide_True by done. lia.
  - intros i pl Hi. unfold claim. pose proof (Hn true i pl Hi). pose proof (Hn false i pl Hi). lia.
Qed.
End Backed.
