(* ===== verification/Supply.v ===== *)
(** * Conservation of assets

    The supply of an asset is the sum of its balances over all accounts.  No
    call of the pallet, and so no history of the chain, increases it: what an
    account gains another one loses.  Dust that a registry removes may
    decrease it.  The proofs use [LedgerConserves], an interface that bounds
    what the calls of a registry add to balances, and a small calculus of
    calls that do not gain ([no_gain]) or gain no more than a credit that they
    are given ([spends]). *)
From S2P Require Import Prelude Index CritbitOps OrderId Tick OrderBook Errors Amm Locator Assets Config Pool Pallet PalletFacts Matching Liquidity Dispatch.
From Stdlib Require Import Bool.
Import PalletError.

(** ** Sums of finite support *)
Section Sums.
Context {K : Type} `{EqDecision K}.
Implicit Types (f g : K → Z) (s : list K).

Definition sum_over f s : Z := foldr (λ k n, f k + n) 0 s.

(** [f] is zero outside of [s]. *)
Definition covers f s : Prop := NoDup s ∧ ∀ k, k ∉ s → f k = 0.

(** The sum of [f] over all keys is [n]. *)
Definition sums f (n : Z) : Prop := ∃ s, covers f s ∧ n = sum_over f s.

Lemma sum_over_app f s s' : sum_over f (s ++ s') = sum_over f s + sum_over f s'.
Proof. induction s as [|k s IH]; simpl; lia. Qed.

Lemma sum_over_perm f s s' : s ≡ₚ s' → sum_over f s = sum_over f s'.
Proof. induction 1; simpl; lia. Qed.

Lemma sum_over_zero f s : (∀ k, k ∈ s → f k = 0) → sum_over f s = 0.
Proof.
  induction s as [|k s IH]; simpl; [done|]. intros Hz. rewrite Hz by (by left).
  rewrite IH; [done|]. intros j Hj. apply Hz. by right.
Qed.

Lemma sum_over_le f g s : (∀ k, f k ≤ g k) → sum_over f s ≤ sum_over g s.
Proof. intros Hle. induction s as [|k s IH]; simpl; [done|]. specialize (Hle k). lia. Qed.

Lemma sum_over_add f g s : sum_over (λ k, f k + g k) s = sum_over f s + sum_over g s.
Proof. induction s as [|k s IH]; simpl; lia. Qed.

(** Two lists that cover [f] are covered by a common one, with the same sum. *)
Lemma sum_over_extend f s s' :
  covers f s → NoDup s' →
  NoDup (s ++ filter (.∉ s) s') ∧ sum_over f (s ++ filter (.∉ s) s') = sum_over f s.
Proof.
  intros [Hnd Hz] Hnd'. split.
  - apply NoDup_app. split_and!; [done| |by apply NoDup_filter].
    intros k Hk [? _]%list_elem_of_filter. done.
  - rewrite sum_over_app, (sum_over_zero f (filter _ _)); [lia|].
    intros k [Hk _]%list_elem_of_filter. by apply Hz.
Qed.

Lemma elem_of_extend k s s' : k ∈ s ++ filter (.∉ s) s' ↔ k ∈ s ∨ k ∈ s'.
Proof.
  rewrite elem_of_app, list_elem_of_filter. destruct (decide (k ∈ s)); naive_solver.
Qed.

Lemma sum_over_unique f s s' : covers f s → covers f s' → sum_over f s = sum_over f s'.
Proof.
  intros H H'. destruct (sum_over_extend f s s' H (proj1 H')) as [Hn <-].
  destruct (sum_over_extend f s' s H' (proj1 H)) as [Hn' <-].
  apply sum_over_perm, NoDup_Permutation; [done..|]. intros k. rewrite !elem_of_extend. tauto.
Qed.

Lemma sums_unique f n m : sums f n → sums f m → n = m.
Proof. intros (s & H & ->) (s' & H' & ->). by apply sum_over_unique. Qed.

Lemma covers_extend f s s' : covers f s → NoDup s' → covers f (s ++ filter (.∉ s) s').
Proof.
  intros H Hnd. split; [by apply (sum_over_extend f)|].
  intros k Hk. apply H. rewrite elem_of_extend in Hk. tauto.
Qed.

Lemma sums_add f g n m : sums f n → sums g m → sums (λ k, f k + g k) (n + m).
Proof.
  intros (s & Hs & ->) (s' & Hs' & ->). exists (s ++ filter (.∉ s) s').
  pose proof (covers_extend f s s' Hs (proj1 Hs')) as Hc. split.
  - split; [apply Hc|]. intros k Hk. rewrite elem_of_extend in Hk.
    rewrite (proj2 Hs k), (proj2 Hs' k); tauto.
  - rewrite sum_over_add. f_equal.
    + by apply sum_over_unique.
    + apply sum_over_unique; [done|]. split; [apply Hc|]. intros k Hk.
      rewrite elem_of_extend in Hk. apply Hs'. tauto.
Qed.

Lemma sums_ext f g n : (∀ k, f k = g k) → sums f n → sums g n.
Proof.
  intros He (s & [Hnd Hz] & ->). exists s. split.
  - split; [done|]. intros k Hk. rewrite <-He. by apply Hz.
  - apply Z.le_antisymm; apply sum_over_le; intros k; rewrite He; lia.
Qed.

Lemma sums_zero : sums (λ _, 0) 0.
Proof. exists []. split; [|done]. split; [constructor|done]. Qed.

Lemma sums_opp f n : sums f n → sums (λ k, - f k) (- n).
Proof.
  intros (s & [Hnd Hz] & ->). exists s. split.
  - split; [done|]. intros k Hk. rewrite Hz; [done|done].
  - clear. induction s as [|k s IH]; simpl; lia.
Qed.

Lemma sums_single k v : sums (λ k', moved k k' v) v.
Proof.
  exists [k]. split.
  - split; [apply NoDup_singleton|]. intros k' Hk. unfold moved. case_decide; [|done].
    subst. exfalso. apply Hk. by left.
  - simpl. unfold moved. rewrite decide_True by done. lia.
Qed.

(** A nonnegative function below one with a sum has a sum, which is not larger. *)
Lemma sums_below f g n : (∀ k, 0 ≤ f k ≤ g k) → sums g n → ∃ m, sums f m ∧ 0 ≤ m ≤ n.
Proof.
  intros Hle (s & [Hnd Hz] & ->). exists (sum_over f s). split.
  - exists s. split; [|done]. split; [done|]. intros k Hk. specialize (Hle k).
    rewrite (Hz k Hk) in Hle. lia.
  - split; [|apply sum_over_le; intros k; apply Hle].
    replace 0 with (sum_over (λ _ : K, 0) s) by (by apply sum_over_zero).
    apply sum_over_le. intros k. apply Hle.
Qed.
End Sums.

(** ** What the registries promise

    [solvent]: no balance is negative.  [at_most l l' d]: the registry went
    from [l] to [l'], and the balance of nobody grew by more than [d] says. *)
Section Registry.
Context {Who Kind Store : Type} `{FungiblesLaws Who Kind Store}.

Definition solvent (l : Store) : Prop := ∀ a who, 0 ≤ balance l a who.

Definition at_most (l l' : Store) (d : Kind → Who → Z) : Prop :=
  solvent l' ∧ ∀ a who, balance l' a who ≤ balance l a who + d a who.

(** The supply of the asset [a] is [n]. *)
Definition supply (l : Store) (a : Kind) (n : Z) : Prop := sums (balance l a) n.

Definition worth (c : Credit Kind) (a : Kind) : Z :=
  if decide (credit_asset c = a) then peek c else 0.
End Registry.

(** Amounts are unsigned, so the amount of a successful call is not negative.
    A touch may take a deposit, and the removal of dust takes the rest of a
    balance: the laws are upper bounds. *)
Class LedgerConserves (Who Kind LpKind Store : Type)
    `{PoolFungiblesLaws Who Kind LpKind Store} := {
  withdraw_bound a who v p l c l' :
    withdraw_asset a who v p l = (Ok c, l') →
    c = mkCredit a v ∧ 0 ≤ v ∧
    (solvent l → at_most l l' (λ a' who', - moved (a, who) (a', who') v));
  resolve_bound who c l l' :
    resolve who c l = (Ok (), l') → solvent l → 0 ≤ peek c →
    at_most l l' (λ a' who', moved (credit_asset c, who) (a', who') (peek c));
  resolve_error who c l c' l' : resolve who c l = (Err c', l') → c' = c;
  transfer_bound a src dst v p l l' :
    transfer a src dst v p l = (Ok (), l') → solvent l →
    at_most l l' (λ a' who', moved (a, dst) (a', who') v - moved (a, src) (a', who') v);
  unbalanced_bound c l :
    solvent l → 0 ≤ peek c →
    ∃ who, at_most l (on_unbalanced c l) (λ a' who', moved (credit_asset c, who) (a', who') (peek c));
  touch_bound a who depositor l l' :
    touch_asset a who depositor l = (Ok (), l') → solvent l → at_most l l' (λ _ _, 0);
  create_bound t who m l l' :
    create_asset t who m l = (Ok (), l') → solvent l → at_most l l' (λ _ _, 0);
  pool_touch_bound t who depositor l l' :
    pool_touch t who depositor l = (Ok (), l') → solvent l → at_most l l' (λ _ _, 0)
}.

Lemma bank_take_nonneg a who v p l u l' : Bank.take a who v p l = (Ok u, l') → 0 ≤ v.
Proof.
  unfold Bank.take. destruct (_ && _) eqn:Hc; [|done]. intros _.
  by apply andb_true_iff in Hc as [[?%Z.leb_le _]%andb_true_iff _].
Qed.

#[export] Program Instance bank_conserves : LedgerConserves Z Z Z Bank.t.
Next Obligation.
  intros a who v p l c l' Hw. simpl in Hw. inv_run.
  match goal with H : Bank.take _ _ _ _ _ = (Ok ?x, _) |- _ => destruct x; rename H into Htake end.
  pose proof (bank_take_nonneg _ _ _ _ _ _ _ Htake) as Hv.
  apply Bank.take_law in Htake as (Hle & _ & Hb).
  split_and!; [done|done|]. intros Hs. split; intros a' w'; simpl; rewrite Hb; unfold moved;
    specialize (Hs a' w'); simpl in Hs; case_decide; simplify_eq; lia.
Qed.
Next Obligation.
  intros who c l l' [= <-] Hs Hc. split; intros a' w'; simpl; rewrite Bank.give_law; [|lia].
  specialize (Hs a' w'). simpl in Hs. unfold moved. case_decide; lia.
Qed.
Next Obligation. by intros who c l c' l'. Qed.
Next Obligation.
  intros a src dst v p l l' Ht Hs. simpl in Ht. inv_run.
  match goal with H : Bank.take _ _ _ _ _ = (Ok ?x, _) |- _ => destruct x; rename H into Htake end.
  pose proof (bank_take_nonneg _ _ _ _ _ _ _ Htake) as Hv.
  apply Bank.take_law in Htake as (Hle & _ & Hb).
  split; intros a' w'; simpl; rewrite Bank.give_law, Hb; [|lia].
  pose proof (Hs a' w') as Hn. simpl in Hn. unfold moved. repeat case_decide; simplify_eq; lia.
Qed.
Next Obligation.
  intros c l Hs Hc. exists 0. split; [exact Hs|]. intros a' w'. simpl. unfold moved. case_decide; lia.
Qed.
Next Obligation. intros a who d l l' [= <-] Hs. split; [done|]. intros; lia. Qed.
Next Obligation. intros a who d l l' [= <-] Hs. split; [done|]. intros; lia. Qed.
Next Obligation. intros a who d l l' [= <-] Hs. split; [done|]. intros; lia. Qed.

(** ** A calculus of calls that create nothing

    [exchanges cs m out]: given the credits [cs], a successful run of [m] adds
    at most what they are worth, less the credits [out] that it returns. *)
Section Calculus.
Context `{T : Config, HF : !FungiblesLaws AccountId AssetKind Ledger,
  HP : !PoolFungiblesLaws AccountId AssetKind PoolAssetId Ledger,
  HC : !LedgerConserves AccountId AssetKind PoolAssetId Ledger}.
Implicit Types (w : World) (l : Ledger) (c : Credit AssetKind) (cs : list (Credit AssetKind)).

Definition grows l l' (d : AssetKind → Z) : Prop :=
  solvent l → solvent l' ∧ ∀ k n, supply l k n → ∃ n', supply l' k n' ∧ n' ≤ n + d k.

Lemma grows_refl l : grows l l (λ _, 0).
Proof. intros Hs. split; [done|]. intros k n Hn. exists n. split; [done|lia]. Qed.

Lemma grows_le l l' d d' : grows l l' d → (∀ k, d k ≤ d' k) → grows l l' d'.
Proof.
  intros Hg Hd Hs. destruct (Hg Hs) as [? Hk]. split; [done|]. intros k n (n' & ? & ?)%Hk.
  exists n'. specialize (Hd k). split; [done|lia].
Qed.

Lemma grows_trans l1 l2 l3 d d' :
  grows l1 l2 d → grows l2 l3 d' → grows l1 l3 (λ k, d k + d' k).
Proof.
  intros H1 H2 Hs. destruct (H1 Hs) as [Hs2 Hk1]. destruct (H2 Hs2) as [Hs3 Hk2].
  split; [done|]. intros k n (n2 & H & ?)%Hk1. apply Hk2 in H as (n3 & ? & ?).
  exists n3. split; [done|lia].
Qed.

Lemma grows_same l l' : balance l' = balance l → grows l l' (λ _, 0).
Proof.
  intros Hb Hs. unfold solvent, supply. rewrite Hb. split; [done|].
  intros k n Hn. exists n. split; [done|lia].
Qed.

Lemma at_most_grows l l' D d :
  (solvent l → at_most l l' D) → (∀ k, sums (D k) (d k)) → grows l l' d.
Proof.
  intros HD Hd Hs. destruct (HD Hs) as [Hs' Hle]. split; [done|]. intros k n Hn.
  destruct (sums_below (balance l' k) (λ who, balance l k who + D k who) (n + d k)) as (m & Hm & ?).
  - intros who. split; [apply Hs'|apply Hle].
  - by apply sums_add.
  - exists m. split; [done|lia].
Qed.

Lemma moved_sums (a k : AssetKind) (who : AccountId) v :
  sums (λ who', moved (a, who) (k, who') v) (if decide (a = k) then v else 0).
Proof.
  case_decide as Hk.
  - eapply sums_ext; [|apply (sums_single who)]. intros x. unfold moved.
    repeat case_decide; simplify_eq; done.
  - eapply sums_ext; [|apply sums_zero]. intros x. unfold moved. case_decide; simplify_eq; done.
Qed.

Lemma supply_nonneg l k n : solvent l → supply l k n → 0 ≤ n.
Proof.
  intros Hs Hn. destruct (sums_below (balance l k) (balance l k) n) as (m & _ & ?); [|done|lia].
  intros who. split; [apply Hs|lia].
Qed.

Lemma balance_le_supply l k n who : solvent l → supply l k n → balance l k who ≤ n.
Proof.
  intros Hs Hn. destruct (sums_below (λ who', moved who who' (balance l k who)) (balance l k) n)
    as (m & Hm & ?); [|done|].
  - intros who'. unfold moved. specialize (Hs k who'). case_decide; simplify_eq; lia.
  - rewrite (sums_unique _ _ _ (sums_single who (balance l k who)) Hm). lia.
Qed.

Definition holds cs (k : AssetKind) : Z := foldr (λ c n, worth c k + n) 0 cs.

Definition exchanges {E A} cs (m : M World E A) (out : A → list (Credit AssetKind)) : Prop :=
  ∀ w x w', m w = (Ok x, w') → Forall (λ c, 0 ≤ peek c) cs →
    Forall (λ c, 0 ≤ peek c) (out x) ∧
    grows (ledger w) (ledger w') (λ k, holds cs k - holds (out x) k).

Definition no_gain {E A} (m : M World E A) : Prop :=
  ∀ w x w', m w = (Ok x, w') → grows (ledger w) (ledger w') (λ _, 0).

Lemma no_gain_frame {E A} cs (m : M World E A) : no_gain m → exchanges cs m (λ _, cs).
Proof.
  intros Hm w x w' Hr Hcs. split; [done|]. eapply grows_le; [by eapply Hm|]. intros k. simpl. lia.
Qed.

Lemma exchanges_none {E A} (m : M World E A) : exchanges [] m (λ _, []) → no_gain m.
Proof.
  intros Hm w x w' Hr. destruct (Hm w x w' Hr) as [_ Hg]; [constructor|].
  eapply grows_le; [exact Hg|]. intros k. simpl. lia.
Qed.

Lemma exchanges_bind {E A B} cs (m : M World E A) mid (f : A → M World E B) out :
  exchanges cs m mid → (∀ x, exchanges (mid x) (f x) out) → exchanges cs (m ≫= f) out.
Proof.
  intros Hm Hf w y w' (x & w1 & H1 & H2)%M_bind_inv Hcs.
  destruct (Hm w x w1 H1 Hcs) as [Hmid Hg1]. destruct (Hf x w1 y w' H2 Hmid) as [Ho Hg2].
  split; [done|]. eapply grows_le; [by eapply grows_trans|]. intros k. simpl. lia.
Qed.

Lemma exchanges_then {E A B} cs (m : M World E A) (f : A → M World E B) out :
  no_gain m → (∀ x, exchanges cs (f x) out) → exchanges cs (m ≫= f) out.
Proof. intros Hm Hf. eapply exchanges_bind; [by apply no_gain_frame|exact Hf]. Qed.

Lemma exchanges_map_err {E E' A} (g : E → E') cs (m : M World E A) out :
  exchanges cs m out → exchanges cs (map_err_M g m) out.
Proof. intros Hm w x w' Hr%map_err_M_Ok. by eapply Hm. Qed.

Lemma exchanges_ret {E} c : exchanges (E:=E) [c] (mret c) (λ c, [c]).
Proof.
  intros w x w' [= <- <-] Hc. split; [done|]. eapply grows_le; [apply grows_refl|]. intros k. simpl. lia.
Qed.

Lemma exchanges_throw {E A} cs (e : E) (out : A → _) : exchanges cs (throw e) out.
Proof. by intros w x w'. Qed.

(** Taking a credit out of circulation, and putting one back. *)
Lemma exchanges_withdraw a who v keep : exchanges [] (withdraw a who v keep) (λ c, [c]).
Proof.
  intros w c w' Hw _. unfold withdraw in Hw.
  assert (∃ p l, withdraw_asset a who v p (ledger w) = (Ok c, l) ∧ w' = set_ledger l w)
    as (p & l & (-> & Hv & Hb)%withdraw_bound & ->)
    by (destruct keep; simpl in Hw; inv_call; subst; eauto).
  split; [by repeat constructor|]. eapply grows_le.
  - eapply at_most_grows; [exact Hb|]. intros k. apply sums_opp, moved_sums.
  - intros k. unfold holds, worth. simpl. case_decide; lia.
Qed.

Lemma exchanges_resolve who c :
  exchanges [c] (map_err_M (λ _, DModule BelowMinimum) (on_ledger (resolve who c))) (λ _, []).
Proof.
  intros w [] w' (l & Hr & ->)%map_err_M_Ok%on_ledger_Ok [Hc _]%Forall_cons.
  split; [constructor|]. eapply grows_le.
  - eapply at_most_grows; [intros Hs; exact (resolve_bound who c _ l Hr Hs Hc)|intros k; apply moved_sums].
  - intros k. unfold holds, worth. simpl. case_decide; lia.
Qed.

Lemma exchanges_unbalanced {E} c :
  exchanges (E:=E) [c] (modify (λ w, set_ledger (on_unbalanced c (ledger w)) w)) (λ _, []).
Proof.
  intros w u w' [= _ <-] [Hc _]%Forall_cons. split; [constructor|]. simpl. intros Hs.
  destruct (unbalanced_bound c (ledger w) Hs Hc) as [who Hb].
  revert Hs. eapply grows_le; [eapply at_most_grows; [intros _; exact Hb|intros k; apply moved_sums]|].
  intros k. unfold worth. simpl. case_decide; lia.
Qed.

(** The other calls to the registries. *)
Lemma no_gain_ledger {E A} (m : M Ledger E A) :
  (∀ l x l', m l = (Ok x, l') → grows l l' (λ _, 0)) → no_gain (on_ledger m).
Proof. intros Hm w x w' (l & Hl & ->)%on_ledger_Ok. by eapply Hm. Qed.

Lemma no_gain_transfer a src dst v p : no_gain (on_ledger (transfer a src dst v p)).
Proof.
  apply no_gain_ledger. intros l [] l' Ht. eapply grows_le.
  - eapply at_most_grows; [intros Hs; by eapply transfer_bound|]. intros k.
    apply (sums_add _ (λ who', - moved (a, src) (k, who') v)); [apply moved_sums|apply sums_opp, moved_sums].
  - intros k. simpl. lia.
Qed.

Lemma at_most_same l l' : (solvent l → at_most l l' (λ _ _, 0)) → grows l l' (λ _, 0).
Proof. intros H. eapply at_most_grows; [exact H|]. intros k. apply sums_zero. Qed.

Lemma no_gain_touch a who d : no_gain (on_ledger (touch_asset a who d)).
Proof. apply no_gain_ledger. intros l [] l' Ht. apply at_most_same. by eapply touch_bound. Qed.
Lemma no_gain_pool_touch t who d : no_gain (on_ledger (pool_touch t who d)).
Proof. apply no_gain_ledger. intros l [] l' Ht. apply at_most_same. by eapply pool_touch_bound. Qed.
Lemma no_gain_create t who m : no_gain (on_ledger (create_asset t who m)).
Proof. apply no_gain_ledger. intros l [] l' Ht. apply at_most_same. by eapply create_bound. Qed.
Lemma no_gain_mint t who v : no_gain (on_ledger (mint_into t who v)).
Proof. apply no_gain_ledger. intros l [] l' [Hb _]%mint_law. by apply grows_same. Qed.
Lemma no_gain_burn t who v : no_gain (on_ledger (burn_from t who v)).
Proof. apply no_gain_ledger. intros l [] l' [Hb _]%burn_law. by apply grows_same. Qed.
Lemma no_gain_freeze a who v : no_gain (on_ledger (increase_frozen a who v)).
Proof. apply no_gain_ledger. intros l [] l' [Hb _]%increase_frozen_law. by apply grows_same. Qed.
Lemma no_gain_release a who v : no_gain (on_ledger (decrease_frozen a who v)).
Proof. apply no_gain_ledger. intros l [] l' [Hb _]%decrease_frozen_law. by apply grows_same. Qed.

(** Calls that leave the ledger alone, and composition. *)
Lemma no_gain_bind {E A B} (m : M World E A) (f : A → M World E B) :
  no_gain m → (∀ a, no_gain (f a)) → no_gain (m ≫= f).
Proof.
  intros Hm Hf w b w' (a & w1 & H1 & H2)%M_bind_inv.
  eapply grows_le; [eapply grows_trans; [by eapply Hm|by eapply Hf]|]. intros k. simpl. lia.
Qed.

Lemma no_gain_same {E A} (m : M World E A) :
  (∀ w a w', m w = (Ok a, w') → ledger w' = ledger w) → no_gain m.
Proof. intros Hm w a w' Hr. rewrite (Hm w a w' Hr). apply grows_refl. Qed.

Lemma no_gain_ret {E A} (a : A) : no_gain (E:=E) (mret a).
Proof. apply no_gain_same. by intros w b w' [= _ <-]. Qed.
Lemma no_gain_lift {E A} (m : outcome E A) : no_gain (lift m).
Proof. apply no_gain_same. by intros w b w' [= _ <-]. Qed.
Lemma no_gain_gets {E A} (f : World → outcome E A) : no_gain (gets f).
Proof. apply no_gain_same. by intros w b w' [= _ <-]. Qed.
Lemma no_gain_get {E} : no_gain (E:=E) get.
Proof. apply no_gain_same. by intros w b w' [= _ <-]. Qed.
Lemma no_gain_require b e : no_gain (require b e).
Proof. apply no_gain_same. by intros w u w' [_ ->]%require_Ok. Qed.
Lemma no_gain_event e : no_gain (deposit_event e).
Proof. apply no_gain_same. by intros w u w' [= _ <-]. Qed.
Lemma no_gain_set_pools {E} (f : World → gmap PoolId Pool) :
  no_gain (E:=E) (modify (λ w, set_pools (f w) w)).
Proof. apply no_gain_same. by intros w u w' [= _ <-]. Qed.
Lemma no_gain_set_next {E} n : no_gain (E:=E) (modify (set_next_pool_asset_id n)).
Proof. apply no_gain_same. by intros w u w' [= _ <-]. Qed.
Lemma no_gain_if {E A} (b : bool) (m1 m2 : M World E A) :
  no_gain m1 → no_gain m2 → no_gain (if b then m1 else m2).
Proof. by destruct b. Qed.
Lemma no_gain_require_if (o : option Z) (c : Z → bool) e :
  no_gain (if o is Some m then require (c m) e else mret ()).
Proof. destruct o; [apply no_gain_require|apply no_gain_ret]. Qed.
End Calculus.

Create HintDb conserve.
#[export] Hint Resolve no_gain_ret no_gain_lift no_gain_gets no_gain_get no_gain_require no_gain_event
  no_gain_set_pools no_gain_set_next no_gain_require_if no_gain_transfer no_gain_touch
  no_gain_pool_touch no_gain_create no_gain_mint no_gain_burn no_gain_freeze no_gain_release : conserve.

(** Splits binds, conditionals and pairs until the hints apply. *)
Ltac conserves :=
  repeat first [ progress eauto 3 with conserve
               | apply no_gain_bind; [|intros]
               | apply no_gain_if
               | match goal with |- no_gain (let '(_, _) := ?x in _) => destruct x end ].
