(* ===== verification/SupplyFacts.v ===== *)
(** * No call of the pallet creates assets

    The calculus of [Supply] applied to every function of the pallet that
    moves assets, up to the dispatchables and the histories of the chain. *)
From S2P Require Import Prelude Index CritbitOps OrderId Tick OrderBook Errors Amm Locator Assets Config Pool Pallet PalletFacts Matching Liquidity Dispatch Supply.
From Stdlib Require Import Bool.
Import PalletError.

Section SupplyFacts.
Context `{T : Config, HF : !FungiblesLaws AccountId AssetKind Ledger,
  HP : !PoolFungiblesLaws AccountId AssetKind PoolAssetId Ledger,
  HC : !LedgerConserves AccountId AssetKind PoolAssetId Ledger}.
Implicit Types (w : World) (c : Credit AssetKind).

(** ** Swaps *)
Lemma exchanges_resolve_path side path : exchanges [] (resolve_path side path) (λ c, [c]).
Proof.
  destruct path as [|[a x] [|[b y] rest]]; cbn [resolve_path]; [apply exchanges_throw..|].
  apply exchanges_then; [apply no_gain_lift|intros p; apply exchanges_withdraw].
Qed.

(** A credit swap gives back at most what it was given. *)
Lemma exchanges_credit_swap side c path : exchanges [c] (credit_swap side c path) (λ c, [c]).
Proof.
  intros w c' w' Hrun Hc. unfold credit_swap in Hrun. inv_run.
  match goal with H : map_err_M _ _ _ = (Ok ?x, ?w1) |- _ =>
    apply map_err_M_Ok in H; destruct (exchanges_resolve_path side path w x w1 H) as [Hx Hg1];
      [constructor|]; rename x into out, w1 into w1 end.
  destruct path as [|[a x] [|[b y] rest]]; [done..|].
  inv_run. match goal with H : map_err_M _ (on_ledger (resolve ?who c)) ?w1 = (Ok ?u, _) |- _ =>
    rename H into Hres; destruct u end.
  apply map_err_M_Ok in Hres.
  match goal with H : on_ledger (resolve ?who c) ?w1 = (Ok _, ?w2) |- _ =>
    destruct (exchanges_resolve who c w1 () w2) as [_ Hg2]; [|exact Hc|] end.
  { unfold map_err_M. by rewrite Hres. }
  split; [exact Hx|]. eapply grows_le; [eapply grows_trans; [exact Hg1|exact Hg2]|].
  intros k. simpl. lia.
Qed.

Lemma no_gain_swap side sender path to keep : no_gain (swap side sender path to keep).
Proof.
  unfold swap. apply no_gain_bind; [eauto with conserve|]. intros [a x]. apply exchanges_none.
  eapply exchanges_bind; [apply exchanges_withdraw|]. intros c1.
  eapply exchanges_bind; [apply exchanges_map_err, exchanges_credit_swap|]. intros c2.
  apply exchanges_resolve.
Qed.
Hint Resolve no_gain_swap : conserve.

Lemma no_gain_swap_exact_in s path x m to k : no_gain (do_swap_exact_tokens_for_tokens s path x m to k).
Proof. unfold do_swap_exact_tokens_for_tokens. conserves. Qed.
Lemma no_gain_swap_exact_out s path y m to k : no_gain (do_swap_tokens_for_exact_tokens s path y m to k).
Proof. unfold do_swap_tokens_for_exact_tokens. conserves. Qed.
Hint Resolve no_gain_swap_exact_in no_gain_swap_exact_out : conserve.

(** ** Matching *)
Lemma no_gain_fill_pool side o q b qa : no_gain (do_fill_pool side o q b qa).
Proof. unfold do_fill_pool. conserves. Qed.
Hint Resolve no_gain_fill_pool : conserve.

Lemma no_gain_match_loop fuel side o b qa pool remain fo :
  no_gain (match_loop fuel side o b qa pool remain fo).
Proof.
  revert pool remain fo. induction fuel as [|fuel IH]; intros pool remain fo; cbn [match_loop];
    (destruct (0 <? remain); [|eauto with conserve]);
    (destruct (if side then _ else _) as [[price ?]|]; [|eauto with conserve]); conserves.
Qed.

Lemma no_gain_settle side pool a1 a2 o l : no_gain (settle side pool a1 a2 o l).
Proof.
  induction l as [|[[owner p] q] l IH]; cbn [settle]; [eauto with conserve|].
  conserves.
Qed.
Hint Resolve no_gain_match_loop no_gain_settle : conserve.

Lemma no_gain_match_order side o pool b qa q : no_gain (do_match_order side o pool b qa q).
Proof.
  unfold do_match_order, handle_filled_orders. conserves.
Qed.

Lemma no_gain_place_order side id pool who b qa p q :
  no_gain (do_place_order side id pool who b qa p q).
Proof.
  unfold do_place_order, freeze_asset. destruct (decimal_adjustment pool) as [[? ?] ?]. conserves.
Qed.
Hint Resolve no_gain_match_order no_gain_place_order : conserve.

Lemma no_gain_market side who b qa q : no_gain (do_market_order side who b qa q).
Proof. unfold do_market_order. conserves. Qed.

Lemma no_gain_limit who p q side b qa : no_gain (do_limit_order who p q side b qa).
Proof.
  unfold do_limit_order. conserves.
Qed.

Lemma no_gain_cancel who b qa p id q : no_gain (do_cancel_order who b qa p id q).
Proof.
  unfold do_cancel_order. conserves.
Qed.

(** ** Pools and liquidity *)
Lemma no_gain_touch_if a who d : no_gain (touch_if_needed a who d).
Proof. unfold touch_if_needed. conserves. Qed.
Lemma no_gain_pool_touch_if t who d : no_gain (pool_touch_if_needed t who d).
Proof. unfold pool_touch_if_needed. conserves. Qed.
Hint Resolve no_gain_touch_if no_gain_pool_touch_if : conserve.

Lemma no_gain_create_pool s b bd qa qd fee tick lot pd :
  no_gain (do_create_pool s b bd qa qd fee tick lot pd).
Proof.
  unfold do_create_pool.
  repeat (apply no_gain_bind; [solve [eauto 3 with conserve]|intros ?]). apply exchanges_none.
  eapply exchanges_bind; [apply exchanges_withdraw|]. intros c.
  eapply exchanges_bind; [apply exchanges_unbalanced|]. intros u. apply no_gain_frame. conserves.
Qed.

Lemma no_gain_add s b q bd qd bm qm to : no_gain (do_add_liquidity s b q bd qd bm qm to).
Proof. unfold do_add_liquidity. conserves. Qed.
Lemma no_gain_remove s b q burn bm qm to : no_gain (do_remove_liquidity s b q burn bm qm to).
Proof. unfold do_remove_liquidity. conserves. Qed.
Lemma no_gain_do_touch who b q : no_gain (do_touch who b q).
Proof. unfold do_touch. conserves. Qed.

(** ** Dispatches and histories *)
Lemma no_gain_layer {A} (m : M World DispatchError A) w r w' :
  no_gain m → with_storage_layer m w = (r, w') → grows (ledger w) (ledger w') (λ _, 0).
Proof.
  intros Hm. unfold with_storage_layer.
  destruct (m w) as [[u|e| |] w2] eqn:Hrun; intros [= _ <-]; [by eapply Hm|apply grows_refl..].
Qed.

Lemma no_gain_signed {A} origin (f : AccountId → M World DispatchError A) :
  (∀ who, no_gain (f who)) → no_gain (who ← lift (ensure_signed origin); f who).
Proof. intros Hf. conserves. Qed.

Lemma run_dispatch_grows (d : dispatch) w r w' :
  run_dispatch d w = (r, w') → grows (ledger w) (ledger w') (λ _, 0).
Proof.
  intros Hrun. destruct d; simpl in Hrun;
    try (apply discard_run in Hrun as [r' Hrun]);
    (eapply no_gain_layer; [|exact Hrun]); try (apply no_gain_signed; intros who).
  - apply no_gain_create_pool.
  - apply no_gain_add.
  - apply no_gain_remove.
  - apply no_gain_do_touch.
  - apply no_gain_market.
  - apply no_gain_limit.
  - apply no_gain_cancel.
  - apply no_gain_swap_exact_in.
  - apply no_gain_swap_exact_out.
Qed.

Lemma reachable_grows w0 w : reachable w0 w → grows (ledger w0) (ledger w) (λ _, 0).
Proof.
  intros Hr. induction Hr as [w|w0 w1 w2 Hstep _ IH]; [apply grows_refl|].
  assert (grows (ledger w0) (ledger w1) (λ _, 0)) as Hg.
  { destruct Hstep as [d w r w' _ Hrun|n w]; [by eapply run_dispatch_grows|apply grows_refl]. }
  eapply grows_le; [eapply grows_trans; [exact Hg|exact IH]|]. intros k. simpl. lia.
Qed.

(** ** Swaps of credits *)
Lemma get_amount_in_nonneg o rin rout x : get_amount_in o rin rout = Ok x → 0 ≤ x.
Proof.
  unfold get_amount_in. destruct (_ || _); [done|]. destruct (rout <=? o); [done|].
  intros Hx. inv_run. revert Hx. unfold try_into, checked. destruct (in_rangeb _ _) eqn:Hr; [|done].
  intros [= <-]. apply in_rangeb_spec in Hr. unfold in_range in Hr. lia.
Qed.

Lemma exchanges_credit_in path c m : exchanges [c] (do_swap_exact_credit_tokens_for_tokens path c m) (λ c', [c']).
Proof.
  unfold do_swap_exact_credit_tokens_for_tokens.
  apply exchanges_then; [apply no_gain_gets|]. intros [bpath out].
  eapply exchanges_bind; [apply exchanges_credit_swap|]. intros c'.
  apply exchanges_then; [by apply no_gain_same; intros w u w' [= _ <-]|].
  intros _. apply exchanges_ret.
Qed.

Lemma amounts_in_nonneg w path out l :
  amounts_in w path out = Ok l → 0 ≤ out → Forall (λ ax, 0 ≤ ax.2) l.
Proof.
  revert out l. induction path as [|a path IH]; intros out l; [by intros [= <-]|].
  destruct path as [|b path]; [intros [= <-]; by repeat constructor|].
  change (amounts_in w (a :: b :: path) out) with
    ('(b_r, q_r) ← get_reserves w a b; x ← get_amount_in out q_r b_r;
     tl ← amounts_in w (b :: path) x; Ok ((a, out) :: tl)).
  intros Hl Ho. inv_run. destruct x as [b_r q_r]. inv_run. constructor; [done|].
  eapply IH; [eassumption|]. by eapply get_amount_in_nonneg.
Qed.

Lemma split_holds c amount c1 c2 k :
  0 ≤ peek c → 0 ≤ amount → split c amount = (c1, c2) →
  0 ≤ peek c1 ∧ 0 ≤ peek c2 ∧ worth c1 k + worth c2 k = worth c k.
Proof.
  unfold split. intros Hc Ha [= <- <-]. unfold worth. simpl. split_and!; [lia..|]. case_decide; lia.
Qed.

Lemma exchanges_credit_out path c y :
  exchanges [c] (do_swap_credit_tokens_for_exact_tokens path c y) (λ cs, [cs.1; cs.2]).
Proof.
  intros w [out change] w' Hrun [Hc _]%Forall_cons. unfold do_swap_credit_tokens_for_exact_tokens in Hrun.
  apply M_bind_inv in Hrun as ([bpath x] & w1 & Hq & Hrun). unfold gets in Hq.
  injection Hq as Hq <-. apply map_err_Ok_inv in Hq.
  assert (0 ≤ x) as Hx.
  { inv_run. match goal with H : head _ = Some ?p |- _ => destruct p; cbv iota in Hq; inv_run end.
    match goal with H : balance_path_from_amount_out _ _ _ = Ok _ |- _ =>
      unfold balance_path_from_amount_out in H; inv_run end.
    match goal with H : amounts_in _ _ _ = Ok _ |- _ => apply amounts_in_nonneg in H; [|lia] end.
    match goal with H : Forall _ ?l, H' : head (rev ?l) = Some _ |- _ =>
      apply Forall_rev in H; destruct (rev l); simpl in H'; [done|]; simplify_eq;
      by apply Forall_cons in H as [? _] end. }
  destruct (split c x) as [c1 c2] eqn:Hs.
  apply M_bind_inv in Hrun as (out' & w2 & Hsw & Hrun).
  apply M_bind_inv in Hrun as (u & w3 & Hev & Hrun). injection Hev as _ <-. injection Hrun as <- <- <-. simpl.
  assert (0 ≤ peek c1 ∧ 0 ≤ peek c2) as [H1 H2].
  { destruct (split_holds c x c1 c2 (credit_asset c) Hc Hx Hs) as (? & ? & _). done. }
  destruct (exchanges_credit_swap false c1 bpath w out' w2 Hsw) as [Hout Hg]; [by repeat constructor|].
  apply Forall_cons in Hout as [Hout _]. split; [by repeat constructor|].
  eapply grows_le; [exact Hg|]. intros k. simpl.
  destruct (split_holds c x c1 c2 k Hc Hx Hs) as (_ & _ & ?). lia.
Qed.

(** Failures: which credit is handed back. *)
Lemma bind_Err {E A B} (m : M World E A) (f : A → M World E B) w e w' :
  (m ≫= f) w = (Err e, w') →
  m w = (Err e, w') ∨ ∃ a w1, m w = (Ok a, w1) ∧ f a w1 = (Err e, w').
Proof.
  rewrite M_bind_run. destruct (m w) as [[a|e'| |] w1]; intros H; simplify_eq; eauto.
Qed.

Lemma map_err_Err {E E' A} (g : E → E') (m : outcome E A) e :
  map_err g m = Err e → ∃ e0, m = Err e0 ∧ e = g e0.
Proof. destruct m; naive_solver. Qed.

Lemma map_err_M_Err {E E' A} (g : E → E') (m : M World E A) w e w' :
  map_err_M g m w = (Err e, w') → ∃ e0, m w = (Err e0, w') ∧ e = g e0.
Proof. unfold map_err_M. destruct (m w) as [[] ]; simpl; naive_solver. Qed.

Lemma credit_swap_Err side c path w c' e w' :
  credit_swap side c path w = (Err (c', e), w') → c' = c.
Proof.
  unfold credit_swap. intros [H|(out & w1 & _ & H)]%bind_Err.
  { apply map_err_M_Err in H as (e0 & _ & ?). by simplify_eq. }
  destruct path as [|[a x] [|[b y] rest]]; [unfold throw in H; by simplify_eq..|].
  apply bind_Err in H as [H|(who & w2 & _ & H)].
  { unfold lift in H. injection H as H _. apply map_err_Err in H as (e0 & _ & ?). by simplify_eq. }
  apply bind_Err in H as [H|(u & w3 & _ & H)]; [|done].
  apply map_err_M_Err in H as (c0 & H & [= -> _]). unfold on_ledger, zoom in H.
  destruct (resolve who c (ledger w2)) as [r l] eqn:Hr. injection H as -> _.
  by eapply resolve_error.
Qed.

Lemma credit_in_Err path c m w c' e w' :
  do_swap_exact_credit_tokens_for_tokens path c m w = (Err (c', e), w') → c' = c.
Proof.
  unfold do_swap_exact_credit_tokens_for_tokens. intros [H|([bpath out] & w1 & _ & H)]%bind_Err.
  { unfold gets in H. injection H as H _. apply map_err_Err in H as (e0 & _ & ?). by simplify_eq. }
  apply bind_Err in H as [H|(out' & w2 & _ & H)]; [by eapply credit_swap_Err|].
  by apply bind_Err in H as [H|(u & w3 & _ & H)].
Qed.

(** For an exact output the credit is split first, and a failure of the swap
    hands back the first part only. *)
Lemma credit_out_Err path c y w c' e w' :
  do_swap_credit_tokens_for_exact_tokens path c y w = (Err (c', e), w') →
  c' = c ∨ ∃ bpath a x, balance_path_from_amount_out w y path = Ok bpath ∧
             head bpath = Some (a, x) ∧ x ≤ peek c ∧ c' = mkCredit (credit_asset c) x.
Proof.
  unfold do_swap_credit_tokens_for_exact_tokens. intros [H|([bpath x] & w1 & Hq & H)]%bind_Err.
  { left. unfold gets in H. injection H as H _. apply map_err_Err in H as (e0 & _ & ?). by simplify_eq. }
  right. unfold gets in Hq. injection Hq as Hq <-. apply map_err_Ok_inv in Hq. inv_run.
  match goal with H : head _ = Some ?p |- _ => destruct p as [a amount]; cbv iota in Hq; inv_run end.
  match goal with H : (_ <=? peek c) = true |- _ => apply Z.leb_le in H; rename H into Hle end.
  exists bpath, a, x. split_and!; [done|done|done|].
  destruct (split c x) as [c1 c2] eqn:Hs. apply bind_Err in H as [H|(out' & w2 & _ & H)].
  - apply credit_swap_Err in H as ->. unfold split in Hs. simplify_eq. f_equal. lia.
  - by apply bind_Err in H as [H|(u & w3 & _ & H)].
Qed.
End SupplyFacts.
