(* ===== verification/PoolValue.v ===== *)
(** * What trades do to a pool

    The reserves of a pool are the balances of its account.  [rises]: a call
    leaves the account unfrozen and the product of its two reserves no
    smaller; [gains]: it leaves the product per share no smaller, which also
    deposits and withdrawals do.  The calls of the registries spare the
    account as long as it is not the one that they debit ([LedgerSteady]);
    what remains are the swaps with the pool itself, whose prices keep the
    product. *)
From S2P Require Import Prelude Index CritbitOps OrderId Tick OrderBook Backing Errors Amm Locator Assets Config Pool Pallet PalletFacts Matching SearchFacts MatchFacts Liquidity LiquidityFacts OrderFacts Frames Dispatch BackingFacts Supply.
From Stdlib Require Import Bool.
Import PalletError.

(** ** Registries debit whom they say *)
Definition spares `{FungiblesLaws Who Kind Store} (who : Who) (l l' : Store) : Prop :=
  ∀ a x, x ≠ who → balance l a x ≤ balance l' a x.

Class LedgerSteady (Who Kind LpKind Store : Type) `{PoolFungiblesLaws Who Kind LpKind Store} := {
  withdraw_spares a who v p l c l' :
    withdraw_asset a who v p l = (Ok c, l') → spares who l l' ∧ total_issuance l' = total_issuance l;
  resolve_issuance who c l l' : resolve who c l = (Ok (), l') → total_issuance l' = total_issuance l;
  transfer_spares a src dst v p l l' : transfer a src dst v p l = (Ok (), l') → spares src l l';
  unbalanced_spares c l :
    0 ≤ peek c → (∀ a x, balance l a x ≤ balance (on_unbalanced c l) a x) ∧
    total_issuance (on_unbalanced c l) = total_issuance l;
  touch_spares a who depositor l l' :
    touch_asset a who depositor l = (Ok (), l') → spares depositor l l' ∧ total_issuance l' = total_issuance l;
  pool_touch_spares t who depositor l l' :
    pool_touch t who depositor l = (Ok (), l') → spares depositor l l' ∧ total_issuance l' = total_issuance l;
  create_spares t who m l l' :
    create_asset t who m l = (Ok (), l') →
    (∀ a x, balance l a x ≤ balance l' a x) ∧ ∀ t', t' ≠ t → total_issuance l' t' = total_issuance l t';
  increase_issuance a who v l l' : increase_frozen a who v l = (Ok (), l') → total_issuance l' = total_issuance l;
  decrease_issuance a who v l l' : decrease_frozen a who v l = (Ok (), l') → total_issuance l' = total_issuance l;
  mint_others t who v l l' : mint_into t who v l = (Ok (), l') → ∀ t', t' ≠ t → total_issuance l' t' = total_issuance l t';
  burn_others t who v l l' : burn_from t who v l = (Ok (), l') → ∀ t', t' ≠ t → total_issuance l' t' = total_issuance l t'
}.

Lemma bank_iss_other a who v n l t' : t' ≠ a → Bank.iss (Bank.set_lp a who v n l) t' = Bank.iss l t'.
Proof. intros Hne. unfold Bank.iss, Bank.set_lp. simpl. by rewrite lookup_insert_ne. Qed.

#[export] Program Instance bank_steady : LedgerSteady Z Z Z Bank.t.
Next Obligation.
  intros a who v p l c l' Hw. simpl in Hw. inv_run.
  match goal with H : Bank.take _ _ _ _ _ = (Ok ?x, _) |- _ => destruct x; rename H into Ht end.
  split; [|unfold Bank.take in Ht; destruct (_ && _); [by injection Ht as <-|done]].
  apply Bank.take_law in Ht as (_ & _ & Hb). intros a' x Hx. simpl. rewrite Hb. unfold moved.
  case_decide; simplify_eq; lia.
Qed.
Next Obligation. by intros who c l l' [= <-]. Qed.
Next Obligation.
  intros a src dst v p l l' Ht. simpl in Ht. inv_run.
  match goal with H : Bank.take _ _ _ _ _ = (Ok ?x, _) |- _ => destruct x; rename H into Ht end.
  pose proof (bank_take_nonneg _ _ _ _ _ _ _ Ht) as Hv. apply Bank.take_law in Ht as (_ & _ & Hb).
  intros a' x Hx. simpl. rewrite Bank.give_law, Hb. unfold moved. repeat case_decide; simplify_eq; lia.
Qed.
Next Obligation. intros c l _. split; [|done]. intros. simpl. lia. Qed.
Next Obligation. intros a who d l l' [= <-]. split; [|done]. intros a' x _. lia. Qed.
Next Obligation. intros t who d l l' [= <-]. split; [|done]. intros a' x _. lia. Qed.
Next Obligation. intros t who m l l' [= <-]. split; [|done]. intros. lia. Qed.
Next Obligation. intros a who v l l' Hd. simpl in Hd. case_match; by simplify_eq. Qed.
Next Obligation. intros a who v l l' Hd. simpl in Hd. case_match; by simplify_eq. Qed.
Next Obligation. intros t who v l l' [= <-] t' Ht. by apply bank_iss_other. Qed.
Next Obligation. intros t who v l l' Hd t' Ht. simpl in Hd. case_match; [|done]. injection Hd as <-. by apply bank_iss_other. Qed.

(** ** One pool

    [pa] is the account of the pool [id0] and of no other pool, [t] its
    share token. *)
Section Value.
Context `{T : Config, HF : !FungiblesLaws AccountId AssetKind Ledger,
  HP : !PoolFungiblesLaws AccountId AssetKind PoolAssetId Ledger,
  HK : !KeepsFreezes AccountId AssetKind PoolAssetId Ledger,
  HC : !LedgerConserves AccountId AssetKind PoolAssetId Ledger,
  HS : !LedgerSteady AccountId AssetKind PoolAssetId Ledger}.
Context (id0 : PoolId) (pa : AccountId) (t : PoolAssetId) (base0 quote0 : AssetKind).
Implicit Types (w : World) (l : Ledger).

Definition calm w : Prop := (∀ a, frozen (ledger w) a pa = 0) ∧ ∀ a, 0 ≤ balance (ledger w) a pa.
Definition product w : Z := balance (ledger w) base0 pa * balance (ledger w) quote0 pa.
Definition shares w : Z := total_issuance (ledger w) t.

(** Nothing is taken from the account. *)
Definition feeds w w' : Prop :=
  (∀ a, frozen (ledger w') a pa = frozen (ledger w) a pa) ∧
  (∀ a, balance (ledger w) a pa ≤ balance (ledger w') a pa) ∧ shares w' = shares w.

#[export] Instance feeds_preorder : PreOrder feeds.
Proof.
  split; [intros w; split_and!; intros; (done || lia)|]. intros w1 w2 w3 (Hf1 & Hb1 & Hs1) (Hf2 & Hb2 & Hs2).
  split_and!; intros; [by rewrite Hf2| |congruence]. etrans; [apply Hb1|apply Hb2].
Qed.

Definition rises w w' : Prop := calm w → calm w' ∧ shares w' = shares w ∧ product w ≤ product w'.

#[export] Instance rises_preorder : PreOrder rises.
Proof.
  split; [intros w Hc; split_and!; (done || lia)|]. intros w1 w2 w3 H1 H2 Hc. destruct (H1 Hc) as (Hc2 & Hs1 & ?).
  destruct (H2 Hc2) as (Hc3 & Hs2 & ?). split_and!; [done|congruence|lia].
Qed.

Lemma feeds_calm w w' : feeds w w' → calm w → calm w'.
Proof.
  intros (Hf & Hb & _) [Hz Hn]. split; intros a; [by rewrite Hf|]. specialize (Hb a). specialize (Hn a). lia.
Qed.

Lemma feeds_rises w w' : feeds w w' → rises w w'.
Proof.
  intros Hfd Hc. pose proof Hfd as (_ & Hb & Hs). split_and!; [by eapply feeds_calm|done|].
  destruct Hc as [_ Hn]. unfold product.
  pose proof (Hb base0). pose proof (Hb quote0). pose proof (Hn base0). pose proof (Hn quote0). nia.
Qed.

(** Product per share. *)
Definition gains w w' : Prop := calm w → 0 < shares w →
  calm w' ∧ 0 < shares w' ∧ product w * shares w' ^ 2 ≤ product w' * shares w ^ 2.

#[export] Instance gains_preorder : PreOrder gains.
Proof.
  split; [intros w Hc Hs; split_and!; (done || lia)|]. intros w1 w2 w3 H1 H2 Hc Hs. destruct (H1 Hc Hs) as (Hc2 & Hs2 & Hle1).
  destruct (H2 Hc2 Hs2) as (Hc3 & Hs3 & Hle2). split_and!; [done..|].
  apply (Zmult_le_reg_r _ _ (shares w2 ^ 2)); [nia|].
  assert (product w1 * shares w2 ^ 2 * shares w3 ^ 2 ≤ product w2 * shares w1 ^ 2 * shares w3 ^ 2) by nia.
  assert (product w2 * shares w3 ^ 2 * shares w1 ^ 2 ≤ product w3 * shares w2 ^ 2 * shares w1 ^ 2) by nia.
  nia.
Qed.

Lemma rises_gains w w' : rises w w' → gains w w'.
Proof. intros Hr Hc Hs. destruct (Hr Hc) as (Hc' & -> & Hp). split_and!; [done..|]. nia. Qed.

Lemma upholds_weaken {E A} (R R' : World → World → Prop) (m : M World E A) :
  (∀ w w', R w w' → R' w w') → upholds R m → upholds R' m.
Proof. intros HR Hm w a w' Hrun. by eapply HR, Hm. Qed.

(** *** Calls that debit others *)
Lemma feeds_same w w' : ledger w' = ledger w → feeds w w'.
Proof. intros Hl. unfold feeds, shares. rewrite Hl. split_and!; intros; (done || lia). Qed.

Lemma feeds_ledger {E A} (m : M Ledger E A) who :
  who ≠ pa →
  (∀ l x l', m l = (Ok x, l') →
     frozen l' = frozen l ∧ spares who l l' ∧ total_issuance l' t = total_issuance l t) →
  upholds feeds (on_ledger m).
Proof.
  intros Hwho Hm w x w' (l & (Hf & Hb & Hs)%Hm & ->)%on_ledger_Ok.
  split_and!; [intros a; simpl; by rewrite Hf|intros a; by apply Hb|exact Hs].
Qed.

Lemma feeds_withdraw a who v k : who ≠ pa → upholds feeds (withdraw a who v k).
Proof using HK HS.
  intros Hwho. unfold withdraw. keeps; [case_decide; keeps|].
  apply (feeds_ledger _ who); [done|]. intros l c l' Hw.
  pose proof (withdraw_frozen _ _ _ _ _ _ _ Hw). apply withdraw_spares in Hw as [? Hi]. by rewrite Hi.
Qed.

Lemma feeds_resolve who c : 0 ≤ peek c → upholds feeds (on_ledger (resolve who c)).
Proof using HS.
  intros Hc w [] w' (l & Hr & ->)%on_ledger_Ok. pose proof (resolve_issuance _ _ _ _ Hr) as Hi.
  apply resolve_law in Hr as [Hf Hb]. unfold feeds, shares. simpl. rewrite Hf, Hi. split_and!; [done| |done].
  intros a. rewrite Hb. unfold moved. case_decide; lia.
Qed.

Lemma feeds_transfer a src dst v p : src ≠ pa → upholds feeds (on_ledger (transfer a src dst v p)).
Proof using HK HS.
  intros Hsrc. apply (feeds_ledger _ src); [done|]. intros l [] l' Ht.
  pose proof (transfer_frozen _ _ _ _ _ _ _ Ht). pose proof (transfer_spares _ _ _ _ _ _ _ Ht).
  apply transfer_other_law in Ht as [Hi _]. by rewrite Hi.
Qed.

Lemma feeds_touch a who d : d ≠ pa → upholds feeds (on_ledger (touch_asset a who d)).
Proof using HK HS.
  intros Hd. apply (feeds_ledger _ d); [done|]. intros l [] l' Ht.
  pose proof (touch_frozen _ _ _ _ _ Ht). apply touch_spares in Ht as [? Hi]. by rewrite Hi.
Qed.
Lemma feeds_pool_touch lp who d : d ≠ pa → upholds feeds (on_ledger (pool_touch lp who d)).
Proof using HK HS.
  intros Hd. apply (feeds_ledger _ d); [done|]. intros l [] l' Ht.
  pose proof (pool_touch_frozen _ _ _ _ _ Ht). apply pool_touch_spares in Ht as [? Hi]. by rewrite Hi.
Qed.

Lemma feeds_create lp who m : lp ≠ t → upholds feeds (on_ledger (create_asset lp who m)).
Proof using HK HS.
  intros Hlp w [] w' (l & Hc & ->)%on_ledger_Ok. pose proof (create_frozen _ _ _ _ _ Hc) as Hf.
  apply create_spares in Hc as [Hb Hi]. unfold feeds, shares. simpl. rewrite Hf, Hi by done. by split_and!.
Qed.
Lemma feeds_mint lp who v : lp ≠ t → upholds feeds (on_ledger (mint_into lp who v)).
Proof using HS.
  intros Hlp w [] w' (l & Hm & ->)%on_ledger_Ok. pose proof (mint_others _ _ _ _ _ Hm t ltac:(congruence)) as Hi.
  apply mint_law in Hm as (Hb & Hf & _). unfold feeds, shares. simpl. rewrite Hf, Hb, Hi.
  split_and!; intros; (done || lia).
Qed.
Lemma feeds_burn lp who v : lp ≠ t → upholds feeds (on_ledger (burn_from lp who v)).
Proof using HS.
  intros Hlp w [] w' (l & Hm & ->)%on_ledger_Ok. pose proof (burn_others _ _ _ _ _ Hm t ltac:(congruence)) as Hi.
  apply burn_law in Hm as (Hb & Hf & _). unfold feeds, shares. simpl. rewrite Hf, Hb, Hi.
  split_and!; intros; (done || lia).
Qed.

Lemma feeds_freeze a who v : who ≠ pa → upholds feeds (on_ledger (increase_frozen a who v)).
Proof using HS.
  intros Hwho w [] w' (l & Hi & ->)%on_ledger_Ok. pose proof (increase_issuance _ _ _ _ _ Hi) as Ht.
  apply increase_frozen_law in Hi as [Hb Hf]. unfold feeds, shares. simpl. rewrite Hb, Ht.
  split_and!; intros; [|lia|done]. rewrite Hf. unfold moved. case_decide; simplify_eq; lia.
Qed.

Lemma feeds_event e : upholds feeds (deposit_event e).
Proof. intros w u w' [= _ <-]. by apply feeds_same. Qed.
Lemma feeds_set_pools {E} (f : World → gmap PoolId Pool) :
  upholds feeds (modify (E:=E) (λ w, set_pools (f w) w)).
Proof. apply upholds_modify. intros w. by apply feeds_same. Qed.
Lemma feeds_set_next {E} n : upholds feeds (modify (E:=E) (set_next_pool_asset_id n)).
Proof. apply upholds_modify. intros w. by apply feeds_same. Qed.
Lemma feeds_unbalanced {E} c :
  0 ≤ peek c → upholds feeds (modify (E:=E) (λ w, set_ledger (on_unbalanced c (ledger w)) w)).
Proof using HK HS.
  intros Hc. apply upholds_modify. intros w. destruct (unbalanced_spares c (ledger w) Hc) as [Hb Hi].
  unfold feeds, shares. simpl. rewrite unbalanced_frozen, Hi. by split_and!.
Qed.
End Value.
