(* ===== verification/PoolTrades.v ===== *)
(** * No trade lowers the product of a pool's reserves

    Swaps, matching and settlement for the account of one pool, at the
    prices that the code computes for it. *)
From S2P Require Import Prelude Index CritbitOps OrderId Tick OrderBook Backing Errors Amm Locator Assets Config Pool Pallet PalletFacts Matching SearchFacts MatchFacts Liquidity LiquidityFacts OrderFacts Frames Dispatch BackingFacts Supply SupplyFacts PoolValue.
From Stdlib Require Import Bool.
Import PalletError.

Section Trades.
Context `{T : Config, HF : !FungiblesLaws AccountId AssetKind Ledger,
  HP : !PoolFungiblesLaws AccountId AssetKind PoolAssetId Ledger,
  HK : !KeepsFreezes AccountId AssetKind PoolAssetId Ledger,
  HC : !LedgerConserves AccountId AssetKind PoolAssetId Ledger,
  HS : !LedgerSteady AccountId AssetKind PoolAssetId Ledger}.
Context (id0 : PoolId) (pa : AccountId) (t : PoolAssetId) (base0 quote0 : AssetKind).
Context (pair_law : ∀ b q, pool_address b q = Some pa → b = base0 ∧ q = quote0).
Context (assets_differ : base0 ≠ quote0) (fee_law : 0 ≤ LPFee).
Implicit Types (w : World).

Abbreviation calm := (calm pa).
Abbreviation feeds := (feeds pa t).
Abbreviation rises := (rises pa t base0 quote0).

Lemma withdraw_credit a who v k w c w' : withdraw a who v k w = (Ok c, w') → c = mkCredit a v ∧ 0 ≤ v.
Proof using HC.
  unfold withdraw. intros Hw. apply M_bind_inv in Hw as (u & w1 & _ & (l & Hl & ->)%on_ledger_Ok).
  by apply withdraw_bound in Hl as (-> & ? & _).
Qed.

(** The price of a hop keeps the product of the reserves. *)
Definition fair_hop w a b x y : Prop :=
  y ≤ balance (ledger w) b pa ∧
  balance (ledger w) a pa * balance (ledger w) b pa ≤
    (balance (ledger w) a pa + x) * (balance (ledger w) b pa - y).

Lemma product_pair w a b side :
  hop_address side a b = Ok pa → product pa base0 quote0 w = balance (ledger w) a pa * balance (ledger w) b pa ∧ a ≠ b.
Proof using pair_law assets_differ.
  unfold hop_address, product. destruct side; intros [-> ->]%asset_pair_Ok%pair_law; (split; [lia|congruence]).
Qed.

Lemma swap_rises side sender a b x y rest to k w u w' :
  sender ≠ pa → (hop_address side a b = Ok pa → calm w → fair_hop w a b x y) →
  swap side sender ((a, x) :: (b, y) :: rest) to k w = (Ok u, w') → rises w w'.
Proof using HK HC HS pair_law assets_differ.
  intros Hsender Hfair Hs. unfold swap in Hs. cbn [head ok_or] in Hs.
  apply M_bind_inv in Hs as ([a' x'] & w0 & Hh & Hs). injection Hh as <- <- <-.
  apply M_bind_inv in Hs as (c1 & w1 & Hw1 & Hs). pose proof (withdraw_credit _ _ _ _ _ _ _ Hw1) as [-> Hx].
  pose proof (feeds_withdraw pa t a sender x k Hsender _ _ _ Hw1) as Hfeed1.
  apply M_bind_inv in Hs as (c2 & w2 & Hcs%map_err_M_Ok & Hs).
  apply map_err_M_Ok in Hs. unfold credit_swap in Hcs.
  apply M_bind_inv in Hcs as (c3 & w3 & Hrp%map_err_M_Ok & Hcs). cbn [resolve_path] in Hrp.
  apply M_bind_inv in Hrp as (acc & w4 & Hacc & Hw3). injection Hacc as Hacc%pallet_err_Ok <-.
  pose proof (withdraw_credit _ _ _ _ _ _ _ Hw3) as [-> Hy].
  apply M_bind_inv in Hcs as (acc' & w5 & Hacc' & Hcs). unfold lift in Hacc'. injection Hacc' as Hacc' <-.
  apply map_err_Ok_inv in Hacc'. rewrite Hacc in Hacc'. injection Hacc' as <-.
  apply M_bind_inv in Hcs as (v & w6 & Hres%map_err_M_Ok & Hcs). injection Hcs as <- <-.
  pose proof (feeds_resolve pa t to (mkCredit b y) Hy _ _ _ Hs) as Hfeed4.
  pose proof (feeds_resolve pa t acc (mkCredit a x) Hx _ _ _ Hres) as Hfeed3.
  destruct (decide (acc = pa)) as [->|Hne].
  2:{ pose proof (feeds_withdraw pa t b acc y true Hne _ _ _ Hw3) as Hfeed2. apply feeds_rises.
      etrans; [exact Hfeed1|]. etrans; [exact Hfeed2|]. etrans; [exact Hfeed3|exact Hfeed4]. }
  intros Hc. destruct (Hfair Hacc Hc) as [Hle Hprod]. destruct (product_pair w a b side Hacc) as [Hp Hab].
  pose proof (feeds_calm _ _ _ _ Hfeed1 Hc) as [Hz1 Hn1]. destruct Hfeed1 as (_ & Hb1 & Hs1).
  assert (shares t w3 = shares t w1) as Hs2.
  { unfold withdraw in Hw3. apply M_bind_inv in Hw3 as (u0 & w7 & Hg & (l & Hl & ->)%on_ledger_Ok).
    simpl in Hg. inv_call. subst. apply withdraw_spares in Hl as [_ Hi]. unfold shares. simpl. by rewrite Hi. }
  apply withdraw_Ok in Hw3 as (_ & _ & _ & Hf3 & Hb3); [|by left].
  apply on_ledger_Ok in Hres as (l & Hl & ->). destruct v. pose proof (resolve_issuance _ _ _ _ Hl) as Hs3.
  apply resolve_law in Hl as [Hf6 Hb6]. cbn [credit_asset peek] in Hb6.
  assert (∀ c, balance l c pa = balance (ledger w1) c pa - (if decide (b = c) then y else 0) + (if decide (a = c) then x else 0)) as Hb.
  { intros c. rewrite Hb6, Hb3. unfold moved. repeat case_decide; simplify_eq; lia. }
  pose proof (Hb1 a) as Ha1. pose proof (Hb1 b) as Hb1'. destruct Hc as [Hz Hn].
  assert (rises (set_ledger l w3) w') as Hlast by (by apply feeds_rises).
  destruct Hlast as (Hc' & Hs' & Hp').
  { split; intros c; cbn [ledger set_ledger]; [by rewrite Hf6, Hf3, Hz1|]. rewrite Hb. specialize (Hn1 c).
    repeat case_decide; simplify_eq; lia. }
  split; [exact Hc'|]. split; [rewrite Hs'; unfold shares in *; cbn [ledger set_ledger]; congruence|].
  etrans; [|exact Hp']. rewrite Hp. destruct (product_pair (set_ledger l w3) a b side Hacc) as [-> _].
  cbn [ledger set_ledger]. rewrite !Hb. pose proof (Hn a). pose proof (Hn b).
  repeat case_decide; simplify_eq; nia.
Qed.

(** *** Prices *)
Lemma reserves_at w a b ra rb :
  get_reserves w a b = Ok (ra, rb) → pool_address a b = Some pa → calm w →
  ra = balance (ledger w) a pa ∧ rb = balance (ledger w) b pa ∧ 0 < ra ∧ 0 < rb.
Proof.
  intros (pa' & Hpa & -> & -> & Ha & Hb)%get_reserves_Ok Hpa' [Hz Hn]. rewrite Hpa in Hpa'. injection Hpa' as ->.
  unfold get_balance in *. rewrite !reducible_free in * by auto. pose proof (Hn a). pose proof (Hn b). lia.
Qed.

Lemma path_in_head w x a path l :
  balance_path_from_amount_in w x (a :: path) = Ok l → ∃ l', l = (a, x) :: l'.
Proof. destruct path as [|b path]; intros Hl; cbn [balance_path_from_amount_in] in Hl; [injection Hl as <-; eauto|].
  apply bind_Ok_inv in Hl as ([ri ro] & _ & Hl). apply bind_Ok_inv in Hl as (y & _ & Hl).
  apply bind_Ok_inv in Hl as (tl & _ & Hl). injection Hl as <-. eauto. Qed.

Lemma path_in_fair w a b path x l :
  0 ≤ x → balance_path_from_amount_in w x (a :: b :: path) = Ok l →
  ∃ y l', l = (a, x) :: (b, y) :: l' ∧ (hop_address false a b = Ok pa → calm w → fair_hop w a b x y).
Proof using fee_law.
  intros Hx Hl. change (balance_path_from_amount_in w x (a :: b :: path)) with
    ('(ri, ro) ← get_reserves w a b; y ← get_amount_out x ri ro;
     tl ← balance_path_from_amount_in w y (b :: path); Ok (E:=Error) ((a, x) :: tl)) in Hl.
  apply bind_Ok_inv in Hl as ([ri ro] & Hr & Hl). apply bind_Ok_inv in Hl as (y & Hy & Hl).
  apply bind_Ok_inv in Hl as (tl & Htl & Hl). injection Hl as <-. apply path_in_head in Htl as [l' ->].
  exists y, l'. split; [done|]. intros Hpa%asset_pair_Ok Hc.
  destruct (reserves_at w a b ri ro Hr Hpa Hc) as (-> & -> & Ha & Hb).
  apply get_amount_out_Ok in Hy as (_ & _ & Hf & -> & _). split.
  - assert (0 ≤ LPFee ≤ 1000) as Hfee by lia. pose proof (out_formula_lt x _ _ Hfee Hx Ha Hb). lia.
  - apply out_formula_product; lia.
Qed.

Lemma amounts_in_end w pre a b o l :
  0 ≤ o → amounts_in w (pre ++ [b; a]) o = Ok l →
  ∃ pre' y x br qr, l = pre' ++ [(b, y); (a, x)] ∧ 0 ≤ y ∧
    get_reserves w b a = Ok (br, qr) ∧ get_amount_in y qr br = Ok x.
Proof.
  revert o l. induction pre as [|c pre IH]; intros o l Ho Hl.
  - cbn [app amounts_in] in Hl. apply bind_Ok_inv in Hl as ([br qr] & Hr & Hl).
    apply bind_Ok_inv in Hl as (x & Hx & Hl). cbn in Hl. injection Hl as <-. by exists [], o, x, br, qr.
  - assert (∃ d rest, pre ++ [b; a] = d :: rest) as (d & rest & Hd) by (destruct pre; simpl; eauto).
    change ((c :: pre) ++ [b; a]) with (c :: (pre ++ [b; a])) in Hl. rewrite Hd in Hl.
    change (amounts_in w (c :: d :: rest) o) with
      ('(b_r, q_r) ← get_reserves w c d; z ← get_amount_in o q_r b_r;
       tl ← amounts_in w (d :: rest) z; Ok (E:=Error) ((c, o) :: tl)) in Hl.
    apply bind_Ok_inv in Hl as ([br qr] & Hr & Hl). apply bind_Ok_inv in Hl as (z & Hz & Hl).
    apply bind_Ok_inv in Hl as (tl & Htl & Hl). injection Hl as <-. rewrite <-Hd in Htl.
    apply IH in Htl as (pre' & y & x & br' & qr' & -> & Hrest); [|by eapply get_amount_in_nonneg].
    by exists ((c, o) :: pre'), y, x, br', qr'.
Qed.

Lemma path_out_fair w a b path o l :
  0 ≤ o → balance_path_from_amount_out w o (a :: b :: path) = Ok l →
  ∃ x y l', l = (a, x) :: (b, y) :: l' ∧ (hop_address true a b = Ok pa → calm w → fair_hop w a b x y).
Proof using fee_law.
  intros Ho Hl. unfold balance_path_from_amount_out in Hl. apply bind_Ok_inv in Hl as (r & Hr & Hl).
  injection Hl as <-. cbn [rev] in Hr. rewrite <-app_assoc in Hr.
  apply amounts_in_end in Hr as (pre & y & x & br & qr & -> & Hy & Hres & Hx); [|done].
  exists x, y, (rev pre). split; [by rewrite rev_app_distr|]. intros Hpa%asset_pair_Ok Hc.
  destruct (reserves_at w b a br qr Hres Hpa Hc) as (-> & -> & Hb & Ha).
  apply get_amount_in_Ok in Hx as (_ & _ & Hlt & Hf & -> & _).
  destruct (in_formula_product y (balance (ledger w) a pa) (balance (ledger w) b pa)) as [_ Hp]; [lia..|].
  split; [lia|exact Hp].
Qed.

Lemma validate_two path : validate_swap_path path = Ok () → ∃ a b rest, path = a :: b :: rest.
Proof.
  intros (Hlen & _ & _)%validate_swap_path_spec.
  destruct path as [|a [|b rest]]; simpl in Hlen; [lia..|eauto].
Qed.

(** *** Swaps *)
Lemma rises_swap_in sender path x m to k :
  sender ≠ pa → upholds rises (do_swap_exact_tokens_for_tokens sender path x m to k).
Proof using HK HC HS pair_law assets_differ fee_law.
  intros Hsender w out w' Hs. unfold do_swap_exact_tokens_for_tokens in Hs. inv_call. subst.
  match goal with H : validate_swap_path _ = Ok ?u |- _ => destruct u; apply validate_two in H as (a1 & a2 & rest & ->) end.
  match goal with H : (0 <? x) = true |- _ => apply Z.ltb_lt in H end.
  match goal with H : balance_path_from_amount_in _ _ _ = Ok _ |- _ =>
    apply path_in_fair in H as (ay & bp & -> & Hfair); [|lia] end.
  match goal with H : swap _ _ _ _ _ _ = _ |- _ => exact (swap_rises _ _ _ _ _ _ _ _ _ _ _ _ Hsender Hfair H) end.
Qed.

Lemma rises_swap_out sender path o m to k :
  sender ≠ pa → upholds rises (do_swap_tokens_for_exact_tokens sender path o m to k).
Proof using HK HC HS pair_law assets_differ fee_law.
  intros Hsender w out w' Hs. unfold do_swap_tokens_for_exact_tokens in Hs. inv_call. subst.
  match goal with H : validate_swap_path _ = Ok ?u |- _ => destruct u; apply validate_two in H as (a1 & a2 & rest & ->) end.
  match goal with H : (0 <? o) = true |- _ => apply Z.ltb_lt in H end.
  match goal with H : balance_path_from_amount_out _ _ _ = Ok _ |- _ =>
    apply path_out_fair in H as (ax & ay & bp & -> & Hfair); [|lia] end.
  match goal with H : swap _ _ _ _ _ _ = _ |- _ => exact (swap_rises _ _ _ _ _ _ _ _ _ _ _ _ Hsender Hfair H) end.
Qed.
End Trades.

(** ** Matching *)
Section Orders.
Context `{T : Config, HO : !OrderInterface AccountId Level, HL : !OrderInterfaceLaws AccountId Level}.
Context `{HB : !OrderBookLaws AccountId Level BookError Book, HW : !LevelOwed AccountId Level}.
Context `{HF : !FungiblesLaws AccountId AssetKind Ledger,
  HP : !PoolFungiblesLaws AccountId AssetKind PoolAssetId Ledger,
  HK : !KeepsFreezes AccountId AssetKind PoolAssetId Ledger,
  HC : !LedgerConserves AccountId AssetKind PoolAssetId Ledger,
  HS : !LedgerSteady AccountId AssetKind PoolAssetId Ledger}.
Context (pa : AccountId) (t : PoolAssetId) (base0 quote0 : AssetKind).
Context (pair_law : ∀ b q, pool_address b q = Some pa → b = base0 ∧ q = quote0).
Context (assets_differ : base0 ≠ quote0) (fee_law : 0 ≤ LPFee).
Implicit Types (w : World) (pool : Pool) (side : bool).

Abbreviation feeds := (feeds pa t).
Abbreviation rises := (rises pa t base0 quote0).

(** The quantities that the account of the pool itself has open. *)
Definition mine (p : Z) (o : AccountId) (q : Z) : Z := if decide (o = pa) then q else 0.
Definition stray side pool : Z := book_owed mine (levels (get_orderbook pool side)).

Lemma mine_superadditive p : 0 ≤ p → superadditive (mine p).
Proof. intros _ o a b Ha Hb. unfold mine. case_decide; lia. Qed.
#[local] Hint Resolve mine_superadditive : core.

Lemma stray_nonneg side pool : pool_ok pool → 0 ≤ stray side pool.
Proof.
  intros Hok. apply map_sum_nonneg. intros p v Hv. destruct (pool_levels_ok side pool Hok p v Hv) as [Hp Hval].
  apply weigh_nonneg; [auto|by apply owed_nonneg].
Qed.

Lemma mine_none l :
  Forall (λ f, 0 ≤ f.2) l → fills_weight mine l ≤ 0 → Forall (λ f, f.1.1 ≠ pa ∨ f.2 = 0) l ∧ fills_weight mine l = 0.
Proof.
  intros Hl. induction Hl as [|[[o p] q] l Hq Hl IH]; [by split; [constructor|]|].
  assert (0 ≤ fills_weight mine l) as Hn.
  { apply fills_weight_nonneg; [|done]. intros p' o' q' Hq'. unfold mine. case_decide; lia. }
  change (fills_weight mine ((o, p, q) :: l)) with (mine p o q + fills_weight mine l). intros Hle.
  assert (0 ≤ mine p o q) by (unfold mine; simpl in Hq; case_decide; lia).
  destruct IH as [IH Hz]; [lia|]. rewrite Hz in *. split; [|lia]. constructor; [|done].
  assert (mine p o q = 0) as Hm by lia. unfold mine in Hm. simpl. case_decide; [by right|by left].
Qed.

Lemma released_zero side pool p r : released_amount side pool p 0 = Ok r → r = 0.
Proof.
  unfold released_amount. destruct side; [by intros [= <-]|].
  destruct (decimal_adjustment pool) as [[p_adj b_adj] q_adj]. unfold u_mul. rewrite Z.mul_0_r.
  assert (overflowing (E:=Error) BITS 0 = Ok 0) as ->.
  { unfold overflowing. assert (in_rangeb BITS 0 = true) as ->; [|done].
    apply in_rangeb_spec. split; [lia|]. apply Z.pow_pos_nonneg; [lia|]. pose proof BITS_pos. lia. }
  run_step. unfold denom. intros Hr. inv_run. unfold u_div in Hr. case_match; [done|]. by injection Hr as <-.
Qed.

Lemma feeds_release a who v : who ≠ pa ∨ v = 0 → upholds feeds (on_ledger (decrease_frozen a who v)).
Proof using HS.
  intros Hwho w [] w' (l & Hi & ->)%on_ledger_Ok. pose proof (decrease_issuance _ _ _ _ _ Hi) as Ht.
  apply decrease_frozen_law in Hi as [Hb Hf]. unfold feeds, PoolValue.feeds, shares. simpl. rewrite Hb, Ht.
  split_and!; intros; [|lia|done]. rewrite Hf. unfold moved. case_decide; simplify_eq; destruct Hwho; (done || lia).
Qed.

Lemma feeds_transfer_unless a src dst v :
  src ≠ pa ∨ v = 0 → upholds feeds (on_ledger (transfer a src dst v Preserve)).
Proof using HK HS.
  intros [Hsrc| ->]; [by apply feeds_transfer|]. intros w [] w' (l & Ht & ->)%on_ledger_Ok.
  pose proof (proj1 (transfer_other_law _ _ _ _ _ _ _ Ht)) as Hi.
  apply transfer_law in Ht as (_ & Hf & Hb); [|done]. unfold feeds, PoolValue.feeds, shares. simpl. rewrite Hf, Hi.
  split_and!; [done| |done]. intros c. rewrite Hb. unfold moved. repeat case_decide; lia.
Qed.

Lemma feeds_settle side pool a1 a2 o l :
  o ≠ pa → Forall (λ f, f.1.1 ≠ pa ∨ f.2 = 0) l → upholds feeds (settle side pool a1 a2 o l).
Proof using HK HS.
  intros Ho Hl. induction Hl as [|[[ow p] q] l Hq Hl IH]; cbn [settle]; [keeps|]. simpl in Hq.
  intros w u w' Hs. apply M_bind_inv in Hs as (r & w1 & Hr & Hs). injection Hr as Hr%pallet_err_Ok <-.
  assert (ow ≠ pa ∨ r = 0 ∧ q = 0) as Hz.
  { destruct Hq as [?| ->]; [by left|]. right. split; [by eapply released_zero|done]. }
  apply M_bind_inv in Hs as (u1 & w2 & H1 & Hs). apply feeds_release in H1; [|tauto].
  destruct (if side then (q, r) else (r, q)) as [t1 t2] eqn:Ht.
  apply M_bind_inv in Hs as (u2 & w3 & H2 & Hs). apply feeds_transfer_unless in H2;
    [|destruct side; injection Ht as <- <-; tauto].
  apply M_bind_inv in Hs as (u3 & w4 & H3 & Hs). apply (feeds_transfer pa t) in H3; [|done].
  etrans; [exact H1|]. etrans; [exact H2|]. etrans; [exact H3|]. by eapply IH.
Qed.

Lemma rises_fill side o q b qa : o ≠ pa → upholds rises (do_fill_pool side o q b qa).
Proof using HK HC HS pair_law assets_differ fee_law.
  intros Ho. unfold do_fill_pool. apply upholds_if; (apply upholds_bind; [typeclasses eauto| |intros; keeps]).
  - by apply rises_swap_out.
  - by apply rises_swap_in.
Qed.

Lemma rises_loop fuel side o b qa pool remain fo :
  o ≠ pa → upholds rises (match_loop fuel side o b qa pool remain fo).
Proof using HK HC HS pair_law assets_differ fee_law.
  intros Ho. pose proof (λ q, rises_fill side o q b qa Ho) as Hfill. revert pool remain fo.
  induction fuel as [|fuel IH]; intros pool remain fo; cbn [match_loop];
    (destruct (0 <? remain); [|keeps]);
    (destruct (if side then _ else _) as [[price ?]|]; [|keeps]); keeps.
Qed.

Lemma do_match_order_rises side o pool base qa q w pool' w' :
  pool_ok pool → in_range BITS q → o ≠ pa → (∀ s, stray s pool = 0) →
  do_match_order side o pool base qa q w = (Ok pool', w') →
  rises w w' ∧ same_terms pool pool' ∧ ∀ s, stray s pool' = 0.
Proof using HK HC HS pair_law assets_differ fee_law.
  intros Hok Hq Ho Hstray Hrun. unfold do_match_order in Hrun.
  apply M_bind_inv in Hrun as ([[pool1 rem] fills] & w1 & Hloop & Hrun).
  pose proof (rises_loop _ _ _ _ _ _ _ _ Ho _ _ _ Hloop) as H1.
  apply match_loop_owed in Hloop as (new & -> & (Hok1 & Hd & Hside & Hnn & Hw)); [|done..]. simpl in Hrun.
  specialize (Hw mine mine_superadditive). fold (stray (negb side) pool1) (stray (negb side) pool) in Hw.
  rewrite Hstray in Hw. pose proof (stray_nonneg (negb side) pool1 Hok1).
  destruct (mine_none new Hnn) as [Hnew Hz]; [lia|].
  apply M_bind_inv in Hrun as (u & w2 & Hfill & Hrun).
  assert (rises w1 w2) as H2.
  { destruct (0 <? rem); [by eapply rises_fill|]. injection Hfill as _ <-. reflexivity. }
  apply M_bind_inv in Hrun as (u2 & w3 & Hset & Hrun). unfold handle_filled_orders in Hset.
  assert (rises w2 w3) as H3.
  { apply feeds_rises. destruct side; eapply feeds_settle; [exact Ho|exact Hnew|exact Hset|exact Ho|exact Hnew|exact Hset]. }
  inv_call. subst. split; [|split; [done|]].
  - etrans; [exact H1|]. etrans; [exact H2|]. etrans; [exact H3|]. apply feeds_rises. by apply feeds_same.
  - intros s. destruct (decide (s = side)) as [->|].
    + unfold stray. rewrite Hside. apply Hstray.
    + assert (s = negb side) as -> by (by destruct s, side). lia.
Qed.
End Orders.
