(* ===== verification/PoolHistory.v ===== *)
(** * The worth of a share over histories

    No call that the account of the pool did not make itself lowers the
    product of its reserves per share squared: trades leave the shares and do
    not lower the product, deposits and withdrawals change both reserves at
    most in proportion to the shares. *)
From S2P Require Import Prelude Index CritbitOps OrderId Tick OrderBook Backing Errors Amm Locator Assets Config Pool Pallet PalletFacts Matching SearchFacts MatchFacts Liquidity LiquidityFacts OrderFacts Frames Dispatch BackingFacts Supply SupplyFacts PoolValue PoolTrades.
From Stdlib Require Import Bool.
Import PalletError.

(** ** The next share token *)
Section Next.
Context `{T : Config}.

Abbreviation keeps_next := (keeps NextPoolAssetId).

Lemma keeps_next_ledger {E A} (m : M Ledger E A) : keeps_next (on_ledger m).
Proof. by intros w a w' (l & _ & ->)%on_ledger_Ok. Qed.
Lemma keeps_next_event e : keeps_next (deposit_event e).
Proof. by intros w u w' [= _ <-]. Qed.
Lemma keeps_next_swap side s path to k : keeps_next (swap side s path to k).
Proof. by intros w u w' [l ->]%swap_frame. Qed.
#[local] Hint Resolve keeps_next_ledger keeps_next_event keeps_next_swap : frame.

Lemma keeps_next_swap_in s path x m to k : keeps_next (do_swap_exact_tokens_for_tokens s path x m to k).
Proof. unfold do_swap_exact_tokens_for_tokens. keeps. Qed.
Lemma keeps_next_swap_out s path y m to k : keeps_next (do_swap_tokens_for_exact_tokens s path y m to k).
Proof. unfold do_swap_tokens_for_exact_tokens. keeps. Qed.
#[local] Hint Resolve keeps_next_swap_in keeps_next_swap_out : frame.
Lemma keeps_next_fill side o q b qa : keeps_next (do_fill_pool side o q b qa).
Proof. unfold do_fill_pool. keeps. Qed.
#[local] Hint Resolve keeps_next_fill : frame.
Lemma keeps_next_loop fuel side o b qa pool remain fo : keeps_next (match_loop fuel side o b qa pool remain fo).
Proof.
  revert pool remain fo. induction fuel as [|fuel IH]; intros pool remain fo; cbn [match_loop];
    (destruct (0 <? remain); [|keeps]);
    (destruct (if side then _ else _) as [[price ?]|]; [|keeps]); keeps.
Qed.
Lemma keeps_next_settle side pool a1 a2 o l : keeps_next (settle side pool a1 a2 o l).
Proof.
  induction l as [|[[ow p] q] l IH]; cbn [settle]; [keeps|].
  keeps; destruct (if side then _ else _) as [t1 t2]; keeps.
Qed.
#[local] Hint Resolve keeps_next_loop keeps_next_settle : frame.
Lemma keeps_next_match side o pool b qa q : keeps_next (do_match_order side o pool b qa q).
Proof. unfold do_match_order, handle_filled_orders. keeps. Qed.
Lemma keeps_next_place side id pool maker b qa p q : keeps_next (do_place_order side id pool maker b qa p q).
Proof. unfold do_place_order, freeze_asset. keeps. Qed.
Lemma keeps_next_withdraw a who v k : keeps_next (withdraw a who v k).
Proof. unfold withdraw. keeps. case_decide; keeps. Qed.
Lemma keeps_next_touch_if a who d : keeps_next (touch_if_needed a who d).
Proof. unfold touch_if_needed. keeps. Qed.
Lemma keeps_next_touch who b q : keeps_next (do_touch who b q).
Proof. unfold do_touch, touch_if_needed, pool_touch_if_needed. keeps. Qed.
Lemma keeps_next_add s b q bd qd bm qm to : keeps_next (do_add_liquidity s b q bd qd bm qm to).
Proof. unfold do_add_liquidity. keeps. Qed.
Lemma keeps_next_remove s b q burn bm qm to : keeps_next (do_remove_liquidity s b q burn bm qm to).
Proof. unfold do_remove_liquidity. keeps. Qed.
End Next.

(** ** Deposits and withdrawals *)
Section Shares.
Context `{T : Config, HO : !OrderInterface AccountId Level, HL : !OrderInterfaceLaws AccountId Level}.
Context `{HB : !OrderBookLaws AccountId Level BookError Book, HW : !LevelOwed AccountId Level}.
Context `{HF : !FungiblesLaws AccountId AssetKind Ledger,
  HP : !PoolFungiblesLaws AccountId AssetKind PoolAssetId Ledger,
  HK : !KeepsFreezes AccountId AssetKind PoolAssetId Ledger,
  HC : !LedgerConserves AccountId AssetKind PoolAssetId Ledger,
  HS : !LedgerSteady AccountId AssetKind PoolAssetId Ledger}.

(** What the settings of the runtime have to do with it: pools are traded in
    one direction and have accounts of their own, share tokens are numbered
    upwards, withdrawals are free, and minimum balances are positive. *)
Record value_settings (pair_of : PoolId → AssetKind * AssetKind) (rank : PoolAssetId → Z)
    (id0 : PoolId) (pa : AccountId) : Prop := {
  settings_pair b q id : pool_id b q = Some id → pair_of id = (b, q);
  settings_account id : address id = Some pa ↔ id = id0;
  settings_assets : (pair_of id0).1 ≠ (pair_of id0).2;
  settings_rank n m : increment n = Some m → rank n < rank m;
  settings_fee : 0 ≤ LPFee;
  settings_withdrawal x : permill_mul LiquidityWithdrawalFee x = 0;
  settings_minted : 0 ≤ MintMinLiquidity;
  settings_minimum (l : Ledger) a : 0 < minimum_balance l a
}.

Context (pair_of : PoolId → AssetKind * AssetKind) (rank : PoolAssetId → Z).
Context (id0 : PoolId) (pa : AccountId) (t : PoolAssetId).
Context (Hset : value_settings pair_of rank id0 pa).
Implicit Types (w : World) (pool : Pool) (side : bool).

Abbreviation base0 := (pair_of id0).1.
Abbreviation quote0 := (pair_of id0).2.
Abbreviation feeds := (feeds pa t).
Abbreviation rises := (rises pa t base0 quote0).
Abbreviation gains := (gains pa t base0 quote0).

Lemma settings_pair_law b q : pool_address b q = Some pa → b = base0 ∧ q = quote0.
Proof using Hset.
  unfold pool_address. destruct (pool_id b q) as [id|] eqn:Hid; [|done].
  intros ->%(settings_account _ _ _ _ Hset). apply (settings_pair _ _ _ _ Hset) in Hid. by rewrite Hid.
Qed.

Definition fresh w : Prop := ∃ n, NextPoolAssetId w = Some n ∧ rank t < rank n.

(** The pool exists, its token is its own and will not be used again, and its
    account has no open orders. *)
Definition good w : Prop :=
  world_ok w ∧ fresh w ∧ (∃ pool, Pools w !! id0 = Some pool ∧ lp_token pool = t) ∧
  (∀ id pool, Pools w !! id = Some pool → lp_token pool = t → id = id0) ∧
  ∀ id pool s, Pools w !! id = Some pool → stray pa s pool = 0.

Lemma good_same w w' : Pools w' = Pools w → NextPoolAssetId w' = NextPoolAssetId w → good w → good w'.
Proof. intros Hp Hn. unfold good, world_ok, fresh. by rewrite Hp, Hn. Qed.

Lemma good_token w id pool : good w → Pools w !! id = Some pool → lp_token pool = t ↔ id = id0.
Proof.
  intros (_ & _ & (pool0 & Hp0 & Ht) & Huniq & _) Hp. split; [by apply Huniq|]. intros ->. congruence.
Qed.

(** Deposits and withdrawals of other pools, up to the shares. *)
Lemma feeds_other_add sender b q bd qd bm qm to w w' id :
  good w → sender ≠ pa → pool_id b q = Some id → id ≠ id0 →
  do_add_liquidity sender b q bd qd bm qm to w = (Ok (), w') → feeds w w'.
Proof using HK HS.
  intros Hgood Hsender Hid Hne Hrun. unfold do_add_liquidity in Hrun.
  apply M_bind_inv in Hrun as (id1 & w1 & Hid1 & Hrun). injection Hid1 as Hid1%pallet_err_Ok%asset_pair_Ok <-.
  rewrite Hid in Hid1. injection Hid1 as <-.
  apply M_bind_inv in Hrun as (u & w1 & [_ ->]%require_Ok & Hrun).
  apply M_bind_inv in Hrun as (w1 & w2 & Hg & Hrun). injection Hg as <- <-.
  apply M_bind_inv in Hrun as (pool & w2 & Hp & Hrun). injection Hp as Hp%pallet_err_Ok%ok_or_Ok_inv <-.
  assert (lp_token pool ≠ t) as Hlp by (intros Hlp; apply Hne; by eapply good_token).
  revert Hrun. match goal with |- ?m w = _ → _ => assert (upholds feeds m) as Hm; [|intros Hrun; by apply Hm in Hrun] end.
  pose proof (feeds_preorder pa t).
  pose proof (λ a dst v p, feeds_transfer pa t a sender dst v p Hsender).
  pose proof (λ who v, feeds_mint pa t (lp_token pool) who v Hlp). pose proof (feeds_event pa t). keeps.
Qed.

Lemma feeds_other_remove sender b q burn bm qm to w w' id :
  good w → sender ≠ pa → pool_id b q = Some id → id ≠ id0 →
  do_remove_liquidity sender b q burn bm qm to w = (Ok (), w') → feeds w w'.
Proof using HK HS Hset.
  intros Hgood Hsender Hid Hne Hrun. unfold do_remove_liquidity in Hrun.
  apply M_bind_inv in Hrun as (id1 & w1 & Hid1 & Hrun). injection Hid1 as Hid1%pallet_err_Ok%asset_pair_Ok <-.
  rewrite Hid in Hid1. injection Hid1 as <-.
  apply M_bind_inv in Hrun as (u & w1 & [_ ->]%require_Ok & Hrun).
  apply M_bind_inv in Hrun as (w1 & w2 & Hg & Hrun). injection Hg as <- <-.
  apply M_bind_inv in Hrun as (pool & w2 & Hp & Hrun). injection Hp as Hp%pallet_err_Ok%ok_or_Ok_inv <-.
  apply M_bind_inv in Hrun as (acc & w2 & Ha & Hrun). injection Ha as Ha%pallet_err_Ok%asset_pair_Ok <-.
  assert (lp_token pool ≠ t) as Hlp by (intros Hlp; apply Hne; by eapply good_token).
  assert (acc ≠ pa) as Hacc by (intros ->; by apply Hne, (settings_account _ _ _ _ Hset)).
  revert Hrun. match goal with |- ?m w = _ → _ => assert (upholds feeds m) as Hm; [|intros Hrun; by apply Hm in Hrun] end.
  pose proof (feeds_preorder pa t).
  pose proof (λ a dst v p, feeds_transfer pa t a acc dst v p Hacc).
  pose proof (λ who v, feeds_burn pa t (lp_token pool) who v Hlp). pose proof (feeds_event pa t). keeps.
Qed.

Lemma proportional rb rq s rb' rq' s' :
  0 ≤ rb → 0 ≤ rq → 0 ≤ s' → rb * s' ≤ rb' * s → rq * s' ≤ rq' * s → rb * rq * s' ^ 2 ≤ rb' * rq' * s ^ 2.
Proof.
  intros Hb Hq Hs H1 H2. assert (0 ≤ rb * s') by nia. assert (0 ≤ rq * s') by nia.
  pose proof (Z.mul_le_mono_nonneg (rb * s') (rb' * s) (rq * s') (rq' * s)). nia.
Qed.

Lemma calm_reserve w a : calm pa w → get_balance w pa a = balance (ledger w) a pa.
Proof. intros [Hz Hn]. by apply reducible_free. Qed.

Lemma own_add_gains sender b q bd qd bm qm to w w' :
  good w → sender ≠ pa → pool_id b q = Some id0 →
  do_add_liquidity sender b q bd qd bm qm to w = (Ok (), w') → gains w w'.
Proof using Hset HP.
  intros Hgood Hsender Hid Hrun Hc Hs.
  apply add_liquidity_Ok in Hrun as (id & pool & acc & x & y & lp & Hid' & Hp & Hacc & Hbd & Hqd & Hd & [Hf Hb] & _ & Hlp & Hi).
  rewrite Hid in Hid'. injection Hid' as <-. pose proof (settings_minted _ _ _ _ Hset) as Hmin.
  assert (acc = pa) as -> by (pose proof (proj2 (settings_account _ _ _ _ Hset id0) eq_refl); congruence).
  pose proof (settings_pair _ _ _ _ Hset b q id0 Hid) as Hpair. pose proof (settings_assets _ _ _ _ Hset) as Hne.
  assert (lp_token pool = t) as Ht by (by eapply good_token). rewrite Ht in *.
  unfold shares, product in *. rewrite Hpair in *. simpl in Hne |- *. rewrite !calm_reserve in * by done.
  destruct (Z.eqb_spec (total_issuance (ledger w) t) 0); [lia|].
  destruct Hi as (s1 & s2 & Hs1 & Hs2 & -> & Hi). destruct Hc as [Hz Hn]. pose proof (Hn b). pose proof (Hn q).
  pose proof (proj1 (mul_div_Ok _ _ _ _) Hs1) as (? & _). pose proof (proj1 (mul_div_Ok _ _ _ _) Hs2) as (? & _).
  apply mul_div_floor in Hs1; [|lia]. apply mul_div_floor in Hs2; [|lia].
  apply deposit_amounts_Ok in Hd; [|lia..].
  assert (0 ≤ x ∧ 0 ≤ y) as [Hx Hy] by (destruct Hd as [(-> & ? & ?)|(-> & ? & ?)]; split; nia).
  assert (∀ a, balance (ledger w') a pa = balance (ledger w) a pa + (if decide (b = a) then x else 0) + (if decide (q = a) then y else 0)) as Hb'.
  { intros a. rewrite Hb. unfold moved. repeat case_decide; simplify_eq; lia. }
  split; [split; intros a; [by rewrite Hf|rewrite Hb'; specialize (Hn a); repeat case_decide; lia]|].
  rewrite Hi. split; [lia|]. apply proportional; try lia; rewrite Hb'; repeat case_decide; simplify_eq; nia.
Qed.

(** Without a fee the amounts are the proportional parts, rounded down. *)
Lemma redeem_amounts_floor rb rq supply burn b q :
  0 < supply → 0 ≤ burn → (∀ x, permill_mul LiquidityWithdrawalFee x = 0) →
  redeem_amounts rb rq supply burn = Ok (b, q) →
  0 ≤ b ∧ 0 ≤ q ∧ b * supply ≤ burn * rb < (b + 1) * supply ∧ q * supply ≤ burn * rq.
Proof.
  intros Hs Hburn Hfee. unfold redeem_amounts, saturating_sub. rewrite Hfee. intros Hr. inv_call.
  rewrite Z.sub_0_r, Z.max_l in * by lia.
  repeat match goal with H : mul_div _ _ _ = Ok _ |- _ =>
    pose proof (proj1 (mul_div_Ok _ _ _ _) H) as (_ & _ & _ & [? _]); apply mul_div_floor in H; [|done] end.
  split_and!; lia.
Qed.

Lemma own_remove_gains sender b q burn bm qm to w w' :
  good w → pool_id b q = Some id0 →
  do_remove_liquidity sender b q burn bm qm to w = (Ok (), w') → gains w w'.
Proof using Hset HP.
  intros Hgood Hid Hrun Hc Hs.
  pose proof (settings_pair _ _ _ _ Hset b q id0 Hid) as Hpair. pose proof (settings_assets _ _ _ _ Hset) as Hne.
  rewrite Hpair in Hne. simpl in Hne.
  apply remove_liquidity_Ok in Hrun as (id & pool & acc & x & y & Hid' & Hp & Hacc & Hburn & Hr & _ & _ & _ & Hpost);
    [|exact Hne].
  rewrite Hid in Hid'. injection Hid' as <-.
  assert (acc = pa) as -> by (pose proof (proj2 (settings_account _ _ _ _ Hset id0) eq_refl); congruence).
  assert (lp_token pool = t) as Ht by (by eapply good_token). rewrite Ht in *.
  unfold shares, product in *. rewrite Hpair in *. simpl. pose proof Hc as [Hz Hn].
  pose proof (settings_minimum _ _ _ _ Hset (ledger w)) as Hmin.
  destruct (Hpost (Hn b) (Hn q) (Hmin b) (Hmin q)) as ([Hf Hb] & Hi & Hlb & Hlq). clear Hpost.
  rewrite !calm_reserve in * by done.
  apply redeem_amounts_floor in Hr as (Hx & Hy & [Hxl Hxu] & Hyl); [|done|lia|apply (settings_withdrawal _ _ _ _ Hset)].
  pose proof (Hmin b). pose proof (Hmin q). pose proof (Hn b). pose proof (Hn q).
  assert (burn < total_issuance (ledger w) t) by nia.
  assert (∀ a, balance (ledger w') a pa = balance (ledger w) a pa ∨
    balance (ledger w') a pa = balance (ledger w) a pa - (if decide (b = a) then x else 0) - (if decide (q = a) then y else 0)) as Hb'.
  { intros a. rewrite Hb. unfold moved. destruct (decide (to = pa)) as [->|]; [left; lia|right].
    repeat case_decide; simplify_eq; lia. }
  split; [split; intros a; [by rewrite Hf|specialize (Hn a); destruct (Hb' a) as [-> | ->]; repeat case_decide; simplify_eq; lia]|].
  rewrite Hi. split; [lia|].
  apply proportional; try lia; [destruct (Hb' b) as [-> | ->]|destruct (Hb' q) as [-> | ->]];
    repeat case_decide; simplify_eq; nia.
Qed.
End Shares.

(** ** Dispatches and histories *)
Definition caller `{T : Config} (c : dispatch) : option AccountId :=
  match c with
  | Call_create_pool o _ _ _ _ _ _ _ _ | Call_add_liquidity o _ _ _ _ _ _ _
  | Call_remove_liquidity o _ _ _ _ _ _ | Call_touch o _ _ | Call_market_order o _ _ _ _
  | Call_limit_order o _ _ _ _ _ | Call_cancel_order o _ _ _ _ _ => o
  | Call_swap_exact_in s _ _ _ _ _ | Call_swap_exact_out s _ _ _ _ _ => Some s
  end.

(** Calls of others than [pa], and the change of blocks. *)
Inductive outside `{T : Config} (pa : AccountId) : World → World → Prop :=
| outside_call c w r w' :
    dispatch_ok c → caller c ≠ Some pa → run_dispatch c w = (r, w') → outside pa w w'
| outside_block n w :
    outside pa w (mkWorld _ (ledger w) (Pools w) (NextPoolAssetId w) n []).

Section History.
Context `{T : Config, HO : !OrderInterface AccountId Level, HL : !OrderInterfaceLaws AccountId Level}.
Context `{HB : !OrderBookLaws AccountId Level BookError Book, HW : !LevelOwed AccountId Level}.
Context `{HF : !FungiblesLaws AccountId AssetKind Ledger,
  HP : !PoolFungiblesLaws AccountId AssetKind PoolAssetId Ledger,
  HK : !KeepsFreezes AccountId AssetKind PoolAssetId Ledger,
  HC : !LedgerConserves AccountId AssetKind PoolAssetId Ledger,
  HS : !LedgerSteady AccountId AssetKind PoolAssetId Ledger}.
Context (pair_of : PoolId → AssetKind * AssetKind) (rank : PoolAssetId → Z).
Context (id0 : PoolId) (pa : AccountId) (t : PoolAssetId).
Context (Hset : value_settings pair_of rank id0 pa).
Implicit Types (w : World) (pool : Pool) (side : bool).

Abbreviation base0 := (pair_of id0).1.
Abbreviation quote0 := (pair_of id0).2.
Abbreviation feeds := (feeds pa t).
Abbreviation rises := (rises pa t base0 quote0).
Abbreviation gains := (gains pa t base0 quote0).
Abbreviation good := (good rank id0 pa t).

(** A good state that is worth no less. *)
Definition better w w' : Prop := good w → good w' ∧ gains w w'.

#[export] Instance better_preorder : PreOrder better.
Proof.
  split; [intros w Hw; by split|]. intros w1 w2 w3 H1 H2 Hw. destruct (H1 Hw) as [Hw2 ?].
  destruct (H2 Hw2) as [Hw3 ?]. split; [done|]. by etrans.
Qed.

Lemma better_frame {A} (m : M World DispatchError A) w a w' :
  keeps Pools m → keeps NextPoolAssetId m → (good w → gains w w') → m w = (Ok a, w') → better w w'.
Proof.
  intros Hp Hn Hg Hm Hw. split; [|by apply Hg]. apply (good_same _ _ _ _ w); [by eapply Hp|by eapply Hn|done].
Qed.

(** Writing a pool back. *)
Definition trades pool pool' w w' : Prop :=
  pool_ok pool' ∧ Pools w' = Pools w ∧ NextPoolAssetId w' = NextPoolAssetId w ∧ same_terms pool pool' ∧
  (∀ s, stray pa s pool' = 0) ∧ rises w w'.

Lemma mutate_pool_better id (f : Pool → M World DispatchError Pool) w w' :
  (∀ pool pool' w2, pool_ok pool → (∀ s, stray pa s pool = 0) → f pool w = (Ok pool', w2) → trades pool pool' w w2) →
  mutate_pool id f w = (Ok (), w') → better w w'.
Proof.
  intros Hf Hm (Hok & (n & Hn & Hfr) & (pool0 & Hp0 & Ht) & Huniq & Hstray).
  apply mutate_pool_Ok in Hm as (pool & pool' & w1 & Hpool & Hrun & ->).
  destruct (Hf pool pool' w1) as (Hok' & Hp & Hn' & [_ Hlp] & Hs' & Hrise); [by apply (Hok id)|intros s; by eapply Hstray|done|].
  split.
  - unfold PoolHistory.good, fresh, world_ok. simpl. rewrite Hp, Hn'. split_and!.
    + by apply map_Forall_insert_2.
    + by exists n.
    + destruct (decide (id = id0)) as [->|Hne].
      * exists pool'. rewrite lookup_insert_eq. split; [done|congruence].
      * exists pool0. by rewrite lookup_insert_ne.
    + intros i pl [[<- <-]|[? Hi]]%lookup_insert_Some Htok; [|by apply (Huniq i pl)].
      apply (Huniq id pool); congruence.
    + intros i pl s [[<- <-]|[? Hi]]%lookup_insert_Some; [done|by apply (Hstray i pl)].
  - apply rises_gains. etrans; [exact Hrise|]. apply feeds_rises. by apply feeds_same.
Qed.

Lemma match_trades side o pool base qa q w pool' w' :
  pool_ok pool → in_range BITS q → o ≠ pa → (∀ s, stray pa s pool = 0) →
  do_match_order side o pool base qa q w = (Ok pool', w') → trades pool pool' w w'.
Proof using HK HC HS Hset.
  intros Hok Hq Ho Hs Hrun. pose proof (keeps_next_match _ _ _ _ _ _ _ _ _ Hrun) as Hn. cbv beta in Hn.
  destruct (do_match_order_pool_ok _ _ _ _ _ _ _ _ _ Hok Hq Hrun) as [Hok' Hp].
  eapply (do_match_order_rises pa t base0 quote0) in Hrun as (Hr & Ht & Hs'); [by split_and!|..]; try done.
  - exact (settings_pair_law _ _ _ _ Hset).
  - exact (settings_assets _ _ _ _ Hset).
  - exact (settings_fee _ _ _ _ Hset).
Qed.

Lemma place_trades side id pool maker base qa p q w pool' w' :
  pool_ok pool → in_range BITS p → in_range BITS q → maker ≠ pa → (∀ s, stray pa s pool = 0) →
  do_place_order side id pool maker base qa p q w = (Ok pool', w') → trades pool pool' w w'.
Proof using HS.
  intros Hok Hp Hq Hm Hs Hrun. pose proof (keeps_next_place _ _ _ _ _ _ _ _ _ _ _ Hrun) as Hn. cbv beta in Hn.
  pose proof (do_place_order_terms _ _ _ _ _ _ _ _ _ _ _ Hrun) as Ht.
  assert (upholds feeds (do_place_order side id pool maker base qa p q)) as Hf.
  { pose proof (feeds_preorder pa t). pose proof (λ a v, feeds_freeze pa t a maker v Hm). pose proof (feeds_event pa t).
    unfold do_place_order, freeze_asset. keeps. }
  apply Hf in Hrun as Hfeed. clear Hf.
  apply do_place_order_Ok in Hrun as (amount & oid & e & _ & _ & Hok' & Hl & Ho & _ & Hpools & _ & _); [|done..].
  split_and!; [done..| |by apply feeds_rises]. intros s. pose proof (stray_nonneg pa s pool' Hok').
  destruct (decide (s = side)) as [->|]; [|assert (s = negb side) as -> by (by destruct s, side)].
  - unfold stray in *. rewrite Hl in *. pose proof (book_owed_place (mine pa) oid maker p q e _ (mine_superadditive pa) (pool_levels_ok side pool Hok)) as Hle.
    unfold mine at 3 in Hle. rewrite decide_False in Hle by done. specialize (Hs side). unfold stray in Hs. lia.
  - unfold stray. rewrite Ho. apply Hs.
Qed.

(** One lemma per dispatchable. *)
Lemma market_order_better side taker b qa q w u w' :
  taker ≠ pa → in_range BITS q → do_market_order side taker b qa q w = (Ok u, w') → better w w'.
Proof using HK HC HS Hset.
  intros Ht Hq Hm. unfold do_market_order in Hm. inv_call. subst. destruct u.
  eapply mutate_pool_better; [|done]. intros pool pool' w2 Hok Hs Hf. cbv beta in Hf. inv_call. subst.
  match goal with H : do_match_order _ _ _ _ _ _ _ = (Ok _, _) |- _ => apply match_trades in H; [|done..]; exact H end.
Qed.

Lemma limit_order_better side maker b qa p q w u w' :
  maker ≠ pa → in_range BITS p → in_range BITS q → do_limit_order maker p q side b qa w = (Ok u, w') → better w w'.
Proof using HK HC HS Hset.
  intros Hmk Hp Hq Hm. unfold do_limit_order in Hm. inv_call. subst. destruct u.
  eapply mutate_pool_better; [|done]. intros pool pool' w2 Hok Hs Hf. cbv beta in Hf. inv_call. subst.
  match goal with H : (if ?b then do_match_order _ _ _ _ _ _ else _) _ = (Ok _, _) |- _ =>
    destruct b; [apply match_trades in H; [|done..]; exact H|apply place_trades in H; [|done..]; exact H] end.
Qed.

Lemma cancel_order_better o b qa p id q w u w' :
  in_range BITS q → do_cancel_order o b qa p id q w = (Ok u, w') → better w w'.
Proof.
  intros Hq Hm. unfold do_cancel_order in Hm. inv_call. subst. destruct u.
  eapply mutate_pool_better; [|done]. intros pool pool' w2 Hok Hs Hf. cbv beta in Hf.
  destruct (pool_cancel_order _ _ _ _ _) as [r pool2] eqn:Hc. inv_call. subst.
  apply pool_cancel_order_owed in Hc as (Hok' & Ht & Ho); [|done..].
  split_and!; [done..| |by apply feeds_rises, feeds_same]. intros s.
  pose proof (stray_nonneg pa s pool' Hok'). pose proof (Ho s (mine pa) (mine_superadditive pa)) as Hle.
  fold (stray pa s pool) (stray pa s pool') in Hle. specialize (Hs s). lia.
Qed.

Lemma add_better s b q bd qd bm qm to w w' :
  s ≠ pa → do_add_liquidity s b q bd qd bm qm to w = (Ok (), w') → better w w'.
Proof using HK HS Hset.
  intros Hs Hm. assert (∃ id, pool_id b q = Some id) as [id Hid].
  { unfold do_add_liquidity in Hm. apply M_bind_inv in Hm as (id & w1 & Hid & _). injection Hid as Hid _.
    apply pallet_err_Ok, asset_pair_Ok in Hid. eauto. }
  intros Hg. eapply better_frame; [apply keeps_add|apply keeps_next_add| |exact Hm|exact Hg]. intros _.
  destruct (decide (id = id0)) as [->|Hne]; [by eapply own_add_gains|].
  by eapply rises_gains, feeds_rises, feeds_other_add.
Qed.

Lemma remove_better s b q burn bm qm to w w' :
  s ≠ pa → do_remove_liquidity s b q burn bm qm to w = (Ok (), w') → better w w'.
Proof using HK HS Hset.
  intros Hs Hm. assert (∃ id, pool_id b q = Some id) as [id Hid].
  { unfold do_remove_liquidity in Hm. apply M_bind_inv in Hm as (id & w1 & Hid & _). injection Hid as Hid _.
    apply pallet_err_Ok, asset_pair_Ok in Hid. eauto. }
  intros Hg. eapply better_frame; [apply keeps_remove|apply keeps_next_remove| |exact Hm|exact Hg]. intros _.
  destruct (decide (id = id0)) as [->|Hne]; [by eapply own_remove_gains|].
  by eapply rises_gains, feeds_rises, feeds_other_remove.
Qed.

Lemma feeds_touch_if a who d : d ≠ pa → upholds feeds (touch_if_needed a who d).
Proof using HK HS.
  intros Hd. pose proof (feeds_preorder pa t). pose proof (λ a who, feeds_touch pa t a who d Hd).
  unfold touch_if_needed. keeps.
Qed.
Lemma feeds_pool_touch_if a who d : d ≠ pa → upholds feeds (pool_touch_if_needed a who d).
Proof using HK HS.
  intros Hd. pose proof (feeds_preorder pa t). pose proof (λ a who, feeds_pool_touch pa t a who d Hd).
  unfold pool_touch_if_needed. keeps.
Qed.

Lemma touch_better who b q w u w' : who ≠ pa → do_touch who b q w = (Ok u, w') → better w w'.
Proof using HK HS.
  intros Hwho Hm. eapply better_frame; [apply keeps_touch|apply keeps_next_touch| |exact Hm]. intros _.
  apply rises_gains, feeds_rises. revert Hm. match goal with |- ?m w = _ → _ => assert (upholds feeds m) as Hf end.
  { pose proof (feeds_preorder pa t). pose proof (feeds_event pa t). pose proof (λ a x, feeds_touch_if a x who Hwho).
    pose proof (λ a x, feeds_pool_touch_if a x who Hwho). unfold do_touch. keeps. }
  apply Hf.
Qed.

Lemma swap_in_better s path x m to k w u w' :
  s ≠ pa → do_swap_exact_tokens_for_tokens s path x m to k w = (Ok u, w') → better w w'.
Proof using HK HC HS Hset.
  intros Hs Hm. eapply better_frame; [apply keeps_swap_exact_in|apply keeps_next_swap_in| |exact Hm]. intros _.
  apply rises_gains. revert Hm. apply rises_swap_in; [exact (settings_pair_law _ _ _ _ Hset)
    |exact (settings_assets _ _ _ _ Hset)|exact (settings_fee _ _ _ _ Hset)|done].
Qed.

Lemma swap_out_better s path y m to k w u w' :
  s ≠ pa → do_swap_tokens_for_exact_tokens s path y m to k w = (Ok u, w') → better w w'.
Proof using HK HC HS Hset.
  intros Hs Hm. eapply better_frame; [apply keeps_swap_exact_out|apply keeps_next_swap_out| |exact Hm]. intros _.
  apply rises_gains. revert Hm. apply rises_swap_out; [exact (settings_pair_law _ _ _ _ Hset)
    |exact (settings_assets _ _ _ _ Hset)|exact (settings_fee _ _ _ _ Hset)|done].
Qed.

(** The new pool has a share token of its own. *)
Lemma feeds_create_pool s b bd qa qd fee tick lot pd w w' :
  good w → s ≠ pa → do_create_pool s b bd qa qd fee tick lot pd w = (Ok (), w') → feeds w w'.
Proof using HK HC HS.
  intros (_ & (n & Hn & Hfr) & _) Hs Hrun. unfold do_create_pool in Hrun.
  pose proof (feeds_preorder pa t). pose proof (feeds_event pa t). pose proof (λ a x, feeds_touch_if a x s Hs).
  pose proof (λ a x, feeds_pool_touch_if a x s Hs). pose proof (λ n, feeds_set_next (E:=DispatchError) pa t n).
  pose proof (λ f, feeds_set_pools (E:=DispatchError) pa t f).
  do 3 apply M_bind_inv in Hrun as (? & ? & [_ ->]%require_Ok & Hrun).
  apply M_bind_inv in Hrun as (id & w1 & Hid & Hrun). injection Hid as _ <-.
  apply M_bind_inv in Hrun as (w1 & w2 & Hg & Hrun). injection Hg as <- <-.
  apply M_bind_inv in Hrun as (? & ? & [_ ->]%require_Ok & Hrun).
  apply M_bind_inv in Hrun as (acc & w1 & Ha & Hrun). injection Ha as _ <-.
  apply M_bind_inv in Hrun as (c & w1 & Hfee & Hrun). pose proof (withdraw_credit _ _ _ _ _ _ _ Hfee) as [-> Hc].
  pose proof (keeps_next_withdraw _ _ _ _ _ _ _ Hfee) as Hn1. apply (feeds_withdraw pa t) in Hfee; [|done].
  apply M_bind_inv in Hrun as (u2 & w2 & Hun & Hrun). assert (NextPoolAssetId w2 = NextPoolAssetId w1) as Hn2 by (by injection Hun as _ <-).
  apply (feeds_unbalanced pa t) in Hun; [|exact Hc].
  apply M_bind_inv in Hrun as (t1 & w3 & Ht1 & Hrun). pose proof (keeps_next_touch_if _ _ _ _ _ _ Ht1) as Hn3.
  apply (feeds_touch_if _ _ _ Hs) in Ht1.
  apply M_bind_inv in Hrun as (t2 & w4 & Ht2 & Hrun). pose proof (keeps_next_touch_if _ _ _ _ _ _ Ht2) as Hn4.
  apply (feeds_touch_if _ _ _ Hs) in Ht2. cbv beta in *.
  apply M_bind_inv in Hrun as (w5 & w6 & Hg & Hrun). injection Hg as <- <-.
  apply M_bind_inv in Hrun as (lp & w6 & Hlp & Hrun). injection Hlp as Hlp%pallet_err_Ok%ok_or_Ok_inv <-.
  rewrite Hn4, Hn3, Hn2, Hn1, Hn in Hlp. injection Hlp as <-.
  assert (n ≠ t) as Hne by (intros ->; lia). pose proof (λ who m, feeds_create pa t n who m Hne).
  etrans; [exact Hfee|]. etrans; [exact Hun|]. etrans; [exact Ht1|]. etrans; [exact Ht2|].
  revert Hrun. match goal with |- ?m w4 = _ → _ => assert (upholds feeds m) as Hm; [keeps|apply Hm] end.
Qed.

Lemma create_pool_better s b bd qa qd fee tick lot pd w u w' :
  s ≠ pa → do_create_pool s b bd qa qd fee tick lot pd w = (Ok u, w') → better w w'.
Proof using HK HC HS Hset.
  intros Hs Hrun Hgood. destruct u. pose proof (feeds_create_pool _ _ _ _ _ _ _ _ _ _ _ Hgood Hs Hrun) as Hfd.
  split; [|by apply rises_gains, feeds_rises].
  pose proof Hgood as (Hok & (n & Hn & Hfr) & (pool0 & Hp0 & Ht) & Huniq & Hstray).
  split; [by eapply create_pool_world_ok|].
  apply create_pool_Ok in Hrun as (_ & _ & _ & id & lp & _ & Hnone & Hp & Hnext & [m Hm] & Hlp).
  rewrite Hn in Hlp. injection Hlp as <-. pose proof (settings_rank _ _ _ _ Hset n m Hm).
  assert (id ≠ id0) as Hne by congruence. rewrite Hp. split_and!.
  - exists m. split; [congruence|lia].
  - exists pool0. by rewrite lookup_insert_ne.
  - intros i pl [[<- <-]|[? Hi]]%lookup_insert_Some Htok; [simpl in Htok; subst; lia|by apply (Huniq i pl)].
  - intros i pl s' [[<- <-]|[? Hi]]%lookup_insert_Some; [|by apply (Hstray i pl)].
    unfold stray. destruct s'; simpl; by rewrite (proj2 book_new_law).
Qed.

Lemma run_dispatch_better c w r w' :
  dispatch_ok c → caller c ≠ Some pa → run_dispatch c w = (r, w') → better w w'.
Proof using HK HC HS Hset.
  intros Hc Hcall Hrun Hg.
  assert (∀ {A} origin (f : AccountId → M World DispatchError A) r w', origin ≠ Some pa →
    (∀ who u w2, who ≠ pa → f who w = (Ok u, w2) → better w w2) →
    with_storage_layer (who ← lift (ensure_signed origin); f who) w = (r, w') → good w' ∧ gains w w') as Hsigned.
  { intros A [who|] f r' w1 Ho Hf; unfold with_storage_layer, ensure_signed; rewrite M_bind_run; simpl;
      [|intros [= _ <-]; by split].
    destruct (f who w) as [[u|e| |] w2] eqn:Hrun'; intros [= _ <-]; [|by split..].
    by apply (Hf who u); [congruence|..]. }
  destruct c; simpl in Hc, Hcall, Hrun; try apply discard_run in Hrun as [r' Hrun];
    first [ eapply Hsigned; [exact Hcall| |exact Hrun]; intros who u w2 Hwho Hm; cbv beta in Hm
          | eapply (layer_ok (λ w2, good w2 ∧ gains w w2)); [by split| |exact Hrun]; intros u w2 Hm;
            assert (sender ≠ pa) by congruence ].
  - by eapply create_pool_better.
  - destruct u. by eapply add_better.
  - destruct u. by eapply remove_better.
  - by eapply touch_better.
  - by eapply market_order_better.
  - destruct Hc as [Hp Hq]. exact (limit_order_better _ _ _ _ _ _ _ _ _ Hwho Hp Hq Hm).
  - by eapply cancel_order_better.
  - by eapply swap_in_better.
  - by eapply swap_out_better.
Qed.

Lemma history_better w0 w : rtc (outside pa) w0 w → better w0 w.
Proof using HK HC HS Hset.
  induction 1 as [|w0 w1 w2 Hstep _ IH]; [reflexivity|]. etrans; [|exact IH].
  destruct Hstep as [c w r w' Hc Hcall Hrun|n w]; [by eapply run_dispatch_better|].
  intros Hg. split; [by apply (good_same _ _ _ _ w)|]. by apply rises_gains, feeds_rises, feeds_same.
Qed.
End History.
