(* ===== verification/RuntimeCalls.v ===== *)
(** * Weights, fees and queries of the runtime's calls

    The weights that [#[pallet::weight]] attaches to the dispatchables of
    [lib.rs] with the runtime's [WeightInfo], the weight that [touch] reports
    after its work, the fee that a weight costs, and the runtime api of the
    order book. *)
From S2P Require Import Prelude Weights Runtime Index OrderId Tick OrderBook Errors Amm Locator Assets Config Pool Pallet PalletFacts Matching Liquidity Dispatch.
From Stdlib Require Import Bool.
Import PalletError.

(** ** Weights of the dispatchables *)
Section CallWeights.
Context `{T : Config, WL : WeightLib}.

(** [type WeightInfo] of the runtime. *)
Definition runtime_weights : OrderBookWeights.WeightInfo := OrderBookWeights.SubstrateWeight RocksDbWeight.

(** The swaps of the [Swap] trait are not dispatchables. *)
Definition call_weight (c : dispatch) : option Weight :=
  match c with
  | Call_create_pool _ _ _ _ _ _ _ _ _ => Some (OrderBookWeights.create_pool runtime_weights)
  | Call_add_liquidity _ _ _ _ _ _ _ _ => Some (OrderBookWeights.add_liquidity runtime_weights)
  | Call_remove_liquidity _ _ _ _ _ _ _ => Some (OrderBookWeights.remove_liquidity runtime_weights)
  | Call_touch _ _ _ => Some (OrderBookWeights.touch runtime_weights 3)
  | Call_market_order _ _ _ _ _ => Some (OrderBookWeights.touch runtime_weights 3)
  | Call_limit_order _ _ _ _ _ _ => Some (OrderBookWeights.touch runtime_weights 3)
  | Call_cancel_order _ _ _ _ _ _ => Some (OrderBookWeights.touch runtime_weights 3)
  | Call_swap_exact_in _ _ _ _ _ _ | Call_swap_exact_out _ _ _ _ _ _ => None
  end.

(** [PostDispatchInfo] of [touch], for the number that [do_touch] returns. *)
Definition touch_actual_weight (refunds_number : Z) : Weight := OrderBookWeights.touch runtime_weights refunds_number.

(** The weights of the checks of [TxExtension] that the library brings. *)
Class ExtensionLib := {
  CheckNonZeroSender : Weight;
  CheckSpecVersion : Weight;
  CheckTxVersion : Weight;
  CheckGenesis : Weight;
  CheckEra : Weight;
  CheckNonce : Weight;
  CheckWeight : Weight;
  CheckMetadataHash : Weight
}.

(** [StorageWeightReclaim] adds its own weight to that of the tuple, which is
    the sum of the weights in it. *)
Definition TxExtension `{ExtensionLib} : Weight :=
  (storage_weight_reclaim +
   foldr weight_add (from_parts 0 0)
     [CheckNonZeroSender; CheckSpecVersion; CheckTxVersion; CheckGenesis; CheckEra; CheckNonce; CheckWeight;
      charge_transaction_payment RocksDbWeight; CheckMetadataHash])%weight.

(** What the extrinsics of these calls take of the share of normal extrinsics:
    each the weight of its call, that of the extensions and the base weight;
    the base weight of the block is counted against them as well. *)
Definition block_weight `{ExtensionLib} (ws : list Weight) : Weight :=
  foldr (λ w total, (total + base_extrinsic (per_class RuntimeBlockWeights Normal) + (w + TxExtension))%weight)
    (base_block RuntimeBlockWeights) ws.

(** What the library's checks of one extrinsic take. *)
Definition library_checks `{ExtensionLib} : list Weight :=
  [CheckNonZeroSender; CheckSpecVersion; CheckTxVersion; CheckGenesis; CheckEra; CheckNonce; CheckWeight; CheckMetadataHash].
Definition checks_time `{ExtensionLib} : Z := foldr (λ w n, ref_time w + n) 0 library_checks.
Definition checks_size `{ExtensionLib} : Z := foldr (λ w n, proof_size w + n) 0 library_checks.

(** Componentwise order ([all_lte]). *)
Definition all_lte (v w : Weight) : Prop := ref_time v ≤ ref_time w ∧ proof_size v ≤ proof_size w.
End CallWeights.

(** ** The runtime api *)
Section Api.
Context `{T : Config}.
Implicit Types w : World.

(** [HybridOrderbookApi]: [Result::ok] of the pallet's functions. *)
Definition api_get_pool_query w (base quote_asset : AssetKind) : outcome Error (option PoolQuery) :=
  result_ok (get_pool_query w base quote_asset).
Definition api_get_pool_metadata w (base quote_asset : AssetKind) : outcome Error (option PoolMetadata) :=
  result_ok (get_pool_metadata w base quote_asset).
End Api.

(** ** Facts on weights *)
Section WeightFacts.
Context `{T : Config, WL : WeightLib, HL : !WeightLaws}.

Ltac weigh :=
  unfold runtime_weights, OrderBookWeights.SubstrateWeight, RocksDbWeight, saturating_mul, max_u64 in *; simpl;
  rewrite ?reads_law, ?writes_law; unfold saturating_mul, max_u64; simpl;
  rewrite ?nanos_law;
  repeat first [rewrite ref_time_add | rewrite proof_size_add | rewrite ref_time_mul by lia
               | rewrite proof_size_mul by lia
               | rewrite ref_time_parts by (unfold in_range; lia)
               | rewrite proof_size_parts by (unfold in_range; lia)]; unfold max_u64.

Lemma touch_weight n : 0 ≤ n ≤ 2 ^ 20 →
  ref_time (OrderBookWeights.touch runtime_weights n) = 248502032 + 219450978 * n ∧
  proof_size (OrderBookWeights.touch runtime_weights n) = 6360.
Proof. intros Hn. split; weigh; lia. Qed.

Lemma call_weight_bounds c w :
  call_weight c = Some w → ref_time w ≤ 1428331000 ∧ proof_size w ≤ 11426.
Proof.
  destruct c; simpl; intros [= <-]; (split; weigh; lia).
Qed.

Lemma normal_total_bounds :
  ref_time normal_total = 1500000000000 ∧ 3932160 ≤ proof_size normal_total.
Proof.
  unfold normal_total, NORMAL_DISPATCH_RATIO, MAXIMUM_BLOCK_WEIGHT.
  pose proof pov_law as Hpov. rewrite second_law.
  assert (parts (from_percent 75) = 750000000) as Hp by (by rewrite parts_percent).
  rewrite ref_time_perbill, proof_size_perbill by (rewrite Hp; lia).
  unfold saturating_mul, max_u64.
  rewrite ref_time_parts, proof_size_parts by (unfold in_range; lia).
  replace (Z.min (10 ^ 12 * 2) (2 ^ 64 - 1)) with 2000000000000 by reflexivity.
  pose proof (perbill_mul_law (from_percent 75) 2000000000000) as H1.
  pose proof (perbill_mul_law (from_percent 75) MAX_POV_SIZE) as H2.
  rewrite Hp in H1, H2. specialize (H1 ltac:(lia) ltac:(lia)). specialize (H2 ltac:(lia) ltac:(lia)).
  split; lia.
Qed.

Lemma extension_weight `{EL : !ExtensionLib} :
  ref_time TxExtension ≤ 298891000 + checks_time ∧ proof_size TxExtension ≤ 6196 + checks_size.
Proof.
  unfold TxExtension, checks_time, checks_size, library_checks, storage_weight_reclaim, charge_transaction_payment. simpl.
  split; weigh; lia.
Qed.

Lemma block_weight_bounds `{EL : !ExtensionLib} cs :
  Forall (λ c, is_Some (call_weight c)) cs →
  ref_time (block_weight (omap call_weight cs)) ≤ 5000000000 + Z.of_nat (length cs) * (1852222000 + checks_time) ∧
  proof_size (block_weight (omap call_weight cs)) ≤ Z.of_nat (length cs) * (17622 + checks_size).
Proof.
  destruct extension_weight as [Hx1 Hx2].
  induction cs as [|c cs IH]; intros Hcs.
  - simpl. unfold BlockExecutionWeight. weigh. lia.
  - apply Forall_cons in Hcs as [[w Hw] Hcs]. csimpl. rewrite Hw. csimpl.
    destruct (IH Hcs) as [IH1 IH2]. destruct (call_weight_bounds c w Hw) as [H1 H2].
    rewrite !ref_time_add, !proof_size_add, base_ref_time, base_proof_size. rewrite Nat2Z.inj_succ. lia.
Qed.

(** The weight of [touch] after its work. *)
Lemma touch_counts origin b q w n w' : touch origin b q w = (Ok n, w') → 0 ≤ n ≤ 3.
Proof.
  unfold touch. intros Hrun%with_storage_layer_Ok. unfold do_touch in Hrun.
  inv_call. repeat match goal with |- context [if ?b then _ else _] => destruct b end; lia.
Qed.
End WeightFacts.

(** ** Facts on fees *)
Section FeeFacts.
Context `{WL : WeightLib, HL : !WeightLaws, FL : !FeeLib, HF : !FeeLaws}.

Lemma fee_of_weight w :
  -500 ≤ 1000 * weight_to_fee polynomial w - 8 * ref_time w ≤ 500.
Proof.
  unfold polynomial. rewrite base_ref_time, linear_fee.
  replace (MILLIUNIT / 10 / (100 * 125000000)) with 0 by reflexivity.
  replace (MILLIUNIT / 10 mod (100 * 125000000)) with 100000000 by reflexivity.
  replace (100 * 125000000) with 12500000000 by reflexivity.
  assert (parts (from_rational 100000000 12500000000) = 8000000) as Hp.
  { rewrite parts_rational; [reflexivity|lia|lia|]. by exists 8000000. }
  pose proof (ref_time_range w) as Hr. unfold in_range in Hr.
  pose proof (perbill_mul_law (from_rational 100000000 12500000000) (ref_time w)) as Hm. rewrite Hp in Hm.
  specialize (Hm ltac:(lia) ltac:(lia)). lia.
Qed.
End FeeFacts.

(** ** Facts on the api *)
Section ApiFacts.
Context `{T : Config}.
Implicit Types w : World.

Lemma result_ok_Some {E E' A} (m : outcome E A) a : result_ok (E':=E') m = Ok (Some a) ↔ m = Ok a.
Proof. destruct m; simpl; naive_solver. Qed.
Lemma result_ok_None {E E' A} (m : outcome E A) : result_ok (E':=E') m = Ok None ↔ ∃ e, m = Err e.
Proof. destruct m; simpl; naive_solver. Qed.
End ApiFacts.
