(* ===== verification/GenesisFacts.v ===== *)
(** * From the genesis patch to reachable states

    What the genesis patch of a chain specification establishes, and the
    bound on native balances that follows for every later state. *)
From S2P Require Import Prelude Runtime ChainSpec Index OrderId Tick OrderBook Errors Amm Locator Assets Config Pool Pallet Dispatch Supply SupplyFacts.
From stdpp Require Import strings.
Local Open Scope string_scope.
Local Open Scope Z_scope.

Section Genesis.
Context {Account : Type} `{!EqDecision Account, SL : !SpecLib Account}.
Implicit Types g : GenesisPatch.

Definition issued g : Z := foldr (λ av n, av.2 + n) 0 (balances g).

Lemma endowment_sums g : sums (endowment g) (issued g).
Proof.
  unfold issued. enough (∀ l : list (Account * Z),
    sums (λ who, foldr (λ av n, (if decide (av.1 = who) then av.2 else 0) + n) 0 l)
         (foldr (λ av n, av.2 + n) 0 l)) as Hall by apply Hall.
  induction l as [|[a v] l IH]; simpl; [apply sums_zero|].
  apply (sums_add (λ who, if decide (a = who) then v else 0)); [|done].
  eapply sums_ext; [|apply (sums_single a v)]. intros k. done.
Qed.

Lemma issued_testnet collators l root para :
  issued (testnet_genesis collators l root para) = Z.of_nat (length l) * 2 ^ 60.
Proof.
  unfold issued, testnet_genesis. cbn [balances]. induction l as [|a l IH]; [done|].
  rewrite fmap_cons. cbn [foldr snd]. rewrite IH, length_cons, Nat2Z.inj_succ.
  change (Z.shiftl 1 60) with (2 ^ 60). lia.
Qed.

(** The patch is consistent: [n] accounts are endowed, the collators and the
    root are among them, and each collator can bond and has session keys. *)
Definition genesis_ok (para n : Z) g : Prop :=
  parachainId g = para ∧
  Z.of_nat (length (balances g)) = n ∧ issued g = n * 2 ^ 60 ∧
  (∀ acc, acc ∈ invulnerables g →
     candidacyBond g + EXISTENTIAL_DEPOSIT ≤ endowment g acc ∧ ∃ k, (acc, acc, k) ∈ keys g) ∧
  (∀ root, sudo_key g = Some root → EXISTENTIAL_DEPOSIT ≤ endowment g root).

Lemma testnet_genesis_ok collators l root para :
  Forall (λ c, c.1 ∈ l) collators → root ∈ l →
  genesis_ok para (Z.of_nat (length l)) (testnet_genesis collators l root para).
Proof.
  intros Hc Hroot. rewrite Forall_forall in Hc.
  assert (EXISTENTIAL_DEPOSIT * 16 + EXISTENTIAL_DEPOSIT ≤ Z.shiftl 1 60) as Hbond by (vm_compute; congruence).
  assert (EXISTENTIAL_DEPOSIT ≤ Z.shiftl 1 60) as Hed by (vm_compute; congruence).
  split_and!; [done|simpl; by rewrite length_fmap|apply issued_testnet| |].
  - intros acc Hacc. simpl in Hacc. apply list_elem_of_fmap in Hacc as ([acc' k] & -> & Hin). simpl. split.
    + etrans; [exact Hbond|]. apply endowment_endowed. by apply (Hc _ Hin).
    + exists (template_session_keys k). apply list_elem_of_fmap. by exists (acc', k).
  - intros r [= <-]. etrans; [exact Hed|]. by apply endowment_endowed.
Qed.

Lemma sample_genesis_ok {E} g : sample_genesis (E:=E) = Ok g → genesis_ok 1000 12 g.
Proof.
  unfold sample_genesis. intros Hg. inv_run.
  match goal with H : accounts_from_seeds _ = Ok ?l |- _ =>
    pose proof (accounts_from_seeds_length _ _ H) as Hlen; rename H into Hl end.
  replace 12 with (Z.of_nat (length endowed_seeds)) by reflexivity. rewrite <-Hlen.
  apply testnet_genesis_ok.
  - repeat constructor; simpl;
      (eapply accounts_from_seeds_elem; [exact Hl| |eassumption]); set_solver.
  - eapply accounts_from_seeds_elem; [exact Hl| |eassumption]. set_solver.
Qed.

Lemma load_spec_genesis {SF : SpecFiles} spec c :
  load_spec spec = Ok c → spec ∈ ["dev"; "template-rococo"; "local"; ""] →
  genesis_ok (para_id (extensions c)) 12 (genesis c).
Proof.
  unfold load_spec, development_config, local_testnet_config. intros Hc Hs.
  rewrite !elem_of_cons, elem_of_nil in Hs.
  repeat case_decide; subst; inv_run; try (by apply (sample_genesis_ok (E:=string))).
  naive_solver.
Qed.
End Genesis.

(** ** Native balances for ever after *)
Section Bound.
Context `{T : Config, HF : !FungiblesLaws AccountId AssetKind Ledger,
  HP : !PoolFungiblesLaws AccountId AssetKind PoolAssetId Ledger,
  HC : !LedgerConserves AccountId AssetKind PoolAssetId Ledger, SL : !SpecLib AccountId}.

Lemma genesis_supply (l : Ledger) native (g : GenesisPatch) :
  (∀ who, balance l native who = endowment g who) → supply l native (issued g).
Proof. intros Hl. eapply sums_ext; [|apply endowment_sums]. intros who. by rewrite Hl. Qed.
End Bound.
