(* ===== verification/ChainSample.v ===== *)
(** * A sample history

    Alice creates the pool (1, 2), adds liquidity and bids 1 for 50; Bob asks
    3 for 40 and 4 for 30.  The pool price is 2.  The witnesses of the theorems
    on matching and on histories run on it. *)
From S2P Require Import Prelude Index Critbit CritbitOps OrderId Tick OrderBook Backing Errors Amm Locator Assets Config Pool Pallet PalletFacts Matching SearchFacts MatchFacts Liquidity OrderFacts Devnet Dispatch.

Module Chain.
Abbreviation dev := (devnet true).
#[export] Instance iface : OrderInterface Z (Tick Z) :=
  @Tick_OrderInterface u128 (Build_BuildProfile true) Z _.
#[export] Instance laws : @OrderInterfaceLaws Z (Tick Z) u128 iface :=
  @Tick_OrderInterfaceLaws u128 (Build_BuildProfile true) Z _.
#[export] Instance book_laws :
    @OrderBookLaws Z (Tick Z) CritbitTreeError (CritbitTree (Tick Z)) u128 iface laws
      (OrderBook_impl (Config:=dev)) :=
  @CritbitTree_OrderBookLaws u128 (Build_BuildProfile true) Z (Tick Z) iface laws.
#[export] Instance owed_laws : @LevelOwed Z (Tick Z) u128 iface laws :=
  @Tick_LevelOwed u128 (Build_BuildProfile true) Z _.

Definition calls : list (dispatch (T:=dev)) := [
  Call_create_pool (T:=dev) (Some alice) 1 0 2 0 0 1 1 0;
  Call_add_liquidity (T:=dev) (Some alice) 1 2 1000000 2000000 1 1 alice;
  Call_limit_order (T:=dev) (Some alice) 1 2 true 1 50;
  Call_limit_order (T:=dev) (Some bob) 1 2 false 3 40;
  Call_limit_order (T:=dev) (Some bob) 1 2 false 4 30].
Definition world : World (T:=dev) := run_all (T:=dev) calls (genesis true).

Lemma calls_ok : Forall (dispatch_ok (T:=dev)) calls.
Proof. repeat constructor; vm_compute; congruence. Qed.

Lemma genesis_ok : world_ok (T:=dev) (HO:=iface) (HL:=laws) (HB:=book_laws) (genesis true).
Proof. apply map_Forall_empty. Qed.

Lemma world_is_ok : world_ok (T:=dev) (HO:=iface) (HL:=laws) (HB:=book_laws) world.
Proof. exact (reachable_ok (T:=dev) _ _ genesis_ok (run_all_reachable (T:=dev) calls _ calls_ok)). Qed.

Definition pool : Pool (T:=dev) :=
  default (Pool_new (T:=dev) 0 0 1 1 0 0 0) (Pools world !! (1, 2)).

Lemma pool_in_world : Pools world !! ((1, 2) : PoolId (Config:=dev)) = Some pool.
Proof.
  assert (match Pools world !! ((1, 2) : PoolId (Config:=dev)) with Some _ => true | None => false end = true)
    as Hs by (vm_compute; reflexivity).
  unfold pool. destruct (Pools world !! _); [reflexivity|discriminate Hs].
Qed.

Lemma pool_is_ok : pool_ok (T:=dev) (HO:=iface) (HL:=laws) (HB:=book_laws) pool.
Proof. exact (world_is_ok _ _ pool_in_world). Qed.

Lemma pool_step_ok : step_ok (T:=dev) pool.
Proof. left. vm_compute. reflexivity. Qed.
End Chain.
