(* ===== verification/GenesisSample.v ===== *)
(** * A sample genesis

    Accounts are the positions of their seeds among the endowed ones; the
    ledger holds what the genesis patch gives in the native asset 0, and the
    first account creates a pool. *)
From stdpp Require Import strings.
From S2P Require Import Prelude Runtime ChainSpec Index OrderId Tick OrderBook Errors Amm Locator Assets Config Pool Pallet Dispatch Supply SupplyFacts GenesisFacts Devnet.
Local Open Scope string_scope.
Local Open Scope Z_scope.

Module Genesis.
Definition position (s : string) : option Z :=
  (λ '(i, _), Z.of_nat i) <$> list_find (λ seed, ("//" +:+ seed) = s) endowed_seeds.

#[export] Instance spec_lib : SpecLib Z := {|
  Wasm := unit; Public := Z; AuraId := Z; WASM_BINARY := Some tt;
  sr25519_from_string := position; aura_from_string := position; into_account x := x; XCM_VERSION := 5
|}.
#[export] Instance spec_files : SpecFiles (H:=spec_lib) := {| from_json_file _ := Err "no such file" |}.

Definition spec : ChainSpec (H:=spec_lib) :=
  match load_spec (H:=spec_lib) "dev" with
  | Ok c => c
  | _ => mkSpec _ _ tt (mkExtensions "" 0) "" "" Development (testnet_genesis (H:=spec_lib) [] [] 0 0) None None
  end.

Lemma spec_loads : load_spec (H:=spec_lib) "dev" = Ok spec.
Proof. vm_compute. reflexivity. Qed.

Definition native_ledger : Bank.t :=
  Bank.mk (list_to_map ((λ av, ((0, av.1), av.2)) <$> balances (H:=spec_lib) (ChainSpec.genesis spec))) ∅ ∅ ∅.

Lemma lookup_endowed (l : list (Z * Z)) who :
  NoDup l.*1 →
  default 0 ((list_to_map ((λ av, ((0, av.1), av.2)) <$> l) : gmap (Z * Z) Z) !! (0, who)) =
  foldr (λ av n, (if decide (av.1 = who) then av.2 else 0) + n) 0 l.
Proof.
  induction l as [|[a v] l IH]; [done|]. csimpl. intros [Hni Hnd]%NoDup_cons.
  rewrite lookup_insert. specialize (IH Hnd).
  destruct (decide (a = who)) as [->|Hne].
  - rewrite decide_True by done. simpl. enough (foldr (λ av n, (if decide (av.1 = who) then av.2 else 0) + n) 0 l = 0) by lia.
    clear -Hni. induction l as [|[a v'] l IH]; [done|]. csimpl in *.
    apply not_elem_of_cons in Hni as [? ?]. rewrite decide_False by done. rewrite IH by done. lia.
  - rewrite decide_False by congruence. rewrite IH. lia.
Qed.

Lemma native_balances who :
  Bank.bal native_ledger 0 who = endowment (H:=spec_lib) (ChainSpec.genesis spec) who.
Proof.
  apply lookup_endowed. assert (bool_decide (NoDup (balances (H:=spec_lib) (ChainSpec.genesis spec)).*1) = true) as Hnd
    by (vm_compute; reflexivity).
  by apply bool_decide_eq_true in Hnd.
Qed.

Lemma native_other a who : a ≠ 0 → Bank.bal native_ledger a who = 0.
Proof.
  intros Ha. unfold Bank.bal, native_ledger, Bank.balances. rewrite not_elem_of_list_to_map_1; [done|].
  rewrite <-list_fmap_compose. intros (av & [= -> ->] & _)%list_elem_of_fmap. done.
Qed.

Lemma native_solvent a who : 0 ≤ Bank.bal native_ledger a who.
Proof.
  destruct (decide (a = 0)) as [->|Ha]; [|by rewrite native_other].
  rewrite native_balances. unfold endowment.
  assert (forallb (λ av, 0 <=? av.2) (balances (H:=spec_lib) (ChainSpec.genesis spec)) = true) as Hall
    by (vm_compute; reflexivity).
  induction (balances _) as [|av l IH]; [done|]. simpl in *. apply andb_prop in Hall as [Hv%Z.leb_le Hl].
  specialize (IH Hl). case_decide; lia.
Qed.

(** The first account creates a pool. *)
Definition start : World (T:=devnet true) := mkWorld (devnet true) native_ledger ∅ None 1 [].
Definition calls : list (dispatch (T:=devnet true)) :=
  [Call_create_pool (T:=devnet true) (Some 0) 1 0 2 0 0 1 1 0].
Definition later : World (T:=devnet true) := run_all (T:=devnet true) calls start.

Lemma later_reachable : reachable (T:=devnet true) start later.
Proof. apply run_all_reachable. repeat constructor. Qed.
End Genesis.
