(* ===== verification/Ops.v ===== *)
(** * Pool operations

    [hybrid-orderbook/ops/src/lib.rs]: the call that moves a pool from the
    account of a prior derivation to the account of the current one.  It is
    written against the storage and registries of an asset conversion pallet
    ([Pools], a [PoolMetadata] map, two asset registries with deposits, and the
    asset the deposits are made in), which are parameters here, with laws for
    what their calls do to balances, deposits and issuance. *)
From S2P Require Import Prelude Locator.
From Stdlib Require Import Bool.

Module Ops.

Inductive Error := InvalidAssetPair | PoolNotFound | ZeroBalance | PartialTransfer.

#[export] Instance Error_eq_dec : EqDecision Error.
Proof. solve_decision. Defined.

(** Whether the caller pays the fee of the transaction. *)
Inductive Pays := Pays_Yes | Pays_No.

(** [Registry code] is an error forwarded from a registry. *)
Inductive DispatchError := Module_ (e : Error) | BadOrigin | Registry (code : Z).

Class Config := {
  AccountId : Type;
  AssetKind : Type;
  PoolAssetId : Type;
  PoolInfo : Type;
  Metadata : Type;
  Chain : Type;
  AccountId_eq :: EqDecision AccountId;
  AssetKind_eq :: EqDecision AssetKind;
  locator :: PoolLocator AccountId AssetKind (AssetKind * AssetKind);
  PriorAccountIdConverter : AssetKind * AssetKind → option AccountId;
  balance_width : Z;

  Pools : Chain → AssetKind * AssetKind → option PoolInfo;
  PoolMetadata : Chain → AssetKind * AssetKind → option Metadata;
  info_lp_token : PoolInfo → PoolAssetId;
  metadata_lp_token : Metadata → PoolAssetId;

  total_balance : Chain → AssetKind → AccountId → Z;
  touch : AssetKind → AccountId → AccountId → M Chain DispatchError ();
  transfer : AssetKind → AccountId → AccountId → Z → M Chain DispatchError Z;
  deposit_held : Chain → AssetKind → AccountId → option (AccountId * Z);
  refund : AssetKind → AccountId → M Chain DispatchError ();

  lp_total_balance : Chain → PoolAssetId → AccountId → Z;
  lp_touch : PoolAssetId → AccountId → AccountId → M Chain DispatchError ();
  lp_transfer : PoolAssetId → AccountId → AccountId → Z → M Chain DispatchError Z;
  lp_deposit_held : Chain → PoolAssetId → AccountId → option (AccountId * Z);
  lp_refund : PoolAssetId → AccountId → M Chain DispatchError ();
  reset_team : PoolAssetId → AccountId → AccountId → AccountId → AccountId → M Chain DispatchError ();

  minimum_balance : Chain → Z;
  mint_into : AccountId → Z → M Chain DispatchError ();
  burn_from : AccountId → Z → M Chain DispatchError ()
}.

Inductive Event `{Config} :=
| MigratedToNewAccount (pool_id : AssetKind * AssetKind) (prior_account new_account : AccountId).

Record State `{Config} := mkState { chain : Chain; events : list Event }.

Section Ops.
Context `{BuildProfile} {T : Config}.
Implicit Types (c : Chain) (s : State).

(** [addresses]: the prior account first; none if they are the same.  In a
    build for tests or benchmarks the two are exchanged. *)
Definition distinct_pair (a b : option AccountId) : option (AccountId * AccountId) :=
  match a, b with
  | Some a, Some b => if decide (a = b) then None else Some (a, b)
  | _, _ => None
  end.
Definition addresses (id : AssetKind * AssetKind) : option (AccountId * AccountId) :=
  distinct_pair (PriorAccountIdConverter id) (address id).
Definition addresses_in_tests (id : AssetKind * AssetKind) : option (AccountId * AccountId) :=
  distinct_pair (address id) (PriorAccountIdConverter id).

(** If a deposit is held for the prior account: mint it for the depositor,
    who then touches the new account. *)
Definition place_deposit (held : Chain → option (AccountId * Z)) (ed : Z)
    (touch_new : AccountId → M Chain DispatchError ()) : M Chain DispatchError () :=
  h ← gets (λ c, Ok (held c));
  match h with
  | Some (depositor, deposit) =>
      amount ← lift (u_add balance_width deposit ed);
      mint_into depositor amount;;
      touch_new depositor
  | None => mret ()
  end.

(** The transfer of a whole balance. *)
Definition transfer_all (balance : Z) (transfer_new : M Chain DispatchError Z) : M Chain DispatchError () :=
  sent ← transfer_new;
  lift (ensure (balance =? sent) (Module_ PartialTransfer)).

(** If a deposit is held for the prior account: refund it and burn what was
    minted. *)
Definition return_deposit (held : Chain → option (AccountId * Z)) (ed : Z)
    (refund_prior : M Chain DispatchError ()) : M Chain DispatchError () :=
  h ← gets (λ c, Ok (held c));
  match h with
  | Some (depositor, deposit) =>
      refund_prior;;
      amount ← lift (u_add balance_width deposit ed);
      burn_from depositor amount
  | None => mret ()
  end.

(** The part of the call that works on the registries. *)
Definition migrate_assets (asset1 asset2 : AssetKind) (metadata_lp lp : PoolAssetId) (prior new : AccountId) :
    M Chain DispatchError () :=
  c ← get;
  let balance1 := total_balance c asset1 prior in
  let balance2 := total_balance c asset2 prior in
  let lp_balance := lp_total_balance c metadata_lp prior in
  lift (ensure (negb (balance1 =? 0)) (Module_ ZeroBalance));;
  lift (ensure (negb (balance2 =? 0)) (Module_ ZeroBalance));;
  lift (ensure (negb (lp_balance =? 0)) (Module_ ZeroBalance));;
  let ed := minimum_balance c in
  place_deposit (λ c, deposit_held c asset1 prior) ed (touch asset1 new);;
  place_deposit (λ c, deposit_held c asset2 prior) ed (touch asset2 new);;
  place_deposit (λ c, lp_deposit_held c lp prior) ed (lp_touch lp new);;
  transfer_all balance1 (transfer asset1 prior new balance1);;
  transfer_all balance2 (transfer asset2 prior new balance2);;
  transfer_all lp_balance (lp_transfer lp prior new lp_balance);;
  return_deposit (λ c, deposit_held c asset1 prior) ed (refund asset1 prior);;
  return_deposit (λ c, deposit_held c asset2 prior) ed (refund asset2 prior);;
  return_deposit (λ c, lp_deposit_held c lp prior) ed (lp_refund lp prior);;
  reset_team lp new new new new.

(** The call; a dispatchable that fails leaves the storage as it was. *)
Definition migrate_body (origin : option AccountId) (asset1 asset2 : AssetKind) : M State DispatchError Pays :=
  _ ← lift (ok_or origin BadOrigin);
  id ← lift (ok_or (pool_id asset1 asset2) (Module_ InvalidAssetPair));
  info ← gets (λ s, ok_or (Pools (chain s) id) (Module_ PoolNotFound));
  metadata ← gets (λ s, ok_or (PoolMetadata (chain s) id) (Module_ PoolNotFound));
  '(prior_account, new_account) ← lift (ok_or (addresses id) (Module_ InvalidAssetPair));
  zoom chain (λ c s, mkState _ c (events s))
    (migrate_assets id.1 id.2 (metadata_lp_token metadata) (info_lp_token info) prior_account new_account);;
  modify (λ s, mkState _ (chain s) (events s ++ [MigratedToNewAccount id prior_account new_account]));;
  mret Pays_No.

Definition migrate_to_new_account (origin : option AccountId) (asset1 asset2 : AssetKind) : M State DispatchError Pays :=
  λ s, match migrate_body origin asset1 asset2 s with
       | (Ok u, s') => (Ok u, s')
       | (r, _) => (r, s)
       end.

(** ** Documented behaviour of the registries

    [deposit_issuance] is the total of the asset that deposits are made in.
    Minting, burning, touching and refunding may change balances of the
    depositor only; a transfer moves what it returns. *)
Record unaffected (who : AccountId) c c' : Prop := {
  un_balance a x : x ≠ who → total_balance c' a x = total_balance c a x;
  un_lp t x : lp_total_balance c' t x = lp_total_balance c t x
}.

Definition same_deposits (x : AccountId) c c' : Prop :=
  (∀ a, deposit_held c' a x = deposit_held c a x) ∧ (∀ t, lp_deposit_held c' t x = lp_deposit_held c t x).
End Ops.

Class Laws `{BuildProfile} {T : Config} := {
  deposit_issuance : Chain → Z;
  mint_law who v c c' : mint_into who v c = (Ok (), c') →
    unaffected who c c' ∧ (∀ x, same_deposits x c c') ∧ deposit_issuance c' = deposit_issuance c + v;
  burn_law who v c c' : burn_from who v c = (Ok (), c') →
    unaffected who c c' ∧ (∀ x, same_deposits x c c') ∧ deposit_issuance c' = deposit_issuance c - v;
  touch_law a x who c c' : touch a x who c = (Ok (), c') →
    unaffected who c c' ∧ (∀ y, y ≠ x → same_deposits y c c') ∧ deposit_issuance c' = deposit_issuance c;
  lp_touch_law t x who c c' : lp_touch t x who c = (Ok (), c') →
    unaffected who c c' ∧ (∀ y, y ≠ x → same_deposits y c c') ∧ deposit_issuance c' = deposit_issuance c;
  transfer_law a src dst v c sent c' : transfer a src dst v c = (Ok sent, c') → src ≠ dst →
    (∀ b x, total_balance c' b x = total_balance c b x +
       (if decide (b = a ∧ x = dst) then sent else 0) - (if decide (b = a ∧ x = src) then sent else 0)) ∧
    (∀ t x, lp_total_balance c' t x = lp_total_balance c t x) ∧
    (∀ x, same_deposits x c c') ∧ deposit_issuance c' = deposit_issuance c;
  lp_transfer_law t src dst v c sent c' : lp_transfer t src dst v c = (Ok sent, c') → src ≠ dst →
    (∀ b x, total_balance c' b x = total_balance c b x) ∧
    lp_total_balance c' t dst = lp_total_balance c t dst + sent ∧
    lp_total_balance c' t src = lp_total_balance c t src - sent ∧
    (∀ x, same_deposits x c c') ∧ deposit_issuance c' = deposit_issuance c;
  refund_law a x c who d c' : refund a x c = (Ok (), c') → deposit_held c a x = Some (who, d) →
    unaffected who c c' ∧ deposit_held c' a x = None ∧ (∀ b, b ≠ a → deposit_held c' b x = deposit_held c b x) ∧
    (∀ t, lp_deposit_held c' t x = lp_deposit_held c t x) ∧ deposit_issuance c' = deposit_issuance c;
  lp_refund_law t x c who d c' : lp_refund t x c = (Ok (), c') → lp_deposit_held c t x = Some (who, d) →
    unaffected who c c' ∧ lp_deposit_held c' t x = None ∧ (∀ a, deposit_held c' a x = deposit_held c a x) ∧
    deposit_issuance c' = deposit_issuance c;
  reset_team_law t o i a f c c' : reset_team t o i a f c = (Ok (), c') →
    (∀ a x, total_balance c' a x = total_balance c a x) ∧ (∀ t x, lp_total_balance c' t x = lp_total_balance c t x) ∧
    (∀ x, same_deposits x c c') ∧ deposit_issuance c' = deposit_issuance c
}.
End Ops.
