(* ===== verification/OpsFacts.v ===== *)
(** * Facts on pool migration

    Each of the three stages of the migration (deposits for the new account,
    transfers, refunds) on one asset, and their composition. *)
From S2P Require Import Prelude Locator Ops.
From Stdlib Require Import Bool.

Module OpsFacts.
Import Ops.

Ltac inv_units := inv_run; repeat match goal with u : () |- _ => destruct u end.

Section Facts.
Context `{BuildProfile} {T : Config} {laws : Laws}.
Context (prior new : AccountId) (distinct : prior ≠ new).
Implicit Types (c : Chain).

Definition outside (h : option (AccountId * Z)) : Prop :=
  match h with Some (who, _) => who ≠ prior ∧ who ≠ new | None => True end.

(** The amount minted, and later burned, for a deposit. *)
Definition minted (h : option (AccountId * Z)) (ed m : Z) : Prop :=
  match h with Some (_, d) => u_add (E:=DispatchError) balance_width d ed = Ok m | None => m = 0 end.

Lemma minted_fun h ed m m' : minted h ed m → minted h ed m' → m' = m.
Proof. destruct h as [[who d]|]; simpl; [|by intros -> ->]. intros -> [= ->]. done. Qed.

(** The balances of the two accounts. *)
Record keeps c c' : Prop := {
  keeps_prior a : total_balance c' a prior = total_balance c a prior;
  keeps_new a : total_balance c' a new = total_balance c a new;
  keeps_lp t x : lp_total_balance c' t x = lp_total_balance c t x
}.

Lemma keeps_refl c : keeps c c.
Proof. done. Qed.

Lemma keeps_trans c1 c2 c3 : keeps c1 c2 → keeps c2 c3 → keeps c1 c3.
Proof. intros [Hp Hn Hl] [Hp' Hn' Hl']. split; intros; by rewrite ?Hp', ?Hn', ?Hl'. Qed.

Lemma unaffected_keeps who c c' : who ≠ prior → who ≠ new → unaffected who c c' → keeps c c'.
Proof. intros Hp Hn [Hb Hl]. split; intros; (apply Hb || apply Hl); congruence. Qed.

Lemma same_deposits_trans x c1 c2 c3 : same_deposits x c1 c2 → same_deposits x c2 c3 → same_deposits x c1 c3.
Proof. intros [H1 H2] [H3 H4]. split; intros; by rewrite ?H3, ?H4. Qed.

Lemma place_deposit_spec held ed touch_new c c' :
  (∀ who c1 c2, touch_new who c1 = (Ok (), c2) →
     unaffected who c1 c2 ∧ same_deposits prior c1 c2 ∧ deposit_issuance c2 = deposit_issuance c1) →
  outside (held c) → place_deposit held ed touch_new c = (Ok (), c') →
  ∃ m, minted (held c) ed m ∧ keeps c c' ∧ same_deposits prior c c' ∧ deposit_issuance c' = deposit_issuance c + m.
Proof.
  intros Htouch Hout. unfold place_deposit. run_step. destruct (held c) as [[who d]|]; simpl.
  - intros Hrun. inv_units. destruct Hout as [Hp Hn].
    match goal with Hm : mint_into _ _ _ = _ |- _ => apply mint_law in Hm as (Hu & Hs & Hi) end.
    match goal with Ht : touch_new _ _ = _ |- _ => apply Htouch in Ht as (Hu' & Hs' & Hi') end.
    eexists. split; [done|]. split_and!.
    + eapply keeps_trans; eapply unaffected_keeps; eauto.
    + eapply same_deposits_trans; eauto.
    + congruence.
  - intros [= <-]. exists 0. split_and!; try done. lia.
Qed.

(** A refund leaves the state [c1] in which the deposits are read next. *)
Lemma return_deposit_spec (R : Chain → Chain → Prop) held ed refund_prior c c' m :
  (∀ who d c1 c2, held c1 = Some (who, d) → refund_prior c1 = (Ok (), c2) →
     unaffected who c1 c2 ∧ R c1 c2 ∧ deposit_issuance c2 = deposit_issuance c1) →
  outside (held c) → minted (held c) ed m → return_deposit held ed refund_prior c = (Ok (), c') →
  ∃ c1, keeps c c' ∧ (c1 = c ∧ held c = None ∨ R c c1) ∧ same_deposits prior c1 c' ∧
    deposit_issuance c' = deposit_issuance c - m.
Proof.
  intros Hrefund Hout Hm. unfold return_deposit. run_step. destruct (held c) as [[who d]|] eqn:Hh; simpl in *.
  - intros Hrun. inv_units. destruct Hout as [Hp Hn].
    match goal with Hr : refund_prior _ = _ |- _ => apply (Hrefund who d) in Hr as (Hu & HR & Hi); [|done] end.
    match goal with Hb : burn_from _ _ _ = _ |- _ => apply burn_law in Hb as (Hu' & Hs' & Hi') end.
    eexists. split_and!; [|by right|apply Hs'|].
    + eapply keeps_trans; eapply unaffected_keeps; eauto.
    + simplify_eq. congruence.
  - intros [= <-]. subst. exists c. split_and!; try done; [by left|lia].
Qed.

Lemma transfer_all_inv v (m : M Chain DispatchError Z) c c' :
  transfer_all v m c = (Ok (), c') → m c = (Ok v, c').
Proof.
  unfold transfer_all. intros Hrun. inv_run.
  match goal with Hv : (_ =? _) = true |- _ => apply Z.eqb_eq in Hv as -> end. done.
Qed.

(** ** Composition *)
Section Migration.
Context (asset1 asset2 : AssetKind) (lp : PoolAssetId) (assets_distinct : asset1 ≠ asset2).

(** The three transfers, from [c] to [c']. *)
Record moves c c' (v1 v2 v : Z) : Prop := {
  mv_prior1 : total_balance c' asset1 prior = total_balance c asset1 prior - v1;
  mv_prior2 : total_balance c' asset2 prior = total_balance c asset2 prior - v2;
  mv_prior_lp : lp_total_balance c' lp prior = lp_total_balance c lp prior - v;
  mv_new1 : total_balance c' asset1 new = total_balance c asset1 new + v1;
  mv_new2 : total_balance c' asset2 new = total_balance c asset2 new + v2;
  mv_new_lp : lp_total_balance c' lp new = lp_total_balance c lp new + v
}.

Lemma keeps_moves c c1 c2 c3 v1 v2 v : keeps c c1 → moves c1 c2 v1 v2 v → keeps c2 c3 → moves c c3 v1 v2 v.
Proof.
  intros [Hp Hn Hl] [] [Hp' Hn' Hl']. split; rewrite ?Hp', ?Hn', ?Hl', <-?Hp, <-?Hn, <-?Hl; done.
Qed.

Lemma transfers_spec v1 v2 v c c1 c2 c' :
  transfer_all v1 (transfer asset1 prior new v1) c = (Ok (), c1) →
  transfer_all v2 (transfer asset2 prior new v2) c1 = (Ok (), c2) →
  transfer_all v (lp_transfer lp prior new v) c2 = (Ok (), c') →
  moves c c' v1 v2 v ∧ same_deposits prior c c' ∧ deposit_issuance c' = deposit_issuance c.
Proof.
  intros H1%transfer_all_inv H2%transfer_all_inv H3%transfer_all_inv.
  destruct (transfer_law _ _ _ _ _ _ _ H1 distinct) as (Hb1 & Hl1 & Hs1 & Hi1).
  destruct (transfer_law _ _ _ _ _ _ _ H2 distinct) as (Hb2 & Hl2 & Hs2 & Hi2).
  destruct (lp_transfer_law _ _ _ _ _ _ _ H3 distinct) as (Hb3 & Hnew & Hprior & Hs3 & Hi3).
  split_and!; [|eapply same_deposits_trans, same_deposits_trans; [apply Hs1|apply Hs2|apply Hs3]|congruence].
  split; rewrite ?Hb3, ?Hb2, ?Hb1, ?Hnew, ?Hprior, ?Hl2, ?Hl1; repeat case_decide; naive_solver lia.
Qed.

Definition held1 c := deposit_held c asset1 prior.
Definition held2 c := deposit_held c asset2 prior.
Definition held3 c := lp_deposit_held c lp prior.

Definition outsiders c : Prop := outside (held1 c) ∧ outside (held2 c) ∧ outside (held3 c).

Lemma same_deposits_held c c' :
  same_deposits prior c c' → held1 c' = held1 c ∧ held2 c' = held2 c ∧ held3 c' = held3 c.
Proof. intros [Ha Ht]. unfold held1, held2, held3. by rewrite !Ha, Ht. Qed.

Lemma deposits_spec ed c c1 c2 c' :
  outsiders c →
  place_deposit held1 ed (touch asset1 new) c = (Ok (), c1) →
  place_deposit held2 ed (touch asset2 new) c1 = (Ok (), c2) →
  place_deposit held3 ed (lp_touch lp new) c2 = (Ok (), c') →
  ∃ m1 m2 m3, minted (held1 c) ed m1 ∧ minted (held2 c) ed m2 ∧ minted (held3 c) ed m3 ∧
    keeps c c' ∧ same_deposits prior c c' ∧ deposit_issuance c' = deposit_issuance c + m1 + m2 + m3.
Proof.
  intros (Ho1 & Ho2 & Ho3) H1 H2 H3.
  apply place_deposit_spec in H1 as (m1 & Hm1 & Hk1 & Hs1 & Hi1);
    [|intros who e1 e2 Ht; apply touch_law in Ht as (? & Hs & ?); auto|done].
  destruct (same_deposits_held _ _ Hs1) as (He1 & He2 & He3).
  apply place_deposit_spec in H2 as (m2 & Hm2 & Hk2 & Hs2 & Hi2);
    [|intros who e1 e2 Ht; apply touch_law in Ht as (? & Hs & ?); auto|by rewrite He2].
  destruct (same_deposits_held _ _ Hs2) as (Hf1 & Hf2 & Hf3).
  apply place_deposit_spec in H3 as (m3 & Hm3 & Hk3 & Hs3 & Hi3);
    [|intros who e1 e2 Ht; apply lp_touch_law in Ht as (? & Hs & ?); auto|by rewrite Hf3, He3].
  rewrite He2 in Hm2. rewrite Hf3, He3 in Hm3. exists m1, m2, m3. split_and!; try done.
  - by eapply keeps_trans, keeps_trans.
  - by eapply same_deposits_trans, same_deposits_trans.
  - lia.
Qed.

Lemma refunds_spec ed c c1 c2 c' m1 m2 m3 :
  outsiders c → minted (held1 c) ed m1 → minted (held2 c) ed m2 → minted (held3 c) ed m3 →
  return_deposit held1 ed (refund asset1 prior) c = (Ok (), c1) →
  return_deposit held2 ed (refund asset2 prior) c1 = (Ok (), c2) →
  return_deposit held3 ed (lp_refund lp prior) c2 = (Ok (), c') →
  keeps c c' ∧ held1 c' = None ∧ held2 c' = None ∧ held3 c' = None ∧
  deposit_issuance c' = deposit_issuance c - m1 - m2 - m3.
Proof.
  intros (Ho1 & Ho2 & Ho3) Hm1 Hm2 Hm3 H1 H2 H3.
  apply (return_deposit_spec (λ c1 c2, held1 c2 = None ∧ held2 c2 = held2 c1 ∧ held3 c2 = held3 c1) _ _ _ _ _ m1)
    in H1 as (e1 & Hk1 & HR1 & Hs1 & Hi1); [|intros who d x y Hh Hr; pose proof (refund_law _ _ _ _ _ _ Hr Hh); unfold held1, held2, held3; naive_solver|done..].
  destruct (same_deposits_held _ _ Hs1) as (Ha1 & Ha2 & Ha3).
  assert (held1 c1 = None ∧ held2 c1 = held2 c ∧ held3 c1 = held3 c) as (Hc11 & Hc12 & Hc13).
  { rewrite Ha1, Ha2, Ha3. destruct HR1 as [[-> ?]|?]; naive_solver. }
  apply (return_deposit_spec (λ c1 c2, held2 c2 = None ∧ held1 c2 = held1 c1 ∧ held3 c2 = held3 c1) _ _ _ _ _ m2)
    in H2 as (e2 & Hk2 & HR2 & Hs2 & Hi2); [|intros who d x y Hh Hr; pose proof (refund_law _ _ _ _ _ _ Hr Hh); unfold held1, held2, held3; naive_solver|by rewrite Hc12..].
  destruct (same_deposits_held _ _ Hs2) as (Hb1 & Hb2 & Hb3).
  assert (held1 c2 = None ∧ held2 c2 = None ∧ held3 c2 = held3 c) as (Hc21 & Hc22 & Hc23).
  { rewrite Hb1, Hb2, Hb3. destruct HR2 as [[-> ?]|(? & ? & ?)]; split_and!; congruence. }
  apply (return_deposit_spec (λ c1 c2, held3 c2 = None ∧ held1 c2 = held1 c1 ∧ held2 c2 = held2 c1) _ _ _ _ _ m3)
    in H3 as (e3 & Hk3 & HR3 & Hs3 & Hi3); [|intros who d x y Hh Hr; pose proof (lp_refund_law _ _ _ _ _ _ Hr Hh); unfold held1, held2, held3; naive_solver|by rewrite Hc23..].
  destruct (same_deposits_held _ _ Hs3) as (Hd1 & Hd2 & Hd3).
  split; [by eapply keeps_trans, keeps_trans|]. rewrite Hd1, Hd2, Hd3.
  destruct HR3 as [[-> ?]|(? & ? & ?)]; split_and!; try congruence; lia.
Qed.

(** Everything moves; nothing is minted or burned in the end. *)
Record migrated c c' : Prop := {
  mg_balance1 : total_balance c asset1 prior ≠ 0;
  mg_balance2 : total_balance c asset2 prior ≠ 0;
  mg_balance_lp : lp_total_balance c lp prior ≠ 0;
  mg_moves : moves c c' (total_balance c asset1 prior) (total_balance c asset2 prior) (lp_total_balance c lp prior);
  mg_deposits : held1 c' = None ∧ held2 c' = None ∧ held3 c' = None;
  mg_issuance : deposit_issuance c' = deposit_issuance c
}.

Lemma migrate_assets_spec c c' :
  outsiders c → migrate_assets asset1 asset2 lp lp prior new c = (Ok (), c') → migrated c c'.
Proof.
  intros Hout. unfold migrate_assets. fold held1 held2 held3. intros Hrun. inv_units.
  repeat match goal with Hz : negb (_ =? 0) = true |- _ => apply negb_true_iff, Z.eqb_neq in Hz end.
  match goal with H1 : place_deposit held1 _ _ _ = _, H2 : place_deposit held2 _ _ _ = _, H3 : place_deposit held3 _ _ _ = _ |- _ =>
    destruct (deposits_spec _ _ _ _ _ Hout H1 H2 H3) as (m1 & m2 & m3 & Hm1 & Hm2 & Hm3 & Hk & Hs & Hi) end.
  match goal with H1 : transfer_all _ _ ?c1 = _, H2 : transfer_all _ _ _ = _, H3 : transfer_all _ (lp_transfer _ _ _ _) _ = _ |- _ =>
    destruct (transfers_spec _ _ _ _ _ _ _ H1 H2 H3) as (Hmv & Hs' & Hi') end.
  destruct (same_deposits_held _ _ (same_deposits_trans _ _ _ _ Hs Hs')) as (Ha1 & Ha2 & Ha3).
  match goal with H1 : return_deposit held1 _ _ _ = _, H2 : return_deposit held2 _ _ _ = _, H3 : return_deposit held3 _ _ _ = _ |- _ =>
    eapply (refunds_spec _ _ _ _ _ m1 m2 m3) in H1 as (Hk' & Hh1 & Hh2 & Hh3 & Hi''); [|..|exact H2|exact H3];
    [|unfold outsiders; by rewrite ?Ha1, ?Ha2, ?Ha3..] end.
  match goal with Hr : reset_team _ _ _ _ _ _ = _ |- _ => apply reset_team_law in Hr as (Hb & Hl & Hs'' & Hi3) end.
  destruct (same_deposits_held _ _ (Hs'' prior)) as (Hd1 & Hd2 & Hd3).
  split; try done.
  - eapply keeps_moves; [exact Hk|exact Hmv|]. eapply keeps_trans; [exact Hk'|]. split; intros; by rewrite ?Hb, ?Hl.
  - by rewrite Hd1, Hd2, Hd3.
  - lia.
Qed.
End Migration.
End Facts.

(** The whole call. *)
Lemma migrate_body_spec `{BuildProfile} {T : Config} {laws : Laws} origin a b (s : State) s' :
  migrate_body origin a b s = (Ok Pays_No, s') →
  ∃ signer id info metadata prior new,
    origin = Some signer ∧ pool_id a b = Some id ∧
    Pools (chain s) id = Some info ∧ PoolMetadata (chain s) id = Some metadata ∧
    PriorAccountIdConverter id = Some prior ∧ address id = Some new ∧ prior ≠ new ∧
    events s' = events s ++ [MigratedToNewAccount id prior new] ∧
    (metadata_lp_token metadata = info_lp_token info → id.1 ≠ id.2 →
     outsiders prior new id.1 id.2 (info_lp_token info) (chain s) →
     migrated prior new id.1 id.2 (info_lp_token info) (chain s) (chain s')).
Proof.
  unfold migrate_body. intros Hrun. inv_run.
  match goal with Ha : addresses _ = Some ?pn |- _ => destruct pn as [prior new] eqn:Hpn; rename Ha into Haddr end.
  inv_units. unfold zoom in *.
  match goal with Hm : (let '(_, _) := migrate_assets ?a1 ?a2 ?l1 ?l2 ?x ?y ?c in _) = _ |- _ =>
    destruct (migrate_assets a1 a2 l1 l2 x y c) as [r c'] eqn:Hmig end.
  unfold addresses, distinct_pair in Haddr. repeat case_match; simplify_eq/=.
  do 6 eexists. split_and!; try done. intros Hlp Hne Hout. rewrite Hlp in Hmig. eapply migrate_assets_spec; eauto.
Qed.
End OpsFacts.
