(* ===== verification/OpsErrors.v ===== *)
(** * Why a migration is refused

    Which check refuses a migration, for each of the errors of the pallet, and
    that no other call of it returns these errors. *)
From S2P Require Import Prelude Locator Ops.
From Stdlib Require Import Bool.

Module OpsErrors.
Import Ops.

(** A computation whose errors are those of a registry. *)
Definition forwards {T : Config} {A} (m : M Chain DispatchError A) : Prop :=
  ∀ c e c', m c = (Err e, c') → ∃ code, e = Registry code.

(** A registry returns its own errors, never those of the pallet that calls it. *)
Class RegistryErrors {T : Config} := {
  touch_errors a x who : forwards (touch a x who);
  transfer_errors a src dst v : forwards (transfer a src dst v);
  refund_errors a x : forwards (refund a x);
  lp_touch_errors t x who : forwards (lp_touch t x who);
  lp_transfer_errors t src dst v : forwards (lp_transfer t src dst v);
  lp_refund_errors t x : forwards (lp_refund t x);
  reset_team_errors t o i a f : forwards (reset_team t o i a f);
  mint_errors who v : forwards (mint_into who v);
  burn_errors who v : forwards (burn_from who v)
}.

Section Errors.
Context `{BuildProfile} {T : Config} {RE : RegistryErrors}.
Implicit Types (c : Chain) (s : State).

Lemma forwards_bind {A B} (m : M Chain DispatchError A) (k : A → M Chain DispatchError B) :
  forwards m → (∀ x, forwards (k x)) → forwards (m ≫= k).
Proof.
  intros Hm Hk c e c'. rewrite M_bind_run. destruct (m c) as [[x|e1| |] c1] eqn:Hrun; try done.
  - apply Hk.
  - intros [= -> ->]. by eapply Hm.
Qed.

Lemma forwards_add a b : forwards (lift (u_add balance_width a b)).
Proof. intros c e c'. unfold lift, u_add, overflowing. by destruct (in_rangeb _ _), overflow_checks. Qed.

Lemma forwards_place held ed touch_new :
  (∀ who, forwards (touch_new who)) → forwards (place_deposit held ed touch_new).
Proof.
  intros Ht. apply forwards_bind; [by intros c e c'|]. intros [[who d]|]; [|by intros c e c'].
  apply forwards_bind; [apply forwards_add|]. intros v.
  apply forwards_bind; [apply mint_errors|auto].
Qed.

Lemma forwards_return held ed refund_prior :
  forwards refund_prior → forwards (return_deposit held ed refund_prior).
Proof.
  intros Hr. apply forwards_bind; [by intros c e c'|]. intros [[who d]|]; [|by intros c e c'].
  apply forwards_bind; [done|]. intros _. apply forwards_bind; [apply forwards_add|]. intros v. apply burn_errors.
Qed.

(** The first step of a sequence: it fails, or the rest goes on from its end. *)
Lemma sequence_Err {A B} (m : M Chain DispatchError A) (k : A → M Chain DispatchError B) c e c' :
  (m ≫= k) c = (Err e, c') → m c = (Err e, c') ∨ ∃ x c1, m c = (Ok x, c1) ∧ k x c1 = (Err e, c').
Proof. rewrite M_bind_run. destruct (m c) as [[x|e1| |] c1]; naive_solver. Qed.

(** ** The part on the registries *)
Section Assets.
Context (asset1 asset2 : AssetKind) (metadata_lp lp : PoolAssetId) (prior new : AccountId).

Definition nothing_to_move c : Prop :=
  total_balance c asset1 prior = 0 ∨ total_balance c asset2 prior = 0 ∨ lp_total_balance c metadata_lp prior = 0.

Definition deposits_placed c c' : Prop :=
  let ed := minimum_balance c in
  ∃ c1 c2,
    place_deposit (λ c, deposit_held c asset1 prior) ed (touch asset1 new) c = (Ok (), c1) ∧
    place_deposit (λ c, deposit_held c asset2 prior) ed (touch asset2 new) c1 = (Ok (), c2) ∧
    place_deposit (λ c, lp_deposit_held c lp prior) ed (lp_touch lp new) c2 = (Ok (), c').

(** A transfer that reports another amount than it was asked for. *)
Definition partial (balance : Z) (transfer_new : M Chain DispatchError Z) c : Prop :=
  ∃ sent c', transfer_new c = (Ok sent, c') ∧ sent ≠ balance.

(** One of the three transfers is the first that is partial. *)
Definition cut_short c : Prop :=
  let v1 := total_balance c asset1 prior in
  let v2 := total_balance c asset2 prior in
  let v := lp_total_balance c metadata_lp prior in
  ∃ c1, deposits_placed c c1 ∧
    (partial v1 (transfer asset1 prior new v1) c1 ∨
     ∃ c2, transfer asset1 prior new v1 c1 = (Ok v1, c2) ∧
       (partial v2 (transfer asset2 prior new v2) c2 ∨
        ∃ c3, transfer asset2 prior new v2 c2 = (Ok v2, c3) ∧ partial v (lp_transfer lp prior new v) c3)).

Lemma transfer_all_partial v m c :
  partial v m c → ∃ c', transfer_all v m c = (Err (Module_ PartialTransfer), c').
Proof.
  intros (sent & c' & Hm & Hne). exists c'. unfold transfer_all. rewrite M_bind_run, Hm. unfold lift.
  by destruct (Z.eqb_spec v sent).
Qed.

Lemma transfer_all_full v m c c' : m c = (Ok v, c') → transfer_all v m c = (Ok (), c').
Proof. intros Hm. unfold transfer_all. rewrite M_bind_run, Hm. unfold lift. by rewrite Z.eqb_refl. Qed.

Lemma transfer_all_Ok v m c c' : transfer_all v m c = (Ok (), c') → m c = (Ok v, c').
Proof. unfold transfer_all. intros Hrun. inv_run. by match goal with Hv : (_ =? _) = true |- _ => apply Z.eqb_eq in Hv as -> end. Qed.

Lemma transfer_all_Err v m c e c' :
  forwards m → transfer_all v m c = (Err e, c') →
  (e = Module_ PartialTransfer ∧ partial v m c) ∨ ∃ code, e = Registry code.
Proof.
  intros Hm [Hrun|(sent & c1 & Hrun & Hs)]%sequence_Err; [right; by eapply Hm|left].
  unfold lift, ensure in Hs. destruct (Z.eqb_spec v sent); simplify_eq. split; [done|]. eexists _, _. eauto.
Qed.

Lemma balances_refuse {E} (b : bool) (e : E) c : lift (ensure b e) c = if b then (Ok (), c) else (Err e, c).
Proof. by destruct b. Qed.

Lemma migrate_nothing c :
  nothing_to_move c → migrate_assets asset1 asset2 metadata_lp lp prior new c = (Err (Module_ ZeroBalance), c).
Proof.
  intros Hz. unfold migrate_assets. rewrite !M_bind_run. unfold get. cbv beta iota zeta.
  rewrite M_bind_run, balances_refuse. destruct (Z.eqb_spec (total_balance c asset1 prior) 0); [done|]. cbn [negb].
  rewrite M_bind_run, balances_refuse. destruct (Z.eqb_spec (total_balance c asset2 prior) 0); [done|]. cbn [negb].
  rewrite M_bind_run, balances_refuse. destruct (Z.eqb_spec (lp_total_balance c metadata_lp prior) 0); [done|].
  by destruct Hz as [?|[?|?]].
Qed.

Lemma migrate_something c :
  ¬ nothing_to_move c →
  let v1 := total_balance c asset1 prior in
  let v2 := total_balance c asset2 prior in
  let v := lp_total_balance c metadata_lp prior in
  let ed := minimum_balance c in
  migrate_assets asset1 asset2 metadata_lp lp prior new c =
  (place_deposit (λ c, deposit_held c asset1 prior) ed (touch asset1 new);;
   place_deposit (λ c, deposit_held c asset2 prior) ed (touch asset2 new);;
   place_deposit (λ c, lp_deposit_held c lp prior) ed (lp_touch lp new);;
   transfer_all v1 (transfer asset1 prior new v1);;
   transfer_all v2 (transfer asset2 prior new v2);;
   transfer_all v (lp_transfer lp prior new v);;
   return_deposit (λ c, deposit_held c asset1 prior) ed (refund asset1 prior);;
   return_deposit (λ c, deposit_held c asset2 prior) ed (refund asset2 prior);;
   return_deposit (λ c, lp_deposit_held c lp prior) ed (lp_refund lp prior);;
   reset_team lp new new new new) c.
Proof.
  intros Hz. cbv zeta. unfold migrate_assets. rewrite M_bind_run. unfold get. cbv beta iota zeta.
  unfold nothing_to_move in Hz.
  rewrite M_bind_run, balances_refuse. destruct (Z.eqb_spec (total_balance c asset1 prior) 0); [tauto|]. cbn [negb].
  rewrite M_bind_run, balances_refuse. destruct (Z.eqb_spec (total_balance c asset2 prior) 0); [tauto|]. cbn [negb].
  rewrite M_bind_run, balances_refuse. destruct (Z.eqb_spec (lp_total_balance c metadata_lp prior) 0); [tauto|]. done.
Qed.

Lemma migrate_cut_short c :
  ¬ nothing_to_move c → cut_short c →
  ∃ c', migrate_assets asset1 asset2 metadata_lp lp prior new c = (Err (Module_ PartialTransfer), c').
Proof.
  intros Hz%migrate_something (c1 & (d1 & d2 & H1 & H2 & H3) & Hcut). rewrite Hz.
  rewrite (M_bind_Ok _ _ _ _ _ H1), (M_bind_Ok _ _ _ _ _ H2), (M_bind_Ok _ _ _ _ _ H3).
  destruct Hcut as [Hp%transfer_all_partial|(c2 & Ht1%transfer_all_full & Hcut)].
  { destruct Hp as [c' Hp]. exists c'. by rewrite (M_bind_Err _ _ _ _ _ Hp). }
  rewrite (M_bind_Ok _ _ _ _ _ Ht1).
  destruct Hcut as [Hp%transfer_all_partial|(c3 & Ht2%transfer_all_full & Hp%transfer_all_partial)].
  { destruct Hp as [c' Hp]. exists c'. by rewrite (M_bind_Err _ _ _ _ _ Hp). }
  rewrite (M_bind_Ok _ _ _ _ _ Ht2). destruct Hp as [c' Hp]. exists c'. by rewrite (M_bind_Err _ _ _ _ _ Hp).
Qed.

(** The first step whose error is one of the pallet's decides. *)
Lemma migrate_assets_Err c e c' :
  migrate_assets asset1 asset2 metadata_lp lp prior new c = (Err e, c') →
  (nothing_to_move c ∧ e = Module_ ZeroBalance) ∨
  (¬ nothing_to_move c ∧ cut_short c ∧ e = Module_ PartialTransfer) ∨
  (¬ nothing_to_move c ∧ ∃ code, e = Registry code).
Proof.
  intros Hrun. assert (nothing_to_move c ∨ ¬ nothing_to_move c) as [Hz|Hz].
  { unfold nothing_to_move.
    destruct (decide (total_balance c asset1 prior = 0)), (decide (total_balance c asset2 prior = 0)),
      (decide (lp_total_balance c metadata_lp prior = 0)); tauto. }
  { left. rewrite migrate_nothing in Hrun by done. by simplify_eq. }
  right. rewrite (migrate_something c Hz) in Hrun.
  apply sequence_Err in Hrun as [Hrun|([] & c1 & H1 & Hrun)].
  { right. split; [done|]. eapply forwards_place; [|done]. intros; apply touch_errors. }
  apply sequence_Err in Hrun as [Hrun|([] & c2 & H2 & Hrun)].
  { right. split; [done|]. eapply forwards_place; [|done]. intros; apply touch_errors. }
  apply sequence_Err in Hrun as [Hrun|([] & c3 & H3 & Hrun)].
  { right. split; [done|]. eapply forwards_place; [|done]. intros; apply lp_touch_errors. }
  assert (deposits_placed c c3) as Hd by (by eexists _, _).
  apply sequence_Err in Hrun as [Hrun|([] & c4 & H4%transfer_all_Ok & Hrun)].
  { apply transfer_all_Err in Hrun as [[-> ?]|?]; [left|by right|apply transfer_errors].
    split_and!; [done| |done]. exists c3. split; [done|]. by left. }
  apply sequence_Err in Hrun as [Hrun|([] & c5 & H5%transfer_all_Ok & Hrun)].
  { apply transfer_all_Err in Hrun as [[-> ?]|?]; [left|by right|apply transfer_errors].
    split_and!; [done| |done]. exists c3. split; [done|]. right. exists c4. split; [done|]. by left. }
  apply sequence_Err in Hrun as [Hrun|([] & c6 & _ & Hrun)].
  { apply transfer_all_Err in Hrun as [[-> ?]|?]; [left|by right|apply lp_transfer_errors].
    split_and!; [done| |done]. exists c3. split; [done|]. right. exists c4. split; [done|]. right. by exists c5. }
  right. split; [done|]. revert Hrun.
  apply forwards_bind; [apply forwards_return, refund_errors|intros _].
  apply forwards_bind; [apply forwards_return, refund_errors|intros _].
  apply forwards_bind; [apply forwards_return, lp_refund_errors|intros _]. apply reset_team_errors.
Qed.
End Assets.

(** ** The whole call *)

(** The records and accounts that the call works with. *)
Record located (origin : option AccountId) (a b : AssetKind) s (id : AssetKind * AssetKind)
    (info : PoolInfo) (metadata : Metadata) (prior new : AccountId) : Prop := {
  lc_signed : is_Some origin;
  lc_pair : pool_id a b = Some id;
  lc_pool : Pools (chain s) id = Some info;
  lc_metadata : PoolMetadata (chain s) id = Some metadata;
  lc_accounts : addresses id = Some (prior, new)
}.

(** The checks in their order; an error of a registry is all that is left. *)
Inductive refusal (origin : option AccountId) (a b : AssetKind) s : DispatchError → Prop :=
| refuse_unsigned : origin = None → refusal origin a b s BadOrigin
| refuse_pair : is_Some origin → pool_id a b = None → refusal origin a b s (Module_ InvalidAssetPair)
| refuse_pool id : is_Some origin → pool_id a b = Some id → Pools (chain s) id = None →
    refusal origin a b s (Module_ PoolNotFound)
| refuse_metadata id : is_Some origin → pool_id a b = Some id → is_Some (Pools (chain s) id) →
    PoolMetadata (chain s) id = None → refusal origin a b s (Module_ PoolNotFound)
| refuse_accounts id : is_Some origin → pool_id a b = Some id → is_Some (Pools (chain s) id) →
    is_Some (PoolMetadata (chain s) id) → addresses id = None → refusal origin a b s (Module_ InvalidAssetPair)
| refuse_nothing id info metadata prior new : located origin a b s id info metadata prior new →
    nothing_to_move id.1 id.2 (metadata_lp_token metadata) prior (chain s) →
    refusal origin a b s (Module_ ZeroBalance)
| refuse_partial id info metadata prior new : located origin a b s id info metadata prior new →
    ¬ nothing_to_move id.1 id.2 (metadata_lp_token metadata) prior (chain s) →
    cut_short id.1 id.2 (metadata_lp_token metadata) (info_lp_token info) prior new (chain s) →
    refusal origin a b s (Module_ PartialTransfer)
| refuse_registry id info metadata prior new code : located origin a b s id info metadata prior new →
    ¬ nothing_to_move id.1 id.2 (metadata_lp_token metadata) prior (chain s) →
    refusal origin a b s (Registry code).

Lemma migrate_body_refused origin a b s e s' :
  migrate_body origin a b s = (Err e, s') → refusal origin a b s e.
Proof.
  unfold migrate_body. destruct origin as [o|]; do 2 run_step; [|intros [= <- _]; by apply refuse_unsigned].
  destruct (pool_id a b) as [id|] eqn:Hid; do 2 run_step; [|intros [= <- _]; by apply refuse_pair].
  destruct (Pools (chain s) id) as [info|] eqn:Hinfo; do 2 run_step; [|intros [= <- _]; by apply (refuse_pool _ _ _ _ id)].
  destruct (PoolMetadata (chain s) id) as [md|] eqn:Hmd; do 2 run_step;
    [|intros [= <- _]; by apply (refuse_metadata _ _ _ _ id)].
  destruct (addresses id) as [[prior new]|] eqn:Ha; do 2 run_step; [|intros [= <- _]; by apply (refuse_accounts _ _ _ _ id)].
  unfold zoom.
  destruct (migrate_assets id.1 id.2 _ _ prior new (chain s)) as [[[]|e'| |] c'] eqn:Hm; run_step; try done. intros [= <- _].
  assert (located (Some o) a b s id info md prior new) as Hl by done.
  apply migrate_assets_Err in Hm as [[? ->]|[(? & ? & ->)|(? & code & ->)]].
  - by eapply refuse_nothing.
  - by eapply refuse_partial.
  - by eapply refuse_registry.
Qed.

Lemma refused_migrate_body origin a b s e :
  refusal origin a b s e → (∀ code, e ≠ Registry code) → (migrate_body origin a b s).1 = Err e.
Proof.
  intros Hr Hne. unfold migrate_body.
  destruct Hr as [->|[o ->] ->|id [o ->] -> Hp|id [o ->] -> [info Hp] Hmd|id [o ->] -> [info Hp] [md Hmd] Ha
    |id info md prior new [[o ->] -> Hp Hmd Ha] Hz|id info md prior new [[o ->] -> Hp Hmd Ha] Hz Hcut|]; try by destruct (Hne code).
  all: do 2 run_step; try done; do 2 run_step; try done.
  all: rewrite Hp; do 2 run_step; try done.
  all: rewrite Hmd; do 2 run_step; try done.
  all: rewrite Ha; do 2 run_step; try done.
  - unfold zoom. by rewrite migrate_nothing.
  - destruct (migrate_cut_short _ _ _ _ _ _ _ Hz Hcut) as [c' Hc']. unfold zoom. by rewrite Hc'.
Qed.

(** The call itself: the storage layer does not change the result. *)
Lemma migrate_refusals origin a b s r s' :
  migrate_to_new_account origin a b s = (r, s') →
  (∀ e, r = Err e → refusal origin a b s e) ∧
  (∀ e, refusal origin a b s e → (∀ code, e ≠ Registry code) → r = Err e).
Proof.
  unfold migrate_to_new_account. intros Hrun. split.
  - intros e ->. destruct (migrate_body origin a b s) as [[] s1] eqn:Hb; simplify_eq. by eapply migrate_body_refused.
  - intros e He Hne. pose proof (refused_migrate_body _ _ _ _ _ He Hne) as Hb.
    destruct (migrate_body origin a b s) as [r1 s1]. simpl in Hb. subst r1. by simplify_eq.
Qed.
End Errors.
End OpsErrors.
