(* ===== verification/OpsSample.v ===== *)
(** * A chain for pool migration

    Balances, deposits and the issuance of the deposit asset as maps; the
    laws of the registries hold for it. *)
From S2P Require Import Prelude Locator Ops OpsErrors.
From Stdlib Require Import Bool.

Module OpsSample.
Import Ops OpsErrors.

Record chain_t := mk {
  bals : gmap (Z * Z) Z;          (* (asset, account) *)
  lps : gmap (Z * Z) Z;
  deps : gmap (Z * Z) (Z * Z);    (* (asset, account): depositor and amount *)
  lp_deps : gmap (Z * Z) (Z * Z);
  issued : Z
}.

Definition add_to (m : gmap (Z * Z) Z) (k : Z * Z) (v : Z) : gmap (Z * Z) Z := <[k := default 0 (m !! k) + v]> m.
Definition move (m : gmap (Z * Z) Z) (a src dst v : Z) : gmap (Z * Z) Z := add_to (add_to m (a, src) (- v)) (a, dst) v.

#[export] Instance checks : BuildProfile := {| overflow_checks := true |}.

#[export] Instance config : Config := {|
  AccountId := Z; AssetKind := Z; PoolAssetId := Z; PoolInfo := Z; Metadata := Z; Chain := chain_t;
  locator := BaseQuoteAsset (λ id, Some (1000 + 10 * id.1 + id.2));
  PriorAccountIdConverter id := Some (2000 + 10 * id.1 + id.2);
  balance_width := 128;
  Pools _ id := if decide (id = (1, 2)) then Some 7 else None;
  PoolMetadata _ id := if decide (id = (1, 2)) then Some 7 else None;
  info_lp_token i := i; metadata_lp_token m := m;
  total_balance c a x := default 0 (bals c !! (a, x));
  touch a x who c := (Ok (), mk (bals c) (lps c) (<[(a, x) := (who, 5)]> (deps c)) (lp_deps c) (issued c));
  transfer a src dst v c := (Ok v, mk (move (bals c) a src dst v) (lps c) (deps c) (lp_deps c) (issued c));
  deposit_held c a x := deps c !! (a, x);
  refund a x c := (Ok (), mk (bals c) (lps c) (delete (a, x) (deps c)) (lp_deps c) (issued c));
  lp_total_balance c t x := default 0 (lps c !! (t, x));
  lp_touch t x who c := (Ok (), mk (bals c) (lps c) (deps c) (<[(t, x) := (who, 5)]> (lp_deps c)) (issued c));
  lp_transfer t src dst v c := (Ok v, mk (bals c) (move (lps c) t src dst v) (deps c) (lp_deps c) (issued c));
  lp_deposit_held c t x := lp_deps c !! (t, x);
  lp_refund t x c := (Ok (), mk (bals c) (lps c) (deps c) (delete (t, x) (lp_deps c)) (issued c));
  reset_team _ _ _ _ _ c := (Ok (), c);
  minimum_balance _ := 1;
  mint_into _ v c := (Ok (), mk (bals c) (lps c) (deps c) (lp_deps c) (issued c + v));
  burn_from _ v c := (Ok (), mk (bals c) (lps c) (deps c) (lp_deps c) (issued c - v))
|}.

Lemma move_lookup m a src dst v b x :
  src ≠ dst →
  default 0 (move m a src dst v !! (b, x)) = default 0 (m !! (b, x)) +
    (if decide (b = a ∧ x = dst) then v else 0) - (if decide (b = a ∧ x = src) then v else 0).
Proof.
  intros Hne. unfold move, add_to. rewrite !lookup_insert. repeat case_decide; simplify_eq/=; try naive_solver lia.
Qed.

#[export] Instance laws : Laws.
Proof.
  refine {| deposit_issuance := issued : Chain → Z |}; unfold same_deposits.
  - by intros who v c c' [= <-].
  - by intros who v c c' [= <-].
  - intros a x who c c' [= <-]. split_and!; try done. intros y Hy. split; [|done]. intros b; simpl.
    rewrite lookup_insert_ne; [done|congruence].
  - intros t x who c c' [= <-]. split_and!; try done. intros y Hy. split; [done|]. intros b; simpl.
    rewrite lookup_insert_ne; [done|congruence].
  - intros a src dst v c sent c' [= <- <-] Hne. split_and!; try done. intros b x. by apply move_lookup.
  - intros t src dst v c sent c' [= <- <-] Hne. split_and!; try done; simpl; rewrite move_lookup by done;
      repeat case_decide; naive_solver lia.
  - intros a x c who d c' [= <-] Hd. split_and!; try done; simpl; [by rewrite lookup_delete_eq|].
    intros b Hb. rewrite lookup_delete_ne; [done|congruence].
  - intros t x c who d c' [= <-] Hd. split_and!; try done; simpl. by rewrite lookup_delete_eq.
  - by intros t o i a f c c' [= <-].
Qed.

Definition before : State :=
  mkState config (mk {[ (1, 2012) := 500; (2, 2012) := 700; (1, 1012) := 3 ]} {[ (7, 2012) := 100 ]}
    {[ (2, 2012) := (50, 5) ]} {[ (7, 2012) := (51, 5) ]} 10000) [].
(** After the migration. *)
Definition after : State := (migrate_to_new_account (Some 9) 1 2 before).2.

#[export] Instance registry_errors : RegistryErrors.
Proof. split; by intros. Qed.
End OpsSample.
