(* ===== verification/Preconf.v ===== *)
(** * The proposer with preconfirmations

    [client/authorship/src/preconf.rs] and
    [client/primitives/src/authorship/preconf.rs].  A block is built as a
    series of sub-blocks: every [preconf_block_time] milliseconds the
    proposer moves transactions from the pool into the block builder and
    announces what it has added to the subscribers.

    This file holds the data and the sequential code: pushing extrinsics
    under a deadline and a size limit, the payload of a sub-block, the
    publication of messages, and the factory.  [PreconfLoop] has the
    concurrent tasks of [propose_with].

    Instants and durations are numbers of nanoseconds.  Reading a clock moves
    [ticks] on, and [clock] gives the reading; what the code does between two
    readings takes the time between them. *)
From S2P Require Import Prelude.
From Stdlib Require String.

(** What the proposer uses from the node's libraries: the iterator over the
    ready transactions of the pool, percentages, hashing, web sockets and the
    clocks.  [pending] lists the transactions that an iterator can still
    return. *)
Class Node := {
  Hash : Type;
  Extrinsic : Type;
  Tx : Type;
  TxHash : Type;
  TransactionValidityError : Type;
  OtherError : Type;
  Builder : Type;
  Ready : Type;
  ReportMap : Type;
  InherentData : Type;
  ParachainInherentData : Type;
  Digest : Type;
  Block : Type;
  StorageChanges : Type;
  RecordedProof : Type;
  Proof : Type;
  Percent : Type;
  WebSocket : Type;

  hash_bytes : Hash → list Z;
  number_width : Z;

  tx_data : Tx → Extrinsic;
  tx_hash : Tx → TxHash;
  encoded_size : Extrinsic → Z;
  exhausted_resources : TransactionValidityError → bool;
  was_mandatory : TransactionValidityError → bool;

  next : Ready → option Tx * Ready;
  report_invalid : Tx → Ready → Ready;
  pending : Ready → list Tx;
  ready_at_with_timeout : Hash → Z → Ready;
  report_new : ReportMap;
  report_insert : TxHash → option TransactionValidityError → ReportMap → ReportMap;

  from_percent : Z → Percent;
  mul_floor : Percent → Z → Z;
  twox_64 : list Z → list Z;
  DEFAULT_BLOCK_SIZE_LIMIT : Z;
  ws_send_now : WebSocket → String.string → bool * WebSocket;
  provide_inherent_data : ParachainInherentData → InherentData → option InherentData;

  clock : nat → Z;
  unix_millis : nat → option Z;
  instant_limit : Z
}.

(** [sp_blockchain::Error]: the variants the code tells apart, the others
    together. *)
Inductive BlockchainError `{Node} :=
| ApplyExtrinsicFailed_Validity (e : TransactionValidityError)
| Application
| OneShotCancelled
| Other (e : OtherError).

Inductive EndProposingReason := NoMoreTransactions | HitDeadline | HitBlockSizeLimit | HitBlockWeightLimit.

#[export] Instance EndProposingReason_eq_dec : EqDecision EndProposingReason.
Proof. solve_decision. Defined.

(** The block builder of [sc_block_builder]; a failed [push] returns its
    error. *)
Class BlockBuilder `{Node} := {
  new_builder : Hash → Z → bool → Digest → BlockchainError + Builder;
  create_inherents : InherentData → Builder → (BlockchainError + list Extrinsic) * Builder;
  push : Extrinsic → Builder → option BlockchainError * Builder;
  estimate_block_size : bool → Builder → Z;
  build : Builder → BlockchainError + (Block * StorageChanges * RecordedProof);
  into_proof : RecordedProof → option Proof
}.

Definition MAX_SKIPPED_TRANSACTIONS : Z := 8.
Definition DEFAULT_SOFT_DEADLINE_PERCENT `{Node} : Percent := from_percent 50.

Record PayloadId := mkPayloadId { payload_bytes : list Z }.

Record PreConfBlockBase `{Node} := mkBase {
  base_parent_hash : Hash;
  base_block_number : Z;
  base_block_size_limit : Z;
  base_timestamp : Z
}.

Record PreConfBlockDiff `{Node} := mkDiff {
  diff_extrinsics : list Extrinsic;
  diff_hashes : list TxHash
}.

(** The metadata is the JSON object with the reason and the count. *)
Record PreConfBlockPayload `{Node} := mkPayload {
  payload_id : PayloadId;
  payload_index : Z;
  payload_base : option PreConfBlockBase;
  payload_diff : PreConfBlockDiff;
  payload_metadata : EndProposingReason * Z
}.

(** [serde_json::to_string] of a payload. *)
Class Json `{Node} := { to_string : PreConfBlockPayload → option String.string }.

Record PreConfProposer `{Node} := mkProposer {
  parent_hash : Hash;
  parent_number : Z;
  default_block_size_limit : Z;
  include_proof_in_block_size_estimation : bool;
  soft_deadline_percent : Percent;
  chain_block_time : Z;
  preconf_block_time : Z
}.

Record PreConfProposerFactory `{Node} := mkFactory {
  f_default_block_size_limit : Z;
  f_soft_deadline_percent : Percent;
  f_include_proof_in_block_size_estimation : bool;
  f_preconf_block_time : Z;
  f_chain_block_time : Z
}.

(** What a proposal changes: the builder, the iterator over ready
    transactions, the clocks, the reports to the pool, and the channel of
    messages to be published ([receiver] holds while its receiving half
    exists). *)
Record Proposing `{Node} := mkProposing {
  builder : Builder;
  ready_txs : Ready;
  ticks : nat;
  reports : list (Hash * ReportMap);
  messages : list String.string;
  receiver : bool
}.

(** Local variables of [apply_extrinsics]. *)
Record Applied `{Node} := mkApplied {
  skipped : Z;
  unqueue_invalid : ReportMap;
  transaction_pushed : bool;
  extrinsics : list Extrinsic;
  extrinsics_hashes : list TxHash
}.

(** How one round of a [loop] ends. *)
Inductive ControlFlow B C := Break (b : B) | Continue (c : C).
Arguments Break {B C} b.
Arguments Continue {B C} c.

Section Preconf.
Context `{BuildProfile} {node : Node} {bb : BlockBuilder} {json : Json}.
Implicit Types (s : Proposing) (p : PreConfProposer) (l : Applied) (b : Builder).

Abbreviation P A := (M Proposing BlockchainError A).

(** ** Library calls on the state *)
Definition now : P Z :=
  λ s, (Ok (clock (ticks s)),
        mkProposing _ (builder s) (ready_txs s) (S (ticks s)) (reports s) (messages s) (receiver s)).

Definition next_tx : P (option Tx) :=
  λ s, let '(t, r) := next (ready_txs s) in
       (Ok t, mkProposing _ (builder s) r (ticks s) (reports s) (messages s) (receiver s)).

Definition ready_report_invalid (t : Tx) : P () :=
  modify (λ s, mkProposing _ (builder s) (report_invalid t (ready_txs s)) (ticks s)
                 (reports s) (messages s) (receiver s)).

(** [push] with its result kept for a [match]. *)
Definition try_push (x : Extrinsic) : P (option BlockchainError) :=
  λ s, let '(e, b) := push x (builder s) in
       (Ok e, mkProposing _ b (ready_txs s) (ticks s) (reports s) (messages s) (receiver s)).

Definition pool_report_invalid (h : Hash) (m : ReportMap) : P () :=
  modify (λ s, mkProposing _ (builder s) (ready_txs s) (ticks s)
                 (reports s ++ [(h, m)]) (messages s) (receiver s)).

(** [Instant + Duration] aborts when the result cannot be represented. *)
Definition instant_add {E} (t d : Z) : outcome E Z :=
  if t + d <? instant_limit then Ok (t + d) else Panic.

Definition saturating_duration_since (t u : Z) : Z := Z.max (t - u) 0.
Definition from_millis (ms : Z) : Z := ms * 10 ^ 6.
Definition from_micros (us : Z) : Z := us * 10 ^ 3.
Definition as_micros (d : Z) : Z := d / 10 ^ 3.
Definition saturated_into (w x : Z) : Z := Z.min x (2 ^ w - 1).

(** ** [apply_extrinsics] *)
Definition bump_skipped l : Applied :=
  mkApplied _ (skipped l + 1) (unqueue_invalid l) (transaction_pushed l) (extrinsics l) (extrinsics_hashes l).
Definition add_pushed (t : Tx) l : Applied :=
  mkApplied _ (skipped l) (unqueue_invalid l) true (extrinsics l ++ [tx_data t]) (extrinsics_hashes l ++ [tx_hash t]).
Definition add_unqueue (t : Tx) (e : option TransactionValidityError) l : Applied :=
  mkApplied _ (skipped l) (report_insert (tx_hash t) e (unqueue_invalid l)) (transaction_pushed l)
    (extrinsics l) (extrinsics_hashes l).

Definition error_to_report (e : BlockchainError) : option TransactionValidityError :=
  match e with ApplyExtrinsicFailed_Validity e => Some e | _ => None end.

Definition is_exhausted (e : BlockchainError) : bool :=
  match e with ApplyExtrinsicFailed_Validity e => exhausted_resources e | _ => false end.

(** The outcome of [push] for a transaction that fits. *)
Definition after_push (soft_deadline : Z) (t : Tx) l (r : option BlockchainError) :
    P (ControlFlow (EndProposingReason * Applied) Applied) :=
  match r with
  | None => mret (Continue (add_pushed t l))
  | Some e =>
      ready_report_invalid t;;
      if is_exhausted e then
        if skipped l <? MAX_SKIPPED_TRANSACTIONS then mret (Continue (bump_skipped l))
        else (n ← now;
              if n <? soft_deadline then mret (Continue l)
              else mret (Break (HitBlockWeightLimit, l)))
      else mret (Continue (add_unqueue t (error_to_report e) l))
  end.

(** One round of the loop. *)
Definition apply_round p (deadline soft_deadline block_size_limit : Z) l :
    P (ControlFlow (EndProposingReason * Applied) Applied) :=
  pending_tx ← next_tx;
  match pending_tx with
  | None => mret (Break (NoMoreTransactions, l))
  | Some t =>
      n ← now;
      if deadline <? n then mret (Break (HitDeadline, l))
      else
        (block_size ← gets (λ s, Ok (estimate_block_size (include_proof_in_block_size_estimation p) (builder s)));
         total ← lift (u_add 64 block_size (encoded_size (tx_data t)));
         if block_size_limit <? total then
           (ready_report_invalid t;;
            if skipped l <? MAX_SKIPPED_TRANSACTIONS then mret (Continue (bump_skipped l))
            else if n <? soft_deadline then mret (Continue l)
            else mret (Break (HitBlockSizeLimit, l)))
         else
           (r ← try_push (tx_data t);
            after_push soft_deadline t l r))
  end.

Fixpoint apply_loop (fuel : nat) p (deadline soft_deadline block_size_limit : Z) l :
    P (EndProposingReason * Applied) :=
  match fuel with
  | O => lift OutOfFuel
  | S fuel =>
      flow ← apply_round p deadline soft_deadline block_size_limit l;
      match flow with
      | Break r => mret r
      | Continue l' => apply_loop fuel p deadline soft_deadline block_size_limit l'
      end
  end.

Definition apply_extrinsics p (deadline block_size_limit : Z) :
    P (EndProposingReason * list Extrinsic * list TxHash) :=
  n ← now;
  let left := saturating_duration_since deadline n in
  let left_micros := saturated_into 64 (as_micros left) in
  soft_deadline ← lift (instant_add n (from_micros (mul_floor (soft_deadline_percent p) left_micros)));
  s ← get;
  '(end_reason, l) ← apply_loop (S (length (pending (ready_txs s)))) p deadline soft_deadline block_size_limit
                       (mkApplied _ 0 report_new false [] []);
  pool_report_invalid (parent_hash p) (unqueue_invalid l);;
  mret (end_reason, extrinsics l, extrinsics_hashes l).

(** ** Inherents *)
Fixpoint push_inherents (xs : list Extrinsic) : P () :=
  match xs with
  | [] => mret ()
  | x :: xs =>
      r ← try_push x;
      match r with
      | Some (ApplyExtrinsicFailed_Validity e) =>
          if exhausted_resources e then push_inherents xs
          else if was_mandatory e then throw (ApplyExtrinsicFailed_Validity e)
          else push_inherents xs
      | _ => push_inherents xs
      end
  end.

Definition apply_inherents (data : InherentData) : P () :=
  inherents ← (λ s, let '(r, b) := create_inherents data (builder s) in
                 (match r with inl e => Err e | inr xs => Ok xs end,
                  mkProposing _ b (ready_txs s) (ticks s) (reports s) (messages s) (receiver s)));
  push_inherents inherents.

(** ** Sub-blocks *)

(** [u64::to_le_bytes]. *)
Fixpoint le_bytes (n : nat) (x : Z) : list Z :=
  match n with O => [] | S n => x mod 256 :: le_bytes n (x / 256) end.
Definition to_le_bytes (x : Z) : list Z := le_bytes 8 x.

Definition payload_data (h : Hash) (index : Z) : list Z := hash_bytes h ++ to_le_bytes index.
Definition new_payload_id (h : Hash) (index : Z) : PayloadId := mkPayloadId (twox_64 (payload_data h index)).

(** [PreConfBlockBase::new]: [unwrap] aborts on a clock before 1970, and
    [as u64] truncates. *)
Definition new_base (h : Hash) (number size_limit : Z) : P PreConfBlockBase :=
  ms ← gets (λ s, match unix_millis (ticks s) with Some ms => Ok ms | None => Panic end);
  mret (mkBase _ h number size_limit (ms mod 2 ^ 64)).

Definition build_sub_block p (preconf_deadline block_size_limit sub_block_index : Z)
    (preconf_block_base : option PreConfBlockBase) : P (option PreConfBlockPayload) :=
  '(end_reason, xs, hs) ← apply_extrinsics p preconf_deadline block_size_limit;
  let extrinsics_count := Z.of_nat (length xs) in
  if 0 <? extrinsics_count then
    mret (Some (mkPayload _ (new_payload_id (parent_hash p) sub_block_index) sub_block_index
                  preconf_block_base (mkDiff _ xs hs) (end_reason, extrinsics_count)))
  else mret None.

Definition effective_deadline p (deadline : Z) : P Z :=
  n ← now;
  from_now ← lift (instant_add n (from_millis (preconf_block_time p)));
  mret (Z.min from_now deadline).

Definition send_message (m : String.string) : P () :=
  s ← get;
  if receiver s then
    put (mkProposing _ (builder s) (ready_txs s) (ticks s) (reports s) (messages s ++ [m]) true)
  else throw Application.

(** [unwrap_or_default] of the serialised payload. *)
Definition message_of (x : PreConfBlockPayload) : String.string := default String.EmptyString (to_string x).

(** The branch of [propose_with]'s loop for a received signal, up to the
    count of sub-blocks. *)
Definition on_signal p (deadline block_size_limit block_number sub_block_count : Z) : P (option PreConfBlockPayload) :=
  base_only_if_first_block ←
    (if sub_block_count =? 0 then
       x ← new_base (parent_hash p) block_number block_size_limit; mret (Some x)
     else mret None);
  preconf_deadline ← effective_deadline p deadline;
  sub_block ← build_sub_block p preconf_deadline block_size_limit sub_block_count base_only_if_first_block;
  (match sub_block with
   | Some x => send_message (message_of x)
   | None => mret ()
   end);;
  mret sub_block.

(** ** The web socket server and the publishing task *)

(** An accepted connection: a failed handshake or a poisoned lock leaves the
    subscribers as they are. *)
Definition on_connection (handshake : option WebSocket) (lock_ok : bool) (subs : list WebSocket) : list WebSocket :=
  match handshake with
  | Some ws => if lock_ok then subs ++ [ws] else subs
  | None => subs
  end.

(** [Vec::retain_mut] with an immediate send: a socket that cannot take the
    message at once is dropped. *)
Fixpoint publish (m : String.string) (subs : list WebSocket) : list WebSocket :=
  match subs with
  | [] => []
  | ws :: subs =>
      let '(sent, ws') := ws_send_now ws m in
      if sent then ws' :: publish m subs else publish m subs
  end.

(** The publishing task: takes messages in order; a poisoned lock skips one. *)
Fixpoint publish_task (ms : list (String.string * bool)) (subs : list WebSocket) : list WebSocket :=
  match ms with
  | [] => subs
  | (m, lock_ok) :: ms => publish_task ms (if lock_ok then publish m subs else subs)
  end.

(** ** The factory *)
Definition factory_new (chain_time preconf_time : Z) : PreConfProposerFactory :=
  mkFactory _ DEFAULT_BLOCK_SIZE_LIMIT DEFAULT_SOFT_DEADLINE_PERCENT false preconf_time chain_time.
Definition with_proof_recording (chain_time preconf_time : Z) : PreConfProposerFactory :=
  mkFactory _ DEFAULT_BLOCK_SIZE_LIMIT DEFAULT_SOFT_DEADLINE_PERCENT true preconf_time chain_time.
Definition set_default_block_size_limit (limit : Z) (f : PreConfProposerFactory) : PreConfProposerFactory :=
  mkFactory _ limit (f_soft_deadline_percent f) (f_include_proof_in_block_size_estimation f)
    (f_preconf_block_time f) (f_chain_block_time f).
Definition set_soft_deadline (percent : Percent) (f : PreConfProposerFactory) : PreConfProposerFactory :=
  mkFactory _ (f_default_block_size_limit f) percent (f_include_proof_in_block_size_estimation f)
    (f_preconf_block_time f) (f_chain_block_time f).

Definition proposer_new (h : Hash) (number size_limit : Z) (percent : Percent) (incl : bool)
    (chain_time preconf_time : Z) : PreConfProposer :=
  mkProposer _ h number size_limit incl percent chain_time preconf_time.

Definition init_with_now (f : PreConfProposerFactory) (h : Hash) (number : Z) : PreConfProposer :=
  proposer_new h number (f_default_block_size_limit f) (f_soft_deadline_percent f)
    (f_include_proof_in_block_size_estimation f) (f_chain_block_time f) (f_preconf_block_time f).
End Preconf.
