(* ===== verification/PreconfLoop.v ===== *)
(** * The tasks of a proposal

    [propose_with] spawns two tasks besides its own loop: one that cancels at
    the deadline, and one that sends a signal for every sub-block through a
    channel with room for one.  Here they are the components of a transition
    system: each task has a step function, and [step] interleaves them.  The
    branches of a [select!] that are ready at the same time are alternative
    steps.  A transition of the main loop is labelled with the payload it has
    sent.

    A whole sub-block is one step: the main task shares nothing with the
    other two while it builds one, the clock moves on during it, and what
    they could have done meanwhile they can still do after it. *)
From S2P Require Import Prelude Preconf.

Inductive CancelTask := CancelSpawned | Sleeping | CancelDone.

(** [Waiting t]: the next tick of the interval is due at [t]; [SendingSignal
    t]: blocked on a full channel. *)
Inductive IntervalTask := IntervalSpawned | Waiting (t : Z) | SendingSignal (t : Z) | Stopped.

(** [Left r]: the loop was left, by [break] or by an error. *)
Inductive MainTask `{Node} := Fetching | Selecting | Left (r : outcome BlockchainError ()).

Record Loop `{Node} := mkLoop {
  proposing : Proposing;
  sub_block_count : Z;
  cancelled : bool;
  canceller : CancelTask;
  interval : IntervalTask;
  signal : bool;
  main : MainTask
}.

Record Proposal `{Node} := mkProposal { block : Block; proof : Proof; storage_changes : StorageChanges }.

(** [cumulus_client_consensus_proposer::Error]. *)
Inductive ProposerError := Error_proposer_creation | Error_proposing.

Section Loop.
Context `{BuildProfile} {node : Node} {bb : BlockBuilder} {json : Json}.
Implicit Types (s : Proposing) (p : PreConfProposer) (L : Loop).

Abbreviation P A := (M Proposing BlockchainError A).
Abbreviation Payload := (@PreConfBlockPayload node).

Definition time_of L : Z := clock (ticks (proposing L)).

Section Tasks.
Context (p : PreConfProposer) (deadline block_size_limit block_number : Z).

(** The task that cancels: [sleep_until] the deadline, unless it has passed
    when the task starts. *)
Definition cancel_step L : option Loop :=
  let to canc c := Some (mkLoop _ (proposing L) (sub_block_count L) canc c (interval L) (signal L) (main L)) in
  match canceller L with
  | CancelSpawned => to (cancelled L) (if time_of L <? deadline then Sleeping else CancelDone)
  | Sleeping => if deadline <=? time_of L then to true CancelDone else None
  | CancelDone => None
  end.

(** The period of [tokio::time::interval] must not be zero: the task aborts
    and its end of the channel is dropped. *)
Definition interval_start L : option Loop :=
  match interval L with
  | IntervalSpawned =>
      Some (mkLoop _ (proposing L) (sub_block_count L) (cancelled L) (canceller L)
              (if preconf_block_time p =? 0 then Stopped else Waiting (time_of L)) (signal L) (main L))
  | _ => None
  end.

(** [cancelled] in the [select!] of the interval task. *)
Definition interval_cancel L : option Loop :=
  match interval L with
  | Waiting _ =>
      if cancelled L then
        Some (mkLoop _ (proposing L) (sub_block_count L) (cancelled L) (canceller L) Stopped (signal L) (main L))
      else None
  | _ => None
  end.

(** A tick, and the send that it starts; a send that waits for room. *)
Definition interval_tick L : option Loop :=
  let to i sig := Some (mkLoop _ (proposing L) (sub_block_count L) (cancelled L) (canceller L) i sig (main L)) in
  match interval L with
  | Waiting t =>
      if t <=? time_of L then
        let t' := t + from_millis (preconf_block_time p) in
        if signal L then to (SendingSignal t') (signal L) else to (Waiting t') true
      else None
  | SendingSignal t => if signal L then None else to (Waiting t) true
  | _ => None
  end.

(** [ready_at_with_timeout]. *)
Definition fetch_ready : P () :=
  n ← now;
  modify (λ s, mkProposing _ (builder s)
                 (ready_at_with_timeout (parent_hash p) (saturating_duration_since deadline n))
                 (ticks s) (reports s) (messages s) (receiver s)).

Definition main_fetch L : option Loop :=
  match main L with
  | Fetching =>
      Some (mkLoop _ (fetch_ready (proposing L)).2 (sub_block_count L) (cancelled L) (canceller L)
              (interval L) (signal L) Selecting)
  | _ => None
  end.

(** The main loop: cancelled, or the channel is closed and empty. *)
Definition main_break L : option Loop :=
  match main L with
  | Selecting =>
      if cancelled L || (match interval L with Stopped => negb (signal L) | _ => false end) then
        Some (mkLoop _ (proposing L) (sub_block_count L) (cancelled L) (canceller L)
                (interval L) (signal L) (Left (Ok ())))
      else None
  | _ => None
  end.

(** The main loop: a signal. *)
Definition main_signal L : option (list Payload * Loop) :=
  match main L with
  | Selecting =>
      if signal L then
        let '(r, s') := on_signal p deadline block_size_limit block_number (sub_block_count L) (proposing L) in
        let to c m := mkLoop _ s' c (cancelled L) (canceller L) (interval L) false m in
        Some (match r with
              | Ok sub_block =>
                  (option_list sub_block,
                   match u_add (E:=BlockchainError) 64 (sub_block_count L) 1 with
                   | Ok count => to count Selecting
                   | _ => to (sub_block_count L) (Left Panic)
                   end)
              | Err e => ([], to (sub_block_count L) (Left (Err e)))
              | Panic => ([], to (sub_block_count L) (Left Panic))
              | OutOfFuel => ([], to (sub_block_count L) (Left OutOfFuel))
              end)
      else None
  | _ => None
  end.

(** Time passes. *)
Definition wait L : Loop :=
  let s := proposing L in
  mkLoop _ (mkProposing _ (builder s) (ready_txs s) (S (ticks s)) (reports s) (messages s) (receiver s))
    (sub_block_count L) (cancelled L) (canceller L) (interval L) (signal L) (main L).

Inductive step : Loop → list Payload → Loop → Prop :=
| step_cancel L L' : cancel_step L = Some L' → step L [] L'
| step_interval_start L L' : interval_start L = Some L' → step L [] L'
| step_interval_cancel L L' : interval_cancel L = Some L' → step L [] L'
| step_interval_tick L L' : interval_tick L = Some L' → step L [] L'
| step_fetch L L' : main_fetch L = Some L' → step L [] L'
| step_break L L' : main_break L = Some L' → step L [] L'
| step_signal L ps L' : main_signal L = Some (ps, L') → step L ps L'
| step_wait L : step L [] (wait L).

(** A run of [n] steps with the payloads it sends, the last step outermost. *)
Inductive run : nat → Loop → list Payload → Loop → Prop :=
| run_nil L : run 0 L [] L
| run_snoc n L ps L' qs L'' : run n L ps L' → step L' qs L'' → run (S n) L (ps ++ qs) L''.
End Tasks.

(** ** [propose_with] *)

(** Up to the two spawned tasks: the builder and the inherents. *)
Definition propose_start p (proof_enabled : bool) (data : InherentData) (digest : Digest) : P Z :=
  (λ s, match new_builder (parent_hash p) (parent_number p) proof_enabled digest with
        | inl e => (Err e, s)
        | inr b => (Ok (), mkProposing _ b (ready_txs s) (ticks s) (reports s) (messages s) (receiver s))
        end);;
  apply_inherents data;;
  lift (u_add number_width (parent_number p) 1).

Definition initial s : Loop := mkLoop _ s 0 false CancelSpawned IntervalSpawned false Fetching.

(** After the loop. *)
Definition propose_finish s : outcome BlockchainError Proposal :=
  match build (builder s) with
  | inl e => Err e
  | inr (blk, changes, recorded) =>
      match into_proof recorded with
      | None => Err Application
      | Some pr => Ok (mkProposal _ blk pr changes)
      end
  end.

Definition loop_result (r : outcome BlockchainError ()) s : outcome BlockchainError Proposal :=
  _ ← r; propose_finish s.

Inductive propose_with p (proof_enabled : bool) (data : InherentData) (digest : Digest) (deadline : Z)
    (size_limit : option Z) (s : Proposing) :
    nat → list Payload → outcome BlockchainError Proposal → Proposing → Prop :=
| propose_not_started e s' :
    propose_start p proof_enabled data digest s = (Err e, s') →
    propose_with p proof_enabled data digest deadline size_limit s 0 [] (Err e) s'
| propose_not_started_panic s' :
    propose_start p proof_enabled data digest s = (Panic, s') →
    propose_with p proof_enabled data digest deadline size_limit s 0 [] Panic s'
| propose_loop block_number s1 n ps L r :
    propose_start p proof_enabled data digest s = (Ok block_number, s1) →
    run p deadline (default (default_block_size_limit p) size_limit) block_number n (initial s1) ps L →
    main L = Left r →
    propose_with p proof_enabled data digest deadline size_limit s n ps (loop_result r (proposing L)) (proposing L).

(** ** [Proposer::propose] and [ProposerInterface::propose] *)

(** One third of the time is left for evaluation and finalisation. *)
Definition propose_deadline (max_duration : Z) : P Z :=
  n ← now;
  t ← lift (instant_add n max_duration);
  mret (t - max_duration / 3).

(** The result travels through a one-shot channel, whose sender is dropped
    when the task aborts. *)
Definition received (r : outcome BlockchainError Proposal) : outcome BlockchainError Proposal :=
  match r with
  | Ok x => Ok x
  | Err e => Err e
  | _ => Err OneShotCancelled
  end.

Inductive propose p (proof_enabled : bool) (data : InherentData) (digest : Digest) (max_duration : Z)
    (size_limit : option Z) (s : Proposing) :
    nat → list Payload → outcome BlockchainError Proposal → Proposing → Prop :=
| propose_late s' :
    propose_deadline max_duration s = (Panic, s') →
    propose p proof_enabled data digest max_duration size_limit s 0 [] (received Panic) s'
| propose_runs deadline s1 n ps r s' :
    propose_deadline max_duration s = (Ok deadline, s1) →
    propose_with p proof_enabled data digest deadline size_limit s1 n ps r s' →
    propose p proof_enabled data digest max_duration size_limit s n ps (received r) s'.

(** The factory creates a proposer for the parent, adds the parachain's
    inherent data and proposes with proof recording. *)
Inductive factory_propose (f : PreConfProposerFactory) (h : Hash) (number : Z) (paras : ParachainInherentData)
    (other : InherentData) (digest : Digest) (max_duration : Z) (size_limit : option Z) (s : Proposing) :
    nat → list Payload → outcome ProposerError (option Proposal) → Proposing → Prop :=
| factory_no_inherents :
    provide_inherent_data paras other = None →
    factory_propose f h number paras other digest max_duration size_limit s 0 [] (Err Error_proposing) s
| factory_proposes data n ps r s' :
    provide_inherent_data paras other = Some data →
    propose (init_with_now f h number) true data digest max_duration size_limit s n ps r s' →
    factory_propose f h number paras other digest max_duration size_limit s n ps
      (map_err (λ _, Error_proposing) (Some <$> r)) s'.
End Loop.
