(* ===== verification/PreconfFacts.v ===== *)
(** * Facts on the proposer

    The laws of the libraries it relies on, one round and the loop of
    [apply_extrinsics], sub-blocks and their messages, and the invariant of
    the tasks of a proposal. *)
From S2P Require Import Prelude Preconf PreconfLoop.

(** The block builder appends an extrinsic when [push] succeeds and rolls
    back when it fails; the block consists of what was pushed. *)
Class BuilderLaws `{BlockBuilder} (extrinsics_of : Builder → list Extrinsic)
    (block_extrinsics : Block → list Extrinsic) := {
  new_builder_empty h n pr d b : new_builder h n pr d = inr b → extrinsics_of b = [];
  create_inherents_keeps data b r b' :
    create_inherents data b = (r, b') → extrinsics_of b' = extrinsics_of b;
  push_appends x b b' : push x b = (None, b') → extrinsics_of b' = extrinsics_of b ++ [x];
  push_rolls_back x b e b' : push x b = (Some e, b') → extrinsics_of b' = extrinsics_of b;
  build_extrinsics b blk ch pr : build b = inr (blk, ch, pr) → block_extrinsics blk = extrinsics_of b
}.

(** The iterator returns each pending transaction at most once; reporting one
    as invalid can only take more (its dependents) out. *)
Class ReadyLaws `{Node} := {
  next_takes r t r' : next r = (Some t, r') → pending r ≡ₚ t :: pending r';
  next_none r r' : next r = (None, r') → pending r' ⊆+ pending r;
  report_invalid_takes t r : pending (report_invalid t r) ⊆+ pending r
}.

(** The clock does not go back, and every instant passes. *)
Class ClockLaws `{Node} := {
  clock_mono i j : (i ≤ j)%nat → clock i ≤ clock j;
  clock_passes t : ∃ k, ∀ j, (k ≤ j)%nat → t ≤ clock j
}.

Section Facts.
Context `{BuildProfile} {node : Node} {bb : BlockBuilder} {json : Json}.
Implicit Types (s : Proposing) (p : PreConfProposer) (L : Loop) (l : Applied) (b : Builder).

(** What pushing does to the builder between the clock readings [n] and [n']:
    the transactions of the list are appended, each when it fits the limit and
    after a reading that is not past the deadline; other pushes fail. *)
Inductive pushes (include_proof : bool) (limit deadline : Z) (n : nat) (b : Builder) :
    list Tx → nat → Builder → Prop :=
| pushes_nil n' : (n ≤ n')%nat → pushes include_proof limit deadline n b [] n' b
| pushes_ok ts n1 b1 t k n2 b2 total :
    pushes include_proof limit deadline n b ts n1 b1 →
    (n1 ≤ k < n2)%nat → clock k ≤ deadline →
    u_add (E:=BlockchainError) 64 (estimate_block_size include_proof b1) (encoded_size (tx_data t)) = Ok total →
    total ≤ limit →
    push (tx_data t) b1 = (None, b2) →
    pushes include_proof limit deadline n b (ts ++ [t]) n2 b2
| pushes_failed ts n1 b1 t e n2 b2 :
    pushes include_proof limit deadline n b ts n1 b1 →
    (n1 ≤ n2)%nat → push (tx_data t) b1 = (Some e, b2) →
    pushes include_proof limit deadline n b ts n2 b2.

Lemma pushes_trans ip limit dl n b ts n1 b1 us n2 b2 :
  pushes ip limit dl n b ts n1 b1 → pushes ip limit dl n1 b1 us n2 b2 → pushes ip limit dl n b (ts ++ us) n2 b2.
Proof.
  intros Hb. induction 1 as [m Hm|us m c1 t k m2 c2 total Hus IH Hk Hdl Hadd Htot Hp|us m c1 t e m2 c2 Hus IH Hm Hp].
  - rewrite app_nil_r. destruct Hb; [apply pushes_nil; lia|eapply pushes_ok; eauto; lia|eapply pushes_failed; eauto; lia].
  - rewrite app_assoc. eapply pushes_ok; eauto.
  - eapply pushes_failed; eauto.
Qed.

Lemma pushes_later ip limit dl n b ts n1 b1 n2 :
  pushes ip limit dl n b ts n1 b1 → (n1 ≤ n2)%nat → pushes ip limit dl n b ts n2 b1.
Proof. intros Hp Hn. rewrite <-(app_nil_r ts). by eapply pushes_trans, pushes_nil. Qed.

Lemma pushes_earlier ip limit dl n0 n b ts n1 b1 :
  (n0 ≤ n)%nat → pushes ip limit dl n b ts n1 b1 → pushes ip limit dl n0 b ts n1 b1.
Proof. intros Hn Hp. change ts with ([] ++ ts). eapply pushes_trans; [by apply pushes_nil|done]. Qed.

Lemma pushes_deadline ip limit dl dl' n b ts n' b' :
  dl ≤ dl' → pushes ip limit dl n b ts n' b' → pushes ip limit dl' n b ts n' b'.
Proof.
  intros Hdl. induction 1; [by apply pushes_nil|eapply pushes_ok; eauto; lia|eapply pushes_failed; eauto].
Qed.

(** ** One round *)

(** The state [s'] is reached from [s] by running on the pool, the builder
    and the clock only. *)
Record evolves ip limit dl s (ts : list Tx) (dropped : nat) s' : Prop := {
  ev_pushes : pushes ip limit dl (ticks s) (builder s) ts (ticks s') (builder s');
  ev_pending : ts ++ pending (ready_txs s') ⊆+ pending (ready_txs s);
  ev_dropped : (length ts + dropped + length (pending (ready_txs s')) ≤ length (pending (ready_txs s)))%nat;
  ev_ticks : (ticks s ≤ ticks s')%nat;
  ev_reports : reports s `prefix_of` reports s';
  ev_messages : messages s' = messages s;
  ev_receiver : receiver s' = receiver s
}.

Lemma evolves_refl ip limit dl s : evolves ip limit dl s [] 0 s.
Proof. split; try done. by apply pushes_nil. Qed.

Lemma evolves_trans ip limit dl s ts d s1 us d' s2 :
  evolves ip limit dl s ts d s1 → evolves ip limit dl s1 us d' s2 → evolves ip limit dl s (ts ++ us) (d + d') s2.
Proof.
  intros [? Hp ?????] [? Hp' ?????]. split; try (by etrans); try congruence; try lia.
  - by eapply pushes_trans.
  - etrans; [|exact Hp]. rewrite <-app_assoc. by apply submseteq_skips_l.
  - rewrite length_app. lia.
Qed.

(** What a round adds to the block, what it drops, and the local variables
    after it. *)
Inductive round_result l : list Tx → nat → Applied → Prop :=
| round_pushed t : round_result l [t] 0 (add_pushed t l)
| round_skipped : round_result l [] 1 (bump_skipped l)
| round_more : round_result l [] 1 l
| round_invalid t e : round_result l [] 1 (add_unqueue t e l).

(** Why a sub-block ended: the iterator was empty, or a clock reading taken
    meanwhile was past the deadline or not before the soft deadline. *)
Definition ended deadline soft s (reason : EndProposingReason) s' : Prop :=
  match reason with
  | NoMoreTransactions => ∃ r, next r = (None, ready_txs s')
  | HitDeadline => ∃ k, (ticks s ≤ k < ticks s')%nat ∧ deadline < clock k
  | _ => ∃ k, (ticks s ≤ k < ticks s')%nat ∧ soft ≤ clock k
  end.

Lemma ended_earlier deadline soft s0 s reason s' :
  (ticks s0 ≤ ticks s)%nat → ended deadline soft s reason s' → ended deadline soft s0 reason s'.
Proof. intros Ht. destruct reason; simpl; [done|..]; intros (k & ? & ?); exists k; split; (done || lia). Qed.

(** The number of transactions that may be skipped before the soft deadline
    decides. *)
Definition skips_used (reason : EndProposingReason) l d : Prop :=
  match reason with
  | HitBlockSizeLimit | HitBlockWeightLimit => MAX_SKIPPED_TRANSACTIONS < skipped l + Z.of_nat d
  | _ => True
  end.

Section Round.
Context {ready_laws : ReadyLaws}.

(** A taken transaction, pushed or dropped. *)
Lemma evolves_pushed ip limit dl s t r' total b' s' :
  next (ready_txs s) = (Some t, r') → clock (ticks s) ≤ dl →
  u_add (E:=BlockchainError) 64 (estimate_block_size ip (builder s)) (encoded_size (tx_data t)) = Ok total →
  total ≤ limit → push (tx_data t) (builder s) = (None, b') →
  s' = mkProposing _ b' r' (S (ticks s)) (reports s) (messages s) (receiver s) →
  evolves ip limit dl s [t] 0 s'.
Proof.
  intros Hn Hdl Hadd Htot Hp ->. pose proof (next_takes _ _ _ Hn) as Hr.
  pose proof (Permutation_length Hr) as Hl. simpl in Hl.
  split; simpl; try done; try lia.
  - eapply (pushes_ok _ _ _ _ _ [] (ticks s) _ _ (ticks s)); [by apply pushes_nil|lia|done..].
  - by rewrite Hr.
Qed.

Lemma evolves_dropped ip limit dl s t r' b' r'' n s' :
  next (ready_txs s) = (Some t, r') →
  (b' = builder s ∨ ∃ e, push (tx_data t) (builder s) = (Some e, b')) →
  (r'' = r' ∨ r'' = report_invalid t r') →
  s' = mkProposing _ b' r'' (n + ticks s)%nat (reports s) (messages s) (receiver s) →
  evolves ip limit dl s [] 1 s'.
Proof.
  intros Hn Hb Hr'' ->. pose proof (next_takes _ _ _ Hn) as Hr.
  pose proof (Permutation_length Hr) as Hl. simpl in Hl.
  assert (pending r'' ⊆+ pending r') as Hsub.
  { destruct Hr'' as [->| ->]; [done|apply report_invalid_takes]. }
  pose proof (submseteq_length _ _ Hsub).
  split; simpl; try done; try lia.
  - destruct Hb as [->|[e He]]; [apply pushes_nil; lia|]. eapply pushes_failed; [by apply pushes_nil|lia|done].
  - rewrite Hr. by apply submseteq_cons.
Qed.

Definition round_spec p deadline soft limit l s
    (r : outcome BlockchainError (ControlFlow (EndProposingReason * Applied) Applied)) s' : Prop :=
  let ip := include_proof_in_block_size_estimation p in
  match r with
  | Ok (Continue l') =>
      ∃ ts d, evolves ip limit deadline s ts d s' ∧ round_result l ts d l' ∧ (length ts + d = 1)%nat
  | Ok (Break (reason, l')) =>
      l' = l ∧ ∃ d, evolves ip limit deadline s [] d s' ∧ ended deadline soft s reason s' ∧ skips_used reason l d
  | Panic => ∃ b t, ¬ in_range 64 (estimate_block_size ip b + encoded_size (tx_data t))
  | _ => False
  end.

Lemma failed_push_spec p deadline soft limit l s t r' e b' :
  next (ready_txs s) = (Some t, r') → push (tx_data t) (builder s) = (Some e, b') →
  let '(r, s') := after_push soft t l (Some e)
                    (mkProposing _ b' r' (S (ticks s)) (reports s) (messages s) (receiver s)) in
  round_spec p deadline soft limit l s r s'.
Proof.
  intros Hn Hp. unfold after_push, ready_report_invalid, now. run_step; simpl.
  assert (∀ n s', s' = mkProposing _ b' (report_invalid t r') (n + ticks s)%nat (reports s) (messages s) (receiver s) →
            evolves (include_proof_in_block_size_estimation p) limit deadline s [] 1 s') as Hev.
  { intros n s' Hs'. eapply (evolves_dropped _ _ _ _ _ _ _ _ n); eauto. }
  destruct (is_exhausted e).
  2:{ exists [], 1%nat. split_and!; [by apply (Hev 1%nat)|constructor|done]. }
  destruct (Z.ltb_spec (skipped l) MAX_SKIPPED_TRANSACTIONS) as [Hs|Hs]; run_step; simpl.
  { exists [], 1%nat. split_and!; [by apply (Hev 1%nat)|constructor|done]. }
  destruct (Z.ltb_spec (clock (S (ticks s))) soft) as [Hsoft|Hsoft]; run_step; simpl.
  { exists [], 1%nat. split_and!; [by apply (Hev 2%nat)|constructor|done]. }
  split; [done|]. exists 1%nat.
  split_and!; [by apply (Hev 2%nat)|exists (S (ticks s)); simpl; split; [lia|done]|lia].
Qed.

Lemma apply_round_spec p deadline soft limit l s :
  let '(r, s') := apply_round p deadline soft limit l s in round_spec p deadline soft limit l s r s'.
Proof.
  unfold apply_round. run_step. unfold next_tx.
  destruct (next (ready_txs s)) as [[t|] r'] eqn:Hn; run_step; simpl.
  2:{ split; [done|]. exists 0%nat. split_and!; [|by exists (ready_txs s)|done].
      split; simpl; try done; [by apply pushes_nil|by apply next_none|].
      apply submseteq_length. by apply next_none. }
  destruct (Z.ltb_spec deadline (clock (ticks s))) as [Hd|Hd]; simpl.
  { split; [done|]. exists 1%nat. split_and!; [|exists (ticks s); simpl; split; [lia|done]|done].
    eapply (evolves_dropped _ _ _ _ _ _ _ _ 1); [exact Hn|by left|by left|done]. }
  run_step; simpl. set (size := estimate_block_size _ _).
  destruct (overflowing_cases (E:=BlockchainError) 64 (size + encoded_size (tx_data t)))
    as [[total Hadd]|[Hadd Hr]]; change (overflowing 64 _) with (u_add (E:=BlockchainError) 64 size (encoded_size (tx_data t))) in Hadd;
    rewrite Hadd; run_step; simpl; [|by exists (builder s), t].
  destruct (Z.ltb_spec limit total) as [Hlim|Hlim].
  - unfold ready_report_invalid. run_step; simpl.
    destruct (Z.ltb_spec (skipped l) MAX_SKIPPED_TRANSACTIONS) as [Hs|Hs]; run_step; simpl.
    { exists [], 1%nat. split_and!; [|constructor|done].
      eapply (evolves_dropped _ _ _ _ _ _ _ _ 1); [exact Hn|by left|by right|done]. }
    destruct (Z.ltb_spec (clock (ticks s)) soft) as [Hsoft|Hsoft]; run_step; simpl.
    { exists [], 1%nat. split_and!; [|constructor|done].
      eapply (evolves_dropped _ _ _ _ _ _ _ _ 1); [exact Hn|by left|by right|done]. }
    split; [done|]. exists 1%nat. split_and!; [|exists (ticks s); simpl; split; [lia|done]|lia].
    eapply (evolves_dropped _ _ _ _ _ _ _ _ 1); [exact Hn|by left|by right|done].
  - unfold try_push. run_step; simpl. destruct (push (tx_data t) (builder s)) as [[e|] b'] eqn:Hp.
    { by apply (failed_push_spec p deadline soft limit l s t r' e b'). }
    run_step; simpl. exists [t], 0%nat. split_and!; [|constructor|done]. by eapply evolves_pushed.
Qed.

(** ** The loop *)
Lemma apply_loop_spec fuel p deadline soft limit l s :
  let ip := include_proof_in_block_size_estimation p in
  (length (pending (ready_txs s)) < fuel)%nat →
  let '(r, s') := apply_loop fuel p deadline soft limit l s in
  match r with
  | Ok (reason, l') =>
      ∃ ts d, evolves ip limit deadline s ts d s' ∧ ended deadline soft s reason s' ∧ skips_used reason l d
        ∧ extrinsics l' = extrinsics l ++ (tx_data <$> ts)
        ∧ extrinsics_hashes l' = extrinsics_hashes l ++ (tx_hash <$> ts)
  | Panic => ∃ b t, ¬ in_range 64 (estimate_block_size ip b + encoded_size (tx_data t))
  | _ => False
  end.
Proof.
  intros ip. revert l s. induction fuel as [|fuel IH]; intros l s Hf; [lia|].
  simpl. run_step. pose proof (apply_round_spec p deadline soft limit l s) as Hround.
  destruct (apply_round p deadline soft limit l s) as [[[[reason l1]|l1]|e| |] s1]; try done; run_step.
  { destruct Hround as (-> & d & Hev & Hend & Hsk). exists [], d. simpl. by rewrite !app_nil_r. }
  destruct Hround as (ts & d & Hev & Hres & Hone). fold ip in Hev.
  specialize (IH l1 s1).
  destruct (apply_loop fuel p deadline soft limit l1 s1) as [[[reason l2]|e| |] s2];
    try (apply IH; destruct Hev; lia).
  destruct IH as (us & d' & Hev' & Hend & Hsk & Hx & Hh); [destruct Hev; lia|].
  exists (ts ++ us), (d + d')%nat. split; [by eapply evolves_trans|].
  split; [eapply ended_earlier; [apply Hev|done]|].
  rewrite !fmap_app, Hx, Hh. destruct Hres; simpl in *; rewrite <-?app_assoc; simpl;
    split_and!; try done; destruct reason; simpl in *; lia.
Qed.

#[local] Arguments apply_loop : simpl never.

(** The soft deadline of a sub-block that starts with the reading [n]. *)
Definition soft_deadline_of p deadline n : Z :=
  n + from_micros (mul_floor (soft_deadline_percent p)
                     (saturated_into 64 (as_micros (saturating_duration_since deadline n)))).

Definition sizes_overflow ip : Prop :=
  ∃ b t, ¬ in_range 64 (estimate_block_size ip b + encoded_size (tx_data t)).

Lemma apply_extrinsics_spec p deadline limit s :
  let ip := include_proof_in_block_size_estimation p in
  let soft := soft_deadline_of p deadline (clock (ticks s)) in
  let '(r, s') := apply_extrinsics p deadline limit s in
  match r with
  | Ok (reason, xs, hs) =>
      ∃ ts d, evolves ip limit deadline s ts d s' ∧ ended deadline soft s reason s'
        ∧ skips_used reason (mkApplied _ 0 report_new false [] []) d
        ∧ xs = tx_data <$> ts ∧ hs = tx_hash <$> ts
  | Panic => sizes_overflow ip ∨ instant_limit ≤ soft
  | _ => False
  end.
Proof.
  intros ip soft. unfold apply_extrinsics, now. run_step; simpl.
  unfold instant_add. fold (soft_deadline_of p deadline (clock (ticks s))). fold soft.
  destruct (Z.ltb_spec soft instant_limit); simpl; [|by right].
  set (l0 := mkApplied _ _ _ _ _ _).
  set (s1 := mkProposing _ _ _ _ _ _ _).
  pose proof (apply_loop_spec (S (length (pending (ready_txs s1)))) p deadline soft limit l0 s1) as Hloop.
  run_step. rewrite M_bind_run.
  destruct (apply_loop _ p deadline soft limit l0 s1) as [[[reason l']|e| |] s2]; simpl; simpl in Hloop;
    [|apply Hloop; lia|left; apply Hloop; lia|apply Hloop; lia].
  destruct Hloop as (ts & d & Hev & Hend & Hsk & Hx & Hh); [lia|]. exists ts, d.
  split_and!; try done.
  - destruct Hev as [Hpush]; split; simpl in *; try done; [|lia|by apply prefix_app_r].
    eapply pushes_earlier; [|exact Hpush]. lia.
  - eapply ended_earlier; [|destruct reason; [exact Hend|..]; exact Hend]. simpl. lia.
Qed.

(** A transaction that is taken from the iterator after the deadline is
    dropped: not pushed, not reported, and not offered again. *)
Lemma apply_extrinsics_late p deadline limit s t r' :
  next (ready_txs s) = (Some t, r') → deadline < clock (S (ticks s)) →
  soft_deadline_of p deadline (clock (ticks s)) < instant_limit →
  apply_extrinsics p deadline limit s =
    (Ok (HitDeadline, [], []),
     mkProposing _ (builder s) r' (S (S (ticks s))) (reports s ++ [(parent_hash p, report_new)])
       (messages s) (receiver s)).
Proof.
  intros Hn Hd Hi. unfold apply_extrinsics, now, instant_add. do 2 run_step; simpl.
  fold (soft_deadline_of p deadline (clock (ticks s))). rewrite (proj2 (Z.ltb_lt _ _) Hi).
  do 3 run_step. unfold apply_loop, apply_round, next_tx, now. do 2 run_step; simpl. rewrite Hn.
  do 2 run_step; simpl. rewrite (proj2 (Z.ltb_lt _ _) Hd). done.
Qed.

#[local] Arguments apply_extrinsics : simpl never.

(** ** Sub-blocks *)

(** The base that goes with sub-block [count]. *)
Definition base_of p limit number count (base : option PreConfBlockBase) : Prop :=
  match base with
  | Some y => count = 0 ∧ base_parent_hash y = parent_hash p ∧ base_block_number y = number
              ∧ base_block_size_limit y = limit
  | None => count ≠ 0
  end.

(** A payload that announces the transactions [ts] as sub-block [count]. *)
Record announces p limit number count (ts : list Tx) (x : PreConfBlockPayload) : Prop := {
  an_some : ts ≠ [];
  an_extrinsics : diff_extrinsics (payload_diff x) = tx_data <$> ts;
  an_hashes : diff_hashes (payload_diff x) = tx_hash <$> ts;
  an_count : (payload_metadata x).2 = Z.of_nat (length ts);
  an_index : payload_index x = count;
  an_id : payload_id x = new_payload_id (parent_hash p) count;
  an_base : base_of p limit number count (payload_base x)
}.

Lemma build_sub_block_spec p deadline limit number count base s :
  base_of p limit number count base →
  let '(r, s') := build_sub_block p deadline limit count base s in
  match r with
  | Ok sub => ∃ ts d, evolves (include_proof_in_block_size_estimation p) limit deadline s ts d s'
      ∧ match sub with Some x => announces p limit number count ts x | None => ts = [] end
  | Panic => True
  | _ => False
  end.
Proof.
  intros Hbase. unfold build_sub_block. run_step.
  pose proof (apply_extrinsics_spec p deadline limit s) as Happly.
  destruct (apply_extrinsics p deadline limit s) as [[[[reason xs] hs]|e| |] s1]; try done.
  destruct Happly as (ts & d & Hev & _ & _ & -> & ->).
  rewrite length_fmap.
  destruct (Z.ltb_spec 0 (Z.of_nat (length ts))) as [Hl|Hl]; run_step; exists ts, d; split; try done.
  - split; simpl; try done. intros ->. simpl in Hl. lia.
  - destruct ts; simpl in *; [done|lia].
Qed.

#[local] Arguments build_sub_block : simpl never.

(** What a signal does: the payload it sends, and the transactions it moves. *)
Definition signal_spec p deadline limit number count s (r : outcome BlockchainError (option PreConfBlockPayload)) s' : Prop :=
  match r with
  | Ok sub =>
      (∃ ts, pushes (include_proof_in_block_size_estimation p) limit deadline (ticks s) (builder s) ts (ticks s') (builder s')
        ∧ ts ++ pending (ready_txs s') ⊆+ pending (ready_txs s)
        ∧ match sub with Some x => announces p limit number count ts x | None => ts = [] end)
      ∧ messages s' = messages s ++ (message_of <$> option_list sub)
      ∧ (ticks s ≤ ticks s')%nat ∧ receiver s' = receiver s
  | Err e => e = Application ∧ receiver s = false
  | Panic => True
  | OutOfFuel => False
  end.

Lemma send_sub_block_spec p deadline t limit number count base s s1 :
  t ≤ deadline →
  base_of p limit number count base →
  s1 = mkProposing _ (builder s) (ready_txs s) (S (ticks s)) (reports s) (messages s) (receiver s) →
  let '(r, s') := (sub_block ← build_sub_block p t limit count base;
                   (match sub_block with Some x => send_message (message_of x) | None => mret () end);;
                   mret sub_block) s1 in
  signal_spec p deadline limit number count s r s'.
Proof.
  intros Ht Hb ->. rewrite M_bind_run.
  match goal with |- context [build_sub_block p t limit count base ?s1] =>
    pose proof (build_sub_block_spec p t limit number count base s1 Hb) as Hs end.
  destruct (build_sub_block _ _ _ _ _ _) as [[[x|]|e| |] s']; try done;
    destruct Hs as (ts & d & [Hpush%(pushes_deadline _ _ _ deadline) ? ? ? _ Hm Hr] & Hx); try done; simpl in *;
    apply (pushes_earlier _ _ _ (ticks s)) in Hpush; try lia.
  - unfold send_message. run_step; simpl. destruct (receiver s') eqn:Hrec; simpl.
    + split_and!; [by exists ts|by rewrite Hm|lia|congruence].
    + split; congruence.
  - run_step. simpl. rewrite app_nil_r. split_and!; [by exists ts|done|lia|done].
Qed.

Lemma on_signal_spec p deadline limit number count s :
  let '(r, s') := on_signal p deadline limit number count s in signal_spec p deadline limit number count s r s'.
Proof.
  unfold on_signal, new_base, effective_deadline, now, instant_add.
  destruct (Z.eqb_spec count 0) as [->|Hc]; do 3 run_step.
  - destruct (unix_millis (ticks s)) as [ms|]; [|done]. do 3 run_step.
    destruct (_ <? instant_limit); cbn [mret M_ret]; [|done].
    apply send_sub_block_spec; [lia|done..].
  - destruct (_ <? instant_limit); cbn [mret M_ret]; [|done]. apply send_sub_block_spec; [lia|done..].
Qed.
End Round.
End Facts.
