(* ===== verification/PreconfRuns.v ===== *)
(** * Runs of a proposal

    The invariant of the tasks of [propose_with]: what has been announced is
    what the builder holds.  Then the inherents, when a run can end, and the
    subscribers. *)
From S2P Require Import Prelude Preconf PreconfLoop PreconfFacts.
From Stdlib Require String.

Inductive event := Canceller | IntervalStart | IntervalStop | IntervalTick | Fetch | Leave | Signal | Wait.

Section Runs.
Context `{BuildProfile} {node : Node} {bb : BlockBuilder} {json : Json}.
Implicit Types (s : Proposing) (L : Loop) (b : Builder).

Abbreviation Payload := (@PreConfBlockPayload node).

Definition announced (ps : list Payload) : list Extrinsic := ps ≫= λ x, diff_extrinsics (payload_diff x).
Definition announced_hashes (ps : list Payload) : list TxHash := ps ≫= λ x, diff_hashes (payload_diff x).

(** The loop was left by an error. *)
Definition failed (m : MainTask) : Prop :=
  match m with Left (Ok _) | Selecting | Fetching => False | Left _ => True end.

Section Invariant.
Context {ready_laws : ReadyLaws}.
Context (p : PreConfProposer) (deadline limit number : Z).

Abbreviation ip := (include_proof_in_block_size_estimation p).

(** The transactions the pool offered for the block. *)
Definition offered (ts : list Tx) : Prop :=
  ∃ k, ts ⊆+ pending (ready_at_with_timeout (parent_hash p) (saturating_duration_since deadline (clock k))).

Record run_inv s1 (n : nat) (ps : list Payload) L : Prop := {
  ri_count : 0 ≤ sub_block_count L ≤ Z.of_nat n;
  ri_sorted : StronglySorted Z.lt (payload_index <$> ps);
  ri_below : Forall (λ x, 0 ≤ payload_index x < sub_block_count L) ps;
  ri_announces : Forall (λ x, ∃ ts, announces p limit number (payload_index x) ts x) ps;
  ri_fetching : main L = Fetching → ps = [];
  ri_content : ¬ failed (main L) →
    messages (proposing L) = messages s1 ++ (message_of <$> ps) ∧
    ∃ ts, pushes ip limit deadline (ticks s1) (builder s1) ts (ticks (proposing L)) (builder (proposing L))
      ∧ announced ps = tx_data <$> ts ∧ announced_hashes ps = tx_hash <$> ts
      ∧ match main L with
        | Fetching => ts = []
        | _ => offered (ts ++ pending (ready_txs (proposing L)))
        end
}.

Lemma run_inv_initial s : run_inv s 0 [] (initial s).
Proof.
  split; simpl; try done; try constructor; rewrite ?app_nil_r; try done.
  exists []. split_and!; try done. by apply pushes_nil.
Qed.

(** The steps of the other tasks, and of time, leave the main task alone. *)
Definition same_main L L' : Prop :=
  sub_block_count L' = sub_block_count L ∧ main L' = main L ∧
  (ticks (proposing L) ≤ ticks (proposing L'))%nat ∧
  builder (proposing L') = builder (proposing L) ∧ ready_txs (proposing L') = ready_txs (proposing L) ∧
  messages (proposing L') = messages (proposing L).

Lemma run_inv_same_main s1 n ps L L' :
  run_inv s1 n ps L → same_main L L' → run_inv s1 (S n) (ps ++ []) L'.
Proof.
  intros [Hc Hs Hb Ha Hf Hct] (Hc' & Hm & Ht & Hb' & Hr & Hms). rewrite app_nil_r.
  split; rewrite ?Hc', ?Hm, ?Hb', ?Hr, ?Hms; try done; [lia|].
  intros Hnf. destruct (Hct Hnf) as (Hms0 & ts & Hp & Hrest). split; [done|].
  exists ts. split; [by eapply pushes_later|done].
Qed.

Lemma run_inv_break s1 n ps L L' :
  run_inv s1 n ps L → main_break L = Some L' → run_inv s1 (S n) (ps ++ []) L'.
Proof.
  intros [Hc Hs Hb Ha Hf Hct]. unfold main_break. rewrite app_nil_r.
  destruct (main L) eqn:Hm; try done. destruct (cancelled L || _); try done. intros [= <-].
  split; simpl; try done. lia.
Qed.

Lemma run_inv_fetch s1 n ps L L' :
  run_inv s1 n ps L → main_fetch p deadline L = Some L' → run_inv s1 (S n) (ps ++ []) L'.
Proof.
  intros [Hc Hs Hb Ha Hf Hct]. unfold main_fetch. rewrite app_nil_r.
  destruct (main L) eqn:Hm; try done. intros [= <-].
  destruct Hct as (Hms & ts & Hp & Hx & Hh & ->); [tauto|].
  split; simpl; try done; [lia|]. intros _. split; [done|]. exists []. split_and!; try done.
  { eapply pushes_later; [exact Hp|lia]. }
  by exists (ticks (proposing L)).
Qed.

Lemma run_inv_signal s1 n ps qs L L' :
  Z.of_nat (S n) < 2 ^ 64 →
  run_inv s1 n ps L → main_signal p deadline limit number L = Some (qs, L') → run_inv s1 (S n) (ps ++ qs) L'.
Proof.
  intros Hn [Hc Hs Hb Ha Hf Hct]. unfold main_signal.
  destruct (main L) eqn:Hm; try done. destruct (signal L); try done.
  pose proof (on_signal_spec p deadline limit number (sub_block_count L) (proposing L)) as Hsig.
  destruct (on_signal _ _ _ _ _ _) as [[sub|e| |] s'].
  2-4: intros [= <- <-]; rewrite app_nil_r; split; simpl; try done; try lia; tauto.
  rewrite u_add_ok by (unfold in_range; lia). intros [= <- <-].
  destruct Hsig as ((us & Hpush & Hsub & Hx) & Hms & _).
  destruct Hct as (Hms0 & ts & Hp & Hxs & Hhs & k & Hoff); [tauto|].
  assert (announced (option_list sub) = tx_data <$> us ∧ announced_hashes (option_list sub) = tx_hash <$> us) as [Hxs' Hhs'].
  { destruct sub as [x|]; [|by subst]. destruct Hx. unfold announced, announced_hashes. simpl.
    by rewrite !app_nil_r. }
  split; simpl.
  - lia.
  - rewrite fmap_app. apply StronglySorted_app. split_and!; [|done|].
    + intros i j (x & -> & Hxp)%list_elem_of_fmap Hj. rewrite Forall_forall in Hb. specialize (Hb x Hxp).
      destruct sub as [y|]; simpl in Hj; [|by apply not_elem_of_nil in Hj].
      apply list_elem_of_singleton in Hj as ->. destruct Hx. lia.
    + destruct sub; simpl; repeat constructor.
  - apply Forall_app. split; [eapply Forall_impl; [exact Hb|simpl; lia]|].
    destruct sub as [x|]; simpl; repeat constructor; destruct Hx; lia.
  - apply Forall_app. split; [done|]. destruct sub as [x|]; simpl; repeat constructor.
    exists us. pose proof (an_index _ _ _ _ _ _ Hx) as ->. done.
  - done.
  - intros _. split; [by rewrite Hms, Hms0, fmap_app, app_assoc|].
    exists (ts ++ us). split; [by eapply pushes_trans|].
    unfold announced, announced_hashes in *. rewrite !bind_app, !fmap_app. split_and!; try congruence.
    exists k. etrans; [|exact Hoff]. rewrite <-app_assoc. by apply submseteq_skips_l.
Qed.

Lemma step_same_main L L' :
  cancel_step deadline L = Some L' ∨ interval_start p L = Some L' ∨ interval_cancel L = Some L' ∨
  interval_tick p L = Some L' ∨ L' = wait L → same_main L L'.
Proof.
  unfold cancel_step, interval_start, interval_cancel, interval_tick.
  intros [Hs|[Hs|[Hs|[Hs|Hs]]]]; simplify_eq; repeat case_match; simplify_eq; repeat split; simpl; lia.
Qed.

Lemma run_invariant s1 n ps L :
  Z.of_nat n < 2 ^ 64 → run p deadline limit number n (initial s1) ps L → run_inv s1 n ps L.
Proof.
  intros Hn Hrun. remember (initial s1) as L0 eqn:HL0. revert Hn.
  induction Hrun as [L|n L ps L' qs L'' Hrun IH Hstep]; intros Hn; subst; [apply run_inv_initial|].
  specialize (IH eq_refl ltac:(lia)).
  destruct Hstep as [L' L'' Hs|L' L'' Hs|L' L'' Hs|L' L'' Hs|L' L'' Hs|L' L'' Hs|L' qs L'' Hs|L'].
  1-4,8: eapply run_inv_same_main; [exact IH|]; apply step_same_main; tauto.
  - by eapply run_inv_fetch.
  - by eapply run_inv_break.
  - by eapply run_inv_signal.
Qed.
End Invariant.

(** ** The contents of the block *)
Section Contents.
Context {extrinsics_of : Builder → list Extrinsic} {block_extrinsics : Block → list Extrinsic}.
Context {laws : BuilderLaws extrinsics_of block_extrinsics}.

Lemma pushes_extrinsics include_proof limit dl n b ts n' b' :
  pushes include_proof limit dl n b ts n' b' → extrinsics_of b' = extrinsics_of b ++ (tx_data <$> ts).
Proof.
  induction 1 as [m Hm|us m c1 t k m2 c2 total Hus IH Hk Hdl Hadd Htot Hp|us m c1 t e m2 c2 Hus IH Hm Hp].
  - by rewrite app_nil_r.
  - by rewrite (push_appends _ _ _ Hp), IH, fmap_app, app_assoc.
  - by rewrite (push_rolls_back _ _ _ _ Hp).
Qed.

(** Inherents that fail are left out, unless a mandatory one does. *)
Lemma push_inherents_spec xs s :
  let '(r, s') := push_inherents xs s in
  messages s' = messages s ∧
  match r with
  | Ok _ => ∃ inh, inh `sublist_of` xs ∧ extrinsics_of (builder s') = extrinsics_of (builder s) ++ inh
  | Err e => ∃ v, e = ApplyExtrinsicFailed_Validity v ∧ was_mandatory v = true ∧ exhausted_resources v = false
  | _ => False
  end.
Proof.
  revert s. induction xs as [|x xs IH]; intros s; simpl.
  { split; [done|]. exists []. by rewrite app_nil_r. }
  unfold try_push. run_step. destruct (push x (builder s)) as [[e|] b'] eqn:Hp.
  - assert (∀ s0, builder s0 = b' → messages s0 = messages s →
      let '(r, s') := push_inherents xs s0 in messages s' = messages s ∧
      match r with
      | Ok _ => ∃ inh, inh `sublist_of` x :: xs ∧ extrinsics_of (builder s') = extrinsics_of (builder s) ++ inh
      | Err e => ∃ v, e = ApplyExtrinsicFailed_Validity v ∧ was_mandatory v = true ∧ exhausted_resources v = false
      | _ => False
      end) as Hskip.
    { intros s0 Hb0 Hm0. specialize (IH s0). destruct (push_inherents xs s0) as [[] s']; rewrite Hm0, ?Hb0 in IH; try done.
      destruct IH as (Hm & inh & Hsub & Hx). split; [done|]. exists inh. split; [by constructor|].
      by rewrite Hx, (push_rolls_back _ _ _ _ Hp). }
    destruct e as [v| | |]; try by apply Hskip.
    destruct (exhausted_resources v) eqn:Hexh; [by apply Hskip|].
    destruct (was_mandatory v) eqn:Hman; [|by apply Hskip]. simpl. eauto.
  - match goal with |- context [push_inherents xs ?s0] => specialize (IH s0); destruct (push_inherents xs s0) as [[] s'] end;
      simpl in IH; try done.
    destruct IH as (Hm & inh & Hsub & Hx). split; [done|]. exists (x :: inh). split; [by constructor|].
    by rewrite Hx, (push_appends _ _ _ Hp), <-app_assoc.
Qed.

Lemma propose_start_spec p pr data digest s number s1 :
  propose_start p pr data digest s = (Ok number, s1) →
  messages s1 = messages s ∧
  ∃ b0 inherents b1, new_builder (parent_hash p) (parent_number p) pr digest = inr b0 ∧
    create_inherents data b0 = (inr inherents, b1) ∧
    extrinsics_of (builder s1) `sublist_of` inherents.
Proof.
  unfold propose_start. intros Hrun. inv_run.
  destruct (new_builder _ _ _ _) as [|b0] eqn:Hnew; simplify_eq.
  unfold apply_inherents in *. inv_run. simpl in *.
  destruct (create_inherents data b0) as [[|xs] b1] eqn:Hcr; simplify_eq.
  match goal with Hp : push_inherents ?ys ?s0 = _ |- _ =>
    pose proof (push_inherents_spec ys s0) as Hspec; rewrite Hp in Hspec; rename ys into xs end.
  simpl in Hspec. destruct Hspec as (Hm & inh & Hsub & Hx).
  split; [done|]. exists b0, xs, b1. split_and!; try done.
  by rewrite Hx, (create_inherents_keeps _ _ _ _ Hcr), (new_builder_empty _ _ _ _ _ Hnew).
Qed.

(** A finished proposal: its block holds inherents and then exactly what was
    announced, in the order of the announcements. *)
Lemma propose_with_contents {ready_laws : ReadyLaws} p pr data digest deadline size_limit s n ps x s' :
  let limit := default (default_block_size_limit p) size_limit in
  Z.of_nat n < 2 ^ 64 →
  propose_with p pr data digest deadline size_limit s n ps (Ok x) s' →
  messages s' = messages s ++ (message_of <$> ps) ∧
  ∃ b0 inherents b1 n2 b2 inh ts,
    new_builder (parent_hash p) (parent_number p) pr digest = inr b0 ∧
    create_inherents data b0 = (inr inherents, b1) ∧
    inh `sublist_of` inherents ∧ extrinsics_of b2 = inh ∧
    pushes (include_proof_in_block_size_estimation p) limit deadline n2 b2 ts (ticks s') (builder s') ∧
    block_extrinsics (block x) = inh ++ announced ps ∧
    announced ps = tx_data <$> ts ∧ announced_hashes ps = tx_hash <$> ts ∧ offered p deadline ts.
Proof.
  intros limit Hn Hprop. inversion Hprop as [| |number s1 n' ps' L r Hst Hrun Hm]; subst.
  destruct r as [[]| | |]; try done. simpl in *.
  destruct (propose_start_spec _ _ _ _ _ _ _ Hst) as (Hms & b0 & xs & b1 & Hnew & Hcr & Hsub).
  destruct (run_invariant p deadline limit number s1 n ps L Hn Hrun) as [_ _ _ _ _ Hct].
  rewrite Hm in Hct. destruct Hct as (Hmsg & ts & Hp & Hx & Hh & k & Hoff); [tauto|].
  split; [by rewrite Hmsg, Hms|].
  exists b0, xs, b1, (ticks s1), (builder s1), (extrinsics_of (builder s1)), ts. split_and!; try done.
  - match goal with Hf : propose_finish _ = _ |- _ => revert Hf end. unfold propose_finish.
    destruct (build _) as [|[[blk ch] rec]] eqn:Hbuild; [done|].
    destruct (into_proof rec); [|done]. intros [= <-]. simpl.
    by rewrite (build_extrinsics _ _ _ _ Hbuild), (pushes_extrinsics _ _ _ _ _ _ _ _ Hp), Hx.
  - exists k. etrans; [|exact Hoff]. by apply submseteq_inserts_r.
Qed.
End Contents.

(** Announcements are numbered upwards and only the first sub-block carries
    the base of the block. *)
Lemma propose_with_payloads {ready_laws : ReadyLaws} p pr data digest deadline size_limit s n ps r s' :
  let limit := default (default_block_size_limit p) size_limit in
  Z.of_nat n < 2 ^ 64 →
  propose_with p pr data digest deadline size_limit s n ps r s' →
  StronglySorted Z.lt (payload_index <$> ps) ∧
  Forall (λ x, 0 ≤ payload_index x ∧ ∃ number ts, u_add (E:=BlockchainError) number_width (parent_number p) 1 = Ok number
    ∧ announces p limit number (payload_index x) ts x) ps.
Proof.
  intros limit Hn. destruct 1 as [e s' _|s' _|number s1 n ps L r Hst Hrun Hm]; try by repeat constructor.
  destruct (run_invariant p deadline limit number s1 n ps L Hn Hrun) as [_ Hs Hb Ha _ _].
  split; [done|]. unfold propose_start in Hst. inv_run.
  rewrite Forall_forall in Hb, Ha |- *. intros y Hy. specialize (Hb y Hy). destruct (Ha y Hy) as [ts Hts].
  split; [lia|]. by exists number, ts.
Qed.

(** ** When a run can end *)
Section Ending.
Context (p : PreConfProposer) (deadline limit number : Z).

Abbreviation run := (run p deadline limit number).

Lemma run_trans n L ps L' m qs L'' : run n L ps L' → run m L' qs L'' → run (n + m) L (ps ++ qs) L''.
Proof.
  intros Hn. induction 1 as [|m K qs K' rs K'' Hm IH Hs]; [by rewrite Nat.add_0_r, app_nil_r|].
  rewrite Nat.add_succ_r, app_assoc. by econstructor; [apply IH|].
Qed.

Lemma run_step L ps L' : step p deadline limit number L ps L' → run 1 L ps L'.
Proof. intros Hs. eapply (run_snoc _ _ _ _ 0 L []); [constructor|done]. Qed.

Lemma run_waits L k : (ticks (proposing L) ≤ k)%nat → ∃ n L', run n L [] L' ∧ ticks (proposing L') = k ∧
  canceller L' = canceller L ∧ cancelled L' = cancelled L ∧ main L' = main L.
Proof.
  intros Hk. remember (k - ticks (proposing L))%nat as d eqn:Hd. revert L Hk Hd.
  induction d as [|d IH]; intros L Hk Hd.
  - exists 0%nat, L. split_and!; try done; [constructor|lia].
  - destruct (IH (wait L)) as (n & L' & Hr & Ht & Hc & Hc' & Hm); simpl; try lia.
    exists (1 + n)%nat, L'. split_and!; try done. eapply (run_trans _ _ [] (wait L)); [apply run_step, step_wait|done].
Qed.

Lemma run_leaves L : cancelled L = true → ¬ failed (main L) → ∃ n L', run n L [] L' ∧ main L' = Left (Ok ()).
Proof.
  intros Hc Hm. destruct (main L) as [| |[[]| | |]] eqn:HL; try (exfalso; by apply Hm).
  - eexists (1 + 1)%nat, _. split; [|shelve].
    eapply (run_trans 1 _ [] _ 1 []); apply run_step.
    + apply step_fetch. unfold main_fetch. by rewrite HL.
    + apply step_break. unfold main_break. simpl. by rewrite Hc.
    Unshelve. done.
  - eexists 1%nat, _. split; [apply run_step, step_break; unfold main_break; by rewrite HL, Hc|done].
  - exists 0%nat, L. split; [constructor|done].
Qed.

(** A canceller that sleeps, or that starts in time, ends the proposal. *)
Lemma run_can_end {clock_laws : ClockLaws} L :
  cancelled L = true ∨ canceller L = Sleeping ∨ canceller L = CancelSpawned ∧ time_of L < deadline →
  ¬ failed (main L) → ∃ n L', run n L [] L' ∧ main L' = Left (Ok ()).
Proof.
  assert (∀ K, canceller K = Sleeping → ¬ failed (main K) → ∃ n L', run n K [] L' ∧ main L' = Left (Ok ())) as Hsleep.
  { intros K Hc Hm. destruct (clock_passes deadline) as [k Hk].
    destruct (run_waits K (max k (ticks (proposing K)))) as (n & K1 & Hr & Ht & Hc1 & _ & Hm1); [lia|].
    edestruct (run_leaves (mkLoop _ (proposing K1) (sub_block_count K1) true CancelDone (interval K1) (signal K1) (main K1)))
      as (m & K2 & Hr2 & Hm2); simpl; [done|by rewrite Hm1|].
    exists (n + (1 + m))%nat, K2. split; [|done]. eapply (run_trans n _ []); [done|].
    eapply (run_trans 1 _ []); [|done]. apply run_step, step_cancel. unfold cancel_step. rewrite Hc1, Hc.
    unfold time_of. rewrite Ht. rewrite (proj2 (Z.leb_le _ _)); [done|]. apply Hk. lia. }
  intros [Hc|[Hc|[Hc Ht]]] Hm; [by apply run_leaves|by apply Hsleep|].
  edestruct (Hsleep (mkLoop _ (proposing L) (sub_block_count L) (cancelled L) Sleeping (interval L) (signal L) (main L)))
    as (n & L' & Hr & Hl); [done|done|]. exists (1 + n)%nat, L'. split; [|done].
  eapply (run_trans 1 _ []); [|done]. apply run_step, step_cancel. unfold cancel_step. rewrite Hc.
  by rewrite (proj2 (Z.ltb_lt _ _) Ht).
Qed.

(** A canceller that starts at or after the deadline never cancels, and then
    nothing ends the loop. *)
Definition stuck_open s1 L : Prop :=
  failed (main L) ∨
  cancelled L = false ∧ canceller L ≠ Sleeping ∧ interval L ≠ Stopped ∧ (ticks s1 ≤ ticks (proposing L))%nat ∧
  main L ≠ Left (Ok ()).

Lemma left_step L ps L' :
  failed (main L) → step p deadline limit number L ps L' → main L' = main L.
Proof.
  intros Hf Hs. destruct Hs as [L L' Hs|L L' Hs|L L' Hs|L L' Hs|L L' Hs|L L' Hs|L qs L' Hs|L]; try done;
    unfold cancel_step, interval_start, interval_cancel, interval_tick, main_fetch, main_break, main_signal in Hs;
    destruct (main L) as [| |[[]|e| |]]; try done; repeat case_match; by simplify_eq.
Qed.

Lemma stuck_open_step {ready_laws : ReadyLaws} {clock_laws : ClockLaws} s1 L ps L' :
  preconf_block_time p ≠ 0 → deadline ≤ clock (ticks s1) →
  stuck_open s1 L → step p deadline limit number L ps L' → stuck_open s1 L'.
Proof.
  intros Hp Hd Hst Hs. destruct Hst as [Hf|(Hc & Hcan & Hint & Ht & Hm)].
  - left. by rewrite (left_step L ps L').
  - assert (deadline ≤ time_of L) by (etrans; [exact Hd|by apply clock_mono]).
    unfold stuck_open.
    destruct Hs as [L L' Hs|L L' Hs|L L' Hs|L L' Hs|L L' Hs|L L' Hs|L qs L' Hs|L].
    + right. unfold cancel_step in Hs. rewrite (proj2 (Z.ltb_ge _ _)) in Hs by lia.
      repeat case_match; by simplify_eq.
    + right. unfold interval_start in Hs. rewrite (proj2 (Z.eqb_neq _ _) Hp) in Hs.
      repeat case_match; by simplify_eq.
    + unfold interval_cancel in Hs. rewrite Hc in Hs. by repeat case_match.
    + right. unfold interval_tick in Hs. repeat case_match; by simplify_eq.
    + right. unfold main_fetch in Hs. repeat case_match; simplify_eq; simpl. split_and!; try done. lia.
    + unfold main_break in Hs. rewrite Hc in Hs. repeat case_match; by simplify_eq.
    + unfold main_signal in Hs. destruct (main L); try done. destruct (signal L); try done.
      pose proof (on_signal_spec p deadline limit number (sub_block_count L) (proposing L)) as Hsig.
      destruct (on_signal _ _ _ _ _ _) as [[sub|e| |] s'].
      2-4: left; by simplify_eq.
      destruct (u_add _ _ _); simplify_eq; simpl; [right|by left..].
      destruct Hsig as (_ & _ & Ht' & _). split_and!; try done. lia.
    + right. simpl. split_and!; try done. lia.
Qed.

Lemma late_never_ends {ready_laws : ReadyLaws} {clock_laws : ClockLaws} s1 n ps L :
  preconf_block_time p ≠ 0 → deadline ≤ clock (ticks s1) →
  run n (initial s1) ps L → main L ≠ Left (Ok ()).
Proof.
  intros Hp Hd Hrun.
  assert (stuck_open s1 L) as [Hf|(_ & _ & _ & _ & Hm)].
  { remember (initial s1) as L0 eqn:HL0. induction Hrun as [L|n L ps L' qs L'' Hrun IH Hstep]; subst.
    - right. simpl. split_and!; (done || lia).
    - eapply stuck_open_step; eauto. }
  - by intros Hm; rewrite Hm in Hf.
  - done.
Qed.

(** A schedule names the task of every step; [exec] runs it. *)
Definition perform (e : event) L : option (list Payload * Loop) :=
  match e with
  | Canceller => pair [] <$> cancel_step deadline L
  | IntervalStart => pair [] <$> interval_start p L
  | IntervalStop => pair [] <$> interval_cancel L
  | IntervalTick => pair [] <$> interval_tick p L
  | Fetch => pair [] <$> main_fetch p deadline L
  | Leave => pair [] <$> main_break L
  | Signal => main_signal p deadline limit number L
  | Wait => Some ([], wait L)
  end.

Fixpoint exec (es : list event) L : option (list Payload * Loop) :=
  match es with
  | [] => Some ([], L)
  | e :: es =>
      '(ps, L') ← perform e L;
      '(qs, L'') ← exec es L';
      Some (ps ++ qs, L'')
  end.

Lemma exec_run es L ps L' : exec es L = Some (ps, L') → run (length es) L ps L'.
Proof.
  revert L ps. induction es as [|e es IH]; intros L ps; simpl; [intros [= <- <-]; constructor|].
  destruct (perform e L) as [[qs K]|] eqn:Ht; [|done]. simpl.
  destruct (exec es K) as [[rs K']|] eqn:He; [|done]. intros [= <- <-].
  eapply (run_trans 1 _ qs K); [|by apply IH]. apply run_step.
  destruct e; simpl in Ht; try (apply fmap_Some in Ht as (? & ? & [= -> ->]));
    [by apply step_cancel|by apply step_interval_start|by apply step_interval_cancel|by apply step_interval_tick
    |by apply step_fetch|by apply step_break|by apply step_signal|injection Ht as <- <-; apply step_wait].
Qed.
End Ending.

(** ** Subscribers *)

(** What the messages do to one subscriber: it is dropped at the first one
    it cannot take. *)
Fixpoint deliver (ms : list (String.string * bool)) (ws : WebSocket) : option WebSocket :=
  match ms with
  | [] => Some ws
  | (m, lock_ok) :: ms =>
      if lock_ok then
        let '(sent, ws') := ws_send_now ws m in if sent then deliver ms ws' else None
      else deliver ms ws
  end.

Lemma publish_omap m ms subs :
  omap (deliver ms) (publish m subs) = omap (deliver ((m, true) :: ms)) subs.
Proof.
  induction subs as [|ws subs IH]; csimpl; [done|].
  destruct (ws_send_now ws m) as [[] ws']; csimpl; [|exact IH]. by rewrite IH.
Qed.

Lemma publish_task_omap ms subs : publish_task ms subs = omap (deliver ms) subs.
Proof.
  revert subs. induction ms as [|[m lock_ok] ms IH]; intros subs; csimpl.
  - induction subs as [|ws subs IH]; csimpl; [done|]. by rewrite <-IH.
  - destruct lock_ok; rewrite IH; [apply publish_omap|done].
Qed.

(** ** Payload ids *)
Fixpoint from_le_bytes (bs : list Z) : Z :=
  match bs with [] => 0 | x :: bs => x + 256 * from_le_bytes bs end.

Lemma from_le_bytes_le_bytes n x : 0 ≤ x → from_le_bytes (le_bytes n x) = x mod 256 ^ Z.of_nat n.
Proof.
  revert x. induction n as [|n IH]; intros x Hx; simpl; [by rewrite Z.mod_1_r|].
  rewrite IH by (apply Z.div_pos; lia).
  rewrite Nat2Z.inj_succ, Z.pow_succ_r by lia. by rewrite Z.rem_mul_r by lia.
Qed.

Lemma le_bytes_length n x : length (le_bytes n x) = n.
Proof. revert x. induction n as [|n IH]; intros x; simpl; [done|]. by rewrite IH. Qed.

Lemma le_bytes_range n x : Forall (in_range 8) (le_bytes n x).
Proof.
  revert x. induction n as [|n IH]; intros x; simpl; constructor; [|apply IH].
  unfold in_range. apply Z.mod_pos_bound. lia.
Qed.

Lemma to_le_bytes_roundtrip x : in_range 64 x → from_le_bytes (to_le_bytes x) = x.
Proof.
  intros [? ?]. unfold to_le_bytes. rewrite from_le_bytes_le_bytes by lia. apply Z.mod_small.
  change (256 ^ Z.of_nat 8) with (2 ^ 64). lia.
Qed.
End Runs.
