(* ===== verification/PreconfFair.v ===== *)
(** * A fairly scheduled proposal ends

    An infinite run of the tasks of [propose_with] is a sequence of states
    with the event that leads from each to the next.  It is fair to an event
    when that is, again and again, taken or not possible.  If the passing of
    time, the canceller, the fetching of transactions and the leaving of the
    loop are treated fairly, and the canceller does not start too late, the
    main loop is left: the canceller fires once the deadline has passed, and
    then the main task can only leave. *)
From S2P Require Import Prelude Preconf PreconfLoop PreconfFacts PreconfRuns.

Section Fair.
Context `{BuildProfile} {node : Node} {bb : BlockBuilder} {json : Json}.
Context {ready_laws : ReadyLaws} {clock_laws : ClockLaws}.
Context (p : PreConfProposer) (deadline limit number : Z).
Implicit Types L : Loop.

Abbreviation perform := (perform p deadline limit number).
Abbreviation step := (step p deadline limit number).
Abbreviation run := (run p deadline limit number).

Definition infinite_run (σ : nat → Loop) (ev : nat → event) : Prop :=
  ∀ i, ∃ ps, perform (ev i) (σ i) = Some (ps, σ (S i)).

(** Again and again [e] is taken or cannot be. *)
Definition fair (e : event) (σ : nat → Loop) (ev : nat → event) : Prop :=
  ∀ i, ∃ j, (i ≤ j)%nat ∧ (ev j = e ∨ perform e (σ j) = None).

(** A canceller that starts does so before the deadline. *)
Definition canceller_in_time (σ : nat → Loop) (ev : nat → event) : Prop :=
  ∀ i, canceller (σ i) = CancelSpawned → ev i = Canceller → time_of (σ i) < deadline.

Definition left L : Prop := ∃ r, main L = Left r.

(** ** Single steps *)
Lemma left_stays L ps L' r : main L = Left r → step L ps L' → main L' = Left r.
Proof.
  intros Hm Hs. destruct Hs as [L L' Hs|L L' Hs|L L' Hs|L L' Hs|L L' Hs|L L' Hs|L qs L' Hs|L]; try done;
    unfold cancel_step, interval_start, interval_cancel, interval_tick, main_fetch, main_break, main_signal in Hs;
    rewrite ?Hm in Hs; try done; repeat case_match; simplify_eq; simpl; congruence.
Qed.

Lemma signal_ticks L qs L' :
  main_signal p deadline limit number L = Some (qs, L') →
  left L' ∨ main L = Selecting ∧ main L' = Selecting ∧ (ticks (proposing L) ≤ ticks (proposing L'))%nat.
Proof.
  unfold main_signal. destruct (main L); try done. destruct (signal L); try done.
  pose proof (on_signal_spec p deadline limit number (sub_block_count L) (proposing L)) as Hsig.
  destruct (on_signal _ _ _ _ _ _) as [[sub|e| |] s']; [|by intros [= <- <-]; left; eexists..].
  destruct (u_add _ _ _); intros [= <- <-]; [right|left; by eexists..].
  destruct Hsig as (_ & _ & Ht & _). done.
Qed.

Lemma step_progress L ps L' :
  step L ps L' →
  left L' ∨ (ticks (proposing L) ≤ ticks (proposing L'))%nat ∧ (main L ≠ Fetching → main L' ≠ Fetching).
Proof.
  intros Hs. destruct Hs as [L L' Hs|L L' Hs|L L' Hs|L L' Hs|L L' Hs|L L' Hs|L qs L' Hs|L].
  7: { apply signal_ticks in Hs as [?|(Hm & Hm' & ?)]; [by left|right]. by rewrite Hm'. }
  all: right; unfold cancel_step, interval_start, interval_cancel, interval_tick, main_fetch, main_break in *;
    repeat case_match; simplify_eq; simpl; split; done || lia.
Qed.

(** The canceller's states as long as it starts in time. *)
Definition canceller_ok L : Prop :=
  match canceller L with CancelSpawned | Sleeping => True | CancelDone => cancelled L = true end.

Lemma step_cancelled L ps L' : step L ps L' → cancelled L = true → cancelled L' = true.
Proof.
  intros Hs Hc. destruct Hs as [L L' Hs|L L' Hs|L L' Hs|L L' Hs|L L' Hs|L L' Hs|L qs L' Hs|L]; try done;
    unfold cancel_step, interval_start, interval_cancel, interval_tick, main_fetch, main_break, main_signal in Hs;
    repeat case_match; simplify_eq; simpl; congruence.
Qed.

Lemma perform_canceller_ok e L ps L' :
  perform e L = Some (ps, L') →
  (canceller L = CancelSpawned → e = Canceller → time_of L < deadline) →
  canceller_ok L → canceller_ok L'.
Proof.
  intros Hp Ht Hok. unfold canceller_ok in *. destruct e; simpl in Hp;
    try (apply fmap_Some in Hp as (? & Hp & [= -> ->]));
    unfold cancel_step, interval_start, interval_cancel, interval_tick, main_fetch, main_break, main_signal in Hp.
  1: { destruct (canceller L) eqn:Hc; [|by case_match; simplify_eq|done].
       rewrite (proj2 (Z.ltb_lt _ _)) in Hp by (by apply Ht). by simplify_eq. }
  all: repeat case_match; simplify_eq; simpl in *; congruence.
Qed.

Lemma perform_step e L ps L' : perform e L = Some (ps, L') → step L ps L'.
Proof.
  intros Ht. destruct e; simpl in Ht; try (apply fmap_Some in Ht as (? & ? & [= -> ->]));
    [by apply step_cancel|by apply step_interval_start|by apply step_interval_cancel|by apply step_interval_tick
    |by apply step_fetch|by apply step_break|by apply step_signal|injection Ht as <- <-; apply step_wait].
Qed.

(** ** Infinite runs *)
Section Run.
Context (σ : nat → Loop) (ev : nat → event) (Hrun : infinite_run σ ev).

Lemma run_prefix n : ∃ ps, run n (σ 0%nat) ps (σ n).
Proof.
  induction n as [|n [ps IH]]; [exists []; constructor|]. destruct (Hrun n) as [qs Hp].
  exists (ps ++ qs). econstructor; [exact IH|by eapply perform_step].
Qed.

(** How the loop can be left. *)
Lemma run_result_cases s n ps L r :
  run n (initial s) ps L → main L = Left r → r = Ok () ∨ r = Panic ∨ r = Err Application.
Proof.
  intros Hr. remember (initial s) as L0 eqn:HL0. revert r.
  induction Hr as [L|n L ps L' qs L'' Hr IH Hs]; intros r Hm; subst; [done|]. specialize (IH eq_refl).
  destruct (main L') as [| |r'] eqn:HL; [| |rewrite (left_stays _ _ _ _ HL Hs) in Hm; simplify_eq; by apply IH].
  all: destruct Hs as [L L' Hs|L L' Hs|L L' Hs|L L' Hs|L L' Hs|L L' Hs|L qs L' Hs|L];
    try (unfold cancel_step, interval_start, interval_cancel, interval_tick, main_fetch, main_break, main_signal in Hs;
         rewrite ?HL in Hs); try (simpl in Hm; congruence);
    try (repeat case_match; simplify_eq/=; try congruence; by left).
  destruct (signal L); [|done].
  pose proof (on_signal_spec p deadline limit number (sub_block_count L) (proposing L)) as Hsig.
  destruct (on_signal _ _ _ _ _ _) as [[sub|e| |] s']; simplify_eq/=; [| |by right; left|done].
  - destruct (u_add _ _ _); simplify_eq/=; by right; left.
  - destruct Hsig as [-> _]. by right; right.
Qed.

(** What every step keeps holds from then on. *)
Lemma run_keeps (P : Loop → Prop) i j :
  (∀ L ps L', step L ps L' → P L → P L') → (i ≤ j)%nat → P (σ i) → P (σ j).
Proof.
  intros Hk. induction 1 as [|j _ IH]; [done|]. intros Hi. destruct (Hrun j) as [ps Hp].
  eapply Hk; [by eapply perform_step|by apply IH].
Qed.

Lemma run_left i j r : (i ≤ j)%nat → main (σ i) = Left r → main (σ j) = Left r.
Proof. apply (run_keeps (λ L, main L = Left r)). intros L ps L' Hs Hm. by eapply left_stays. Qed.

Lemma run_left_some i j : (i ≤ j)%nat → left (σ i) → left (σ j).
Proof. intros Hij [r Hr]. exists r. by eapply run_left. Qed.

(** The run leaves the loop, or what a step keeps unless it leaves stays. *)
Lemma run_keeps_or (P : Loop → Prop) i j :
  (∀ L ps L', step L ps L' → P L → left L' ∨ P L') → (i ≤ j)%nat → P (σ i) → left (σ j) ∨ P (σ j).
Proof.
  intros Hk Hij Hi. apply (run_keeps (λ L, left L ∨ P L) i); [|done|by right].
  intros L ps L' Hs [[r Hr]|HP]; [left; exists r; by eapply left_stays|by eapply Hk].
Qed.

Lemma run_time k i : fair Wait σ ev →
  ∃ j, (i ≤ j)%nat ∧ (left (σ j) ∨ (k ≤ ticks (proposing (σ j)))%nat).
Proof.
  intros Hw. induction k as [|k IH]; [exists i; split; [done|right; lia]|].
  destruct IH as (j & Hij & Hj). destruct (Hw j) as (m & Hjm & [Hev|Hev]); [|done].
  exists (S m). split; [lia|]. destruct Hj as [Hl|Hk]; [left; eapply run_left_some; [|exact Hl]; lia|].
  destruct (run_keeps_or (λ L, (k ≤ ticks (proposing L))%nat) j m) as [Hl|Hk']; [|done|done| |].
  - intros L ps L' Hs HL. destruct (step_progress _ _ _ Hs) as [?|[? _]]; [by left|right; lia].
  - left. eapply run_left_some; [|exact Hl]. lia.
  - right. destruct (Hrun m) as [ps Hp]. rewrite Hev in Hp. injection Hp as _ <-. simpl. lia.
Qed.

(** The pool is asked for its transactions. *)
Lemma run_fetches i : fair Fetch σ ev → ∃ j, (i ≤ j)%nat ∧ main (σ j) ≠ Fetching.
Proof.
  intros Hf. destruct (Hf i) as (j & Hij & [Hev|Hev]).
  - exists (S j). split; [lia|]. destruct (Hrun j) as [ps Hp]. rewrite Hev in Hp. simpl in Hp.
    apply fmap_Some in Hp as (L' & Hp & [= -> ->]). unfold main_fetch in Hp.
    destruct (main (σ j)); try done. injection Hp as Hp. by rewrite <-Hp.
  - exists j. split; [done|]. simpl in Hev. apply fmap_None in Hev. unfold main_fetch in Hev. by destruct (main _).
Qed.

(** The canceller fires. *)
Lemma run_cancels i : fair Wait σ ev → fair Canceller σ ev → canceller_in_time σ ev →
  canceller_ok (σ 0%nat) → ∃ j, (i ≤ j)%nat ∧ (left (σ j) ∨ cancelled (σ j) = true).
Proof.
  intros Hw Hf Ht Hok0.
  assert (∀ j, canceller_ok (σ j)) as Hok.
  { induction j as [|j IH]; [done|]. destruct (Hrun j) as [ps Hp].
    eapply perform_canceller_ok; [exact Hp|by apply Ht|done]. }
  destruct (clock_passes deadline) as [k Hk]. destruct (run_time k i Hw) as (j & Hij & Hj).
  destruct (Hf j) as (m & Hjm & Hm).
  assert (left (σ m) ∨ (k ≤ ticks (proposing (σ m)))%nat) as [Hl|Hkm].
  { destruct Hj as [Hl|Hkj]; [left; by eapply run_left_some|].
    apply (run_keeps_or (λ L, (k ≤ ticks (proposing L))%nat) j m); [|exact Hjm|exact Hkj]. intros L ps L' Hs HL.
    destruct (step_progress _ _ _ Hs) as [?|[? _]]; [by left|right; lia]. }
  { exists m. split; [lia|by left]. }
  assert (deadline ≤ time_of (σ m)) as Hd by (apply Hk; done).
  specialize (Hok m). specialize (Ht m). unfold canceller_ok in Hok.
  destruct (canceller (σ m)) eqn:Hc.
  - exfalso. destruct Hm as [Hm|Hm]; [specialize (Ht eq_refl Hm); lia|].
    simpl in Hm. apply fmap_None in Hm. unfold cancel_step in Hm. by rewrite Hc in Hm.
  - exists (S m). split; [lia|right]. destruct (Hrun m) as [ps Hp].
    destruct Hm as [Hm|Hm]; [rewrite Hm in Hp; simpl in Hp; apply fmap_Some in Hp as (L' & Hp & [= -> ->])
                            |clear Hp; simpl in Hm; apply fmap_None in Hm; rename Hm into Hp];
      unfold cancel_step in Hp; rewrite Hc, (proj2 (Z.leb_le _ _) Hd) in Hp; [|done].
    injection Hp as Hp. by rewrite <-Hp.
  - exists m. split; [lia|by right].
Qed.

Lemma run_ends : fair Wait σ ev → fair Canceller σ ev → fair Fetch σ ev → fair Leave σ ev →
  canceller_in_time σ ev → canceller_ok (σ 0%nat) → ∃ n, left (σ n).
Proof.
  intros Hw Hc Hf Hl Ht Hok. destruct (run_fetches 0 Hf) as (i & _ & Hi).
  destruct (run_cancels i Hw Hc Ht Hok) as (j & Hij & [?|Hj]); [by exists j|].
  destruct (run_keeps_or (λ L, main L ≠ Fetching) i j) as [?|Hmj]; [|done|done|by exists j|].
  { intros L ps L' Hs HL. destruct (step_progress _ _ _ Hs) as [?|[_ ?]]; [by left|right; auto]. }
  destruct (Hl j) as (m & Hjm & Hm).
  assert (cancelled (σ m) = true) as Hcm
    by (eapply (run_keeps (λ L, cancelled L = true)); [apply step_cancelled|exact Hjm|done]).
  destruct (run_keeps_or (λ L, main L ≠ Fetching) j m) as [?|Hmm]; [|done|done|by exists m|].
  { intros L ps L' Hs HL. destruct (step_progress _ _ _ Hs) as [?|[_ ?]]; [by left|right; auto]. }
  destruct (main (σ m)) eqn:HL; [done| |exists m; by eexists].
  destruct Hm as [Hm|Hm].
  - exists (S m). destruct (Hrun m) as [ps Hp]. rewrite Hm in Hp. simpl in Hp.
    apply fmap_Some in Hp as (L' & Hp & [= -> ->]). unfold main_break in Hp. rewrite HL, Hcm in Hp.
    injection Hp as Hp. exists (Ok ()). by rewrite <-Hp.
  - simpl in Hm. apply fmap_None in Hm. unfold main_break in Hm. by rewrite HL, Hcm in Hm.
Qed.
End Run.
End Fair.
