(* ===== verification/PreconfRate.v ===== *)
(** * The rate of sub-blocks

    The interval sends its k-th signal no earlier than k periods after its
    start, the channel holds one, and every sub-block takes one: a proposal
    builds at most one sub-block more than the periods that have passed. *)
From S2P Require Import Prelude Preconf PreconfLoop PreconfFacts PreconfRuns.

Section Rate.
Context `{BuildProfile} {node : Node} {bb : BlockBuilder} {json : Json}.
Context {ready_laws : ReadyLaws} {clock_laws : ClockLaws}.
Context (p : PreConfProposer) (deadline limit number : Z) (Hperiod : 0 ≤ preconf_block_time p).
Implicit Types L : Loop.

Definition period : Z := from_millis (preconf_block_time p).

(** [m] signals were sent, the last one when it was due; [n] payloads were
    announced. *)
Definition sent (t0 m n : Z) L : Prop :=
  0 ≤ sub_block_count L ∧ Z.max n (sub_block_count L) + Z.b2z (signal L) ≤ m ∧
  (m = 0 ∨ t0 + (m - 1) * period ≤ time_of L) ∧
  match interval L with
  | IntervalSpawned => m = 0
  | Waiting t => t0 + m * period ≤ t
  | SendingSignal t => t0 + (m + 1) * period ≤ t ∧ t0 + m * period ≤ time_of L
  | Stopped => True
  end.

Definition rate_inv (t0 n : Z) L : Prop :=
  failed (main L) ∨ t0 ≤ time_of L ∧ ∃ m, sent t0 m n L.

(** A step that leaves the interval alone and announces no more than it takes
    signals. *)
Lemma rate_same t0 n n' L L' :
  rate_inv t0 n L → (failed (main L) → failed (main L')) → 0 ≤ sub_block_count L' →
  (0 ≤ sub_block_count L →
   Z.max n' (sub_block_count L') + Z.b2z (signal L') ≤ Z.max n (sub_block_count L) + Z.b2z (signal L)) →
  interval L' = interval L → time_of L ≤ time_of L' → rate_inv t0 n' L'.
Proof.
  intros [Hf|(Ht0 & m & Hc0 & Hc & Hm & Hint)] Hfail Hc0' Hc' Hi Ht; [left; auto|right]. split; [lia|].
  exists m. unfold sent. rewrite Hi. specialize (Hc' Hc0). split_and!; [lia..|]. destruct (interval L); lia.
Qed.

Lemma rate_interval t0 n L L' :
  rate_inv t0 n L → interval_start p L = Some L' ∨ interval_cancel L = Some L' ∨ interval_tick p L = Some L' →
  rate_inv t0 n L'.
Proof.
  intros [Hf|(Ht0 & m & Hc0 & Hc & Hl & Hi)] Hs.
  { left. destruct Hs as [Hs|[Hs|Hs]]; unfold interval_start, interval_cancel, interval_tick in Hs;
      repeat case_match; by simplify_eq. }
  right. unfold rate_inv, sent, time_of in *.
  destruct Hs as [Hs|[Hs|Hs]]; unfold interval_start, interval_cancel, interval_tick, time_of in Hs.
  - destruct (interval L) eqn:Hint; try done. injection Hs as <-. simpl. split; [done|]. exists m.
    destruct (preconf_block_time p =? 0); split_and!; done || lia.
  - destruct (interval L) eqn:Hint; try done. destruct (cancelled L); try done. injection Hs as <-.
    simpl. split; [done|]. exists m. split_and!; done || lia.
  - destruct (interval L) as [|t|t|] eqn:Hint; try done.
    + destruct (Z.leb_spec t (clock (ticks (proposing L)))); [|done].
      fold period in Hs. destruct (signal L) eqn:Hsig; injection Hs as <-; simpl in *; (split; [done|]).
      * exists m. split_and!; lia.
      * exists (m + 1). replace (m + 1 - 1) with m by lia. split_and!; lia.
    + destruct (signal L) eqn:Hsig; [done|]. injection Hs as <-. simpl in *. split; [done|].
      exists (m + 1). replace (m + 1 - 1) with m by lia. split_and!; lia.
Qed.

Lemma rate_signal t0 n L qs L' :
  rate_inv t0 n L → main_signal p deadline limit number L = Some (qs, L') →
  rate_inv t0 (n + Z.of_nat (length qs)) L'.
Proof.
  intros Hr Hs. unfold main_signal in Hs. destruct (main L) eqn:Hm; try done.
  destruct (signal L) eqn:Hsig; try done.
  pose proof (on_signal_spec p deadline limit number (sub_block_count L) (proposing L)) as Hspec.
  destruct (on_signal _ _ _ _ _ _) as [[sub|e| |] s']; [|by injection Hs as _ <-; left..].
  assert (time_of L ≤ clock (ticks s')) as Ht by (apply clock_mono, Hspec).
  assert (Z.of_nat (length (option_list sub)) ≤ 1) as Hlen by (by destruct sub).
  destruct (u_add 64 (sub_block_count L) 1) as [count| | |] eqn:Hadd; injection Hs as <- <-; [|by left..].
  assert (0 ≤ sub_block_count L → 0 ≤ count ≤ sub_block_count L + 1) as Hcount.
  { intros Hc. unfold u_add, overflowing in Hadd. destruct (in_rangeb _ _); [|destruct overflow_checks]; simplify_eq; [lia|].
    pose proof (Z.mod_pos_bound (sub_block_count L + 1) (2 ^ 64)). 
    pose proof (Z.mod_le (sub_block_count L + 1) (2 ^ 64)). lia. }
  destruct Hr as [Hf|Hr]; [by rewrite Hm in Hf|].
  assert (0 ≤ sub_block_count L) as Hc0 by (by destruct Hr as (_ & m & ? & _)).
  eapply rate_same; [by right|by rewrite Hm|simpl; lia| |done|done].
  intros _. simpl. rewrite Hsig. simpl. lia.
Qed.

Lemma rate_step t0 n L ps L' :
  rate_inv t0 n L → step p deadline limit number L ps L' → rate_inv t0 (n + Z.of_nat (length ps)) L'.
Proof.
  intros Hr Hs.
  assert (failed (main L) → failed (main L')) as Hfail by (intros Hf; by rewrite (left_step _ _ _ _ _ _ _ Hf Hs)).
  destruct Hs as [L L' Hs|L L' Hs|L L' Hs|L L' Hs|L L' Hs|L L' Hs|L qs L' Hs|L];
    try (replace (n + Z.of_nat (length [])) with n by (simpl; lia)).
  2-4: eapply rate_interval; eauto.
  4: by eapply rate_signal.
  all: destruct Hr as [Hf|Hr]; [by left; apply Hfail|].
  all: assert (0 ≤ sub_block_count L) as Hc0 by (by destruct Hr as (_ & m & ? & _)).
  - unfold cancel_step in Hs. repeat case_match; simplify_eq;
      (eapply rate_same; [by right|done|done|simpl; lia|done|done]).
  - unfold main_fetch in Hs. destruct (main L) eqn:Hm; simplify_eq.
    eapply rate_same; [by right|by rewrite Hm|done|simpl; lia|done|]. apply clock_mono. simpl. lia.
  - unfold main_break in Hs. destruct (main L) eqn:Hm; try done. destruct (cancelled L || _); simplify_eq.
    eapply rate_same; [by right|by rewrite Hm|done|simpl; lia|done|done].
  - eapply rate_same; [by right|done|done|simpl; lia|done|]. apply clock_mono. simpl. lia.
Qed.

Lemma rate_run s k ps L :
  run p deadline limit number k (initial s) ps L → rate_inv (clock (ticks s)) (Z.of_nat (length ps)) L.
Proof.
  intros Hrun. remember (initial s) as L0 eqn:HL0. induction Hrun as [L|k L ps L' qs L'' Hrun IH Hs]; subst.
  - right. split; [done|]. exists 0. unfold sent. simpl. split_and!; done || lia.
  - rewrite length_app, Nat2Z.inj_add. eapply rate_step; [by apply IH|exact Hs].
Qed.

(** Announcements and sub-blocks against the time that has passed. *)
Lemma rate_bound s k ps L :
  run p deadline limit number k (initial s) ps L → ¬ failed (main L) →
  Z.max (Z.of_nat (length ps)) (sub_block_count L) * period ≤ time_of L - clock (ticks s) + period.
Proof.
  intros Hrun Hf. destruct (rate_run s k ps L Hrun) as [?|(Ht & m & Hc0 & Hc & Hm & _)]; [done|].
  assert (0 ≤ period) as Hp by (unfold period, from_millis; lia).
  assert (0 ≤ Z.b2z (signal L)) by (by destruct (signal L)). destruct Hm as [->|Hm]; nia.
Qed.
End Rate.

(** ** Whole proposals *)
Section Proposals.
Context `{BuildProfile} {node : Node} {bb : BlockBuilder} {json : Json}.
Context {ready_laws : ReadyLaws} {clock_laws : ClockLaws}.

Lemma push_inherents_ticks xs s u s' : push_inherents xs s = (Ok u, s') → ticks s' = ticks s.
Proof.
  revert s. induction xs as [|x xs IH]; intros s; simpl; [by intros [= _ <-]|].
  unfold try_push. rewrite M_bind_run. destruct (push x (builder s)) as [r b1].
  intros Hrun. destruct r as [[v| | |]|]; try destruct (exhausted_resources v);
    try destruct (was_mandatory v); try (by apply IH in Hrun). done.
Qed.

Lemma propose_start_ticks p pr data digest s number s1 :
  propose_start p pr data digest s = (Ok number, s1) → ticks s1 = ticks s.
Proof.
  unfold propose_start, apply_inherents. intros Hrun. inv_run.
  destruct (new_builder _ _ _ _); simplify_eq.
  destruct (create_inherents _ _) as [[|xs] b1]; simplify_eq.
  match goal with H : push_inherents _ _ = _ |- _ => apply push_inherents_ticks in H as -> end. done.
Qed.

(** A finished proposal, whoever was scheduled when. *)
Lemma factory_rate f h number paras other digest max_duration size_limit s n ps r s' :
  0 ≤ f_preconf_block_time f →
  factory_propose f h number paras other digest max_duration size_limit s n ps (Ok r) s' →
  Z.of_nat (length ps) * from_millis (f_preconf_block_time f)
    ≤ clock (ticks s') - clock (ticks s) + from_millis (f_preconf_block_time f).
Proof.
  intros Hp Hf. inversion Hf as [|data n' ps' r' s'' Hdata Hprop]; subst.
  destruct r' as [x| | |]; simplify_eq/=.
  inversion Hprop as [|deadline s1 n' ps' r' s'' Hdl Hwith]; subst.
  destruct r' as [x'| | |]; simplify_eq/=.
  inversion Hwith as [| |bn s2 n' ps' L r' Hst Hrun Hm]; subst. destruct r' as [[]| | |]; try done.
  assert (clock (ticks s) ≤ clock (ticks s2)) as Hle.
  { apply clock_mono. rewrite (propose_start_ticks _ _ _ _ _ _ _ Hst).
    unfold propose_deadline, now in Hdl. inv_run. simpl. lia. }
  pose proof (rate_bound (init_with_now f h number) deadline _ bn Hp s2 n ps L Hrun) as Hb.
  rewrite Hm in Hb. specialize (Hb ltac:(by intros [])). unfold period, time_of in Hb.
  change (preconf_block_time (init_with_now f h number)) with (f_preconf_block_time f) in Hb.
  assert (0 ≤ from_millis (f_preconf_block_time f)) by (unfold from_millis; lia). nia.
Qed.
End Proposals.
