(* ===== verification/PreconfSample.v ===== *)
(** * A sample node

    A node on which the theorems on the proposer are run: transactions and
    extrinsics are numbers, the pool is a list, every clock reading takes one
    millisecond, and the runtime rejects the extrinsics that are 9 modulo 10
    as invalid and the inherent 13 as mandatory. *)
From S2P Require Import Prelude Preconf PreconfLoop PreconfFacts PreconfRuns PreconfFair.
From Stdlib Require String.

Module Sample.
#[export] Instance node : Node := {|
  Hash := Z; Extrinsic := Z; Tx := Z; TxHash := Z;
  TransactionValidityError := Z; OtherError := Z;
  Builder := list Z; Ready := list Z; ReportMap := list (Z * option Z);
  InherentData := list Z; ParachainInherentData := Z; Digest := Z;
  Block := list Z; StorageChanges := unit; RecordedProof := unit; Proof := unit;
  Percent := Z; WebSocket := Z;
  hash_bytes h := [h]; number_width := 32;
  tx_data t := t; tx_hash t := 1000 + t; encoded_size _ := 10;
  exhausted_resources e := e =? 0; was_mandatory e := e =? 1;
  next r := match r with [] => (None, []) | t :: r => (Some t, r) end;
  report_invalid _ r := r; pending r := r;
  ready_at_with_timeout _ timeout := if timeout =? 0 then [] else [11; 19; 22; 33; 44; 55];
  report_new := []; report_insert h e m := m ++ [(h, e)];
  from_percent x := x; mul_floor pc x := pc * x / 100;
  twox_64 bs := take 8 bs;
  DEFAULT_BLOCK_SIZE_LIMIT := 85;
  ws_send_now ws _ := (0 <? ws, ws - 1);
  provide_inherent_data x xs := Some (x :: xs);
  clock k := 10 ^ 6 * Z.of_nat k;
  unix_millis k := Some (Z.of_nat k);
  instant_limit := 2 ^ 63 * 10 ^ 9
|}.

#[export] Instance builder_impl : BlockBuilder := {|
  new_builder _ _ _ _ := inr [];
  create_inherents data b := (inr data, b);
  push x b := if x mod 10 =? 9 then (Some (ApplyExtrinsicFailed_Validity 2), b)
              else if x =? 13 then (Some (ApplyExtrinsicFailed_Validity 1), b)
              else (None, b ++ [x]);
  estimate_block_size _ b := 10 * Z.of_nat (length b);
  build b := inr (b, tt, tt);
  into_proof _ := Some tt
|}.

#[export] Instance json : Json := {| to_string _ := Some String.EmptyString |}.

Definition extrinsics_of (b : @Builder node) : list (@Extrinsic node) := b.
Definition block_extrinsics (b : @Block node) : list (@Extrinsic node) := b.

#[export] Instance builder_laws : BuilderLaws extrinsics_of block_extrinsics.
Proof.
  split; simpl.
  - by intros h n pr d b [= <-].
  - by intros data b r b' [= <- <-].
  - intros x b b'. destruct (x mod 10 =? 9); [done|]. destruct (x =? 13); [done|]. by intros [= <-].
  - intros x b e b'. destruct (x mod 10 =? 9); [by intros [= <- <-]|].
    destruct (x =? 13); [by intros [= <- <-]|done].
  - by intros b blk ch pr [= <- <-].
Qed.

#[export] Instance ready_laws : ReadyLaws.
Proof.
  split; simpl.
  - intros r t r'. destruct r; [done|]. by intros [= -> ->].
  - intros r r'. destruct r; [|done]. by intros [= <-].
  - done.
Qed.

#[export] Instance clock_laws : ClockLaws.
Proof.
  split; cbn [clock node].
  - intros i j Hij. lia.
  - intros t. exists (Z.to_nat (Z.max t 0)). intros j Hj. lia.
Qed.

#[export] Instance checked_build : BuildProfile := {| overflow_checks := true |}.

Definition factory : PreConfProposerFactory := with_proof_recording 6000 4.
Definition proposer : PreConfProposer := init_with_now factory 7 41.
Definition fresh : Proposing := mkProposing node [] [] 0 [] [] true.

(** The deadline of a proposal that may take 45 milliseconds, and the state
    with the inherents 3 and 5 in the block. *)
Definition deadline : Z := 30 * 10 ^ 6.
Definition started : Proposing := (propose_start proposer true [3; 5] 0 (propose_deadline (45 * 10 ^ 6) fresh).2).2.

(** Two sub-blocks, then the deadline. *)
Definition schedule : list event :=
  [Canceller; IntervalStart; Fetch; IntervalTick; Signal; Wait; IntervalTick; Signal] ++ replicate 20 Wait
    ++ [Canceller; Leave].

Definition final : list PreConfBlockPayload * Loop :=
  default ([], initial started) (exec proposer deadline 85 42 schedule (initial started)).

Lemma final_run : run proposer deadline 85 42 (length schedule) (initial started) final.1 final.2.
Proof. apply exec_run. vm_compute. reflexivity. Qed.

Definition final_block : Proposal := mkProposal node [3; 5; 11; 22; 44; 55] tt tt.

Lemma final_result : Ok final_block = loop_result (Ok ()) (proposing final.2).
Proof. vm_compute. reflexivity. Qed.

Lemma final_proposal :
  factory_propose factory 7 41 3 [5] 0 (45 * 10 ^ 6) None fresh (length schedule) final.1
    (Ok (Some final_block)) (proposing final.2).
Proof.
  apply (factory_proposes factory 7 41 3 [5] 0 (45 * 10 ^ 6) None fresh [3; 5] (length schedule) final.1
           (Ok final_block) (proposing final.2)); [reflexivity|].
  apply (propose_runs proposer true [3; 5] 0 (45 * 10 ^ 6) None fresh deadline
           (propose_deadline (45 * 10 ^ 6) fresh).2 (length schedule) final.1 (Ok final_block)); [reflexivity|].
  rewrite final_result.
  apply (propose_loop proposer true [3; 5] 0 deadline None _ 42 started (length schedule) final.1 final.2 (Ok ()));
    [reflexivity|exact final_run|vm_compute; reflexivity].
Qed.

(** The schedule as an infinite run: afterwards only time passes. *)
Definition ev (i : nat) : event := default Wait (schedule !! i).
Fixpoint σ (i : nat) : Loop :=
  match i with
  | O => initial started
  | S i => let L := σ i in default L (snd <$> perform proposer deadline 85 42 (ev i) L)
  end.

Definition performs (i : nat) : bool :=
  bool_decide (is_Some (snd <$> perform proposer deadline 85 42 (ev i) (σ i))) &&
  match canceller (σ i), ev i with CancelSpawned, Canceller => time_of (σ i) <? deadline | _, _ => true end.

Lemma schedule_performs i : (i < length schedule)%nat → performs i = true.
Proof.
  assert (forallb performs (seq 0 (length schedule)) = true) as Hall by (vm_compute; reflexivity).
  rewrite forallb_forall in Hall. intros Hi. apply Hall, in_seq. lia.
Qed.

Lemma ev_after i : (length schedule ≤ i)%nat → ev i = Wait.
Proof. intros Hi. unfold ev. by rewrite lookup_ge_None_2. Qed.

Lemma sample_infinite : infinite_run proposer deadline 85 42 σ ev.
Proof.
  intros i. destruct (decide (i < length schedule)%nat) as [Hi|Hi].
  - apply schedule_performs in Hi. unfold performs in Hi. apply andb_prop in Hi as [Hi _].
    apply bool_decide_eq_true in Hi as [L HL]. apply fmap_Some in HL as ([ps L'] & HL & ->).
    exists ps. cbn [σ]. by rewrite HL.
  - exists []. cbn [σ]. rewrite ev_after by lia. done.
Qed.

Lemma σ_waits i : (length schedule ≤ i)%nat → σ (S i) = wait (σ i).
Proof. intros Hi. cbn [σ]. by rewrite ev_after. Qed.

Lemma sample_done i : (length schedule ≤ i)%nat → main (σ i) = Left (Ok ()) ∧ canceller (σ i) = CancelDone.
Proof.
  induction 1 as [|i Hi [Hm Hc]]; [split; vm_compute; reflexivity|].
  rewrite σ_waits by done. destruct (σ i). by simpl in *.
Qed.

Lemma sample_fair e : e ∈ [Wait; Canceller; Fetch; Leave] → fair proposer deadline 85 42 e σ ev.
Proof.
  intros He i. exists (length schedule + i)%nat. split; [lia|]. destruct (sample_done (length schedule + i)) as [Hm Hc]; [lia|].
  rewrite ev_after by lia.
  rewrite !elem_of_cons, elem_of_nil in He. destruct He as [->|[->|[->|[->|[]]]]]; [by left|right..];
    cbn [perform]; [unfold cancel_step; by rewrite Hc|unfold main_fetch; by rewrite Hm|unfold main_break; by rewrite Hm].
Qed.

Lemma sample_in_time : canceller_in_time deadline σ ev.
Proof.
  intros i Hc He. destruct (decide (i < length schedule)%nat) as [Hi|Hi]; [|by rewrite ev_after in He by lia].
  apply schedule_performs in Hi. unfold performs in Hi. apply andb_prop in Hi as [_ Hi].
  rewrite Hc, He in Hi. by apply Z.ltb_lt.
Qed.
End Sample.
