(* ===== verification/Service.v ===== *)
(** * Starting a node

    [new_partial], [start_consensus] and [start_parachain_node] of
    [client/service/src/lib.rs]: which services a node starts, in which order,
    with which parameters, and where an error stops it.  The services are the
    library's; a call of the library that can fail is a [Call], and whether it
    fails is a parameter.  The state is the list of what was started, in order. *)
From S2P Require Import Prelude Preconf.
From stdpp Require Import strings.
Local Open Scope string_scope.
Local Open Scope Z_scope.

(** Calls of the library that may fail. *)
Inductive Call :=
| Call_TelemetryWorker_new | Call_new_full_parts | Call_build_relay_chain_interface | Call_build_network
| Call_OffchainWorkers_new | Call_spawn_tasks | Call_overseer_handle | Call_check_hardware
| Call_start_relay_chain_tasks.

(** The errors of the service: the library's, or one of them boxed as an
    [Application] error. *)
Inductive ServiceError (E : Type) := Library (e : E) | ServiceApplication (e : E).
Arguments Library {E} e.
Arguments ServiceApplication {E} e.

Inductive HeapAllocStrategy := Static (extra_pages : Z) | DefaultHeapAllocStrategy.
Inductive DARecoveryProfile := Collator | FullNode.

(** The parts of [Configuration] that the code reads. *)
Record Configuration := mkConfiguration {
  telemetry_endpoints : option (list string);
  default_heap_pages : option Z;
  is_authority : bool;
  offchain_worker_enabled : bool
}.

Record AuraParams `{Node} := mkAuraParams {
  relay_chain_slot_duration : Z;   (* nanoseconds *)
  aura_proposer : PreConfProposerFactory;
  authoring_duration : Z;
  reinitialize : bool;
  max_pov_percentage : option Z
}.

Inductive Started `{Node} :=
| TelemetryTask
| FullParts (heap_pages : HeapAllocStrategy)
| TransactionPool (authority : bool)
| BuiltImportQueue
| RelayChainInterface
| Network
| OffchainWorkers (validator : bool)
| RpcAndTasks
| HardwareWarning
| HwbenchTelemetry
| RelayChainTasks (profile : DARecoveryProfile) (slot_duration : Z)
| PreconfWsServer (addr : string)
| Aura (params : AuraParams).

Section Service.
Context `{node : Node} {E : Type} (fails : Call → option E).

Abbreviation S A := (M (list Started) (ServiceError E) A).

Definition started (x : Started) : S () := modify (λ l, (l ++ [x])%list).
Definition call (c : Call) : S () :=
  match fails c with Some e => throw (Library e) | None => mret () end.
Definition call_boxed (c : Call) : S () :=
  match fails c with Some e => throw (ServiceApplication e) | None => mret () end.

(** Returns whether there is telemetry. *)
Definition new_partial (config : Configuration) : S bool :=
  let endpoints := match telemetry_endpoints config with
                   | Some x => if (length x =? 0)%nat then None else Some x
                   | None => None
                   end in
  telemetry ← (if endpoints is Some _ then _ ← call Call_TelemetryWorker_new; mret true else mret false);
  let heap_pages := match default_heap_pages config with
                    | Some h => Static h
                    | None => DefaultHeapAllocStrategy
                    end in
  _ ← call Call_new_full_parts;
  _ ← started (FullParts heap_pages);
  _ ← (if telemetry : bool then started TelemetryTask else mret ());
  _ ← started (TransactionPool (is_authority config));
  _ ← started BuiltImportQueue;
  mret telemetry.

Definition start_consensus (slot_duration : Z) : S () :=
  _ ← started (PreconfWsServer "127.0.0.1:10000");
  let proposer := with_proof_recording (slot_duration / 10 ^ 6) 200 in
  started (Aura {|
    relay_chain_slot_duration := slot_duration;
    aura_proposer := proposer;
    authoring_duration := from_millis 2000;
    reinitialize := false;
    max_pov_percentage := None
  |}).

(** The outcome of the hardware benchmark. *)
Definition report_hardware (validator telemetry : bool) : S () :=
  _ ← (if fails Call_check_hardware is Some _ then
         if validator then started HardwareWarning else mret ()
       else mret ());
  if telemetry then started HwbenchTelemetry else mret ().

Definition start_parachain_node (config : Configuration) (has_collator_key : bool) (hwbench : bool) : S () :=
  telemetry ← new_partial config;
  _ ← call_boxed Call_build_relay_chain_interface;
  _ ← started RelayChainInterface;
  let validator := is_authority config in
  _ ← call Call_build_network;
  _ ← started Network;
  _ ← (if offchain_worker_enabled config then
         _ ← call Call_OffchainWorkers_new;
         started (OffchainWorkers (is_authority config))
       else mret ());
  _ ← call Call_spawn_tasks;
  _ ← started RpcAndTasks;
  _ ← (if hwbench then report_hardware validator telemetry else mret ());
  let slot_duration := 6 * 10 ^ 9 in
  _ ← call_boxed Call_overseer_handle;
  _ ← call Call_start_relay_chain_tasks;
  _ ← started (RelayChainTasks (if validator then Collator else FullNode) slot_duration);
  if validator then
    _ ← lift (if has_collator_key then Ok () else Panic);
    start_consensus slot_duration
  else mret ().

(** ** Facts *)

(** The consensus tasks of a collator. *)
Definition consensus : list Started :=
  [PreconfWsServer "127.0.0.1:10000";
   Aura {| relay_chain_slot_duration := 6 * 10 ^ 9; aura_proposer := with_proof_recording 6000 200;
           authoring_duration := 2000 * 10 ^ 6; reinitialize := false; max_pov_percentage := None |}].

Definition is_consensus (x : Started) : bool :=
  match x with PreconfWsServer _ | Aura _ => true | _ => false end.

(** A run appends services, and on success the services [tail] at the end. *)
Definition starts {A} (m : S A) (tail : list Started) : Prop :=
  ∀ l r l', m l = (r, l') →
    ∃ k, Forall (λ x, is_consensus x = false) k ∧
         l' = (l ++ k ++ match r with Ok _ => tail | _ => [] end)%list.

(** Services other than consensus are appended. *)
Abbreviation only_services := (appends (λ x, is_consensus x = false)).

Lemma only_call c : only_services (call c).
Proof. unfold call. destruct (fails c); auto with appending. Qed.
Lemma only_call_boxed c : only_services (call_boxed c).
Proof. unfold call_boxed. destruct (fails c); auto with appending. Qed.
Lemma only_started x : is_consensus x = false → only_services (started x).
Proof. unfold started. auto with appending. Qed.
#[local] Hint Resolve only_call only_call_boxed only_started : appending.

Lemma only_starts {A} (m : S A) : only_services m → starts m [].
Proof.
  intros Hm l r l' (k & -> & Hk)%Hm. exists k. split; [done|]. destruct r; by rewrite app_nil_r.
Qed.

Lemma starts_bind {A B} (m : S A) (f : A → S B) tail :
  only_services m → (∀ a, starts (f a) tail) → starts (m ≫= f) tail.
Proof.
  intros Hm Hf l r l' Hrun. rewrite M_bind_run in Hrun.
  destruct (m l) as [[a|e| |] l1] eqn:H1; destruct (Hm _ _ _ H1) as (k1 & -> & Hk1);
    [|injection Hrun as <- <-; exists k1; split; [done|by rewrite app_nil_r]..].
  destruct (Hf a _ _ _ Hrun) as (k2 & Hk2 & ->). exists (k1 ++ k2)%list.
  split; [by apply Forall_app|by rewrite !app_assoc].
Qed.

Lemma new_partial_only config : only_services (new_partial config).
Proof.
  unfold new_partial.
  destruct (match telemetry_endpoints config with Some _ => _ | None => _ end); auto 20 with appending.
Qed.

Lemma report_hardware_only v t : only_services (report_hardware v t).
Proof. unfold report_hardware. destruct (fails _); auto with appending. Qed.
#[local] Hint Resolve new_partial_only report_hardware_only : appending.

Lemma start_node_starts config key hwbench :
  starts (start_parachain_node config key hwbench) (if is_authority config then consensus else []).
Proof.
  unfold start_parachain_node.
  repeat (apply starts_bind; [auto with appending|intros]).
  destruct (is_authority config); [|by apply only_starts; auto with appending].
  destruct key; intros l r l' [= <- <-]; exists []; (split; [constructor|]); [|by rewrite app_nil_r].
  by rewrite <-app_assoc.
Qed.

(** Without failures the node starts. *)
Lemma start_node_ok config key hwbench l :
  (∀ c, fails c = None) → (is_authority config = true → key = true) →
  (start_parachain_node config key hwbench l).1 = Ok ().
Proof.
  intros Hf Hk. unfold start_parachain_node, new_partial, report_hardware, call, call_boxed. rewrite !Hf.
  destruct (telemetry_endpoints config) as [x|]; [destruct (length x =? 0)%nat|];
    destruct (offchain_worker_enabled config), hwbench, (is_authority config) eqn:Ha;
    try (rewrite (Hk eq_refl)); reflexivity.
Qed.
End Service.
