(* ===== verification/Commands.v ===== *)
(** * The command line

    [client/cli/src/command.rs] and [lib.rs]: what each subcommand does, and
    how the command line starts a node.  Parsing, the runner that makes a
    configuration of the arguments, the subcommands themselves and the
    hardware benchmark are the library's: parameters.  The state is the list
    of actions taken, in order. *)
From S2P Require Import Prelude Runtime ChainSpec Preconf Service.
From Stdlib Require Import Ascii.
From stdpp Require Import strings.
Local Open Scope string_scope.
Local Open Scope Z_scope.

Inductive BenchmarkCmd := Pallet | Block | Storage | Machine | OtherBenchmark.

Inductive Subcommand :=
| BuildSpec | CheckBlock | ExportBlocks | ExportState | ImportBlocks | Revert | PurgeChain
| ExportGenesisHead
| ExportGenesisWasm (chain : option string)
| Benchmark (cmd : BenchmarkCmd).

Record Cli := mkCli {
  subcommand : option Subcommand;
  no_hardware_benchmarks : bool;
  relay_chain_args : list string
}.

(** The parts of the library's [Configuration] that the command line reads;
    [chain_extensions] is [Extensions::try_get] of its chain specification. *)
Record NodeConfiguration := mkNodeConfiguration {
  service_config : Configuration;
  chain_extensions : option Extensions;
  database_path : option string;
  base_path_of : string
}.

(** The library.  [parse_from] leaves the process on arguments it does not
    know ([None]); [parsed_chain_id] and [parsed_base_path] are the methods of
    the parsed arguments of the relay chain. *)
Class CommandLib := {
  CommandError : Type;
  RelayRun : Type;
  RelayConfiguration : Type;
  executable_name : string;
  runtime_benchmarks : bool;
  create_runner : option Subcommand → outcome CommandError NodeConfiguration;
  command_fails : Subcommand → option CommandError;
  parse_from : list string → option RelayRun;
  parsed_chain_id : RelayRun → bool → outcome CommandError string;
  parsed_base_path : RelayRun → outcome CommandError (option string)
}.

(** [sc_cli::Error] *)
Inductive CliError `{CommandLib} (E : Type) :=
| Input (s : string)
| FromService (e : ServiceError E)
| FromLibrary (e : CommandError).
Arguments Input {_ E} s.
Arguments FromService {_ E} e.
Arguments FromLibrary {_ E} e.

(** ** The arguments for the relay chain *)
Section Relay.
Context `{CommandLib}.

Record RelayChainCli := mkRelayChainCli {
  base : RelayRun;
  chain_id : option string;
  base_path : option string
}.

(** [Path::join] with a relative path. *)
Definition join (a b : string) : string :=
  match last (String.list_ascii_of_string a) with
  | None => b
  | Some c => if decide (c = "/"%char) then a +:+ b else a +:+ "/" +:+ b
  end.

Definition RelayChainCli_new {E} (para_config : NodeConfiguration) (args : list string) : outcome E RelayChainCli :=
  let extension := chain_extensions para_config in
  let chain_id := relay_chain <$> extension in
  let base_path := join (base_path_of para_config) "polkadot" in
  match parse_from args with
  | Some run => Ok {| base := run; chain_id := chain_id; base_path := Some base_path |}
  | None => Panic
  end.

Definition relay_chain_id (self : RelayChainCli) (is_dev : bool) : outcome CommandError string :=
  id ← parsed_chain_id (base self) is_dev;
  Ok (if decide (id = "") then default "" (chain_id self) else id).

Definition relay_base_path (self : RelayChainCli) : outcome CommandError (option string) :=
  shared ← parsed_base_path (base self);
  Ok (match shared with Some p => Some p | None => base_path self end).

Definition p2p_listen_port : Z := 30334.
Definition rpc_listen_port : Z := 9945.
Definition prometheus_listen_port : Z := 9616.
End Relay.

(** ** Running a command *)
(** What a subcommand is given. *)
Inductive Part (Spec RelayConfig : Type) :=
| PClient | PImportQueue | PBackend | PDatabaseConfig | PDatabase | PStorage | PChainSpec | PNetwork | PConfig
| PHardware
| PRelayConfig (c : RelayConfig)
| PSpec (s : Spec).
Arguments PClient {_ _}. Arguments PImportQueue {_ _}. Arguments PBackend {_ _}. Arguments PDatabaseConfig {_ _}.
Arguments PDatabase {_ _}. Arguments PStorage {_ _}. Arguments PChainSpec {_ _}. Arguments PNetwork {_ _}.
Arguments PConfig {_ _}. Arguments PHardware {_ _}. Arguments PRelayConfig {_ _} c. Arguments PSpec {_ _} s.

Section Command.
Context `{node : Node, CL : CommandLib} {Account : Type} `{SL : SpecLib Account, SF : !SpecFiles} {E : Type}.

Inductive Action :=
| Service (x : Started)
| Ran (cmd : Subcommand) (parts : list (Part ChainSpec RelayConfiguration))
| CreateDir (path : string)
| GatherHwbench (path : string)
| StartNode (id : Z) (relay : RelayConfiguration) (hwbench : bool).

Abbreviation C A := (M (list Action) (CliError E) A).

(** Which calls of the service fail, the configuration that the arguments for
    the relay chain make, and whether the relay chain has a collator key. *)
Variables (fails : Call → option E) (create_configuration : RelayChainCli → outcome string RelayConfiguration)
  (collator_key : RelayConfiguration → bool).

Definition act (x : Action) : C () := modify (λ l, (l ++ [x])%list).
Definition runner (cmd : option Subcommand) : C NodeConfiguration :=
  lift (map_err FromLibrary (create_runner cmd)).
Definition run_command (cmd : Subcommand) (parts : list (Part ChainSpec RelayConfiguration)) : C () :=
  _ ← act (Ran cmd parts);
  match command_fails cmd with Some e => throw (FromLibrary e) | None => mret () end.

(** A call of the service, with what it starts. *)
Definition service {A} (m : M (list Started) (ServiceError E) A) : C A :=
  λ l, let '(r, k) := m [] in (map_err FromService r, (l ++ (Service <$> k))%list).

Definition with_partial (cmd : Subcommand) (parts : list (Part ChainSpec RelayConfiguration)) : C () :=
  config ← runner (Some cmd);
  _ ← service (new_partial fails (service_config config));
  run_command cmd parts.

Definition relay_configuration (cli : Cli) (config : NodeConfiguration) : C RelayConfiguration :=
  polkadot_cli ← lift (RelayChainCli_new config (executable_name :: relay_chain_args cli));
  lift (map_err (λ err, Input ("Relay chain argument error: " +:+ err)) (create_configuration polkadot_cli)).

Definition benchmark (cmd : BenchmarkCmd) : C () :=
  config ← runner (Some (Benchmark cmd));
  match cmd with
  | Pallet =>
      if runtime_benchmarks then run_command (Benchmark cmd) [PChainSpec]
      else throw (Input "Benchmarking wasn't enabled when building the node. You can enable it with `--features runtime-benchmarks`.")
  | Block =>
      _ ← service (new_partial fails (service_config config));
      run_command (Benchmark cmd) [PClient]
  | Storage =>
      if runtime_benchmarks then
        _ ← service (new_partial fails (service_config config));
        run_command (Benchmark cmd) [PConfig; PClient; PDatabase; PStorage]
      else throw (Input "Compile with --features=runtime-benchmarks to enable storage benchmarks.")
  | Machine => run_command (Benchmark cmd) [PConfig; PHardware]
  | OtherBenchmark => throw (Input "Benchmarking sub-command unsupported")
  end.

(** The arguments of [then_some] are evaluated in any case. *)
Definition hardware_benchmark (cli : Cli) (config : NodeConfiguration) : C bool :=
  gathered ← match database_path config with
             | Some path => _ ← act (CreateDir path); _ ← act (GatherHwbench path); mret true
             | None => mret false
             end;
  mret (if no_hardware_benchmarks cli then false else gathered).

Definition run_node (cli : Cli) : C () :=
  config ← runner None;
  hwbench ← hardware_benchmark cli config;
  id ← lift (ok_or (para_id <$> chain_extensions config) (Input "Could not find parachain ID in chain-spec."));
  polkadot_config ← relay_configuration cli config;
  _ ← act (StartNode id polkadot_config hwbench);
  service (start_parachain_node fails (service_config config) (collator_key polkadot_config) hwbench).

Definition run (cli : Cli) : C () :=
  match subcommand cli with
  | Some BuildSpec => _ ← runner (Some BuildSpec); run_command BuildSpec [PChainSpec; PNetwork]
  | Some CheckBlock => with_partial CheckBlock [PClient; PImportQueue]
  | Some ExportBlocks => with_partial ExportBlocks [PClient; PDatabaseConfig]
  | Some ExportState => with_partial ExportState [PClient; PChainSpec]
  | Some ImportBlocks => with_partial ImportBlocks [PClient; PImportQueue]
  | Some Revert => with_partial Revert [PClient; PBackend]
  | Some PurgeChain =>
      config ← runner (Some PurgeChain);
      polkadot_config ← relay_configuration cli config;
      run_command PurgeChain [PConfig; PRelayConfig polkadot_config]
  | Some ExportGenesisHead => with_partial ExportGenesisHead [PClient]
  | Some (ExportGenesisWasm chain) =>
      _ ← runner (Some (ExportGenesisWasm chain));
      spec ← lift (map_err Input (load_spec (default "" chain)));
      run_command (ExportGenesisWasm chain) [PSpec spec]
  | Some (Benchmark cmd) => benchmark cmd
  | None => run_node cli
  end.

(** ** Facts *)
(** Actions that do not start a node. *)
Definition harmless (x : Action) : Prop :=
  match x with
  | Service x => is_consensus x = false
  | StartNode _ _ _ => False
  | _ => True
  end.

Lemma service_harmless {A} (m : M (list Started) (ServiceError E) A) :
  appends (λ x, is_consensus x = false) m → appends harmless (service m).
Proof.
  intros Hm l r l' Hrun. unfold service in Hrun. destruct (m []) as [r0 k0] eqn:Hr.
  injection Hrun as _ <-. destruct (Hm _ _ _ Hr) as (k & -> & Hk). exists (Service <$> k).
  split; [done|]. apply Forall_fmap. by apply Hk.
Qed.
Lemma act_harmless x : harmless x → appends harmless (act x).
Proof. unfold act. auto with appending. Qed.
Lemma runner_harmless cmd : appends harmless (runner cmd).
Proof. unfold runner. auto with appending. Qed.
Lemma run_command_harmless cmd parts : appends harmless (run_command cmd parts).
Proof.
  unfold run_command, act. apply appends_bind; [by apply appends_one|].
  intros _. destruct (command_fails cmd); auto with appending.
Qed.
Lemma relay_configuration_harmless cli config : appends harmless (relay_configuration cli config).
Proof. unfold relay_configuration. auto with appending. Qed.
Lemma partial_harmless config : appends harmless (service (new_partial fails config)).
Proof. apply service_harmless, new_partial_only. Qed.
#[local] Hint Resolve act_harmless runner_harmless run_command_harmless relay_configuration_harmless
  partial_harmless : appending.

(** A subcommand starts the parts of a node at most. *)
Lemma subcommand_harmless cli cmd : subcommand cli = Some cmd → appends harmless (run cli).
Proof.
  unfold run, with_partial, benchmark. intros ->.
  destruct cmd as [| | | | | | | | |[]]; try destruct runtime_benchmarks; auto 8 with appending.
Qed.

(** What the hardware benchmark leaves behind and hands on. *)
Lemma hardware_benchmark_run cli config l :
  hardware_benchmark cli config l =
    (Ok (negb (no_hardware_benchmarks cli) && bool_decide (is_Some (database_path config))),
     (l ++ match database_path config with Some p => [CreateDir p; GatherHwbench p] | None => [] end)%list).
Proof.
  unfold hardware_benchmark, act, modify. rewrite M_bind_run.
  destruct (database_path config) as [p|]; rewrite ?M_bind_run; cbn;
    rewrite <-?app_assoc, ?app_nil_r; by destruct (no_hardware_benchmarks cli).
Qed.

(** Starting a node, step by step. *)
Lemma run_node_spec cli config :
  create_runner None = Ok config →
  let hw := match database_path config with Some p => [CreateDir p; GatherHwbench p] | None => [] end in
  let hwbench := negb (no_hardware_benchmarks cli) && bool_decide (is_Some (database_path config)) in
  run_node cli [] =
    match chain_extensions config with
    | None => (Err (Input "Could not find parachain ID in chain-spec."), hw)
    | Some e =>
        match parse_from (executable_name :: relay_chain_args cli) with
        | None => (Panic, hw)
        | Some relay =>
            match create_configuration (mkRelayChainCli relay (Some (relay_chain e))
                                          (Some (join (base_path_of config) "polkadot"))) with
            | Ok c =>
                let '(r, k) := start_parachain_node fails (service_config config) (collator_key c) hwbench [] in
                (map_err FromService r, (hw ++ StartNode (para_id e) c hwbench :: (Service <$> k))%list)
            | Err err => (Err (Input ("Relay chain argument error: " +:+ err)), hw)
            | Panic => (Panic, hw)
            | OutOfFuel => (OutOfFuel, hw)
            end
        end
    end.
Proof.
  intros Hc hw hwbench. unfold run_node, runner. rewrite M_bind_run. unfold lift at 1. rewrite Hc. cbn [map_err].
  rewrite M_bind_run, hardware_benchmark_run. rewrite app_nil_l. fold hw hwbench.
  rewrite M_bind_run. unfold lift. destruct (chain_extensions config) as [e|] eqn:He; [|done].
  cbn [fmap option_fmap option_map ok_or]. rewrite M_bind_run.
  unfold relay_configuration. rewrite M_bind_run. unfold lift, RelayChainCli_new. rewrite He.
  destruct (parse_from _) as [relay|]; [|done]. cbn [fmap option_fmap option_map].
  destruct (create_configuration _) as [c|err| |]; try done. cbn [map_err].
  rewrite M_bind_run. unfold act, modify, service.
  destruct (start_parachain_node _ _ _ _ _) as [r k]. by rewrite <-app_assoc.
Qed.
End Command.
