(* ===== verification/BookProps.v ===== *)
(** * Properties of the critbit tree, the price levels and the order book

    The main theorems on the data structures, each with a run on concrete
    data where it has hypotheses. *)
From S2P Require Import Prelude Index Critbit CritbitShape CritbitOps CritbitInsert CritbitRemove OrderId BTreeMap Tick OrderBook Findings.
From Stdlib Require Import Bool.

(** ** Sample data: [u64] prices, numbers as accounts *)
Module Sample.
#[global] Instance idx : OrderBookIndex := u64.
#[global] Instance prof : BuildProfile := {| overflow_checks := true |}.
#[global] Instance iface : OrderInterface Z (Tick Z) := Tick_OrderInterface.

Definition cmds : list (book_cmd Z) :=
  [CmdPlace (mkOrderId 0) 7 100 5 9; CmdPlace (mkOrderId 1) 8 104 6 9;
   CmdPlace (mkOrderId 2) 9 100 4 9; CmdPlace (mkOrderId 3) 7 77 1 9].

Definition tree : CritbitTree (Tick Z) := (run_cmds step_tree cmds new).2.
Definition tick : Tick Z :=
  mkTick [(0, mkOrder 5 7 9); (2, mkOrder 4 9 9); (6, mkOrder 8 7 9)].

Lemma cmds_ok : Forall cmd_ok cmds.
Proof. repeat constructor; vm_compute; congruence. Qed.

Lemma tree_is_ok : tree_ok tree.
Proof.
  apply (run_refines cmds new); [apply cmds_ok| |vm_compute; congruence].
  split; [by left|]. rewrite contents_new. apply map_Forall_empty.
Qed.

Lemma tree_is_wf : tree_wf tree.
Proof. apply tree_is_ok. Qed.

Lemma tick_is_ok : tick_ok tick.
Proof. split; repeat constructor; vm_compute; congruence. Qed.
End Sample.

Section Tree.
Context `{OrderBookIndex, BuildProfile} {V : Type}.
Implicit Types t : CritbitTree V.

(** C8: Inserting into a well-formed critbit tree, case by case.  A new key is
    added: the tree stays well-formed, the map it stands for gains exactly
    that key and value, and one leaf index is used up.  A key that is present
    is reported as [AlreadyExist], used-up leaf indices as [ExceedCapacity];
    there is no other error. *)
Theorem insert_correct t key v :
  tree_wf t → in_range BITS key →
  if decide (next_leaf_node_index t = CAPACITY) then (insert key v t).1 = Err ExceedCapacity
  else match contents t !! key with
       | Some _ => (insert key v t).1 = Err AlreadyExist
       | None => ∃ t', insert key v t = (Ok (), t') ∧ tree_wf t' ∧
                       contents t' = <[key := v]> (contents t) ∧
                       next_leaf_node_index t' = next_leaf_node_index t + 1
       end.
Proof.
  intros Hwf Hkey. pose proof (tree_wf_next t Hwf). case_decide; [by rewrite insert_full|].
  destruct (contents t !! key) as [v0|] eqn:Hk.
  - rewrite (insert_present t key v v0); [done|done|lia|done].
  - apply insert_absent; [done|done|lia|done].
Qed.

(** C9: Removing a leaf by its index returns its value, keeps the tree
    well-formed (minimum, maximum, parent links and order included) and
    deletes exactly its key; removing the last leaf resets the tree.  An
    index that names no leaf is reported as [NotFound] and changes nothing. *)
Theorem remove_correct t i :
  tree_wf t →
  match leaves t !! i with
  | Some lf => ∃ t', remove_leaf_by_index i t = (Ok (lf_value lf), t') ∧ tree_wf t' ∧
                     contents t' = delete (lf_key lf) (contents t) ∧
                     (contents t' = ∅ → t' = new)
  | None => remove_leaf_by_index i t = (Err NotFound, t)
  end.
Proof.
  intros Hwf. destruct (leaves t !! i) as [lf|] eqn:Hi; [|by apply remove_missing].
  destruct (remove_present t i lf Hwf Hi) as (t' & Hrun & Hwf' & Hc & _).
  exists t'. split_and!; [done|done|done|]. by apply contents_empty.
Qed.

(** The cached extreme leaves are the least and the greatest key, and
    the size and emptiness of the tree are those of its contents. *)
Theorem extremes_correct t :
  tree_wf t →
  match min_leaf t with
  | Ok None => contents t = ∅
  | Ok (Some (k, i)) => least_key (contents t) k ∧ find_leaf t k = Ok (Some i)
  | _ => False
  end ∧
  match max_leaf t with
  | Ok None => contents t = ∅
  | Ok (Some (k, i)) => greatest_key (contents t) k ∧ find_leaf t k = Ok (Some i)
  | _ => False
  end ∧
  size t = stdpp.base.size (contents t) ∧ (is_empty t = true ↔ contents t = ∅).
Proof.
  intros Hwf. split_and!.
  - destruct (min_leaf_spec t Hwf) as [[? ->]|(k & i & -> & ? & ?)]; done.
  - destruct (max_leaf_spec t Hwf) as [[? ->]|(k & i & -> & ? & ?)]; done.
  - by apply contents_size.
  - unfold is_empty. rewrite bool_decide_eq_true, contents_empty by done.
    split; [|by intros ->]. intros He. destruct Hwf as [|[s Hts]]; [done|].
    by apply (ts_nonempty t s) in He.
Qed.

(** From a key that is present, [next_leaf] and [previous_leaf] lead to
    the neighbouring keys in ascending order, or report that there is none. *)
Theorem neighbours_correct t k :
  tree_wf t → is_Some (contents t !! k) →
  match next_leaf t k with
  | Ok (Some (k', i)) => succ_key (contents t) k k' ∧ find_leaf t k' = Ok (Some i)
  | Ok None => greatest_key (contents t) k
  | _ => False
  end ∧
  match previous_leaf t k with
  | Ok (Some (k', i)) => pred_key (contents t) k k' ∧ find_leaf t k' = Ok (Some i)
  | Ok None => least_key (contents t) k
  | _ => False
  end.
Proof.
  intros Hwf Hk. split.
  - destruct (next_leaf_contents t k Hwf Hk) as [(k' & i & -> & ? & ?)|[-> ?]]; done.
  - destruct (previous_leaf_contents t k Hwf Hk) as [(k' & i & -> & ? & ?)|[-> ?]]; done.
Qed.

(** C40: The queries on a well-formed tree terminate without an error.  The
    search finds a key exactly when the tree holds it, at the leaf with its
    value; the cached extreme leaves are the least and the greatest key, and
    size and emptiness are those of the contents; from a key that is present
    [next_leaf] and [previous_leaf] lead to its neighbours in ascending order,
    or report that there is none. *)
Theorem tree_queries_correct t k :
  tree_wf t →
  match contents t !! k with
  | Some v =>
      (∃ i q, find_leaf t k = Ok (Some i) ∧ leaves t !! i = Some (mkLeafNode q k v)) ∧
      match next_leaf t k with
      | Ok (Some (k', i)) => succ_key (contents t) k k' ∧ find_leaf t k' = Ok (Some i)
      | Ok None => greatest_key (contents t) k
      | _ => False
      end ∧
      match previous_leaf t k with
      | Ok (Some (k', i)) => pred_key (contents t) k k' ∧ find_leaf t k' = Ok (Some i)
      | Ok None => least_key (contents t) k
      | _ => False
      end
  | None => find_leaf t k = Ok None
  end ∧
  match min_leaf t with
  | Ok None => contents t = ∅
  | Ok (Some (k, i)) => least_key (contents t) k ∧ find_leaf t k = Ok (Some i)
  | _ => False
  end ∧
  match max_leaf t with
  | Ok None => contents t = ∅
  | Ok (Some (k, i)) => greatest_key (contents t) k ∧ find_leaf t k = Ok (Some i)
  | _ => False
  end ∧
  size t = stdpp.base.size (contents t) ∧ (is_empty t = true ↔ contents t = ∅).
Proof.
  intros Hwf. split; [|by apply extremes_correct].
  pose proof (find_leaf_spec t k Hwf) as Hf. destruct (contents t !! k) as [v|] eqn:Hk; [|done].
  split; [done|]. apply neighbours_correct; [done|by rewrite Hk].
Qed.
End Tree.

Lemma insert_correct_witness :
  (insert 100 (Tick_new (mkOrderId 4) 3 2 1) Sample.tree).1 = Err AlreadyExist ∧
  ∃ t', insert 90 (Tick_new (mkOrderId 4) 3 2 1) Sample.tree = (Ok (), t') ∧ tree_wf t'.
Proof.
  assert (in_range BITS 100) as H100 by (split; vm_compute; congruence).
  assert (in_range BITS 90) as H90 by (split; vm_compute; congruence).
  pose proof (insert_correct Sample.tree 100 (Tick_new (mkOrderId 4) 3 2 1) Sample.tree_is_wf H100) as H1.
  pose proof (insert_correct Sample.tree 90 (Tick_new (mkOrderId 4) 3 2 1) Sample.tree_is_wf H90) as H2.
  destruct (decide (next_leaf_node_index Sample.tree = CAPACITY)) as [E|_]; [vm_compute in E; discriminate E|].
  destruct (contents Sample.tree !! 100) eqn:E1; [|vm_compute in E1; discriminate E1].
  destruct (contents Sample.tree !! 90) eqn:E2; [vm_compute in E2; discriminate E2|].
  destruct H2 as (t' & H2 & H3 & _). split; [exact H1|]. exists t'. split; [exact H2|exact H3].
Defined.

Lemma remove_correct_witness :
  remove_leaf_by_index 9 Sample.tree = (Err NotFound, Sample.tree) ∧
  ∃ lf t', leaves Sample.tree !! 1 = Some lf ∧
    remove_leaf_by_index 1 Sample.tree = (Ok (lf_value lf), t') ∧ tree_wf t'.
Proof.
  pose proof (remove_correct Sample.tree 9 Sample.tree_is_wf) as H9.
  destruct (leaves Sample.tree !! 9) eqn:E9; [vm_compute in E9; discriminate E9|].
  split; [exact H9|].
  pose proof (remove_correct Sample.tree 1 Sample.tree_is_wf) as H1.
  destruct (leaves Sample.tree !! 1) as [lf|] eqn:Hlf; [|vm_compute in Hlf; discriminate Hlf].
  destruct H1 as (t' & H1 & H2 & _).
  exists lf, t'. split; [reflexivity|]. split; [exact H1|exact H2].
Defined.

Lemma tree_queries_correct_witness :
  least_key (contents Sample.tree) 77 ∧ succ_key (contents Sample.tree) 100 104.
Proof.
  assert (min_leaf Sample.tree = Ok (Some (77, 2))) as Hm by (vm_compute; reflexivity).
  assert (next_leaf Sample.tree 100 = Ok (Some (104, 1))) as Hn by (vm_compute; reflexivity).
  destruct (tree_queries_correct Sample.tree 100 Sample.tree_is_wf) as (H1 & H2 & _).
  destruct (contents Sample.tree !! 100) eqn:E1; [|vm_compute in E1; discriminate E1].
  destruct H1 as (_ & H1 & _). rewrite Hm in H2. rewrite Hn in H1. split; [exact (proj1 H2)|exact (proj1 H1)].
Defined.

(** ** Price levels *)
Section Levels.
Context `{OrderBookIndex, BuildProfile} {Account : Type} `{EqDecision Account}.
Implicit Types self : Tick Account.

(** C13: Filling a price level serves the orders first come, first served in
    every build, without an abort: it takes the smaller of the requested
    and the open quantity, what it hands out and what remains add up to
    what was there, the fills name the first orders in id order, and no
    order loses more than it had. *)
Theorem filled_fifo {E} q self :
  in_range BITS q → tick_ok self →
  let l := open_orders self in
  let m := Z.min q (total l) in
  ∃ r self', Tick_filled (E:=E) q self = (Ok r, self') ∧ tick_ok self' ∧
    (r = None ↔ m = 0) ∧
    fill_sum (default [] r) = m ∧ total (open_orders self') = total l - m ∧
    (∃ k, (open_orders self').*1 = drop k l.*1 ∧
          (default [] r).*1 `prefix_of` (owner <$> l.*2)) .
Proof.
  intros Hq Hok l m. eexists _, _. split; [by apply filled_serve|].
  destruct (serve_conserves q l (proj1 Hq) (proj2 Hok)) as (Hf & Ht & _).
  split_and!; [apply serve_ok; [apply Hq|done]| | |done|].
  - destruct (Z.eqb_spec (Z.min q (total (open_orders self))) 0); naive_solver.
  - destruct (Z.eqb_spec (Z.min q (total (open_orders self))) 0) as [He|]; [simpl; subst m l; lia|done].
  - destruct (serve_keys q l) as [pre Hpre]. exists (length pre). simpl. split.
    + by rewrite Hpre, drop_app_length.
    + destruct (_ =? 0); simpl; [apply prefix_nil|]. fold l. apply serve_owners.
Qed.

(** An order placed with a fresh id joins the end of the queue of its
    level, and a level stays well-formed. *)
Theorem placed_joins_queue id o q e self :
  tick_ok self → in_range BITS q →
  (∀ x, x ∈ (open_orders self).*1 → x < order_id_value id) →
  open_orders (Tick_placed id o q e self) =
    open_orders self ++ [(order_id_value id, mkOrder q o e)] ∧
  tick_ok (Tick_placed id o q e self).
Proof. intros Hok Hq Hid. split; [by apply Tick_placed_last|by apply Tick_placed_ok]. Qed.

(** Cancelling succeeds exactly for the owner of an open order and at
    most its quantity; it reduces the order by that quantity and drops it at
    zero.  Every other case is the error that names it, and changes nothing. *)
Theorem canceled_correct who id q self :
  tick_ok self → in_range BITS q →
  match bt_get (order_id_value id) (open_orders self) with
  | None => Tick_canceled who id q self = (Err OrderNotExist, self)
  | Some o =>
      if decide (owner o ≠ who) then Tick_canceled who id q self = (Err NotOwner, self)
      else if decide (quantity o < q) then Tick_canceled who id q self = (Err Underflow, self)
      else ∃ self', Tick_canceled who id q self = (Ok (), self') ∧ tick_ok self' ∧
        total (open_orders self') = total (open_orders self) - q ∧
        bt_get (order_id_value id) (open_orders self') =
          (if decide (quantity o = q) then None else Some (with_quantity (quantity o - q) o))
  end.
Proof.
  intros Hok Hq. pose proof (canceled_spec who id q self Hok Hq) as Hc.
  pose proof (cancel_effect_ok self (order_id_value id) q who Hok (proj1 Hq)) as Hk.
  pose proof (cancel_effect_total self who (order_id_value id) q Hok) as Ht.
  unfold cancel_result, cancel_effect in *.
  destruct (bt_get (order_id_value id) (open_orders self)) as [o|] eqn:Hget; [|done].
  destruct (decide (owner o = who)); destruct (decide (owner o ≠ who)); try done.
  destruct (Z.leb_spec q (quantity o)); destruct (decide (quantity o < q)); try lia; [|done].
  eexists. split_and!; [exact Hc|by apply Hk|by apply Ht|].
  destruct (Z.eqb_spec (quantity o) q), (decide (quantity o = q)); try done; simpl.
  - rewrite bt_get_remove by apply Hok. by rewrite Z.eqb_refl.
  - rewrite bt_get_insert. by rewrite Z.eqb_refl.
Qed.

(** An order that is filled exactly is not removed: a fill of the whole
    open quantity of a level leaves a level that is not empty and holds
    nothing. *)
Theorem exact_fill_leaves_residue {E} self :
  tick_ok self → 0 < total (open_orders self) < 2 ^ BITS →
  let self' := (Tick_filled (E:=E) (total (open_orders self)) self).2 in
  Tick_is_empty self' = false ∧ total (open_orders self') = 0.
Proof. apply exact_fill_stays. Qed.
End Levels.

Lemma filled_fifo_witness :
  ∃ r self', Tick_filled (E:=CritbitTreeError) 7 Sample.tick = (Ok r, self') ∧
    fill_sum (default [] r) = 7 ∧ total (open_orders self') = 10.
Proof.
  destruct (filled_fifo (E:=CritbitTreeError) 7 Sample.tick) as (r & t & H1 & _ & _ & H2 & H3 & _).
  - split; vm_compute; congruence.
  - exact Sample.tick_is_ok.
  - exists r, t. split; [exact H1|]. split; [exact H2|exact H3].
Defined.

Lemma placed_joins_queue_witness :
  open_orders (Tick_placed (mkOrderId 9) 5 3 1 Sample.tick) =
    open_orders Sample.tick ++ [(9, mkOrder 3 5 1)].
Proof.
  apply (placed_joins_queue (mkOrderId 9) 5 3 1 Sample.tick).
  - exact Sample.tick_is_ok.
  - split; vm_compute; congruence.
  - simpl. intros x Hx. set_unfold in Hx. lia.
Defined.

Lemma canceled_correct_witness :
  ∃ self', Tick_canceled 9 (mkOrderId 2) 3 Sample.tick = (Ok (), self') ∧ total (open_orders self') = 14.
Proof.
  assert (in_range BITS 3) as Hq by (split; vm_compute; congruence).
  destruct (canceled_correct 9 (mkOrderId 2) 3 Sample.tick Sample.tick_is_ok Hq) as (t & H1 & _ & H2 & _).
  exists t. split; [exact H1|]. rewrite H2. vm_compute. reflexivity.
Defined.

Lemma exact_fill_leaves_residue_witness :
  Tick_is_empty (Tick_filled (E:=CritbitTreeError) 17 Sample.tick).2 = false.
Proof.
  apply (exact_fill_leaves_residue (E:=CritbitTreeError) Sample.tick Sample.tick_is_ok).
  split; vm_compute; congruence.
Defined.

(** ** The order book *)
Section Book.
Context `{Hidx : OrderBookIndex, BuildProfile} {Account V : Type}.
Context `{HO : !OrderInterface Account V, HL : !OrderInterfaceLaws Account V}.

(** C1: The critbit order book implements a map from prices to price levels:
    every history of placements, fills and cancellations, started on the
    empty book and no longer than the capacity, gives call by call the same
    answers (errors included) as the map, and ends in a well-formed tree
    that stands for the map. *)
Theorem book_history_refinement (cs : list (book_cmd Account)) :
  Forall cmd_ok cs → Z.of_nat (length cs) ≤ CAPACITY →
  let tree := run_cmds step_tree cs (new : CritbitTree V) in
  let map := run_cmds step_levels cs (∅ : gmap Z V) in
  tree.1 = map.1 ∧ tree_wf tree.2 ∧ contents tree.2 = map.2.
Proof.
  intros Hcs Hlen tree map.
  destruct (run_refines cs (new : CritbitTree V) Hcs) as (H1 & [H2 _] & H3); [|simpl; lia|].
  - split; [by left|]. rewrite contents_new. apply map_Forall_empty.
  - rewrite contents_new in H1, H3. done.
Qed.

(** Filling a price of a well-formed book never fails: no level, no
    fill; otherwise the level is served, and a level that cannot satisfy
    the request disappears from the book. *)
Theorem fill_order_correct key q (t : CritbitTree V) :
  tree_ok t → in_range BITS q →
  ∃ r t', tree_fill_order key q t = (Ok r, t') ∧ tree_ok t' ∧
    match contents t !! key with
    | None => r = None ∧ contents t' = contents t
    | Some v => fill_sum (default [] r) = Z.min q (value_total v) ∧
                (value_total v < q → contents t' = delete key (contents t)) ∧
                ∀ k, k ≠ key → contents t' !! k = contents t !! k
    end.
Proof.
  intros Hok Hq. destruct (fill_order_law key q t) as (r & t' & Hrun & Hok' & Hl); [done|done|].
  exists r, t'. split_and!; [done|done|]. unfold levels_fill in Hl. simpl in Hl.
  destruct (contents t !! key) as [v|] eqn:Hv; [|by simplify_eq].
  destruct (filled_law (E:=CritbitTreeError) q v Hq (proj2 Hok key v Hv))
    as (r' & v' & Hf & _ & _ & Hsum & _ & Hempty).
  rewrite Hf in Hl. injection Hl as -> Hc. split_and!; [done| |].
  - intros Hlt. by rewrite <-Hc, Hempty.
  - intros k Hk. rewrite <-Hc. destruct (order_is_empty v').
    + by rewrite lookup_delete_ne.
    + by rewrite lookup_insert_ne.
Qed.
End Book.

Lemma book_history_refinement_witness :
  (run_cmds step_tree Sample.cmds (new : CritbitTree (Tick Z))).1 = (run_cmds step_levels Sample.cmds (∅ : gmap Z (Tick Z))).1.
Proof.
  apply (book_history_refinement (V:=Tick Z) Sample.cmds); [exact Sample.cmds_ok|vm_compute; congruence].
Defined.

Lemma fill_order_correct_witness :
  ∃ r t', tree_fill_order 100 20 Sample.tree = (Ok r, t') ∧
    fill_sum (default [] r) = 9 ∧ contents t' = delete 100 (contents Sample.tree).
Proof.
  assert (in_range BITS 20) as Hq by (split; vm_compute; congruence).
  destruct (fill_order_correct 100 20 Sample.tree Sample.tree_is_ok Hq) as (r & t' & H1 & _ & H2).
  destruct (contents Sample.tree !! 100) as [v|] eqn:Hv; [|vm_compute in Hv; discriminate Hv].
  vm_compute in Hv. injection Hv as <-. destruct H2 as (H2 & H3 & _).
  exists r, t'. split; [exact H1|]. split; [exact H2|]. apply H3. reflexivity.
Defined.

(** ** The order book of price levels *)
Section TickBook.
Context `{OrderBookIndex, BuildProfile} {Account : Type} `{EqDecision Account}.
Implicit Types t : CritbitTree (Tick Account).

(** C21: Placing an order under a fresh id and cancelling its whole quantity
    succeeds and restores the book if the price had a level; otherwise the
    level stays behind, empty. *)
Theorem place_cancel_roundtrip t id o key q e :
  tree_ok t → in_range BITS key → in_range BITS q →
  is_Some (contents t !! key) ∨ next_leaf_node_index t < CAPACITY →
  (∀ v, contents t !! key = Some v → order_id_value id ∉ (open_orders v).*1) →
  ∃ t1 t2, tree_place_order id o key q e t = (Ok (), t1) ∧ tree_cancel_order o key id q t1 = (Ok (), t2) ∧
    tree_wf t2 ∧
    contents t2 = match contents t !! key with
                  | Some _ => contents t
                  | None => <[key := mkTick []]> (contents t)
                  end.
Proof.
  intros [Hwf Hok] Hkey Hq Hroom Hfresh.
  destruct (place_order_refines id o key q e t Hwf Hkey Hroom) as (t1 & Hplace & Hwf1 & Hc1 & _).
  destruct (cancel_order_refines o key id q t1 Hwf1) as (t2 & Hcancel & Hwf2 & Hc2 & _).
  exists t1, t2.
  assert (∀ self, tick_ok self → order_id_value id ∉ (open_orders self).*1 →
            Tick_canceled o id q (Tick_placed id o q e self) = (Ok (), self)) as Hundo.
  { intros self. by apply placed_canceled. }
  unfold levels_cancel, levels_place in *. rewrite Hc1, lookup_insert_eq in Hcancel, Hc2.
  destruct (contents t !! key) as [v|] eqn:Hk.
  - simpl in Hcancel, Hc2. rewrite Hundo in Hcancel, Hc2 by (apply (Hok key v Hk) || by apply Hfresh).
    split_and!; try done. rewrite Hc2. simpl. rewrite insert_insert_eq. by apply insert_id.
  - simpl in Hcancel, Hc2.
    change (Tick_new id o q e) with (Tick_placed id o q e (mkTick [])) in Hcancel, Hc2.
    rewrite Hundo in Hcancel, Hc2 by (try (split; simpl; constructor); apply not_elem_of_nil).
    split_and!; try done. rewrite Hc2. simpl. by rewrite insert_insert_eq.
Qed.

(** The queries on a well-formed book are those of the map of levels:
    the orders at a price are its level, and the orders of an account are the
    orders of all levels that it owns. *)
Theorem book_queries_correct t key o :
  tree_wf t →
  tree_open_orders_at t key = Ok (contents t !! key) ∧
  tree_get_orders t o ≡ₚ
    map_to_list (contents t) ≫= λ e, filter (λ order, owner order = o) (open_orders e.2).*2.
Proof.
  intros Hwf. split.
  - rewrite tree_open_orders_at_spec by done. by destruct (contents t !! key).
  - rewrite tree_get_orders_spec by done. apply reflexive_eq, list_bind_ext; [|done]. intros [k v]. simpl.
    unfold Tick_find_order_of. by destruct (filter _ _).
Qed.
End TickBook.

Lemma place_cancel_roundtrip_witness :
  ∃ t1 t2, tree_place_order (mkOrderId 9) 4 90 6 1 Sample.tree = (Ok (), t1) ∧
    tree_cancel_order 4 90 (mkOrderId 9) 6 t1 = (Ok (), t2) ∧ contents t2 = <[90 := mkTick []]> (contents Sample.tree).
Proof.
  destruct (place_cancel_roundtrip Sample.tree (mkOrderId 9) 4 90 6 1 Sample.tree_is_ok) as (t1 & t2 & H1 & H2 & _ & H3).
  - split; vm_compute; congruence.
  - split; vm_compute; congruence.
  - right. vm_compute. reflexivity.
  - intros v Hv. vm_compute in Hv. discriminate Hv.
  - destruct (contents Sample.tree !! 90) eqn:E; [vm_compute in E; discriminate E|].
    exists t1, t2. split; [exact H1|]. split; [exact H2|exact H3].
Defined.

Lemma book_queries_correct_witness :
  tree_open_orders_at Sample.tree 77 = Ok (contents Sample.tree !! 77).
Proof. exact (proj1 (book_queries_correct Sample.tree 77 7 Sample.tree_is_wf)). Defined.

(** ** Keys and identifiers *)
Section Index.
Context `{OrderBookIndex, BuildProfile}.

(** The mask that separates a new key from its closest leaf is computed
    without overflow in every build and is the power of two of the most
    significant bit in which the two keys differ: that bit tells them
    apart, all higher bits agree, and it decides their order. *)
Theorem new_mask_correct {E} a b :
  in_range BITS a → in_range BITS b → a ≠ b →
  ∃ d, new_mask (E:=E) a b = Ok (2 ^ d) ∧ 0 ≤ d < BITS ∧
       Z.testbit a d ≠ Z.testbit b d ∧ agree_above d a b ∧
       (Z.testbit b d = true ↔ a < b).
Proof.
  intros Ha Hb Hne. exists (critical_bit a b).
  pose proof (critical_bit_differs a b (proj1 Ha) (proj1 Hb) Hne) as Hd.
  pose proof (critical_bit_agree a b (proj1 Ha) (proj1 Hb)) as Hag.
  pose proof (critical_bit_nonneg a b) as Hnn.
  split_and!; [by apply new_mask_distinct|done|apply critical_bit_lt; (done || apply BITS_pos)| |done|].
  - rewrite Hd. by destruct (Z.testbit b _).
  - destruct (Z.testbit b (critical_bit a b)) eqn:Hbit; simpl in Hd.
    + split; [|done]. intros _. by eapply agree_above_order.
    + split; [done|]. intros Hlt. exfalso.
      assert (b < a); [|lia]. eapply agree_above_order; [exact Hnn|by apply agree_above_sym|done|done].
Qed.

(** The ids handed out for one side count up by one, stay on that side
    and never reach the other: the increment stops at the last id instead. *)
Theorem order_ids_separate {E} x :
  order_id_ok x → order_id_value x ≠ u64_MAX →
  match checked_increase (E:=E) x with
  | Ok (Some y) => order_id_value y = order_id_value x + 1 ∧ order_id_ok y ∧
                   order_id_value y ≠ u64_MAX ∧ is_bid y = is_bid x
  | Ok None => order_id_value x = last_id (is_bid x)
  | _ => False
  end.
Proof.
  intros Hx Hm. destruct (checked_increase (E:=E) x) as [[y|]|?| |] eqn:Hc.
  - by destruct (checked_increase_side x y Hx Hm Hc) as (? & ? & ? & ?).
  - rewrite checked_increase_spec in Hc by done. by destruct (Z.eqb_spec (order_id_value x) (last_id (is_bid x))).
  - by rewrite checked_increase_spec in Hc.
  - by rewrite checked_increase_spec in Hc.
  - by rewrite checked_increase_spec in Hc.
Qed.
End Index.

Lemma new_mask_correct_witness :
  ∃ d, new_mask (E:=CritbitTreeError) 100 104 = Ok (2 ^ d) ∧ Z.testbit 104 d = true.
Proof.
  destruct (new_mask_correct (E:=CritbitTreeError) 100 104) as (d & H1 & _ & _ & _ & H2);
    [split; vm_compute; congruence|split; vm_compute; congruence|congruence|].
  exists d. split; [exact H1|]. apply H2. reflexivity.
Defined.

Lemma order_ids_separate_witness :
  checked_increase (E:=CritbitTreeError) start_ask_id = Ok (Some (mkOrderId (2 ^ 63 + 1))) ∧
  is_bid (mkOrderId (2 ^ 63 + 1)) = is_bid start_ask_id.
Proof.
  assert (order_id_ok start_ask_id) as H1 by (split; vm_compute; congruence).
  assert (order_id_value start_ask_id ≠ u64_MAX) as H2 by (vm_compute; congruence).
  pose proof (order_ids_separate (E:=CritbitTreeError) start_ask_id H1 H2) as H3.
  assert (checked_increase (E:=CritbitTreeError) start_ask_id = Ok (Some (mkOrderId (2 ^ 63 + 1)))) as H4
    by (vm_compute; reflexivity).
  rewrite H4 in H3. destruct H3 as (_ & _ & _ & H3). split; [exact H4|exact H3].
Defined.
