(* ===== verification/SwapProps.v ===== *)
(** * Properties of pricing, swaps, liquidity and pool lookup

    The main theorems on the arithmetic of the pools and on what the calls
    that move assets do, each with a run on the sample runtime where it has
    hypotheses. *)
From S2P Require Import Prelude Index Critbit OrderId Tick OrderBook Errors Amm Locator Assets Config Pool Pallet PalletFacts Matching Liquidity LiquidityFacts Devnet.
From Stdlib Require Import Bool.
Import PalletError.

Section Pricing.
Context `{OrderBookIndex, AmmConfig}.

(** C23: For amounts below 2^118 the price of an exact input is computed
    without overflow; it is the fee-adjusted constant-product formula
    rounded down, stays below the reserve, does not decrease when the input
    grows, and the product of the reserves does not shrink. *)
Theorem get_amount_out_correct a b rin rout :
  0 ≤ LPFee ≤ 1000 → amount_ok a → amount_ok b → a ≤ b →
  amount_ok rin → amount_ok rout → 0 < rin → 0 < rout →
  ∃ x y, get_amount_out a rin rout = Ok x ∧ get_amount_out b rin rout = Ok y ∧
    x = a * (1000 - LPFee) * rout / (rin * 1000 + a * (1000 - LPFee)) ∧
    0 ≤ x ≤ y ∧ y < rout ∧ rin * rout ≤ (rin + a) * (rout - x).
Proof.
  intros Hfee Ha Hb Hab Hin Hout Hin0 Hout0.
  exists (out_formula a rin rout), (out_formula b rin rout).
  pose proof (out_formula_lt a rin rout Hfee (proj1 (proj1 Ha)) Hin0 Hout0).
  pose proof (out_formula_lt b rin rout Hfee (proj1 (proj1 Hb)) Hin0 Hout0).
  split_and!; try (by apply get_amount_out_total); try done; try lia.
  - apply out_formula_mono; [done|destruct Ha; lia|done|done].
  - by apply out_formula_product; [|destruct Ha; lia| |].
Qed.

(** C22: The input that is asked for an exact output buys that output, and
    at most one unit too much is asked: with two units less the output is
    missed.  [get_amount_in] and [get_amount_out] are inverse up to
    rounding in favour of the pool. *)
Theorem get_amount_in_correct o rin rout x :
  0 ≤ LPFee < 1000 → 0 ≤ o → 0 < rin →
  get_amount_in o rin rout = Ok x →
  o < rout ∧ rin * rout ≤ (rin + x) * (rout - o) ∧
  (∀ y, get_amount_out x rin rout = Ok y → o ≤ y) ∧
  (∀ a y, 0 ≤ a ≤ x - 2 → get_amount_out a rin rout = Ok y → y < o).
Proof.
  intros Hfee Ho Hin (_ & _ & Hlt & _ & -> & _)%get_amount_in_Ok.
  split_and!; [done|by apply in_formula_product|..].
  - intros y (_ & _ & _ & -> & _)%get_amount_out_Ok. by apply in_formula_sufficient.
  - intros a y Ha (_ & _ & _ & -> & _)%get_amount_out_Ok. by apply in_formula_tight.
Qed.
End Pricing.

Section Swaps.
Context `{T : Config, HF : !FungiblesLaws AccountId AssetKind Ledger}.
Implicit Types w : World.

(** C11: A successful swap of an exact input over one pool pays what
    [get_amount_out] says and at least the minimum, moves exactly the
    input to the pool and the output to the receiver, changes no other
    balance, no freeze and no pool; the quote given for it is what is paid;
    and the product of the reserves of the pool does not shrink. *)
Theorem swap_exact_in_correct sender a b x min send_to keep w out w' :
  do_swap_exact_tokens_for_tokens sender [a; b] x min send_to keep w = (Ok out, w') →
  keep = true ∨ no_dust (ledger w) a sender x →
  ∃ pa, pool_address a b = Some pa ∧ 0 < x ∧ (∀ m, min = Some m → m ≤ out) ∧
    hop_effect a b pa sender send_to x out (ledger w) (ledger w') ∧
    Pools w' = Pools w ∧ frozen (ledger w') = frozen (ledger w) ∧
    quote_price_exact_tokens_for_tokens w a b x true = Ok (Some out) ∧
    (0 ≤ LPFee ≤ 1000 → a ≠ b → sender ≠ pa → send_to ≠ pa →
     pool_account_free (ledger w) a b pa →
     get_balance w pa a * get_balance w pa b ≤ get_balance w' pa a * get_balance w' pa b).
Proof.
  intros Hs Hd. apply swap_exact_in_Ok in Hs as (pa & l & Hpa & Hx & Hna & Hnb & Hout & Hmin & <- & Hp & Hf & Heff);
    [|done].
  exists pa. split_and!; try done.
  - unfold quote_price_exact_tokens_for_tokens. rewrite Hpa.
    destruct (Z.eqb_spec (get_balance w pa a) 0); [done|]. simpl. by rewrite Hout.
  - intros Hfee Hab Hsp Htp Hfree. pose proof Hfree as (Hfz & Hba & Hbb).
    pose proof (get_balance_bounds w pa a Hba). pose proof (get_balance_bounds w pa b Hbb).
    apply get_amount_out_Ok in Hout as (_ & _ & _ & -> & _).
    pose proof (out_formula_lt x (get_balance w pa a) (get_balance w pa b) Hfee ltac:(lia) ltac:(lia) ltac:(lia)).
    destruct (hop_reserves a b pa sender send_to x (out_formula x (get_balance w pa a) (get_balance w pa b)) w w')
      as [-> ->]; try (done || lia).
    apply out_formula_product; done || lia.
Qed.

(** C12: A successful swap for an exact output over one pool takes what
    [get_amount_in] says and at most the maximum from the sender and gives
    exactly the output to the receiver; nothing else moves, and the product
    of the reserves of the pool does not shrink.  The pool is the one whose
    base is the asset bought. *)
Theorem swap_exact_out_correct sender a b y max send_to keep w x w' :
  do_swap_tokens_for_exact_tokens sender [a; b] y max send_to keep w = (Ok x, w') →
  keep = true ∨ no_dust (ledger w) a sender x →
  ∃ pa, pool_address b a = Some pa ∧ 0 < y ∧
    get_amount_in y (get_balance w pa a) (get_balance w pa b) = Ok x ∧ (∀ m, max = Some m → x ≤ m) ∧
    hop_effect a b pa sender send_to x y (ledger w) (ledger w') ∧
    Pools w' = Pools w ∧ frozen (ledger w') = frozen (ledger w) ∧
    (0 ≤ LPFee < 1000 → a ≠ b → sender ≠ pa → send_to ≠ pa →
     pool_account_free (ledger w) a b pa →
     get_balance w pa a * get_balance w pa b ≤ get_balance w' pa a * get_balance w' pa b).
Proof.
  intros Hs Hd. apply swap_exact_out_Ok in Hs as (pa & l & Hpa & Hy & Hna & Hnb & Hin & Hmax & <- & Hp & Hf & Heff);
    [|done].
  exists pa. split_and!; try done.
  intros Hfee Hab Hsp Htp Hfree. pose proof Hfree as (Hfz & Hba & Hbb).
  pose proof (get_balance_bounds w pa a Hba). pose proof (get_balance_bounds w pa b Hbb).
  apply get_amount_in_Ok in Hin as (_ & _ & Hlt & _ & -> & _).
  destruct (in_formula_product y (get_balance w pa a) (get_balance w pa b) Hfee ltac:(lia) ltac:(lia)) as [? ?].
  destruct (hop_reserves a b pa sender send_to (in_formula y (get_balance w pa a) (get_balance w pa b)) y w w')
    as [-> ->]; done || lia.
Qed.
End Swaps.

Section LiquidityProps.
Context `{T : Config, HF : !FungiblesLaws AccountId AssetKind Ledger}.
Context `{HP : !PoolFungiblesLaws AccountId AssetKind PoolAssetId Ledger}.
Implicit Types w : World.

(** C14: A successful deposit into a pool that holds both assets takes at
    most the desired and at least the minimum amounts, in the ratio of the
    reserves up to rounding, moves exactly these to the pool, and mints
    shares that are no larger a part of the supply than each amount is of
    its reserve, so that existing shares are not diluted. *)
Theorem add_liquidity_correct sender base quote_asset bd qd bm qm mint_to w w' :
  do_add_liquidity sender base quote_asset bd qd bm qm mint_to w = (Ok (), w') →
  ∃ id pool pa b q lp,
    pool_id base quote_asset = Some id ∧ Pools w !! id = Some pool ∧ address id = Some pa ∧
    pair_moved base quote_asset sender pa b q (ledger w) (ledger w') ∧
    Pools w' = Pools w ∧ MintMinLiquidity < lp ∧
    let rb := get_balance w pa base in
    let rq := get_balance w pa quote_asset in
    let supply := total_issuance (ledger w) (lp_token pool) in
    (0 < rb → 0 < rq → 0 < supply →
     (b = bd ∧ q * rb ≤ bd * rq < (q + 1) * rb ∧ qm ≤ q ≤ qd ∨
      q = qd ∧ b * rq ≤ qd * rb < (b + 1) * rq ∧ bm ≤ b ≤ bd) ∧
     total_issuance (ledger w') (lp_token pool) = supply + lp ∧
     lp * rb ≤ b * supply ∧ lp * rq ≤ q * supply).
Proof.
  intros (id & pool & pa & b & q & lp & ? & ? & ? & ? & ? & Hd & ? & ? & ? & Hlp)%add_liquidity_Ok.
  exists id, pool, pa, b, q, lp. split_and!; try done. intros rb rq supply Hrb Hrq Hs.
  cbv zeta in Hlp. fold supply in Hlp. destruct (Z.eqb_spec supply 0) as [|_]; [lia|].
  destruct Hlp as (s1 & s2 & Hs1 & Hs2 & -> & Hi).
  apply deposit_amounts_Ok in Hd; [|lia..].
  apply mul_div_floor in Hs1; [|done]. apply mul_div_floor in Hs2; [|done].
  split_and!; [done|done|fold rb in Hs1; nia|fold rq in Hs2; nia].
Qed.

(** C15: A successful withdrawal burns the shares and pays the receiver at
    least the minimum amounts and at most the proportional part of each
    reserve; the pool keeps the minimum balance of both assets. *)
Theorem remove_liquidity_correct sender base quote_asset burn bm qm to w w' :
  do_remove_liquidity sender base quote_asset burn bm qm to w = (Ok (), w') →
  base ≠ quote_asset → 0 ≤ permill_mul LiquidityWithdrawalFee burn ≤ burn →
  ∃ id pool pa b q,
    pool_id base quote_asset = Some id ∧ Pools w !! id = Some pool ∧ address id = Some pa ∧
    bm ≤ b ∧ qm ≤ q ∧ Pools w' = Pools w ∧
    let supply := total_issuance (ledger w) (lp_token pool) in
    (0 < supply →
     0 ≤ balance (ledger w) base pa → 0 ≤ balance (ledger w) quote_asset pa →
     0 < minimum_balance (ledger w) base → 0 < minimum_balance (ledger w) quote_asset →
     pair_moved base quote_asset pa to b q (ledger w) (ledger w') ∧
     total_issuance (ledger w') (lp_token pool) = supply - burn ∧
     b * supply ≤ burn * get_balance w pa base ∧
     q * supply ≤ burn * get_balance w pa quote_asset ∧
     minimum_balance (ledger w) base ≤ get_balance w pa base - b ∧
     minimum_balance (ledger w) quote_asset ≤ get_balance w pa quote_asset - q).
Proof.
  intros Hrun Hne Hfee.
  apply remove_liquidity_Ok in Hrun as (id & pool & pa & b & q & ? & ? & ? & ? & Hr & ? & ? & ? & Hpost);
    [|done].
  exists id, pool, pa, b, q. split_and!; try done. intros supply Hs Hb Hq Hmb Hmq.
  destruct (Hpost Hb Hq Hmb Hmq) as (? & ? & ? & ?).
  pose proof (get_balance_bounds w pa base Hb). pose proof (get_balance_bounds w pa quote_asset Hq).
  apply redeem_amounts_Ok in Hr as (_ & _ & ? & ?); [|done..|lia|lia]. by split_and!.
Qed.

(** Shares bought with a deposit and redeemed at once return at most
    the deposit, in both assets. *)
Theorem deposit_withdraw_no_gain b q rb rq supply s1 s2 b' q' :
  0 < supply → 0 < rb → 0 < rq → 0 ≤ b → 0 ≤ q →
  mul_div b supply rb = Ok s1 → mul_div q supply rq = Ok s2 →
  let lp := Z.min s1 s2 in
  0 ≤ permill_mul LiquidityWithdrawalFee lp ≤ lp →
  redeem_amounts (rb + b) (rq + q) (supply + lp) lp = Ok (b', q') →
  b' ≤ b ∧ q' ≤ q.
Proof.
  intros Hs Hrb Hrq Hb Hq Hs1 Hs2 lp Hfee Hr.
  apply redeem_amounts_Ok in Hr as (? & ? & ? & ?); [|lia..].
  apply mul_div_floor in Hs1; [|done]. apply mul_div_floor in Hs2; [|done].
  assert (0 ≤ lp) by lia. assert (lp ≤ s1 ∧ lp ≤ s2) as [? ?] by lia.
  split; nia.
Qed.

(** C26: Creating a pool needs two different assets, positive tick and lot
    sizes and an unused pool id; it registers one new pool with an empty
    book and the next lp token, which must have a successor, and changes no
    other pool. *)
Theorem create_pool_correct sender base bd quote_asset qd fee tick lot pd w w' :
  do_create_pool sender base bd quote_asset qd fee tick lot pd w = (Ok (), w') →
  base ≠ quote_asset ∧ 0 < tick ∧ 0 < lot ∧
  ∃ id lp, pool_id base quote_asset = Some id ∧ Pools w !! id = None ∧
    Pools w' = <[id := Pool_new lp fee tick lot pd bd qd]> (Pools w) ∧
    NextPoolAssetId w' = increment lp ∧ is_Some (increment lp) ∧
    (match NextPoolAssetId w with Some n => Some n | None => initial_value end) = Some lp.
Proof. apply create_pool_Ok. Qed.

(** A swap path is accepted exactly when it has at least two assets, at
    most [MaxSwapPathLength], a pool id for every hop and no pool twice. *)
Theorem validate_swap_path_correct path :
  validate_swap_path path = Ok () ↔
  2 ≤ Z.of_nat (length path) ∧ Z.of_nat (length path) mod 2 ^ 32 ≤ MaxSwapPathLength ∧
  ∃ ids, path_ids path = Some ids ∧ NoDup ids.
Proof. apply validate_swap_path_spec. Qed.
End LiquidityProps.

Section Locating.
Context {AccountId AssetKind : Type} `{EqDecision AssetKind}.
Context (derive : AssetKind * AssetKind → option AccountId).

(** [WithFirstAsset], [Ascending] (for an asymmetric order) and chains
    of such locators give the pool of two assets independently of their
    order; [BaseQuoteAsset] keeps the two directions of every pair apart. *)
Theorem locator_directions first lt a b :
  (∀ x y, lt x y = true → lt y x = false) → a ≠ b →
  locator_symmetric (WithFirstAsset derive first) ∧
  locator_symmetric (Ascending derive lt) ∧
  locator_symmetric (Chain (WithFirstAsset derive first) (Ascending derive lt)) ∧
  pool_id (PoolLocator:=BaseQuoteAsset derive) a b ≠ pool_id (PoolLocator:=BaseQuoteAsset derive) b a.
Proof.
  intros Hlt Hab. pose proof (WithFirstAsset_symmetric derive first).
  pose proof (Ascending_symmetric derive lt Hlt).
  split_and!; [done|done|by apply Chain_symmetric|].
  intros Heq. by apply BaseQuoteAsset_inj in Heq as [? _].
Qed.
End Locating.

(** ** Runs on the sample runtime *)
Lemma get_amount_out_correct_witness :
  ∃ x, get_amount_out (H:=u128) (H0:=devnet_amm) 1000 1000000 2000000 = Ok x ∧ x < 2000000 ∧
       1000000 * 2000000 ≤ 1001000 * (2000000 - x).
Proof.
  assert (∀ z, 0 ≤ z < 2 ^ 21 → amount_ok (H:=u128) z) as Hok.
  { intros z Hz. unfold amount_ok, in_range. split; [|split; [lia|]].
    - split; [lia|]. transitivity (2 ^ 21); [lia|done].
    - transitivity (2 ^ 21); [lia|done]. }
  destruct (get_amount_out_correct (H:=u128) (H0:=devnet_amm) 1000 2000 1000000 2000000)
    as (x & y & H1 & _ & _ & H2 & H3 & H4); try (apply Hok; lia); [vm_compute; split; congruence|lia..|].
  exists x. split; [exact H1|]. split; [lia|exact H4].
Defined.

Lemma get_amount_in_correct_witness :
  get_amount_in (H:=u128) (H0:=devnet_amm) 1000 2000000 1000000 = Ok 2009 ∧
  ∀ a y, 0 ≤ a ≤ 2007 → get_amount_out (H:=u128) (H0:=devnet_amm) a 2000000 1000000 = Ok y → y < 1000.
Proof.
  assert (get_amount_in (H:=u128) (H0:=devnet_amm) 1000 2000000 1000000 = Ok 2009) as Hr
    by (vm_compute; reflexivity).
  destruct (get_amount_in_correct (H:=u128) (H0:=devnet_amm) 1000 2000000 1000000 2009)
    as (_ & _ & _ & H1); [vm_compute; split; congruence|lia|lia|exact Hr|].
  split; [exact Hr|exact H1].
Defined.

Lemma swap_exact_in_correct_witness :
  ∃ w', do_swap_exact_tokens_for_tokens (T:=devnet true) bob [1; 2] 1000 None bob true (with_pool true)
          = (Ok 1992, w') ∧
    get_balance (T:=devnet true) (with_pool true) 1036 1 * get_balance (T:=devnet true) (with_pool true) 1036 2
    ≤ get_balance (T:=devnet true) w' 1036 1 * get_balance (T:=devnet true) w' 1036 2.
Proof.
  pose proof (run_result (do_swap_exact_tokens_for_tokens (T:=devnet true) bob [1; 2] 1000 None bob true)
    (with_pool true) 1992 ltac:(vm_compute; reflexivity)) as Hrun.
  eexists. split; [exact Hrun|].
  destruct (swap_exact_in_correct (T:=devnet true) bob 1 2 1000 None bob true (with_pool true) 1992 _ Hrun)
    as (pa & Hpa & _ & _ & _ & _ & _ & _ & H1); [by left|].
  injection Hpa as <-. apply H1.
  - split; vm_compute; congruence.
  - congruence.
  - vm_compute; congruence.
  - vm_compute; congruence.
  - split; [reflexivity|]. split; vm_compute; congruence.
Defined.

Lemma swap_exact_out_correct_witness :
  ∃ w', do_swap_tokens_for_exact_tokens (T:=devnet true) bob [2; 1] 1000 None bob true (with_pool true)
          = (Ok 2009, w') ∧
    get_amount_in (H:=u128) (H0:=devnet_amm) 1000 (get_balance (T:=devnet true) (with_pool true) 1036 2)
      (get_balance (T:=devnet true) (with_pool true) 1036 1) = Ok 2009 ∧
    get_balance (T:=devnet true) (with_pool true) 1036 2 * get_balance (T:=devnet true) (with_pool true) 1036 1
    ≤ get_balance (T:=devnet true) w' 1036 2 * get_balance (T:=devnet true) w' 1036 1.
Proof.
  pose proof (run_result (do_swap_tokens_for_exact_tokens (T:=devnet true) bob [2; 1] 1000 None bob true)
    (with_pool true) 2009 ltac:(vm_compute; reflexivity)) as Hrun.
  eexists. split; [exact Hrun|].
  destruct (swap_exact_out_correct (T:=devnet true) bob 2 1 1000 None bob true (with_pool true) 2009 _ Hrun)
    as (pa & Hpa & _ & Hin & _ & _ & _ & _ & H1); [by left|].
  injection Hpa as <-. split; [exact Hin|]. apply H1.
  - split; vm_compute; congruence.
  - congruence.
  - vm_compute; congruence.
  - vm_compute; congruence.
  - split; [reflexivity|]. split; vm_compute; congruence.
Defined.

Lemma add_liquidity_correct_witness :
  ∃ w' b q lp, do_add_liquidity (T:=devnet true) bob 1 2 1000 3000 1 1 bob (with_pool true) = (Ok (), w') ∧
    pair_moved (T:=devnet true) 1 2 bob 1036 b q (ledger (with_pool true)) (ledger w') ∧ 100 < lp.
Proof.
  pose proof (run_result (do_add_liquidity (T:=devnet true) bob 1 2 1000 3000 1 1 bob)
    (with_pool true) () ltac:(vm_compute; reflexivity)) as Hrun.
  destruct (add_liquidity_correct (T:=devnet true) bob 1 2 1000 3000 1 1 bob (with_pool true) _ Hrun)
    as (id & pool & pa & b & q & lp & Hid & _ & Hpa & Hmv & _ & Hlp & _).
  injection Hid as <-. injection Hpa as <-.
  eexists. exists b, q, lp. split; [exact Hrun|]. split; [exact Hmv|exact Hlp].
Defined.

Lemma remove_liquidity_correct_witness :
  ∃ w' b q, do_remove_liquidity (T:=devnet true) alice 1 2 1000 1 1 alice (with_pool true) = (Ok (), w') ∧
    1 ≤ b ∧ 1 ≤ q ∧ pair_moved (T:=devnet true) 1 2 1036 alice b q (ledger (with_pool true)) (ledger w').
Proof.
  pose proof (run_result (do_remove_liquidity (T:=devnet true) alice 1 2 1000 1 1 alice)
    (with_pool true) () ltac:(vm_compute; reflexivity)) as Hrun.
  destruct (remove_liquidity_correct (T:=devnet true) alice 1 2 1000 1 1 alice (with_pool true) _ Hrun)
    as (id & pool & pa & b & q & Hid & Hpool & Hpa & Hb & Hq & _ & Hpost).
  { congruence. }
  { split; vm_compute; congruence. }
  injection Hid as <-. injection Hpa as <-.
  pose proof (f_equal (option_map (lp_token (T:=devnet true))) Hpool) as Hlp.
  match type of Hlp with ?l = _ => assert (l = Some 0) as He by (vm_compute; reflexivity) end.
  rewrite He in Hlp. cbn [option_map] in Hlp.
  injection Hlp as Hlp. rewrite <-Hlp in Hpost.
  destruct Hpost as (Hmv & _); [vm_compute; congruence..|vm_compute; reflexivity|vm_compute; reflexivity|].
  eexists. exists b, q. split; [exact Hrun|]. split; [exact Hb|]. split; [exact Hq|exact Hmv].
Defined.

Lemma deposit_withdraw_no_gain_witness :
  ∃ b q, redeem_amounts (T:=devnet true) 1001000 2002000 1415627 1414 = Ok (b, q) ∧ b ≤ 1000 ∧ q ≤ 2000.
Proof.
  assert (redeem_amounts (T:=devnet true) 1001000 2002000 1415627 1414 = Ok (999, 1999)) as Hr
    by (vm_compute; reflexivity).
  exists 999, 1999. split; [exact Hr|].
  apply (deposit_withdraw_no_gain (T:=devnet true) 1000 2000 1000000 2000000 1414213 1414 1414 999 1999);
    [lia..|vm_compute; reflexivity|vm_compute; reflexivity|split; vm_compute; congruence|exact Hr].
Defined.

Lemma create_pool_correct_witness :
  ∃ w', do_create_pool (T:=devnet true) alice 2 0 1 0 0 1 1 0 (with_pool true) = (Ok (), w') ∧
        Pools (with_pool true) !! (2, 1) = None ∧ NextPoolAssetId w' = Some 2.
Proof.
  pose proof (run_result (do_create_pool (T:=devnet true) alice 2 0 1 0 0 1 1 0)
    (with_pool true) () ltac:(vm_compute; reflexivity)) as Hrun.
  destruct (create_pool_correct (T:=devnet true) alice 2 0 1 0 0 1 1 0 (with_pool true) _ Hrun)
    as (_ & _ & _ & id & lp & Hid & Hnone & _).
  injection Hid as <-. eexists. split; [exact Hrun|]. split; [exact Hnone|vm_compute; reflexivity].
Defined.

Lemma locator_directions_witness :
  locator_symmetric (Chain (WithFirstAsset devnet_derive 0) (Ascending devnet_derive Z.ltb)) ∧
  pool_id (PoolLocator:=BaseQuoteAsset devnet_derive) 1 2 ≠ pool_id (PoolLocator:=BaseQuoteAsset devnet_derive) 2 1.
Proof.
  destruct (locator_directions devnet_derive 0 Z.ltb 1 2) as (_ & _ & H1 & H2).
  - intros x y Hxy. apply Z.ltb_lt in Hxy. apply Z.ltb_ge. lia.
  - congruence.
  - split; [exact H1|exact H2].
Defined.
