(* ===== verification/SupplyProps.v ===== *)
(** * Properties of the supply of assets

    No history of the chain creates assets, and swaps of credits give out no
    more than they take in. *)
From S2P Require Import Prelude Index OrderId Tick OrderBook Errors Amm Locator Assets Config Pool Pallet PalletFacts Matching Liquidity Devnet Dispatch Supply SupplyFacts ChainSample.
From Stdlib Require Import Bool.
Import PalletError.

Section Supply.
Context `{T : Config, HF : !FungiblesLaws AccountId AssetKind Ledger,
  HP : !PoolFungiblesLaws AccountId AssetKind PoolAssetId Ledger,
  HC : !LedgerConserves AccountId AssetKind PoolAssetId Ledger}.
Implicit Types (w : World) (c : Credit AssetKind).

(** C3: Whatever calls are dispatched, in whatever order and whether they
    succeed or fail, no balance becomes negative and the supply of no asset
    grows; it is well-defined, and no account ever holds more than the supply
    at the start. *)
Theorem supply_never_grows w0 w k n :
  reachable w0 w → solvent (ledger w0) → supply (ledger w0) k n →
  solvent (ledger w) ∧
  ∃ n', supply (ledger w) k n' ∧ (∀ m, supply (ledger w) k m → m = n') ∧ 0 ≤ n' ≤ n ∧
    ∀ who, 0 ≤ balance (ledger w) k who ≤ n.
Proof.
  intros Hr Hs Hn. destruct (reachable_grows w0 w Hr Hs) as [Hs' Hg].
  destruct (Hg k n Hn) as (n' & Hn' & Hle). split; [done|]. exists n'.
  split_and!; [done| |by eapply supply_nonneg|lia|].
  - intros m Hm. exact (sums_unique _ _ _ Hm Hn').
  - intros who. split; [apply Hs'|]. transitivity n'; [by apply balance_le_supply|lia].
Qed.

(** C25: A swap of a credit gives out and leaves on the chain at most what was
    there and in the credit before, asset by asset; a failed one leaves the
    chain as it was.  A failed swap for an exact input hands the whole credit
    back, a failed swap for an exact output only the part that was quoted. *)
Theorem credit_swaps_conserve path c y m w w' :
  0 ≤ peek c → solvent (ledger w) →
  (∀ c', swap_exact_credit_for_tokens path c m w = (Ok c', w') →
     0 ≤ peek c' ∧ ∀ k n, supply (ledger w) k n →
       ∃ n', supply (ledger w') k n' ∧ n' + worth c' k ≤ n + worth c k) ∧
  (∀ out change, swap_credit_for_exact_tokens path c y w = (Ok (out, change), w') →
     0 ≤ peek out ∧ 0 ≤ peek change ∧ ∀ k n, supply (ledger w) k n →
       ∃ n', supply (ledger w') k n' ∧ n' + worth out k + worth change k ≤ n + worth c k) ∧
  (∀ c' e, swap_exact_credit_for_tokens path c m w = (Err (c', e), w') → c' = c ∧ w' = w) ∧
  (∀ c' e, swap_credit_for_exact_tokens path c y w = (Err (c', e), w') →
     w' = w ∧ (c' = c ∨ ∃ bpath a x, balance_path_from_amount_out w y path = Ok bpath ∧
       head bpath = Some (a, x) ∧ x ≤ peek c ∧ c' = mkCredit (credit_asset c) x)).
Proof.
  intros Hc Hs. assert (Forall (λ c, 0 ≤ peek c) [c]) as Hcs by (by repeat constructor).
  split_and!.
  - intros c' Hrun%with_storage_layer_Ok.
    destruct (exchanges_credit_in path c m w c' w' Hrun Hcs) as [[Hc' _]%Forall_cons Hg].
    split; [done|]. intros k n Hn. destruct (Hg Hs) as [_ Hg']. destruct (Hg' k n Hn) as (n' & ? & Hle).
    exists n'. split; [done|]. simpl in Hle. lia.
  - intros out change Hrun%with_storage_layer_Ok.
    destruct (exchanges_credit_out path c y w _ w' Hrun Hcs) as [[Ho [Hch _]%Forall_cons]%Forall_cons Hg].
    split_and!; [done|done|]. intros k n Hn. destruct (Hg Hs) as [_ Hg'].
    destruct (Hg' k n Hn) as (n' & ? & Hle). exists n'. split; [done|]. simpl in Hle. lia.
  - intros c' e Hrun. unfold swap_exact_credit_for_tokens, with_storage_layer in Hrun.
    destruct (do_swap_exact_credit_tokens_for_tokens _ _ _ w) as [[| [c2 e2]| |] w2] eqn:Hd; simplify_eq.
    split; [by eapply credit_in_Err|done].
  - intros c' e Hrun. unfold swap_credit_for_exact_tokens, with_storage_layer in Hrun.
    destruct (do_swap_credit_tokens_for_exact_tokens _ _ _ w) as [[| [c2 e2]| |] w2] eqn:Hd; simplify_eq.
    split; [done|]. by eapply credit_out_Err.
Qed.
End Supply.

(** ** Runs on the sample history *)
Import Chain.

Abbreviation held := (balance (AccountId:=AccountId (Config:=dev)) (AssetId:=AssetKind (Config:=dev))
  (Ledger:=Ledger (Config:=dev)) (Fungibles0:=Assets (Config:=dev)) (FungiblesLaws:=Bank.bank_laws)).
Abbreviation all_solvent := (solvent (Who:=AccountId (Config:=dev)) (Kind:=AssetKind (Config:=dev))
  (Store:=Ledger (Config:=dev)) (Fungibles0:=Assets (Config:=dev)) (H:=Bank.bank_laws)).

Lemma genesis_solvent : all_solvent genesis_ledger.
Proof.
  assert (∀ a who : Z, 0 ≤ Bank.bal genesis_ledger a who) as Hall; [|exact Hall].
  intros a who. unfold Bank.bal, genesis_ledger, Bank.balances.
  destruct (list_to_map _ !! (a, who)) as [v|] eqn:Hv; simpl; [|lia].
  apply elem_of_list_to_map_2 in Hv. rewrite !elem_of_cons in Hv.
  destruct Hv as [Hv|[Hv|[Hv|[Hv|[Hv|Hv]]]]]; [simplify_eq; lia..|]. by apply not_elem_of_nil in Hv.
Qed.

Lemma genesis_supply_1 : supply (H:=Bank.bank_laws) genesis_ledger 1 (2 * 10 ^ 9).
Proof.
  exists [alice; bob]. split; [|vm_compute; reflexivity]. split.
  - repeat constructor; rewrite ?elem_of_cons, ?elem_of_nil; unfold alice, bob; lia.
  - intros who Hwho. rewrite !elem_of_cons in Hwho. simpl. unfold Bank.bal, genesis_ledger, Bank.balances.
    rewrite not_elem_of_list_to_map_1; [done|]. simpl.
    rewrite !elem_of_cons. intros Hk. apply Hwho.
    destruct_or! Hk; try (injection Hk as; subst; tauto). by apply not_elem_of_nil in Hk.
Qed.

Lemma supply_never_grows_witness :
  reachable (T:=dev) (genesis true) world ∧
  (∀ who, 0 ≤ held (ledger world) 1 who ≤ 2 * 10 ^ 9) ∧ Bank.bal (ledger world) 1 alice = 10 ^ 9 - 1000000.
Proof.
  pose proof (run_all_reachable (T:=dev) calls (genesis true) calls_ok) as Hr.
  split; [exact Hr|]. split; [|vm_compute; reflexivity].
  destruct (supply_never_grows (T:=dev) (HF:=Bank.bank_laws) (HP:=Bank.bank_pool_laws) (HC:=bank_conserves)
     (genesis true) world 1 (2 * 10 ^ 9) Hr genesis_solvent genesis_supply_1) as (_ & n' & _ & _ & _ & Hb).
  exact Hb.
Defined.

Lemma world_solvent : all_solvent (ledger world).
Proof.
  exact (proj1 (reachable_grows (T:=dev) (HF:=Bank.bank_laws) (HP:=Bank.bank_pool_laws) (HC:=bank_conserves)
    (genesis true) world (run_all_reachable (T:=dev) calls (genesis true) calls_ok) genesis_solvent)).
Qed.

(** A credit of 5000 of asset 2 is to buy 500 of asset 1, which costs 1004.
    The swap looks for the output on the account of the pool (2, 1), which
    does not exist; of the 5000 the caller gets back 1004. *)
Lemma credit_swaps_conserve_witness :
  ∃ w', swap_credit_for_exact_tokens (T:=dev) [2; 1] (mkCredit 2 5000) 500 world
          = (Err (mkCredit 2 1004, DNotExpendable), w') ∧ w' = world ∧
    (mkCredit 2 1004 = mkCredit 2 5000 ∨
     ∃ bpath a x, balance_path_from_amount_out (T:=dev) world 500 [2; 1] = Ok bpath ∧
       head bpath = Some (a, x) ∧ x ≤ 5000 ∧ mkCredit 2 1004 = mkCredit 2 x).
Proof.
  assert ((swap_credit_for_exact_tokens (T:=dev) [2; 1] (mkCredit 2 5000) 500 world).1
    = Err (mkCredit 2 1004, DNotExpendable)) as Hres by (vm_compute; reflexivity).
  destruct (swap_credit_for_exact_tokens (T:=dev) [2; 1] (mkCredit 2 5000) 500 world) as [r w'] eqn:Hrun.
  cbn [fst] in Hres. subst r. exists w'. split; [reflexivity|].
  assert (0 ≤ peek (AssetId:=AssetKind (Config:=dev)) (mkCredit 2 5000)) as Hc by (vm_compute; discriminate).
  destruct (credit_swaps_conserve (T:=dev) (HF:=Bank.bank_laws) (HP:=Bank.bank_pool_laws) (HC:=bank_conserves)
     [2; 1] (mkCredit 2 5000) 500 None world w' Hc world_solvent) as (_ & _ & _ & Herr).
  exact (Herr _ _ Hrun).
Defined.
