(* ===== verification/BackingProps.v ===== *)
(** * Properties of the freezes of open orders

    In every history of a runtime that checks arithmetic the freezes of an
    account cover its open orders.  Without the checks they need not. *)
From S2P Require Import Prelude Index Critbit CritbitOps OrderId BTreeMap Tick OrderBook Backing Errors Amm Locator Assets Config Pool Pallet PalletFacts Matching Liquidity Devnet Dispatch BackingFacts Backed ChainSample.
From Stdlib Require Import Bool.
Import PalletError.

Section Freezes.
Context `{T : Config, HO : !OrderInterface AccountId Level, HL : !OrderInterfaceLaws AccountId Level}.
Context `{HB : !OrderBookLaws AccountId Level BookError Book, HW : !LevelOwed AccountId Level}.
Context `{HF : !FungiblesLaws AccountId AssetKind Ledger,
  HP : !PoolFungiblesLaws AccountId AssetKind PoolAssetId Ledger,
  HK : !KeepsFreezes AccountId AssetKind PoolAssetId Ledger}.

(** C4: In a runtime that checks arithmetic and trades a pool in one
    direction, every call keeps the freezes large enough: if at the start of
    a history the open orders of each account, over all pools, are worth no
    more of an asset than the account has frozen, then so they are at its
    end; and so no open order is worth more than what its owner has frozen of
    the asset that it pays with. *)
Theorem orders_backed (pair_of : PoolId → AssetKind * AssetKind) w0 w :
  (∀ b q id, pool_id b q = Some id → pair_of id = (b, q)) → overflow_checks = true →
  world_ok w0 → backed pair_of w0 → reachable w0 w →
  (∀ a who, map_sum (λ id pool, claim pair_of id pool a who) (Pools w) ≤ frozen (ledger w) a who) ∧
  ∀ side id pool p v o q,
    Pools w !! id = Some pool → levels (get_orderbook pool side) !! p = Some v → (o, q) ∈ owed v →
    (if side then p * q / 10 ^ exponent pool else q) ≤ frozen (ledger w) (side_asset pair_of side id) o.
Proof.
  intros Hpair Hc Hw0 Hb0 Hr. destruct (reachable_backed pair_of Hpair Hc w0 w Hw0 Hb0 Hr) as [Hw Hb].
  split; [exact Hb|]. intros side id pool p v o q Hpool Hv Hin.
  exact (backed_order pair_of side id pool p v o q w Hw Hb Hpool Hv Hin).
Qed.
End Freezes.

(** ** The sample history *)
Import Chain.


Abbreviation dev_backed := (backed (T:=dev) (HO:=iface) (HL:=laws) (HW:=owed_laws) (HF:=Bank.bank_laws)).

Lemma genesis_backed : dev_backed (λ id : Z * Z, id) (genesis true).
Proof. intros a who. vm_compute. congruence. Qed.

(** Bob has frozen 70 of asset 1 for his asks, one of which is open for 40. *)
Lemma orders_backed_witness :
  reachable (T:=dev) (genesis true) world ∧
  claim (T:=dev) (HO:=iface) (HL:=laws) (HW:=owed_laws) (λ id : Z * Z, id) (1, 2) pool 1 bob = 70 ∧
  Bank.frz (ledger world) 1 bob = 70 ∧
  40 ≤ frozen (AccountId:=AccountId (Config:=dev)) (AssetId:=AssetKind (Config:=dev)) (Ledger:=Ledger (Config:=dev))
         (Fungibles0:=Assets (Config:=dev)) (FungiblesLaws:=Bank.bank_laws) (ledger world)
         (side_asset (T:=dev) (λ id : Z * Z, id) false (1, 2)) bob.
Proof.
  pose proof (run_all_reachable (T:=dev) calls (genesis true) calls_ok) as Hr.
  split; [exact Hr|]. split; [vm_compute; reflexivity|]. split; [vm_compute; reflexivity|].
  destruct (orders_backed (T:=dev) (HO:=iface) (HL:=laws) (HB:=book_laws) (HW:=owed_laws) (HF:=Bank.bank_laws)
    (HP:=Bank.bank_pool_laws) (HK:=bank_keeps_freezes) (λ id : Z * Z, id) (genesis true) world) as [_ H];
    [|done|exact genesis_ok|exact genesis_backed|exact Hr|..].
  { intros b q i Hi. simpl in Hi. case_match; [done|by injection Hi]. }
  assert (∃ v, levels (OrderBookLaws:=book_laws) (get_orderbook (T:=dev) pool false) !! 3 = Some v ∧ (bob, 40) ∈ owed (LevelOwed:=owed_laws) v) as (v & Hv & Hin).
  { eexists. split; [vm_compute; reflexivity|]. vm_compute. constructor. }
  exact (H false (1, 2) pool 3 v bob 40 pool_in_world Hv Hin).
Defined.
