(* ===== verification/ValueProps.v ===== *)
(** * What a share of a pool is worth

    The main theorem on the worth of shares over histories, and a history on
    the sample runtime. *)
From S2P Require Import Prelude Index Critbit CritbitOps OrderId BTreeMap Tick OrderBook Backing Errors Amm Locator Assets Config Pool Pallet PalletFacts Matching Liquidity Devnet Dispatch BackingFacts Supply SupplyFacts PoolValue PoolTrades PoolHistory ChainSample SupplyProps.
From Stdlib Require Import Bool.
Import PalletError.

Section Worth.
Context `{T : Config, HO : !OrderInterface AccountId Level, HL : !OrderInterfaceLaws AccountId Level}.
Context `{HB : !OrderBookLaws AccountId Level BookError Book, HW : !LevelOwed AccountId Level}.
Context `{HF : !FungiblesLaws AccountId AssetKind Ledger,
  HP : !PoolFungiblesLaws AccountId AssetKind PoolAssetId Ledger,
  HK : !KeepsFreezes AccountId AssetKind PoolAssetId Ledger,
  HC : !LedgerConserves AccountId AssetKind PoolAssetId Ledger,
  HS : !LedgerSteady AccountId AssetKind PoolAssetId Ledger}.

(** C5: Whatever calls others than the account of a pool dispatch, in whatever
    order and whether they succeed or fail, on this pool or on others: a share
    of the pool loses nothing.  The product of the two reserves, divided by
    the square of the number of shares, never falls, the pool keeps shares,
    and nothing of its account gets frozen. *)
Theorem share_keeps_worth pair_of rank id0 pa t (w0 w : World) :
  value_settings pair_of rank id0 pa → good rank id0 pa t w0 → calm pa w0 →
  0 < total_issuance (ledger w0) t → rtc (outside pa) w0 w →
  let b := (pair_of id0).1 in
  let q := (pair_of id0).2 in
  0 < total_issuance (ledger w) t ∧ (∀ a, frozen (ledger w) a pa = 0) ∧
  (get_balance w0 pa b * get_balance w0 pa q) * total_issuance (ledger w) t ^ 2 ≤
  (get_balance w pa b * get_balance w pa q) * total_issuance (ledger w0) t ^ 2.
Proof.
  intros Hset Hgood Hcalm Hs Hr b q.
  destruct (history_better pair_of rank id0 pa t Hset w0 w Hr Hgood) as [_ Hg].
  destruct (Hg Hcalm Hs) as (Hcalm' & Hs' & Hle). split_and!; [exact Hs'|apply Hcalm'|].
  rewrite !calm_reserve by done. exact Hle.
Qed.
End Worth.

Lemma run_all_outside `{T : Config} pa cs (w : World) :
  Forall (λ c, dispatch_ok c ∧ caller c ≠ Some pa) cs → rtc (outside pa) w (run_all cs w).
Proof.
  revert w. induction cs as [|c cs IH]; intros w; [by intros _; apply rtc_refl|].
  intros [[Hc Hcall] Hcs]%Forall_cons. eapply rtc_l; [|by apply IH].
  eapply outside_call; [exact Hc|exact Hcall|apply surjective_pairing].
Qed.

(** ** A history on the sample runtime *)
Import Chain.

Definition trading : list (dispatch (T:=dev)) := [
  Call_limit_order (T:=dev) (Some alice) 1 2 true 1 50;
  Call_limit_order (T:=dev) (Some bob) 1 2 false 3 40;
  Call_market_order (T:=dev) (Some bob) 1 2 600000 false;
  Call_add_liquidity (T:=dev) (Some bob) 1 2 10000 20000 1 1 bob;
  Call_swap_exact_in (T:=dev) alice [2; 1] 5000 None alice true;
  Call_swap_exact_in (T:=dev) bob [1; 2] 7000 None bob true;
  Call_remove_liquidity (T:=dev) (Some alice) 1 2 1000 1 1 alice].

Definition start : World (T:=dev) := run_all (T:=dev) (take 2 calls) (genesis true).
Definition finish : World (T:=dev) := run_all (T:=dev) trading start.

Lemma trading_outside : Forall (λ c, dispatch_ok (T:=dev) c ∧ caller (T:=dev) c ≠ Some 1036) trading.
Proof. repeat constructor; vm_compute; congruence. Qed.

Lemma derive_1036 (id : Z * Z) : devnet_derive id = Some 1036 → id = (1, 2).
Proof.
  unfold devnet_derive. intros Hd. assert (encode id = encode ((1 : Z), (2 : Z))) as He; [|by apply encode_inj in He].
  assert (1000 + Z.pos (encode id) = 1036) as Hz by (by apply (inj Some) in Hd).
  change (encode ((1 : Z), (2 : Z))) with 36%positive. lia.
Qed.

Lemma dev_settings :
  value_settings (T:=dev) (λ id : Z * Z, id) (λ n : Z, n) (1, 2) 1036.
Proof.
  split.
  - intros b q id Hid. simpl in Hid. case_match; [done|by injection Hid].
  - intros id. split; [by apply derive_1036|by intros ->].
  - done.
  - intros n m [= <-]. lia.
  - done.
  - done.
  - done.
  - done.
Qed.

Lemma start_reachable : reachable (T:=dev) (genesis true) start.
Proof.
  refine (run_all_reachable (T:=dev) (take 2 calls) (genesis true) _). repeat constructor; vm_compute; congruence.
Qed.

Lemma start_ok : world_ok (T:=dev) (HO:=iface) (HL:=laws) (HB:=book_laws) start.
Proof.
  exact (reachable_ok (T:=dev) (HO:=iface) (HL:=laws) (HB:=book_laws) (genesis true) start genesis_ok start_reachable).
Qed.

Definition start_pool : Pool (T:=dev) := default (Pool_new (T:=dev) 0 0 1 1 0 0 0) (Pools start !! ((1, 2) : PoolId (Config:=dev))).

Lemma start_keys : (map_to_list (Pools start)).*1 = [((1, 2) : PoolId (Config:=dev))].
Proof. vm_compute. reflexivity. Qed.

Lemma start_lookup (id : PoolId (Config:=dev)) pool : Pools start !! id = Some pool → id = ((1, 2) : PoolId (Config:=dev)) ∧ pool = start_pool.
Proof.
  intros Hid. assert (id = ((1, 2) : PoolId (Config:=dev))) as ->.
  { apply list_elem_of_singleton. rewrite <-start_keys. apply list_elem_of_fmap. exists (id, pool).
    split; [done|]. by apply elem_of_map_to_list. }
  split; [done|]. unfold start_pool. by rewrite Hid.
Qed.

Lemma start_has_pool : Pools start !! ((1, 2) : PoolId (Config:=dev)) = Some start_pool.
Proof.
  assert (match Pools start !! ((1, 2) : PoolId (Config:=dev)) with Some _ => true | None => false end = true)
    as Hs by (vm_compute; reflexivity).
  unfold start_pool. destruct (Pools start !! _); [reflexivity|discriminate Hs].
Qed.

Lemma start_stray s : stray (T:=dev) (HO:=iface) (HL:=laws) (HB:=book_laws) (HW:=owed_laws) 1036 s start_pool = 0.
Proof. destruct s; vm_compute; reflexivity. Qed.

Lemma start_good :
  good (T:=dev) (HO:=iface) (HL:=laws) (HB:=book_laws) (HW:=owed_laws) (λ n : Z, n) (1, 2) 1036 0 start.
Proof.
  split; [exact start_ok|]. split; [exists 1; split; [vm_compute; reflexivity|lia]|]. split_and!.
  - exists start_pool. split; [exact start_has_pool|]. vm_compute. reflexivity.
  - by intros id pool' [-> _]%start_lookup _.
  - intros id pool' s [_ ->]%start_lookup. apply start_stray.
Qed.

Lemma start_calm : calm (T:=dev) (HF:=Bank.bank_laws) 1036 start.
Proof.
  split.
  - intros a. assert (Bank.freezes (ledger start) = ∅) as Hf by (vm_compute; reflexivity).
    change (default 0 (Bank.freezes (ledger start) !! (a, 1036)) = 0). by rewrite Hf, lookup_empty.
  - intros a. apply (reachable_grows (T:=dev) (HF:=Bank.bank_laws) (HP:=Bank.bank_pool_laws) (HC:=bank_conserves)
      (genesis true) start start_reachable genesis_solvent).
Qed.

Abbreviation issued w := (total_issuance (AccountId:=AccountId (Config:=dev)) (PoolAssetId:=PoolAssetId (Config:=dev))
  (Ledger:=Ledger (Config:=dev)) (PoolFungibles:=PoolAssets (Config:=dev)) (ledger w) 0).

(** Sales, a deposit and a withdrawal: the reserves go from (1000000, 2000000)
    to (1615814, 1253116), the shares from 1414213 to 1422051. *)
Lemma share_keeps_worth_witness :
  rtc (outside (T:=dev) 1036) start finish ∧
  (get_balance (T:=dev) finish 1036 1, get_balance (T:=dev) finish 1036 2, issued finish)
    = (1615814, 1253116, 1422051) ∧
  (get_balance (T:=dev) start 1036 1 * get_balance (T:=dev) start 1036 2) * issued finish ^ 2 ≤
  (get_balance (T:=dev) finish 1036 1 * get_balance (T:=dev) finish 1036 2) * issued start ^ 2.
Proof.
  pose proof (run_all_outside (T:=dev) 1036 trading start trading_outside) as Hr.
  split; [exact Hr|]. split; [vm_compute; reflexivity|].
  destruct (share_keeps_worth (T:=dev) (HO:=iface) (HL:=laws) (HB:=book_laws) (HW:=owed_laws) (HF:=Bank.bank_laws)
    (HP:=Bank.bank_pool_laws) (HK:=bank_keeps_freezes) (HC:=bank_conserves) (HS:=bank_steady)
    (λ id : Z * Z, id) (λ n : Z, n) (1, 2) 1036 0 start finish dev_settings start_good start_calm) as (_ & _ & H);
    [vm_compute; reflexivity|exact Hr|]. cbv zeta in H. cbn [fst snd] in H. exact H.
Defined.
