(* ===== verification/MatchProps.v ===== *)
(** * Properties of the matching engine and of whole histories

    The main theorems on market and limit orders, on the search for the
    pool's share, on settlement, and on all reachable states; each with a run
    on the sample runtime where it has hypotheses. *)
From S2P Require Import Prelude Index Critbit CritbitOps OrderId Tick OrderBook Errors Amm Locator Assets Config Pool Pallet PalletFacts Matching SearchFacts MatchFacts Liquidity LiquidityFacts OrderFacts Devnet Findings Dispatch ChainSample.
From Stdlib Require Import Bool.
Import PalletError.

Section Engine.
Context `{T : Config, HO : !OrderInterface AccountId Level, HL : !OrderInterfaceLaws AccountId Level}.
Context `{HB : !OrderBookLaws AccountId Level BookError Book}.
Context `{HF : !FungiblesLaws AccountId AssetKind Ledger, HR : !FungiblesReturn AccountId AssetKind Ledger}.
Implicit Types (w : World) (pool : Pool) (side : bool).

(** C2: Matching an order terminates (where the step of the search cannot
    wrap around), and when it succeeds the whole quantity is traded:
    what was swapped with the pool and what was filled from the book add
    up to the order.  Levels are filled from the best price on, only at
    prices of the opposite book; the pool record stays well-formed; the
    fills are settled, and the trade is announced last. *)
Theorem do_match_order_correct side o pool base quote_asset q w :
  pool_ok pool → step_ok pool → 0 ≤ q < 2 ^ (BITS - 1) - 1 →
  no_fuel (do_match_order side o pool base quote_asset q w).1 ∧
  ∀ pool' w', do_match_order side o pool base quote_asset q w = (Ok pool', w') →
    pool_ok pool' ∧ Pools w' = Pools w ∧
    ∃ fills es w1 w2,
      events w' = OrderMatched o q side :: es ++ events w ∧
      q = swapped side es + filled_sum fills ∧
      StronglySorted (better side) (prices fills) ∧
      (∀ p, p ∈ prices fills → is_Some (book_levels side pool !! p)) ∧
      handle_filled_orders side pool' base quote_asset o fills w1 = (Ok (), w2) ∧
      ledger w' = ledger w2.
Proof. apply do_match_order_spec. Qed.

(** C6: In every reachable state every pool is well-formed: both books
    satisfy the invariant of their implementation, the id counters are on
    their side and have not run out, and tick and lot size are positive. *)
Theorem reachable_pools_ok w0 w id pool :
  world_ok w0 → reachable w0 w → Pools w !! id = Some pool → pool_ok pool.
Proof. intros H0 Hr Hp. by apply (reachable_ok w0 w H0 Hr id). Qed.


(** Filling one price of the book subtracts from the order exactly what
    the level gives, records it at that price, and removes the level when
    it cannot satisfy the rest; it never fails on a well-formed pool. *)
Theorem do_fill_book_correct side pool price q fo v :
  pool_ok pool → in_range BITS q → book_levels side pool !! price = Some v →
  ∃ pool' new,
    do_fill_book side pool price q fo =
      Ok (pool', q - Z.min q (value_total v), fo ++ new) ∧
    pool_ok pool' ∧ base_decimals pool' = base_decimals pool ∧
    filled_sum new = Z.min q (value_total v) ∧ Forall (λ f, f.1.2 = price) new ∧
    (∀ p, is_Some (book_levels side pool' !! p) → is_Some (book_levels side pool !! p)) ∧
    (value_total v < q → book_levels side pool' = delete price (book_levels side pool)).
Proof. apply do_fill_book_spec. Qed.

(** C19: A limit order that is accepted has a price and a quantity that are
    positive multiples of tick and lot size; it is matched when its price
    reaches the current pool price, and placed in the book otherwise; only
    the pool of the pair is written. *)
Theorem limit_order_correct side maker price q base quote_asset w w' :
  world_ok w →
  do_limit_order maker price q side base quote_asset w = (Ok (), w') →
  ∃ id pool b_r q_r current pool' w1,
    pool_id base quote_asset = Some id ∧ Pools w !! id = Some pool ∧ order_valid pool price q ∧
    get_reserves w base quote_asset = Ok (b_r, q_r) ∧ pool_price pool b_r q_r = Ok current ∧
    (if (if side then current <=? price else price <=? current)
     then do_match_order side maker pool base quote_asset q w
     else do_place_order side id pool maker base quote_asset price q w) = (Ok pool', w1) ∧
    ledger w' = ledger w1 ∧ events w' = LimitOrder id maker price q side :: events w1 ∧
    Pools w' = <[id := pool']> (Pools w1).
Proof. intros Hw. apply do_limit_order_Ok. intros id pool Hp. by apply (Hw id). Qed.

(** C20: A placed order gets the next id of its side, freezes the quote
    value (a bid) or the base quantity (an ask) of its maker and nothing
    else, moves no balance, and joins the level of its price on its side
    only. *)
Theorem do_place_order_correct side id pool maker base quote_asset price q w pool' w' :
  pool_ok pool → in_range BITS price → in_range BITS q →
  do_place_order side id pool maker base quote_asset price q w = (Ok pool', w') →
  ∃ amount oid e,
    freeze_amount side pool price q = Ok amount ∧ is_bid oid = side ∧ pool_ok pool' ∧
    levels (get_orderbook pool' side) =
      levels_place oid maker price q e (levels (get_orderbook pool side)) ∧
    get_orderbook pool' (negb side) = get_orderbook pool (negb side) ∧
    events w' = LimitOrderPlaced maker price id oid q side :: events w ∧
    Pools w' = Pools w ∧ balance (ledger w') = balance (ledger w) ∧
    ∀ a z, frozen (ledger w') a z =
      frozen (ledger w) a z + moved (if side then quote_asset else base, maker) (a, z) amount.
Proof. apply do_place_order_Ok. Qed.

(** An order can be placed whenever an id of its side is left and the
    book has its price or room for a new one: the call does not fail. *)
Theorem place_order_succeeds current side o price q pool :
  pool_ok pool → in_range BITS price → in_range BITS q → in_range 32 (current + OrderExpiration) →
  order_id_value (if side then next_bid_id pool else next_ask_id pool) ≠ last_id side →
  is_Some (levels (get_orderbook pool side) !! price) ∨ book_room (get_orderbook pool side) →
  ∃ pool', pool_place_order current side o price q pool =
    (Ok (price, if side then next_bid_id pool else next_ask_id pool), pool') ∧ pool_ok pool'.
Proof.
  intros Hp Hpr Hq He Hid Hroom.
  destruct (pool_place_order_spec current side o price q pool) as (pool' & Hrun & Hok & _); [done..|].
  by exists pool'.
Qed.

(** A signed market order that is accepted has a positive quantity
    that is a multiple of the lot size, and is matched completely against
    the pool of its pair. *)
Theorem market_order_correct side taker base quote_asset q w w' :
  world_ok w →
  market_order (Some taker) base quote_asset q side w = (Ok (), w') →
  ∃ id pool pool' w1,
    pool_id base quote_asset = Some id ∧ Pools w !! id = Some pool ∧
    0 < q ∧ lot_size pool ≤ q ∧ (lot_size pool | q) ∧
    do_match_order side taker pool base quote_asset q w = (Ok pool', w1) ∧
    ledger w' = ledger w1 ∧ events w' = MarketOrder taker :: events w1 ∧
    Pools w' = <[id := pool']> (Pools w1).
Proof.
  intros Hw Hm. unfold market_order in Hm. apply with_storage_layer_Ok in Hm.
  apply do_market_order_Ok in Hm; [done|]. intros id pool Hp. by apply (Hw id).
Qed.

(** C24: Settling one fill of a bid against a selling taker releases and
    pays exactly what the bid had frozen for that quantity at its price,
    and delivers the base quantity to its owner; nothing else moves. *)
Theorem settle_ask_correct pool quote_asset base o ow p q w w' :
  settle false pool quote_asset base o [(ow, p, q)] w = (Ok (), w') →
  ∃ r, freeze_amount true pool p q = Ok r ∧
    (∀ a z, frozen (ledger w') a z = frozen (ledger w) a z - moved (quote_asset, ow) (a, z) r) ∧
    ∀ a z, balance (ledger w') a z =
      balance (ledger w) a z - moved (quote_asset, ow) (a, z) r - moved (base, o) (a, z) q
      + moved (quote_asset, o) (a, z) r + moved (base, ow) (a, z) q.
Proof. apply settle_ask_Ok. Qed.

(** A bid that is filled in two parts releases at most what it froze,
    and at most one unit stays behind by rounding. *)
Theorem freeze_release_parts pool p q1 q2 r1 r2 r :
  0 ≤ default 0 (decimal_adjustment pool).1.1 → 0 ≤ default 0 (decimal_adjustment pool).2 →
  in_range BITS (p * (q1 + q2)) → 0 ≤ p → 0 ≤ q1 → 0 ≤ q2 →
  released_amount false pool p q1 = Ok r1 → released_amount false pool p q2 = Ok r2 →
  freeze_amount true pool p (q1 + q2) = Ok r → r1 + r2 ≤ r ≤ r1 + r2 + 1.
Proof.
  intros Ha Hb Hr Hp Hq1 Hq2 H1 H2 H3. unfold released_amount in H1, H2.
  apply (freeze_amount_parts pool p q1 q2 r1 r2 r); try done; unfold freeze_amount;
    destruct (decimal_adjustment pool) as [[p_adj b_adj] q_adj]; done.
Qed.

End Engine.

(** ** Runs on the sample history *)
Import Chain.

Lemma small_u128 x : 0 ≤ x < 2 ^ 64 → in_range (BITS (OrderBookIndex:=u128)) x.
Proof. intros Hx. unfold in_range. split; [lia|]. transitivity (2 ^ 64); [lia|done]. Qed.

Lemma do_match_order_correct_witness :
  ∃ pool' w' fills es,
    do_match_order (T:=dev) true alice pool 1 2 300000 world = (Ok pool', w') ∧
    events w' = OrderMatched (T:=dev) alice 300000 true :: es ++ events world ∧
    300000 = swapped (T:=dev) true es + filled_sum (T:=dev) fills.
Proof.
  assert (match (do_match_order (T:=dev) true alice pool 1 2 300000 world).1 with Ok _ => true | _ => false end = true)
    as Hs by (vm_compute; reflexivity).
  destruct (do_match_order (T:=dev) true alice pool 1 2 300000 world) as [r w'] eqn:Hrun.
  cbn [fst] in Hs. destruct r as [pool'| | |]; [|discriminate Hs..].
  destruct (do_match_order_correct (T:=dev) (HO:=iface) (HL:=laws) (HB:=book_laws) true alice pool 1 2 300000 world
              pool_is_ok pool_step_ok) as [_ Hpost].
  { change (0 ≤ 300000 < 2 ^ 127 - 1). lia. }
  destruct (Hpost _ _ Hrun) as (_ & _ & fills & es & w1 & w2 & H1 & H2 & _).
  exists pool', w', fills, es. split; [reflexivity|]. split; [exact H1|exact H2].
Defined.

Lemma reachable_pools_ok_witness :
  reachable (T:=dev) (genesis true) world ∧
  pool_ok (T:=dev) (HO:=iface) (HL:=laws) (HB:=book_laws) pool.
Proof.
  pose proof (run_all_reachable (T:=dev) calls (genesis true) calls_ok) as Hr.
  split; [exact Hr|].
  exact (reachable_pools_ok (T:=dev) (HO:=iface) (HL:=laws) (HB:=book_laws) (genesis true) world
           ((1, 2) : PoolId (Config:=dev)) pool genesis_ok Hr pool_in_world).
Defined.


Lemma do_fill_book_correct_witness :
  ∃ (v : Level (Config:=dev)) pool' new,
    book_levels (T:=dev) (HO:=iface) (HL:=laws) (HB:=book_laws) true pool !! 3 = Some v ∧
    do_fill_book (T:=dev) true pool 3 25 [] = Ok (pool', 25 - Z.min 25 (@value_total _ _ _ iface laws v), new) ∧
    filled_sum (T:=dev) new = Z.min 25 (@value_total _ _ _ iface laws v).
Proof.
  assert (match book_levels (T:=dev) (HO:=iface) (HL:=laws) (HB:=book_laws) true pool !! 3 with
          Some _ => true | None => false end = true) as Hs by (vm_compute; reflexivity).
  destruct (book_levels (T:=dev) (HO:=iface) (HL:=laws) (HB:=book_laws) true pool !! 3) as [v|] eqn:Hv;
    [|discriminate Hs].
  destruct (do_fill_book_correct (T:=dev) (HO:=iface) (HL:=laws) (HB:=book_laws) true pool 3 25 [] v)
    as (pool' & new & H1 & _ & _ & H2 & _).
  - exact pool_is_ok.
  - apply small_u128. lia.
  - exact Hv.
  - exists v, pool', new. split; [reflexivity|]. split; [exact H1|exact H2].
Defined.

Lemma limit_order_correct_witness :
  ∃ w' id p, do_limit_order (T:=dev) alice 1 20 true 1 2 world = (Ok (), w') ∧
    pool_id (PoolLocator:=Locator (Config:=dev)) 1 2 = Some id ∧ Pools world !! id = Some p ∧
    order_valid (T:=dev) p 1 20.
Proof.
  pose proof (run_result (do_limit_order (T:=dev) alice 1 20 true 1 2) world () ltac:(vm_compute; reflexivity)) as Hrun.
  destruct (limit_order_correct (T:=dev) (HO:=iface) (HL:=laws) (HB:=book_laws) true alice 1 20 1 2 world _
              world_is_ok Hrun) as (id & p & b_r & q_r & cur & pool' & w1 & H1 & H2 & H3 & _).
  eexists. exists id, p. split; [exact Hrun|]. split; [exact H1|]. split; [exact H2|exact H3].
Defined.

Lemma do_place_order_correct_witness :
  ∃ pool' w' amount,
    do_place_order (T:=dev) true (1, 2) pool alice 1 2 1 20 world = (Ok pool', w') ∧
    freeze_amount (T:=dev) true pool 1 20 = Ok amount ∧
    frozen (FungiblesLaws:=Bank.bank_laws) (ledger w') 2 alice =
      frozen (FungiblesLaws:=Bank.bank_laws) (ledger world) 2 alice + moved (2, alice) (2, alice) amount.
Proof.
  assert (match (do_place_order (T:=dev) true (1, 2) pool alice 1 2 1 20 world).1 with Ok _ => true | _ => false end = true)
    as Hs by (vm_compute; reflexivity).
  destruct (do_place_order (T:=dev) true (1, 2) pool alice 1 2 1 20 world) as [r w'] eqn:Hrun.
  cbn [fst] in Hs. destruct r as [pool'| | |]; [|discriminate Hs..].
  destruct (do_place_order_correct (T:=dev) (HO:=iface) (HL:=laws) (HB:=book_laws) (HF:=Bank.bank_laws)
              true ((1, 2) : PoolId (Config:=dev)) pool alice 1 2 1 20 world pool' w')
    as (amount & oid & e & H1 & _ & _ & _ & _ & _ & _ & _ & H2).
  - exact pool_is_ok.
  - apply small_u128. lia.
  - apply small_u128. lia.
  - exact Hrun.
  - exists pool', w', amount. split; [reflexivity|]. split; [exact H1|exact (H2 2 alice)].
Defined.

Lemma place_order_succeeds_witness :
  ∃ pool', pool_place_order (T:=dev) 1 false bob 7 20 pool = (Ok (7, next_ask_id pool), pool') ∧
           pool_ok (T:=dev) (HO:=iface) (HL:=laws) (HB:=book_laws) pool'.
Proof.
  apply (place_order_succeeds (T:=dev) (HO:=iface) (HL:=laws) (HB:=book_laws) 1 false bob 7 20 pool).
  - exact pool_is_ok.
  - apply small_u128. lia.
  - apply small_u128. lia.
  - split; vm_compute; congruence.
  - vm_compute. congruence.
  - right. vm_compute. reflexivity.
Defined.

Lemma market_order_correct_witness :
  ∃ w' p pool' w1, market_order (T:=dev) (Some alice) 1 2 200 true world = (Ok (), w') ∧
    do_match_order (T:=dev) true alice p 1 2 200 world = (Ok pool', w1) ∧ ledger w' = ledger w1.
Proof.
  pose proof (run_result (market_order (T:=dev) (Some alice) 1 2 200 true) world () ltac:(vm_compute; reflexivity)) as Hrun.
  destruct (market_order_correct (T:=dev) (HO:=iface) (HL:=laws) (HB:=book_laws) true alice 1 2 200 world _
              world_is_ok Hrun) as (id & p & pool' & w1 & _ & _ & _ & _ & _ & H3 & H4 & _).
  eexists. exists p, pool', w1. split; [exact Hrun|]. split; [exact H3|exact H4].
Defined.

Lemma settle_ask_correct_witness :
  ∃ w' r, settle (T:=dev) false pool 2 1 bob [(alice, 1, 5)] world = (Ok (), w') ∧
    freeze_amount (T:=dev) true pool 1 5 = Ok r ∧
    frozen (FungiblesLaws:=Bank.bank_laws) (ledger w') 2 alice =
      frozen (FungiblesLaws:=Bank.bank_laws) (ledger world) 2 alice - moved (2, alice) (2, alice) r.
Proof.
  pose proof (run_result (settle (T:=dev) false pool 2 1 bob [(alice, 1, 5)]) world () ltac:(vm_compute; reflexivity)) as Hrun.
  destruct (settle_ask_correct (T:=dev) (HF:=Bank.bank_laws) pool 2 1 bob alice 1 5 world _ Hrun) as (r & H1 & H2 & _).
  eexists. exists r. split; [exact Hrun|]. split; [exact H1|exact (H2 2 alice)].
Defined.

Lemma freeze_release_parts_witness :
  let p := Pool_new (T:=dev) 0 0 1 1 2 0 0 in
  released_amount (T:=dev) false p 150 1 = Ok 1 ∧ freeze_amount (T:=dev) true p 150 2 = Ok 3 ∧ 1 + 1 ≤ 3 ≤ 1 + 1 + 1.
Proof.
  cbv zeta.
  assert (released_amount (T:=dev) false (Pool_new (T:=dev) 0 0 1 1 2 0 0) 150 1 = Ok 1) as H1
    by (vm_compute; reflexivity).
  assert (freeze_amount (T:=dev) true (Pool_new (T:=dev) 0 0 1 1 2 0 0) 150 2 = Ok 3) as H2
    by (vm_compute; reflexivity).
  split; [exact H1|]. split; [exact H2|].
  apply (freeze_release_parts (T:=dev) (Pool_new (T:=dev) 0 0 1 1 2 0 0) 150 1 1 1 1 3);
    [vm_compute; congruence|vm_compute; congruence|apply small_u128; lia|lia..|exact H1|exact H1|exact H2].
Defined.

