(* ===== verification/FindingProps.v ===== *)
(** * Where the code departs from its intent

    Theorems on behaviour that contradicts a comment, a doc or the evident
    purpose of the code.  The definitions are the ones that all other files
    use; the lemmas are in [Findings]. *)
From S2P Require Import Prelude Index Critbit CritbitOps BTreeMap OrderId Tick OrderBook Errors Amm Locator Assets Config Pool Pallet PalletFacts Matching SearchFacts MatchFacts Liquidity OrderFacts Devnet Findings Dispatch Backing BackingFacts OrderDefects ChainSample.
From Stdlib Require Import Bool.
Import PalletError.

(** C33: In a build without overflow checks the search for the pool's share
    can run forever: with two decimals the step 10^2 makes the upper bound
    wrap around zero, and the interval comes back to itself.  Whatever the
    number of rounds, it has not ended; a plain market order reaches this
    state.  With overflow checks the same search aborts. *)
Theorem search_can_loop :
  (∀ fuel, search (T:=devnet false) fuel false 1935848 lasso_pool 376 729733 0 411 0 = OutOfFuel) ∧
  (market_order (T:=devnet false) (Some bob) 1 2 411 false lasso_world).1 = OutOfFuel ∧
  search (T:=devnet true) (search_fuel (T:=devnet true)) false 1935848 (Pool_new (T:=devnet true) 0 0 1 1 3 2 2)
    376 729733 0 411 0 = Panic.
Proof. split; [exact lasso_search|]. split; [exact lasso_market_order|exact lasso_search_checked]. Qed.

Section Departures.
Context `{T : Config, HF : !FungiblesLaws AccountId AssetKind Ledger}.
Implicit Types w : World.

(** C34: A buying taker is settled at no price: the prices of the filled asks
    do not enter, and the owner of an ask of [q] base units is paid [q]
    quote units. *)
Theorem settle_bid_at_par pool base quote_asset o ow p p' q w w' :
  settle true pool base quote_asset o [(ow, p, q)] w = (Ok (), w') →
  base ≠ quote_asset → o ≠ ow →
  balance (ledger w') base o = balance (ledger w) base o + q ∧
  balance (ledger w') quote_asset ow = balance (ledger w) quote_asset ow + q ∧
  settle true pool base quote_asset o [(ow, p', q)] w = (Ok (), w').
Proof.
  intros Hs Ha Ho. destruct (settle_bid_pays pool base quote_asset o ow p q w w' Hs Ha Ho) as [H1 H2].
  split_and!; [done|done|]. rewrite <-Hs. by apply settle_bid_ignores_price.
Qed.

(** C35: A successful cancellation changes the book and leaves the ledger
    alone: what was frozen when the order was placed stays frozen. *)
Theorem cancel_keeps_frozen o base quote_asset price id q w w' :
  do_cancel_order o base quote_asset price id q w = (Ok (), w') →
  ledger w' = ledger w ∧
  ∃ pid pool, pool_id base quote_asset = Some pid ∧ Pools w !! pid = Some pool ∧
    Pools w' = <[pid := (pool_cancel_order o price id q pool).2]> (Pools w) ∧
    (pool_cancel_order o price id q pool).1 = Ok id.
Proof. apply do_cancel_order_ledger. Qed.

(** C36: A swap along three assets stops after the first hop: the receiver
    gets the second asset, while the amount that is returned and compared
    with the minimum is one of the third. *)
Theorem long_path_stops_early sender a b c x min send_to keep w out w' :
  do_swap_exact_tokens_for_tokens sender [a; b; c] x min send_to keep w = (Ok out, w') →
  keep = true ∨ no_dust (ledger w) a sender x →
  ∃ pab pbc y, pool_address a b = Some pab ∧ pool_address b c = Some pbc ∧
    get_amount_out x (get_balance w pab a) (get_balance w pab b) = Ok y ∧
    get_amount_out y (get_balance w pbc b) (get_balance w pbc c) = Ok out ∧
    ∀ a' z, balance (ledger w') a' z =
      balance (ledger w) a' z - moved (a, sender) (a', z) x - moved (b, pab) (a', z) y
      + moved (a, pab) (a', z) x + moved (b, send_to) (a', z) y.
Proof. apply swap_three_assets. Qed.

(** A swap of a credit is quoted on the pool of the pair as given and
    executed on the pool of the reversed pair. *)
Theorem credit_swap_wrong_pool a b x min w c w' :
  do_swap_exact_credit_tokens_for_tokens [a; b] (mkCredit a x) min w = (Ok c, w') →
  ∃ pab pba, pool_address a b = Some pab ∧ pool_address b a = Some pba ∧
    get_amount_out x (get_balance w pab a) (get_balance w pab b) = Ok (peek c) ∧
    credit_asset c = b ∧
    ∀ a' z, balance (ledger w') a' z =
      balance (ledger w) a' z - moved (b, pba) (a', z) (peek c) + moved (a, pba) (a', z) x.
Proof. apply credit_swap_other_pool. Qed.
End Departures.

(** ** Orders that should not rest, or not abort *)
Section Orders.
Context `{T : Config, HO : !OrderInterface AccountId Level, HL : !OrderInterfaceLaws AccountId Level}.
Context `{HB : !OrderBookLaws AccountId Level BookError Book}.
Context `{HF : !FungiblesLaws AccountId AssetKind Ledger}.
Implicit Types (w : World) (pool : Pool) (side : bool).

(** C37: The value of a bid is a product at the width of an amount.  When it
    exceeds that width, a build with overflow checks aborts; one without them
    freezes the value modulo the width, which is less than the bid is worth,
    and the bid joins its level with all of its quantity. *)
Theorem bid_value_wraps id pool maker base quote_asset price q w :
  pool_ok pool → in_range BITS price → in_range BITS q →
  0 ≤ exponent pool ≤ 19 → 10 ^ exponent pool ≤ 2 ^ BITS → 2 ^ BITS ≤ price * q →
  (overflow_checks = true → (do_place_order true id pool maker base quote_asset price q w).1 = Panic) ∧
  (overflow_checks = false → ∀ pool' w',
     do_place_order true id pool maker base quote_asset price q w = (Ok pool', w') →
     let frozen_now := (price * q) mod 2 ^ BITS / 10 ^ exponent pool in
     frozen_now < price * q / 10 ^ exponent pool ∧
     (∀ a z, frozen (ledger w') a z = frozen (ledger w) a z + moved (quote_asset, maker) (a, z) frozen_now) ∧
     ∃ oid e, levels (bids pool') = levels_place oid maker price q e (levels (bids pool))).
Proof.
  intros Hok Hp Hq He Hw Ho. pose proof (bid_value_overflows pool price q He Ho) as Hv. split.
  - intros Hc. apply do_place_order_aborts. by rewrite Hv, Hc.
  - intros Hc pool' w' Hrun. rewrite Hc in Hv. cbv zeta. split.
    { apply wrapped_value_less; [|done]. split; [apply Z.pow_pos_nonneg; lia|done]. }
    apply do_place_order_Ok in Hrun as (v & oid & e & Hv' & _ & _ & Hl & _ & _ & _ & _ & Hf); [|done..].
    rewrite Hv in Hv'. injection Hv' as <-. split; [exact Hf|by exists oid, e].
Qed.

(** C38: A limit order is compared with the price of the pool only.  When the
    pool price does not meet it, it is placed even if the best order of the
    other side does: that order stays as it is, nothing is traded, and
    afterwards the best bid is at least the best ask. *)
Theorem book_can_cross side maker price q base quote_asset w w' id pool b_r q_r current best i :
  world_ok w → pool_id base quote_asset = Some id → Pools w !! id = Some pool →
  get_reserves w base quote_asset = Ok (b_r, q_r) → pool_price pool b_r q_r = Ok current →
  (if side then price < current else current < price) →
  (if side then next_ask_order pool else next_bid_order pool) = Some (best, i) → better side best price →
  in_range BITS price → in_range BITS q →
  do_limit_order maker price q side base quote_asset w = (Ok (), w') →
  ∃ pool' bid bi ask ai, Pools w' !! id = Some pool' ∧
    next_bid_order pool' = Some (bid, bi) ∧ next_ask_order pool' = Some (ask, ai) ∧ ask ≤ bid ∧
    get_orderbook pool' (negb side) = get_orderbook pool (negb side) ∧
    balance (ledger w') = balance (ledger w).
Proof.
  intros Hw Hid Hpool Hres Hpp Hfar Hnext Hbetter Hp Hq Hrun.
  apply do_limit_order_Ok in Hrun as (id' & pool1 & b1 & q1 & c1 & pool' & w1 & Hid' & Hpool' & _ & Hres' & Hpp' & Hrun & Hl & _ & HP);
    [|intros; by eapply Hw].
  simplify_eq. rewrite Hres in Hres'. injection Hres' as <- <-. rewrite Hpp in Hpp'. injection Hpp' as <-.
  assert ((if side then current <=? price else price <=? current) = false) as Hfalse by (destruct side; lia).
  rewrite Hfalse in Hrun. pose proof (Hw _ _ Hpool) as Hok.
  apply do_place_order_Ok in Hrun as (v & oid & e & _ & _ & Hok' & Hlev & Hother & _ & _ & Hbal & _); [|done..].
  destruct (own_best side pool' price Hok') as (p & j & Hown & Hpb); [rewrite Hlev; apply placed_level|].
  pose proof (opposite_same side pool pool' Hother) as Hopp. unfold opposite, own in Hopp, Hown. rewrite Hnext in Hopp.
  exists pool'. unfold better in Hbetter, Hpb. rewrite HP, lookup_insert_eq, Hl, Hbal.
  destruct side; eexists _, _, _, _; split_and!; try done; lia.
Qed.
End Orders.

(** C39: With overflow checks a small market order aborts: if the pool alone
    would be past the best price of the book after half the order, and that
    half is smaller than one base unit with its decimals, the search for the
    pool's share steps below zero in its first round.  The abort is not an
    error that the call could return. *)
Theorem small_order_aborts `{T : Config} (side : bool) who base quote_asset q (w : World) id pool target i b_r q_r p :
  overflow_checks = true → 0 < q → q + 1 < 2 ^ BITS →
  pool_id base quote_asset = Some id → Pools w !! id = Some pool → is_valid_order_quantity pool q = Ok true →
  (if side then next_ask_order pool else next_bid_order pool) = Some (target, i) →
  get_reserves w base quote_asset = Ok (b_r, q_r) →
  price_after side pool b_r q_r ((q + 1) / 2) = Ok p → (if side then target < p else p < target) →
  0 ≤ base_decimals pool ≤ 19 → 10 ^ base_decimals pool < 2 ^ BITS → (q + 1) / 2 < 10 ^ base_decimals pool →
  (market_order (Some who) base quote_asset q side w).1 = Panic.
Proof.
  intros Hc Hq Hq' Hid Hpool Hv Hnext Hres Hp Hfar Hd Hd' Hstep.
  apply (market_order_search_aborts side who base quote_asset q w id pool target i); [done..|].
  unfold find_max_swap_quantity. rewrite Hres. run_step. unfold search_fuel.
  exact (search_step_aborts _ side target pool b_r q_r q p Hc Hq Hq' Hp Hfar Hd Hd' Hstep).
Qed.

(** ** Runs on the sample runtime *)
Module Odd.
Abbreviation dev := (devnet true).
(** Pools (1, 2), (2, 1) and (2, 3); Bob asks 3 for 40 in the first. *)
Definition ledger3 : Bank.t :=
  Bank.mk (list_to_map [((0, alice), 10 ^ 12); ((1, alice), 10 ^ 9); ((2, alice), 10 ^ 9);
                        ((3, alice), 10 ^ 9); ((1, bob), 10 ^ 9); ((2, bob), 10 ^ 9)]) ∅ ∅ ∅.
Definition world : World (T:=dev) :=
  ((_ ← create_pool (T:=dev) (Some alice) 1 0 2 0 0 1 1 0;
    _ ← add_liquidity (T:=dev) (Some alice) 1 2 1000000 2000000 1 1 alice;
    _ ← create_pool (T:=dev) (Some alice) 2 0 1 0 0 1 1 0;
    _ ← add_liquidity (T:=dev) (Some alice) 2 1 1000000 2000000 1 1 alice;
    _ ← create_pool (T:=dev) (Some alice) 2 0 3 0 0 1 1 0;
    _ ← add_liquidity (T:=dev) (Some alice) 2 3 1000000 2000000 1 1 alice;
    limit_order (T:=dev) (Some bob) 1 2 false 3 40)
     (mkWorld dev ledger3 ∅ None 1 [])).2.
End Odd.
Import Odd.

Lemma settle_bid_at_par_witness :
  ∃ w', settle (T:=dev) true (Pool_new (T:=dev) 0 0 1 1 0 0 0) 1 2 alice [(bob, 3, 10)] world = (Ok (), w') ∧
    settle (T:=dev) true (Pool_new (T:=dev) 0 0 1 1 0 0 0) 1 2 alice [(bob, 999, 10)] world = (Ok (), w').
Proof.
  pose proof (run_result (settle (T:=dev) true (Pool_new (T:=dev) 0 0 1 1 0 0 0) 1 2 alice [(bob, 3, 10)]) world ()
    ltac:(vm_compute; reflexivity)) as Hrun.
  eexists. split; [exact Hrun|].
  apply (settle_bid_at_par (T:=dev) (HF:=Bank.bank_laws) _ 1 2 alice bob 3 999 10 world _ Hrun); vm_compute; congruence.
Defined.

Lemma cancel_keeps_frozen_witness :
  ∃ w', do_cancel_order (T:=dev) bob 1 2 3 start_ask_id 40 world = (Ok (), w') ∧ ledger w' = ledger world ∧
        Bank.frz (ledger world) 1 bob = 40.
Proof.
  pose proof (run_result (do_cancel_order (T:=dev) bob 1 2 3 start_ask_id 40) world ()
    ltac:(vm_compute; reflexivity)) as Hrun.
  destruct (cancel_keeps_frozen (T:=dev) bob 1 2 3 start_ask_id 40 world _ Hrun) as [H1 _].
  eexists. split; [exact Hrun|]. split; [exact H1|vm_compute; reflexivity].
Defined.

Lemma long_path_stops_early_witness :
  ∃ w' out pab pbc y,
    do_swap_exact_tokens_for_tokens (T:=dev) bob [1; 2; 3] 1000 None bob true world = (Ok out, w') ∧
    get_amount_out (H:=u128) (H0:=devnet_amm) 1000 (get_balance (T:=dev) world pab 1) (get_balance (T:=dev) world pab 2) = Ok y ∧
    get_amount_out (H:=u128) (H0:=devnet_amm) y (get_balance (T:=dev) world pbc 2) (get_balance (T:=dev) world pbc 3) = Ok out.
Proof.
  pose proof (run_result (do_swap_exact_tokens_for_tokens (T:=dev) bob [1; 2; 3] 1000 None bob true) world 3964
    ltac:(vm_compute; reflexivity)) as Hrun.
  destruct (long_path_stops_early (T:=dev) (HF:=Bank.bank_laws) bob 1 2 3 1000 None bob true world 3964 _ Hrun)
    as (pab & pbc & y & _ & _ & H1 & H2 & _); [by left|].
  eexists. exists 3964, pab, pbc, y. split; [exact Hrun|]. split; [exact H1|exact H2].
Defined.

Lemma credit_swap_wrong_pool_witness :
  ∃ c w' pab pba,
    do_swap_exact_credit_tokens_for_tokens (T:=dev) [1; 2] (mkCredit 1 1000) None world = (Ok c, w') ∧
    pool_address (H:=Locator (Config:=dev)) 1 2 = Some pab ∧ pool_address (H:=Locator (Config:=dev)) 2 1 = Some pba ∧
    credit_asset c = 2.
Proof.
  pose proof (run_result (do_swap_exact_credit_tokens_for_tokens (T:=dev) [1; 2] (mkCredit 1 1000) None) world
    (mkCredit 2 1992) ltac:(vm_compute; reflexivity)) as Hrun.
  destruct (credit_swap_wrong_pool (T:=dev) (HF:=Bank.bank_laws) 1 2 1000 None world _ _ Hrun)
    as (pab & pba & H1 & H2 & _ & H3 & _).
  exists (mkCredit 2 1992). eexists. exists pab, pba.
  split; [exact Hrun|]. split; [exact H1|]. split; [exact H2|exact H3].
Defined.

(** ** Orders on sample pools *)
Module Orders.
Abbreviation loose := (devnet false).
#[export] Instance iface : OrderInterface Z (Tick Z) := @Tick_OrderInterface u128 (Build_BuildProfile false) Z _.
#[export] Instance laws : @OrderInterfaceLaws Z (Tick Z) u128 iface :=
  @Tick_OrderInterfaceLaws u128 (Build_BuildProfile false) Z _.
#[export] Instance book_laws :
    @OrderBookLaws Z (Tick Z) CritbitTreeError (CritbitTree (Tick Z)) u128 iface laws
      (OrderBook_impl (Config:=loose)) :=
  @CritbitTree_OrderBookLaws u128 (Build_BuildProfile false) Z (Tick Z) iface laws.

Definition empty_pool : Pool (T:=loose) := Pool_new (T:=loose) 0 0 1 1 0 0 0.
Definition huge_bid := do_place_order (T:=loose) true ((1, 2) : PoolId (Config:=loose)) empty_pool 3 1 2 2 (2 ^ 127).

(** A pool with price 4: Alice bids 3 for 50, a swap lowers the price below 2. *)
Definition lowering : list (dispatch (T:=dev)) := [
  Call_create_pool (T:=dev) (Some alice) 1 0 2 0 0 1 1 0;
  Call_add_liquidity (T:=dev) (Some alice) 1 2 1000000 4000000 1 1 alice;
  Call_limit_order (T:=dev) (Some alice) 1 2 true 3 50;
  Call_swap_exact_in (T:=dev) bob [1; 2] 500000 None bob true].
Definition lowered : World (T:=dev) := run_all (T:=dev) lowering (genesis true).

Lemma lowering_ok : Forall (dispatch_ok (T:=dev)) lowering.
Proof. repeat constructor; vm_compute; congruence. Qed.

Definition the_pool (w : World (T:=dev)) : Pool (T:=dev) :=
  default (Pool_new (T:=dev) 0 0 1 1 0 0 0) (Pools w !! ((1, 2) : PoolId (Config:=dev))).

Lemma the_pool_is w :
  match Pools w !! ((1, 2) : PoolId (Config:=dev)) with Some _ => true | None => false end = true →
  Pools w !! ((1, 2) : PoolId (Config:=dev)) = Some (the_pool w).
Proof. unfold the_pool. by destruct (Pools w !! _). Qed.

(** A pool of assets with 9 decimals and price 2, and an ask at 3. *)
Definition nine_decimals : World (T:=dev) :=
  (limit_order (T:=dev) (Some bob) 1 2 false 3 40 (with_pool_dec true 9)).2.
End Orders.

(** Account 3 owns nothing, bids 2 for 2^127, and freezes nothing. *)
Lemma bid_value_wraps_witness :
  ∃ pool' w', Orders.huge_bid (genesis false) = (Ok pool', w') ∧
    Bank.bal (ledger (genesis false)) 2 3 = 0 ∧
    frozen (FungiblesLaws:=Bank.bank_laws) (ledger w') 2 3 = 0 ∧ 0 < 2 ^ 127.
Proof.
  assert (Hx : 2 ^ BITS (OrderBookIndex:=u128) ≤ 2 * 2 ^ 127) by (vm_compute; congruence).
  destruct (Orders.huge_bid (genesis false)) as [r w'] eqn:Hrun.
  assert (match r with Ok _ => true | _ => false end = true) as Hok.
  { change r with (r, w').1. rewrite <-Hrun. vm_compute. reflexivity. }
  destruct r as [pool'|?| |]; [|discriminate Hok..].
  exists pool', w'. split; [reflexivity|]. split; [vm_compute; reflexivity|]. split; [|lia].
  destruct (bid_value_wraps (T:=Orders.loose) (HO:=Orders.iface) (HL:=Orders.laws) (HB:=Orders.book_laws) (HF:=Bank.bank_laws)
    (1, 2) Orders.empty_pool 3 1 2 2 (2 ^ 127) (genesis false)) as [_ H].
  - apply Pool_new_ok; lia.
  - vm_compute. split; congruence.
  - vm_compute. split; congruence.
  - vm_compute. split; congruence.
  - vm_compute. congruence.
  - exact Hx.
  - destruct (H eq_refl pool' w' Hrun) as (_ & Hf & _). rewrite Hf. vm_compute. reflexivity.
Defined.

(** Bob's ask at 2 rests below Alice's bid at 3. *)
Lemma book_can_cross_witness :
  ∃ w' pool' bid bi ask ai,
    do_limit_order (T:=dev) bob 2 40 false 1 2 Orders.lowered = (Ok (), w') ∧
    Pools w' !! ((1, 2) : PoolId (Config:=dev)) = Some pool' ∧
    next_bid_order (T:=dev) pool' = Some (bid, bi) ∧ next_ask_order (T:=dev) pool' = Some (ask, ai) ∧ ask ≤ bid.
Proof.
  pose proof (run_result (do_limit_order (T:=dev) bob 2 40 false 1 2) Orders.lowered () ltac:(vm_compute; reflexivity)) as Hrun.
  pose proof (Orders.the_pool_is Orders.lowered ltac:(vm_compute; reflexivity)) as Hpool.
  exists (do_limit_order (T:=dev) bob 2 40 false 1 2 Orders.lowered).2.
  destruct (book_can_cross (T:=dev) (HO:=Chain.iface) (HL:=Chain.laws) (HB:=Chain.book_laws) (HF:=Bank.bank_laws)
    false bob 2 40 1 2 Orders.lowered (do_limit_order (T:=dev) bob 2 40 false 1 2 Orders.lowered).2 ((1, 2) : PoolId (Config:=dev)) (Orders.the_pool Orders.lowered) 1500000 2669337 1 3 0)
    as (pool' & bid & bi & ask & ai & H1 & H2 & H3 & H4 & _); [..|exact Hrun|].
  - exact (reachable_ok (T:=dev) _ _ Chain.genesis_ok (run_all_reachable (T:=dev) Orders.lowering _ Orders.lowering_ok)).
  - reflexivity.
  - exact Hpool.
  - vm_compute. reflexivity.
  - vm_compute. reflexivity.
  - vm_compute. reflexivity.
  - vm_compute. reflexivity.
  - vm_compute. congruence.
  - vm_compute. split; congruence.
  - vm_compute. split; congruence.
  - exists pool', bid, bi, ask, ai. by split_and!.
Defined.

(** Alice buys 600000 of the 10^9 units that are one asset. *)
Lemma small_order_aborts_witness :
  (market_order (T:=dev) (Some alice) 1 2 600000 true Orders.nine_decimals).1 = Panic ∧ 600000 < 10 ^ 9.
Proof.
  split; [|lia].
  pose proof (Orders.the_pool_is Orders.nine_decimals ltac:(vm_compute; reflexivity)) as Hpool.
  apply (small_order_aborts (T:=dev) true alice 1 2 600000 Orders.nine_decimals ((1, 2) : PoolId (Config:=dev)) (Orders.the_pool Orders.nine_decimals) 3 0 1000000 2000000 4).
  - reflexivity.
  - lia.
  - vm_compute. reflexivity.
  - reflexivity.
  - exact Hpool.
  - vm_compute. reflexivity.
  - vm_compute. reflexivity.
  - vm_compute. reflexivity.
  - vm_compute. reflexivity.
  - vm_compute. reflexivity.
  - vm_compute. split; congruence.
  - vm_compute. reflexivity.
  - vm_compute. reflexivity.
Defined.
