(* ===== verification/OpsProps.v ===== *)
(** * Properties of pool migration

    The theorem on [migrate_to_new_account], and a chain on which it is run. *)
From S2P Require Import Prelude Locator Ops OpsFacts OpsErrors OpsSample.
From Stdlib Require Import Bool.

Import Ops OpsFacts OpsErrors.

Section Props.
Context `{BuildProfile} {T : Config} {laws : Laws} {RE : RegistryErrors}.

(** C18: A migration that succeeds was signed, for an existing pool whose
    prior and new accounts differ, it announces the move, and its fee is
    waived.  If the pool's two records name the same lp token, its assets
    differ and neither account is the depositor of a deposit, then the prior
    account's balances were not zero and have moved to the new account in full
    (both assets and the lp token), no deposit is left with the prior account,
    and as much of the deposit asset was burned as was minted.  A migration
    that does not succeed changes nothing.  Its error is that of the first
    check that fails, and a check that fails first gives its error: a missing
    signature, the pair, the pool, its metadata, the accounts, a balance that
    is zero, the first transfer that is partial; any other error comes from a
    registry. *)
Theorem migrate_to_new_account_correct origin a b s r s' :
  migrate_to_new_account origin a b s = (r, s') →
  match r with
  | Ok pays => pays = Pays_No ∧ ∃ signer id info metadata prior new,
      origin = Some signer ∧ pool_id a b = Some id ∧
      Pools (chain s) id = Some info ∧ PoolMetadata (chain s) id = Some metadata ∧
      PriorAccountIdConverter id = Some prior ∧ address id = Some new ∧ prior ≠ new ∧
      events s' = events s ++ [MigratedToNewAccount id prior new] ∧
      (metadata_lp_token metadata = info_lp_token info → id.1 ≠ id.2 →
       outsiders prior new id.1 id.2 (info_lp_token info) (chain s) →
       migrated prior new id.1 id.2 (info_lp_token info) (chain s) (chain s'))
  | _ => s' = s
  end ∧
  (∀ e, r = Err e → refusal origin a b s e) ∧
  (∀ e, refusal origin a b s e → (∀ code, e ≠ Registry code) → r = Err e).
Proof.
  intros Hrun. split; [|by apply migrate_refusals in Hrun]. unfold migrate_to_new_account in Hrun.
  destruct (migrate_body origin a b s) as [[pays| | |] s1] eqn:Hbody; simplify_eq; try done.
  assert (pays = Pays_No) as -> by (unfold migrate_body in Hbody; by inv_run; case_match; inv_run).
  split; [done|]. by apply migrate_body_spec.
Qed.
End Props.

(** A migration that succeeds, and one of a pool whose accounts have moved. *)
Lemma migrate_to_new_account_correct_witness :
  (∃ prior new c', migrated (T:=OpsSample.config) (laws:=OpsSample.laws) prior new 1 2 7 (chain OpsSample.before) c' ∧ prior = 2012) ∧
  refusal (H:=OpsSample.checks) (T:=OpsSample.config) (Some 9) 1 2 OpsSample.after (Module_ ZeroBalance).
Proof.
  split.
  - pose proof (migrate_to_new_account_correct (H:=OpsSample.checks) (T:=OpsSample.config) (laws:=OpsSample.laws) (RE:=OpsSample.registry_errors) (Some 9) 1 2 OpsSample.before _ _
                (run_result (@migrate_to_new_account OpsSample.checks OpsSample.config (Some 9) 1 2) OpsSample.before Pays_No ltac:(vm_compute; reflexivity))) as [Hspec _].
    destruct Hspec as (_ & signer & id & info & metadata & prior & new & _ & Hid & Hinfo & Hmeta & Hp & Hn & _ & _ & Hmig).
    injection Hid as <-. injection Hinfo as <-. injection Hmeta as <-. injection Hp as <-. injection Hn as <-.
    eexists _, _, _. split; [|reflexivity]. apply Hmig.
    + reflexivity.
    + discriminate.
    + vm_compute. split; [exact I|split; split; discriminate].
  - destruct (migrate_to_new_account (H:=OpsSample.checks) (T:=OpsSample.config) (Some 9) 1 2 OpsSample.after) as [r s'] eqn:Hrun.
    destruct (migrate_to_new_account_correct (H:=OpsSample.checks) (T:=OpsSample.config) (laws:=OpsSample.laws) (RE:=OpsSample.registry_errors) (Some 9) 1 2 OpsSample.after r s' Hrun) as [_ [Herr _]].
    apply Herr. change r with (r, s').1. rewrite <-Hrun. vm_compute. reflexivity.
Defined.
