(* ===== verification/PreconfProps.v ===== *)
(** * Properties of the proposer

    The theorems on preconfirmations, each with an instance on the sample
    node: what is announced is in the block, the numbering of announcements,
    the sub-block loop, when a proposal ends, and the publication of messages;
    then two places where the code departs from its intent. *)
From S2P Require Import Prelude Preconf PreconfLoop PreconfFacts PreconfRuns PreconfFair PreconfRate PreconfSample.
From Stdlib Require String.

Section Props.
Context `{BuildProfile} {node : Node} {bb : BlockBuilder} {json : Json}.

(** C7: A proposal that succeeds returns a block, and the block consists of
    inherents of the proposal (in order, those that were accepted) followed
    by exactly the extrinsics announced to the subscribers, in the order of
    the announcements.  Each announced extrinsic comes from the pool's ready
    transactions with its hash, none is taken twice, and each was pushed when
    it fitted the size limit and after a clock reading that was not past the
    deadline, which leaves a third of the given time.  The messages sent are
    those of the announcements. *)
Theorem announced_in_block {extrinsics_of : Builder → list Extrinsic} {block_extrinsics : Block → list Extrinsic}
    (laws : BuilderLaws extrinsics_of block_extrinsics) (ready_laws : ReadyLaws)
    (f : PreConfProposerFactory) h number paras other digest max_duration size_limit s n ps r s' :
  let p := init_with_now f h number in
  let limit := default (f_default_block_size_limit f) size_limit in
  Z.of_nat n < 2 ^ 64 →
  factory_propose f h number paras other digest max_duration size_limit s n ps (Ok r) s' →
  ∃ x deadline data inherents inh k b ts,
    r = Some x ∧ provide_inherent_data paras other = Some data ∧
    (∃ b0 b1, new_builder h number true digest = inr b0 ∧ create_inherents data b0 = (inr inherents, b1)) ∧
    inh `sublist_of` inherents ∧ extrinsics_of b = inh ∧
    block_extrinsics (block x) = inh ++ announced ps ∧
    announced ps = tx_data <$> ts ∧ announced_hashes ps = tx_hash <$> ts ∧ offered p deadline ts ∧
    pushes (f_include_proof_in_block_size_estimation f) limit deadline k b ts (ticks s') (builder s') ∧
    deadline = clock (ticks s) + max_duration - max_duration / 3 ∧
    messages s' = messages s ++ (message_of <$> ps).
Proof.
  intros p limit Hn Hf. inversion Hf as [|data n' ps' r' s'' Hdata Hprop]; subst.
  destruct r' as [x'| | |]; simplify_eq/=.
  inversion Hprop as [|deadline s1 n' ps' r' s'' Hdl Hwith]; subst.
  destruct r' as [x| | |]; simplify_eq/=.
  destruct (propose_with_contents _ _ _ _ _ _ _ _ _ _ _ Hn Hwith)
    as (Hms & b0 & xs & b1 & n2 & b2 & inh & ts & Hnew & Hcr & Hsub & Hb2 & Hp & Hblk & Hx & Hh & Hoff).
  exists x', deadline, data, xs, inh, n2, b2, ts. split_and!; try done; [by exists b0, b1|..].
  all: unfold propose_deadline, instant_add, now in Hdl; inv_run; case_match; simplify_eq/=; done.
Qed.

(** C17: The announcements of a proposal, finished or not, are numbered
    strictly upwards from zero at least; each is of at least one transaction,
    has the id derived from the parent and its number, counts its
    transactions, and carries the base of the block (parent, number, size
    limit) exactly when its number is zero. *)
Theorem announcements_numbered (ready_laws : ReadyLaws) p pr data digest deadline size_limit s n ps r s' :
  let limit := default (default_block_size_limit p) size_limit in
  Z.of_nat n < 2 ^ 64 →
  propose_with p pr data digest deadline size_limit s n ps r s' →
  StronglySorted Z.lt (payload_index <$> ps) ∧
  Forall (λ x, 0 ≤ payload_index x ∧
    ∃ block_number ts, u_add (E:=BlockchainError) number_width (parent_number p) 1 = Ok block_number ∧
      announces p limit block_number (payload_index x) ts x) ps.
Proof. apply propose_with_payloads. Qed.

(** C16: Pushing the extrinsics of a sub-block always comes to an end and
    never returns an error; it aborts only if a block size or the soft
    deadline cannot be represented.  It pushes the transactions it returns,
    each while it fits the limit and after
    a clock reading that is not past the deadline, takes them from the iterator at most once,
    and the reason it gives is right: the iterator was empty, or a clock
    reading was past the deadline, or it was past the soft deadline and at
    least nine transactions had not fitted. *)
Theorem apply_extrinsics_correct (ready_laws : ReadyLaws) p deadline limit s r s' :
  let ip := include_proof_in_block_size_estimation p in
  let soft := soft_deadline_of p deadline (clock (ticks s)) in
  apply_extrinsics p deadline limit s = (r, s') →
  match r with
  | Ok (reason, xs, hs) =>
      ∃ ts (dropped : nat), xs = tx_data <$> ts ∧ hs = tx_hash <$> ts ∧
        pushes ip limit deadline (ticks s) (builder s) ts (ticks s') (builder s') ∧
        ts ++ pending (ready_txs s') ⊆+ pending (ready_txs s) ∧
        (length ts + dropped + length (pending (ready_txs s')) ≤ length (pending (ready_txs s)))%nat ∧
        messages s' = messages s ∧
        match reason with
        | NoMoreTransactions => ∃ r0, next r0 = (None, ready_txs s')
        | HitDeadline => ∃ k, (ticks s ≤ k < ticks s')%nat ∧ deadline < clock k
        | HitBlockSizeLimit | HitBlockWeightLimit =>
            (9 ≤ dropped)%nat ∧ ∃ k, (ticks s ≤ k < ticks s')%nat ∧ soft ≤ clock k
        end
  | Panic => sizes_overflow ip ∨ instant_limit ≤ soft
  | _ => False
  end.
Proof.
  intros ip soft Hrun. pose proof (apply_extrinsics_spec p deadline limit s) as Hspec. rewrite Hrun in Hspec.
  destruct r as [[[reason xs] hs]| | |]; try done.
  destruct Hspec as (ts & d & [] & Hend & Hsk & -> & ->). exists ts, d. split_and!; try done.
  unfold skips_used, MAX_SKIPPED_TRANSACTIONS in Hsk. simpl in Hsk.
  destruct reason; try done; (split; [lia|exact Hend]).
Qed.

(** C27: A proposal ends under fair scheduling.  In every infinite run of the
    tasks in which the passing of time, the canceller, the fetching of
    transactions and the leaving of the loop are again and again taken or not
    possible, and in which the canceller starts before the deadline, the main
    loop is left after finitely many steps and stays left; it is left normally, by an abort, or
    because the receiver of messages is gone. *)
Theorem fair_proposal_ends (ready_laws : ReadyLaws) (clock_laws : ClockLaws) p deadline limit block_number s σ ev :
  σ 0%nat = initial s → infinite_run p deadline limit block_number σ ev →
  (∀ e, e ∈ [Wait; Canceller; Fetch; Leave] → fair p deadline limit block_number e σ ev) →
  canceller_in_time deadline σ ev →
  ∃ n ps r, run p deadline limit block_number n (initial s) ps (σ n) ∧
    (∀ j, (n ≤ j)%nat → main (σ j) = Left r) ∧ (r = Ok () ∨ r = Panic ∨ r = Err Application).
Proof.
  intros H0 Hrun Hf Ht.
  assert (∃ n, left (σ n)) as [n [r Hr]].
  { apply (run_ends p deadline limit block_number σ ev Hrun); [apply Hf; set_solver..|done|by rewrite H0]. }
  destruct (run_prefix p deadline limit block_number σ ev Hrun n) as [ps Hps]. rewrite H0 in Hps.
  exists n, ps, r. split_and!; [done| |].
  - intros j Hj. by eapply (run_left p deadline limit block_number σ ev Hrun n j r).
  - by eapply run_result_cases.
Qed.

(** The rate of announcements: in a run that has not failed, the
    announcements, and the sub-blocks, are at most one more than the periods
    of the interval that have passed since the tasks were spawned. *)
Theorem announcements_rate (ready_laws : ReadyLaws) (clock_laws : ClockLaws) p deadline limit block_number s n ps L :
  0 ≤ preconf_block_time p →
  run p deadline limit block_number n (initial s) ps L → ¬ failed (main L) →
  Z.max (Z.of_nat (length ps)) (sub_block_count L) * from_millis (preconf_block_time p)
    ≤ time_of L - clock (ticks s) + from_millis (preconf_block_time p).
Proof. intros Hp. by apply rate_bound. Qed.

(** From every state of a proposal that has not failed, if the canceller
    has fired, sleeps, or starts before the deadline, the loop can be left
    normally without announcing anything more. *)
Theorem proposal_can_end (clock_laws : ClockLaws) p deadline limit block_number L :
  cancelled L = true ∨ canceller L = Sleeping ∨ canceller L = CancelSpawned ∧ time_of L < deadline →
  ¬ failed (main L) →
  ∃ n L', run p deadline limit block_number n L [] L' ∧ main L' = Left (Ok ()).
Proof. intros Hc Hm. by apply run_can_end. Qed.

(** C32: A proposal whose deadline has passed when its tasks are spawned
    never leaves its loop normally: the canceller does not cancel and the
    interval keeps sending, so no block is returned in any run. *)
Theorem late_proposal_never_ends (ready_laws : ReadyLaws) (clock_laws : ClockLaws) p deadline limit block_number s n ps L :
  preconf_block_time p ≠ 0 → deadline ≤ clock (ticks s) →
  run p deadline limit block_number n (initial s) ps L → main L ≠ Left (Ok ()).
Proof. intros Hp Hd Hrun. by eapply late_never_ends. Qed.

(** A transaction taken from the pool's iterator after the deadline of a
    sub-block is lost for the whole block: it is not pushed, not reported, and
    no longer pending in the iterator that later sub-blocks use. *)
Theorem late_transaction_lost (ready_laws : ReadyLaws) p deadline limit s t r' :
  next (ready_txs s) = (Some t, r') → deadline < clock (S (ticks s)) →
  soft_deadline_of p deadline (clock (ticks s)) < instant_limit →
  ∃ s', apply_extrinsics p deadline limit s = (Ok (HitDeadline, [], []), s') ∧
    builder s' = builder s ∧ reports s' = reports s ++ [(parent_hash p, report_new)] ∧
    pending (ready_txs s) ≡ₚ t :: pending (ready_txs s').
Proof.
  intros Hn Hd Hi. eexists. split; [by eapply apply_extrinsics_late|]. simpl. split_and!; try done.
  by apply next_takes.
Qed.

(** The subscribers are independent: after any sequence of messages the
    list holds, in order, those that took every message at once, each as the
    messages left it. *)
Theorem subscribers_independent ms subs : publish_task ms subs = omap (deliver ms) subs.
Proof. apply publish_task_omap. Qed.

(** The bytes an id is hashed from determine the sub-block: eight bytes
    after the parent's hash, from which the index can be read back; different
    indices give different data. *)
Theorem payload_data_roundtrip h index :
  in_range 64 index →
  length (payload_data h index) = (length (hash_bytes h) + 8)%nat ∧
  Forall (in_range 8) (drop (length (hash_bytes h)) (payload_data h index)) ∧
  from_le_bytes (drop (length (hash_bytes h)) (payload_data h index)) = index.
Proof.
  intros Hi. unfold payload_data. rewrite drop_app_length, length_app.
  unfold to_le_bytes at 1. rewrite le_bytes_length.
  split_and!; [done|apply le_bytes_range|by apply to_le_bytes_roundtrip].
Qed.
End Props.

(** Instances on the sample node. *)
Section Witnesses.
Import Sample.

Lemma announced_in_block_witness :
  block_extrinsics (block final_block) = [3; 5; 11; 22; 44; 55] ∧
  ∃ x deadline data inherents inh k b ts,
    Some final_block = Some x ∧ provide_inherent_data 3 [5] = Some data ∧
    (∃ b0 b1, new_builder (BlockBuilder:=builder_impl) 7 41 true 0 = inr b0 ∧ create_inherents data b0 = (inr inherents, b1)) ∧
    inh `sublist_of` inherents ∧ extrinsics_of b = inh ∧
    block_extrinsics (block x) = inh ++ announced final.1 ∧
    announced final.1 = tx_data <$> ts ∧ announced_hashes final.1 = tx_hash <$> ts ∧ offered proposer deadline ts ∧
    pushes true 85 deadline k b ts (ticks (proposing final.2)) (builder (proposing final.2)) ∧
    deadline = clock (ticks fresh) + 45 * 10 ^ 6 - 45 * 10 ^ 6 / 3 ∧
    messages (proposing final.2) = messages fresh ++ (message_of <$> final.1).
Proof.
  split; [reflexivity|].
  exact (announced_in_block builder_laws ready_laws factory 7 41 3 [5] 0 (45 * 10 ^ 6) None fresh
           (length schedule) final.1 (Some final_block) (proposing final.2) ltac:(vm_compute; reflexivity) final_proposal).
Defined.

Lemma announcements_numbered_witness :
  StronglySorted Z.lt (payload_index <$> final.1) ∧ length final.1 = 2%nat.
Proof.
  split; [|vm_compute; reflexivity].
  apply (announcements_numbered ready_laws proposer true [3; 5] 0 deadline None
           (propose_deadline (45 * 10 ^ 6) fresh).2 (length schedule) final.1
           (loop_result (Ok ()) (proposing final.2)) (proposing final.2)); [vm_compute; reflexivity|].
  apply (propose_loop proposer true [3; 5] 0 deadline None _ 42 started); [reflexivity|exact final_run|reflexivity].
Defined.

Definition mid_pool : Proposing := mkProposing node [3; 5] [11; 19; 22] 4 [] [] true.

Definition after_pool : Proposing :=
  mkProposing node [3; 5; 11; 22] [] 8 [(7, [(1019, Some 2)])] [] true.

Lemma apply_extrinsics_correct_witness :
  ∃ ts (dropped : nat), [11; 22] = tx_data <$> ts ∧ (length ts + dropped + 0 ≤ 3)%nat.
Proof.
  assert (apply_extrinsics proposer deadline 85 mid_pool =
            (Ok (NoMoreTransactions, [11; 22], [1011; 1022]), after_pool)) as Hrun by (vm_compute; reflexivity).
  pose proof (apply_extrinsics_correct ready_laws proposer deadline 85 mid_pool _ _ Hrun) as Hspec.
  destruct Hspec as (ts & d & Hx & _ & _ & _ & Hl & _). exists ts, d. split; [exact Hx|exact Hl].
Defined.

Lemma proposal_can_end_witness :
  ∃ n L', run proposer deadline 85 42 n (initial started) [] L' ∧ main L' = Left (Ok ()).
Proof.
  apply (proposal_can_end clock_laws proposer deadline 85 42 (initial started)).
  - right. right. split; [reflexivity|vm_compute; reflexivity].
  - intros [].
Defined.

Lemma fair_proposal_ends_witness :
  ∃ n ps r, run proposer deadline 85 42 n (initial started) ps (σ n) ∧
    (∀ j, (n ≤ j)%nat → main (σ j) = Left r) ∧ (r = Ok () ∨ r = Panic ∨ r = Err Application).
Proof.
  exact (fair_proposal_ends ready_laws clock_laws proposer deadline 85 42 started σ ev eq_refl
           sample_infinite sample_fair sample_in_time).
Defined.

(** Two announcements in 31 milliseconds, with a period of 4. *)
Lemma announcements_rate_witness :
  Z.max (Z.of_nat (length final.1)) (sub_block_count final.2) * from_millis (preconf_block_time proposer)
    ≤ time_of final.2 - clock (ticks started) + from_millis (preconf_block_time proposer) ∧
  length final.1 = 2%nat ∧ from_millis (preconf_block_time proposer) = 4000000.
Proof.
  assert (¬ failed (main final.2)) as Hf by (vm_compute; tauto).
  assert (0 ≤ preconf_block_time proposer) as Hp by (vm_compute; discriminate).
  split; [|split; vm_compute; reflexivity].
  exact (announcements_rate ready_laws clock_laws proposer deadline 85 42 started (length schedule) final.1 final.2
           Hp final_run Hf).
Defined.

(** A deadline in the past, and a sub-block that was built before the loop
    was found to be stuck. *)
Definition late_final : list PreConfBlockPayload * Loop :=
  default ([], initial started)
    (exec proposer 0 85 42 [Canceller; IntervalStart; Fetch; IntervalTick; Signal] (initial started)).

Lemma late_proposal_never_ends_witness : main late_final.2 ≠ Left (Ok ()) ∧ canceller late_final.2 = CancelDone.
Proof.
  split; [|reflexivity].
  apply (late_proposal_never_ends ready_laws clock_laws proposer 0 85 42 started 5 late_final.1);
    [discriminate|vm_compute; discriminate|].
  apply (exec_run _ _ _ _ [Canceller; IntervalStart; Fetch; IntervalTick; Signal]). vm_compute. reflexivity.
Defined.

Lemma late_transaction_lost_witness :
  ∃ s', apply_extrinsics proposer (4 * 10 ^ 6) 85 mid_pool = (Ok (HitDeadline, [], []), s') ∧
    builder s' = builder mid_pool ∧ reports s' = reports mid_pool ++ [(parent_hash proposer, report_new)] ∧
    pending (ready_txs mid_pool) ≡ₚ 11 :: pending (ready_txs s').
Proof.
  apply (late_transaction_lost ready_laws proposer (4 * 10 ^ 6) 85 mid_pool 11 [19; 22]);
    [reflexivity|vm_compute; reflexivity|vm_compute; reflexivity].
Defined.

Lemma payload_data_roundtrip_witness : from_le_bytes (drop 1 (payload_data (node:=node) 7 300)) = 300.
Proof.
  apply (payload_data_roundtrip (node:=node) 7 300). split; [discriminate|vm_compute; reflexivity].
Defined.
End Witnesses.
