(* ===== verification/RuntimeProps.v ===== *)
(** * Properties of the runtime's configuration and of the node

    The weights and fees of the pallet's calls, the runtime api, what the
    genesis patch guarantees for ever after, what a node starts, and what the
    command line runs. *)
From stdpp Require Import strings.
From S2P Require Import Prelude Weights Runtime ChainSpec Index Critbit CritbitOps OrderId Tick OrderBook Errors Amm Locator Assets Config Pool Pallet PalletFacts Matching Liquidity Devnet Dispatch Supply SupplyFacts RuntimeCalls GenesisFacts GenesisSample ChainSample.
From S2P Require Import Preconf PreconfLoop PreconfFacts PreconfRuns PreconfRate PreconfSample Service Commands.
From Stdlib Require Import Bool.
Import PalletError.
Local Open Scope Z_scope.

Section Calls.
Context `{T : Config, WL : WeightLib, HL : !WeightLaws}.
Implicit Types w : World.

(** C30: The weight limits hold.  Any number of calls of the pallet, each in
    an extrinsic with the base weight and the weight of the runtime's
    transaction extensions, fits with the base weight of the block in the
    share of a block that normal extrinsics have, as long as 17622 bytes of
    proof and 1.852222 milliseconds per extrinsic, and what the library's
    checks take, fit in the 3932160 bytes and 1.495 seconds left; that is 223
    calls when the checks take no proof and up to 4.8 milliseconds.  The weight
    that [touch] reports after its work is not above the one it was charged. *)
Theorem calls_fit_in_block `{EL : !ExtensionLib} (cs : list dispatch) :
  Forall (λ c, is_Some (call_weight c)) cs →
  Z.of_nat (length cs) * (17622 + checks_size) ≤ 3932160 →
  Z.of_nat (length cs) * (1852222000 + checks_time) ≤ 1495000000000 →
  all_lte (block_weight (omap call_weight cs)) normal_total ∧
  (∀ origin b q w n w' charged, touch origin b q w = (Ok n, w') →
     call_weight (Call_touch origin b q) = Some charged → all_lte (touch_actual_weight n) charged).
Proof.
  intros Hcs Hsize Htime. split.
  - destruct (block_weight_bounds cs Hcs) as [H1 H2].
    destruct normal_total_bounds as [H3 H4]. unfold all_lte. lia.
  - intros origin b q w n w' charged Hn%touch_counts Hc.
    assert (charged = OrderBookWeights.touch runtime_weights 3) as -> by (by injection Hc as <-).
    destruct (touch_weight n) as [H1 H2]; [lia|]. destruct (touch_weight 3) as [H3 H4]; [lia|].
    unfold all_lte, touch_actual_weight. lia.
Qed.

(** The runtime api: the metadata of a pair are those of its pool, if there
    is one; the query answers with the reserves and the price that the pallet
    itself uses for orders, and with nothing when it has no pool, no
    liquidity or no price. *)
Theorem pool_api_correct w base quote_asset :
  (∀ m, api_get_pool_metadata w base quote_asset = Ok (Some m) ↔
     ∃ id pool, pool_id base quote_asset = Some id ∧ Pools w !! id = Some pool ∧ m = to_pool_metadata pool) ∧
  (∀ x, api_get_pool_query w base quote_asset = Ok (Some x) ↔
     ∃ id pool b_r q_r price, pool_id base quote_asset = Some id ∧ Pools w !! id = Some pool ∧
       get_reserves w base quote_asset = Ok (b_r, q_r) ∧ pool_price pool b_r q_r = Ok price ∧
       x = to_pool_query pool b_r q_r price) ∧
  (api_get_pool_query w base quote_asset = Ok None ↔ ∃ e, get_pool_query w base quote_asset = Err e).
Proof.
  unfold api_get_pool_metadata, api_get_pool_query. split_and!.
  - intros m. rewrite result_ok_Some. unfold get_pool_metadata. split.
    + intros Hm. inv_run. by eexists _, _.
    + intros (id & pool & -> & Hp & ->). simpl. by rewrite Hp.
  - intros x. rewrite result_ok_Some. unfold get_pool_query. split.
    + intros Hx. inv_run. match goal with H : get_reserves _ _ _ = Ok ?p |- _ => destruct p end.
      inv_run. eexists _, _, _, _, _. split_and!; done.
    + intros (id & pool & b_r & q_r & price & -> & Hp & Hr & Hpr & ->). simpl.
      rewrite Hp. simpl. rewrite Hr. simpl. by rewrite Hpr.
  - apply result_ok_None.
Qed.
End Calls.

(** The fee of a weight is 8/1000 of its execution time in picoseconds,
    rounded to the nearest unit, whatever its proof size: an empty extrinsic
    costs a thousandth of a [MILLIUNIT], not the tenth that the comment
    names. *)
Theorem weight_fee_correct `{WL : WeightLib, HL : !WeightLaws, FL : !FeeLib, HF : !FeeLaws} :
  (∀ w, -500 ≤ 1000 * weight_to_fee polynomial w - 8 * ref_time w ≤ 500) ∧
  (∀ v w, ref_time v = ref_time w → weight_to_fee polynomial v = weight_to_fee polynomial w) ∧
  weight_to_fee polynomial ExtrinsicBaseWeight = MILLIUNIT / 1000 ∧
  weight_to_fee polynomial ExtrinsicBaseWeight ≠ MILLIUNIT / 10.
Proof.
  assert (weight_to_fee polynomial ExtrinsicBaseWeight = MILLIUNIT / 1000) as Hbase.
  { pose proof (fee_of_weight ExtrinsicBaseWeight) as Hf. rewrite base_ref_time in Hf.
    change (MILLIUNIT / 1000) with 1000000. lia. }
  split_and!; [apply fee_of_weight| |exact Hbase|rewrite Hbase; discriminate].
  intros v w Hvw. unfold polynomial. by rewrite !linear_fee, Hvw.
Qed.

Section Genesis.
Context `{T : Config, HF : !FungiblesLaws AccountId AssetKind Ledger,
  HP : !PoolFungiblesLaws AccountId AssetKind PoolAssetId Ledger,
  HC : !LedgerConserves AccountId AssetKind PoolAssetId Ledger,
  SL : !SpecLib AccountId, SF : !SpecFiles}.
Implicit Types w : World.

(** C28: The built-in specifications.  Their genesis patch is for the
    parachain of their extensions, endows twelve accounts, among them the
    root and every collator, with enough for the bond, and gives each
    collator session keys.  On a chain that starts with these native balances
    no account ever holds more than 12 * 2^60 units, less than 2^64, whatever
    calls of the pallet are dispatched. *)
Theorem genesis_correct spec c native w0 w :
  load_spec spec = Ok c → spec ∈ ["dev"; "template-rococo"; "local"; ""]%string →
  genesis_ok (para_id (extensions c)) 12 (ChainSpec.genesis c) ∧
  ((∀ who, balance (ledger w0) native who = endowment (ChainSpec.genesis c) who) →
   solvent (ledger w0) → reachable w0 w →
   ∀ who, 0 ≤ balance (ledger w) native who ≤ 12 * 2 ^ 60).
Proof.
  intros Hc Hs. pose proof (load_spec_genesis spec c Hc Hs) as Hok. split; [done|].
  intros Hl Hsol Hr who. pose proof (genesis_supply (ledger w0) native (ChainSpec.genesis c) Hl) as Hsup.
  destruct Hok as (_ & _ & Hn & _). rewrite Hn in Hsup.
  destruct (reachable_grows w0 w Hr Hsol) as [Hs' Hg]. destruct (Hg native _ Hsup) as (n' & Hn' & Hle).
  split; [apply Hs'|]. etrans; [by apply balance_le_supply|lia].
Qed.
End Genesis.

Section Node.
Context `{BuildProfile} {node : Node} {bb : BlockBuilder} {json : Json}.

(** C29: What a node starts.  Whichever calls of the library fail, it starts
    services and, after all of them, the consensus tasks exactly when it is a
    collator and nothing failed: first the server for subscribers, then the
    collator with the proposer for sub-blocks every 200 milliseconds and two
    seconds to author a block.  Without failures it starts.  A proposal of
    this proposer that takes no longer than the authoring duration announces
    at most eleven sub-blocks. *)
Theorem node_startup {E} (fails : Call → option E) config key hwbench r l
    (ready_laws : ReadyLaws) (clock_laws : ClockLaws) :
  start_parachain_node fails config key hwbench [] = (r, l) →
  (∃ k, Forall (λ x, is_consensus x = false) k ∧
     l = (k ++ match r with Ok _ => if is_authority config then consensus else [] | _ => [] end)%list) ∧
  ((∀ c, fails c = None) → (is_authority config = true → key = true) → r = Ok ()) ∧
  (∀ params f, Aura params ∈ l → f = aura_proposer params →
     ∀ h number paras other digest size_limit s n ps x s',
       factory_propose f h number paras other digest (authoring_duration params) size_limit s n ps (Ok x) s' →
       clock (ticks s') - clock (ticks s) ≤ authoring_duration params →
       Z.of_nat (length ps) ≤ 11).
Proof.
  intros Hrun. destruct (start_node_starts fails config key hwbench [] r l Hrun) as (k & Hk & Hl).
  split_and!; [by exists k| |].
  - intros Hf Hkey. pose proof (start_node_ok fails config key hwbench [] Hf Hkey) as Hok.
    rewrite Hrun in Hok. exact Hok.
  - intros params f Hin -> h number paras other digest size_limit s n ps x s' Hp Ht.
    assert (aura_proposer params = with_proof_recording 6000 200 ∧ authoring_duration params = 2000 * 10 ^ 6)
      as [Hf Hd].
    { rewrite Hl in Hin. simpl in Hin. apply elem_of_app in Hin as [Hin|Hin].
      - rewrite Forall_forall in Hk. by specialize (Hk _ Hin).
      - destruct r, (is_authority config); unfold consensus in Hin;
          rewrite ?elem_of_cons, ?elem_of_nil in Hin; naive_solver. }
    pose proof (factory_rate (aura_proposer params) h number paras other digest
      (authoring_duration params) size_limit s n ps x s') as Hb.
    rewrite Hf in Hb, Hp. specialize (Hb ltac:(simpl; lia) Hp). simpl in Hb. unfold from_millis in Hb. lia.
Qed.
End Node.

Section CommandLine.
Context {node : Node} {CL : CommandLib} {Account : Type} `{EqDecision Account, SL : SpecLib Account, SF : !SpecFiles} {E : Type}.

(** C31: What the command line runs.  A subcommand starts at most the parts of
    a node, never consensus.  Without one, a node is started exactly for the
    parachain of the chain specification's extensions (for a built-in
    specification, the one its genesis patch configures), with a relay chain
    configured for the chain they name, after which its services follow;
    without extensions or with wrong arguments for the relay chain nothing is
    started.  The hardware is benchmarked whenever there is a database path,
    even if benchmarks are disabled; then only its result is dropped. *)
Theorem command_line_correct (fails : Call → option E) create_configuration collator_key cli r l :
  run fails create_configuration collator_key cli [] = (r, l) →
  (∀ cmd, subcommand cli = Some cmd →
     (∀ id c h, StartNode id c h ∉ l) ∧ ∀ x, Commands.Service x ∈ l → is_consensus x = false) ∧
  (subcommand cli = None → ∀ config, create_runner None = Ok config →
     ∃ hw started, l = (hw ++ started)%list ∧
     (∀ p, GatherHwbench p ∈ hw ↔ database_path config = Some p) ∧
     ((started = [] ∧ r ≠ Ok ()) ∨
      ∃ e relay c h k r', chain_extensions config = Some e ∧
        started = StartNode (para_id e) c h :: (Commands.Service <$> k) ∧
        chain_id relay = Some (relay_chain e) ∧ create_configuration relay = Ok c ∧
        (h = true ↔ no_hardware_benchmarks cli = false ∧ is_Some (database_path config)) ∧
        start_parachain_node fails (service_config config) (collator_key c) h [] = (r', k) ∧
        (r = Ok () ↔ r' = Ok ()) ∧
        ∀ spec s, load_spec spec = Ok s → spec ∈ ["dev"; "template-rococo"; "local"; ""]%string →
          extensions s = e → para_id e = parachainId (ChainSpec.genesis s))).
Proof.
  intros Hrun. split.
  - intros cmd Hcmd.
    destruct (subcommand_harmless fails create_configuration collator_key cli cmd Hcmd [] r l Hrun) as (k & -> & Hk).
    rewrite Forall_forall in Hk. split; [intros id c h Hin|intros x Hin]; exact (Hk _ Hin).
  - intros Hnone config Hc. unfold run in Hrun. rewrite Hnone in Hrun.
    rewrite (run_node_spec fails create_configuration collator_key cli config Hc) in Hrun.
    set (hw := match database_path config with Some p => _ | None => _ end) in Hrun.
    assert (∀ p, GatherHwbench p ∈ hw ↔ database_path config = Some p) as Hhw.
    { intros p. unfold hw. destruct (database_path config); rewrite ?elem_of_cons, elem_of_nil; naive_solver. }
    destruct (chain_extensions config) as [e|] eqn:He;
      [|injection Hrun as <- <-; exists hw, []; rewrite app_nil_r; split_and!; [done..|by left]].
    destruct (parse_from _) as [relay|];
      [|injection Hrun as <- <-; exists hw, []; rewrite app_nil_r; split_and!; [done..|by left]].
    destruct (create_configuration _) as [c|err| |] eqn:Hcc;
      [|injection Hrun as <- <-; exists hw, []; rewrite app_nil_r; split_and!; [done..|by left]..].
    destruct (start_parachain_node _ _ _ _ _) as [r' k] eqn:Hstart. injection Hrun as <- <-.
    exists hw. eexists. split; [reflexivity|]. split; [done|]. right.
    eexists e, _, c, _, k, r'. split_and!; [done|done| |exact Hcc| |exact Hstart| |].
    + done.
    + rewrite andb_true_iff, negb_true_iff, bool_decide_eq_true. done.
    + destruct r' as [[]| | |]; naive_solver.
    + intros spec s Hs Hin <-. by destruct (load_spec_genesis spec s Hs Hin) as [<- _].
Qed.
End CommandLine.

(** ** Instances *)
Section Witnesses.
Import Chain Sample.

Lemma genesis_correct_witness :
  let l := ledger Genesis.later in
  (∀ who, 0 ≤ balance (AccountId:=AccountId (Config:=dev)) (AssetId:=AssetKind (Config:=dev))
     (Ledger:=Ledger (Config:=dev)) (Fungibles0:=Assets (Config:=dev)) (FungiblesLaws:=Bank.bank_laws) l 0 who
     ≤ 12 * 2 ^ 60) ∧
  Bank.bal l 0 0 = 2 ^ 60 - 10 ^ 9 ∧ Bank.bal l 0 11 = 2 ^ 60.
Proof.
  cbv zeta. split; [|split; vm_compute; reflexivity].
  assert ("dev"%string ∈ ["dev"; "template-rococo"; "local"; ""]%string) as Hin by (left).
  refine (proj2 (genesis_correct (T:=dev) (HF:=Bank.bank_laws) (HP:=Bank.bank_pool_laws) (HC:=bank_conserves)
    (SL:=Genesis.spec_lib) (SF:=Genesis.spec_files) "dev"%string Genesis.spec 0 Genesis.start Genesis.later
    Genesis.spec_loads Hin) _ _ Genesis.later_reachable).
  - exact Genesis.native_balances.
  - exact Genesis.native_solvent.
Defined.

(** A market order, a limit order and a cancellation. *)
Definition orders : list (dispatch (T:=dev)) := [
  Call_market_order (T:=dev) (Some alice) 1 2 300000 true;
  Call_limit_order (T:=dev) (Some bob) 1 2 false 4 30;
  Call_cancel_order (T:=dev) (Some bob) 1 2 4 start_ask_id 10].

(** Checks that take 10 microseconds and 1000 bytes each. *)
Definition sample_checks : ExtensionLib (WL:=U64.lib) :=
  let w := from_parts (WeightLib:=U64.lib) 10000000 1000 in
  {| CheckNonZeroSender := w; CheckSpecVersion := w; CheckTxVersion := w; CheckGenesis := w; CheckEra := w;
     CheckNonce := w; CheckWeight := w; CheckMetadataHash := w |}.

Lemma calls_fit_in_block_witness :
  all_lte (block_weight (WL:=U64.lib) (H:=sample_checks) (omap (call_weight (T:=dev)) orders)) (normal_total (H:=U64.lib)) ∧
  proof_size (block_weight (WL:=U64.lib) (H:=sample_checks) (omap (call_weight (T:=dev)) orders)) = 61668.
Proof.
  split; [|vm_compute; reflexivity].
  refine (proj1 (calls_fit_in_block (T:=dev) (WL:=U64.lib) (HL:=U64.laws) (EL:=sample_checks) orders _ _ _)).
  - repeat (apply Forall_cons; split; [eexists; reflexivity|]). apply Forall_nil. exact I.
  - vm_compute. discriminate.
  - vm_compute. discriminate.
Defined.

Lemma weight_fee_correct_witness : weight_to_fee (H:=U64.lib) (polynomial (H:=U64.lib)) (ExtrinsicBaseWeight (H:=U64.lib)) = 1000000.
Proof. exact (proj1 (proj2 (proj2 (weight_fee_correct (WL:=U64.lib) (HL:=U64.laws) (FL:=u64_fees) (HF:=u64_fee_laws))))). Defined.

(** A collator with an offchain worker, on which the relay chain fails. *)
Definition config : Configuration := mkConfiguration None None true true.

Lemma node_startup_witness :
  ∃ l, start_parachain_node (λ _, @None Z) config true false [] = (Ok (), l) ∧
    (∃ k, Forall (λ x, is_consensus x = false) k ∧ l = k ++ consensus)%list ∧ length l = 10%nat.
Proof.
  pose proof (run_result (start_parachain_node (λ _, @None Z) config true false) [] () eq_refl) as Hrun.
  eexists. split; [exact Hrun|]. split; [|vm_compute; reflexivity].
  exact (proj1 (node_startup (λ _, @None Z) config true false _ _ ready_laws clock_laws Hrun)).
Defined.

(** The chain and the path of the relay chain. *)
Abbreviation RelayConfig := (string * string)%type.

(** A full node with a database, started with benchmarks disabled: the
    hardware is benchmarked all the same. *)
Definition node_config : NodeConfiguration :=
  mkNodeConfiguration (mkConfiguration None None false false) (Some (extensions Genesis.spec)) (Some "db"%string) "/data"%string.

Definition command_lib : CommandLib := {|
  CommandError := Z; RelayRun := list string; RelayConfiguration := RelayConfig;
  executable_name := "warpx"; runtime_benchmarks := false;
  create_runner _ := Ok node_config; command_fails _ := None;
  parse_from args := Some args; parsed_chain_id _ _ := Ok ""%string; parsed_base_path _ := Ok None
|}.

Definition relay_config (c : RelayChainCli (H:=command_lib)) : outcome string RelayConfig :=
  Ok (default ""%string (chain_id c), default ""%string (base_path c)).

Definition rococo_local : RelayConfiguration (CommandLib:=command_lib) := ("rococo-local", "/data/polkadot")%string.

Lemma command_line_correct_witness :
  ∃ l, run (CL:=command_lib) (SL:=Genesis.spec_lib) (SF:=Genesis.spec_files) (λ _, @None Z) relay_config (λ _, false)
         (mkCli None true ["--chain"%string]) [] = (Ok (), l) ∧ l !! 2%nat = Some (StartNode 1000 rococo_local false) ∧
    ∃ hw started, l = (hw ++ started)%list ∧ ∀ p, GatherHwbench p ∈ hw ↔ Some "db"%string = Some p.
Proof.
  pose proof (run_result (run (CL:=command_lib) (SL:=Genesis.spec_lib) (SF:=Genesis.spec_files) (λ _, @None Z)
    relay_config (λ _, false) (mkCli None true ["--chain"%string])) [] () eq_refl) as Hrun.
  eexists. split; [exact Hrun|]. split; [vm_compute; reflexivity|].
  destruct (proj2 (command_line_correct (CL:=command_lib) (SL:=Genesis.spec_lib) (SF:=Genesis.spec_files) (λ _, @None Z)
    relay_config (λ _, false) (mkCli None true ["--chain"%string]) _ _ Hrun) eq_refl node_config eq_refl)
    as (hw & started & Hl & Hhw & _).
  exists hw, started. split; [exact Hl|exact Hhw].
Defined.
End Witnesses.
